(* ===== verification/_CoqProject ===== *)
-Q . S2P
Prelude.v
GoStrings.v
Events.v
Wire.v
Decoding.v
Sensor.v
SensorFacts.v
Triage.v
GoTime.v
Json.v
JsonFacts.v
GoIO.v
AppendLog.v
EventJson.v
Hunter.v
GoLog.v
PyJson.v
VerdictJson.v
BootTime.v
Strconv.v
Pipeline.v
Samples.v
Dashboard.v
DashboardFacts.v
AppendLogFacts.v
HunterFacts.v
ThreatHunter.v
Prompts.v
EndToEnd.v
Responder.v
PipelineFacts.v
KillAuthority.v
Ingest.v
IngestFacts.v
Broker.v
BrokerFacts.v
Accounting.v
Observability.v
Main.v
Loader.v
Flags.v
Scripts.v
Panels.v
Refinement.v
Crash.v
Shutdown.v
Temporal.v
LivenessFacts.v
Liveness.v
Stopping.v
