(* ===== verification/Prelude.v ===== *)
(** * Agentic eBPF cyber patrol: verification of the event broker

    The program watches [execve] from the kernel (a Rust eBPF sensor), hands
    each observation over a ring buffer to a Go broker, which logs it,
    decides by local heuristics whether it is suspicious, asks an AI hunter
    over HTTP about the suspicious ones and kills a process when the answer
    says so.  This library models the broker ([src/broker], all of its
    logic), the kernel program that feeds it ([src/sensor/cyber-patrol-ebpf]),
    the record they share ([src/sensor/cyber-patrol-common]), the Python
    service that answers the broker ([src/hunter]) and its privileged helper
    ([src/scripts/kill_pid.sh]), the loader that puts the sensor in place
    ([src/sensor/cyber-patrol-loader]), the dashboard
    ([src/scripts/dashboard.py]) and the scripts that start and stop it all
    ([src/scripts/run_all.sh], [stop_all.sh]).

    ** The files

    - [Prelude]: bytes, machine integers, Go's results ([Ok], [Err],
      [Panic]) and partial slice expressions.
    - [GoStrings] ([Module strings]): the functions of Go's [strings] the
      broker calls, white space included as Unicode defines it.
    - [Events] ([Module events]): [broker/internal/events/events.go].
      [Wire] ([Module wire]): the [repr(C)] layout and memory image of the
      sensor's [ExecEvent].  [Decoding]: what [Decode] guarantees.
      [BootTime] ([Module boottime]): [bootWallTime] of [events.go], from
      the text of [/proc/uptime] to the one anchor of all time stamps.
    - [Sensor] ([Module sensor]), [SensorFacts]: the kernel program over
      the BPF helpers, and the path from what it observes to the broker.
    - [Triage] ([Module triage]): [broker/internal/triage/triage.go].
    - [GoTime], [Json], [JsonFacts]: RFC 3339 times and [encoding/json],
      printer and parser, with the relation between a value and its texts
      that the parser is proved against.  [EventJson] ([Module eventjson]): an [Event] as
      JSON.
    - [GoIO]: files, [bufio.Writer] and [filepath.Dir].  [AppendLog],
      [AppendLogFacts]: [broker/internal/pipeline/appendlog.go].
    - [Hunter] ([Module hunter]), [HunterFacts]:
      [broker/internal/hunter/{client,respond,verdict}.go].
      [VerdictJson] ([Module verdictjson]): a response body as a [Verdict].
    - [GoLog] ([Module golog]): the line [evaluate] logs for a verdict, with
      [%q], [%.2f] and the logger's time stamp.  [Dashboard]
      ([Module dashboard]), [DashboardFacts]: how [scripts/dashboard.py]
      reads it back with a regular expression.  [Panels] ([Module panels]):
      the three panels it shows, from the log and from what it polls.
    - [Ingest] ([Module ingest]), [IngestFacts]:
      [broker/internal/ingest/ringbuf_reader.go] and [openWithRetry] of
      [broker/main.go].
    - [Pipeline] ([Module pipeline]), [PipelineFacts]:
      [broker/internal/pipeline/{pipeline,metrics}.go], the handlers as
      functions on the pipeline ([Pipeline]) and the world ([World]: files,
      requests made, processes).
    - [Broker] ([Module broker]), [BrokerFacts]: the threads of the running
      broker ([main.go], [Start], [worker], [replayLoop], [ingest]'s [Run])
      as a step relation, and its invariants.  [Refinement]: each handler
      is a sequence of its thread's steps.  [Accounting]: the abstract
      account of the suspicious events that the machine implements.
      [Shutdown]: stopping and
      starting again.  [Crash]: dying during a replay and starting again.
    - [Main] ([Module brokermain]): the flags with their defaults and [main]
      itself, [pipeline.New] and its failures included, as a transition system around the threads of [Broker].
      [Strconv] ([Module strconv]): Go's readers of integers and durations.
      [Flags] ([Module flags]): the command line, and [main] up to
      [pl.Start] as a function of it.
    - [Loader] ([Module loader]): [sensor/cyber-patrol-loader/src/main.rs]
      over an interface of [aya] and the kernel, and [sensor/xtask].
      [Scripts] ([Module scripts]): [run_all.sh] and [stop_all.sh].
    - [Observability] ([Module observability]): [serveObservability] of
      [broker/main.go] and [MetricsHandler], with the types of the state
      they publish.
    - [Temporal], [LivenessFacts], [Liveness]: weak and strong fairness of
      a relation's own steps and leads-to over infinite runs, the stages an event passes, and that every accepted
      event is evaluated in the end.  [Stopping]: that every thread stops
      after the signal.
    - [ThreatHunter] ([Module threathunter]):
      [hunter/{models,mitre,llm_engine,app}.py], from the model's message to
      the HTTP answer.  [PyJson] ([Module pyjson]): Python's [json.dumps].
      [Prompts] ([Module prompts]): the prompts of [llm_engine.py], the
      tool's schema and the request they form.  [EndToEnd]
      ([Module endtoend]): sensor, broker and prompt composed.
      [Responder] ([Module responder]):
      [hunter/responder.py] and [scripts/kill_pid.sh].  [KillAuthority]
      ([Module killauthority]): the broker and the service composed.
    - [Samples]: the concrete inputs of the examples.

    ** How the parts meet

    The log is proved against the interface [EventCodec] (what the log
    needs of the JSON coding); [EventJson.eventjson.json_codec] implements
    it.  [HandleRaw] calls [events.Decode], the audit log, [triage] and the
    queue or the overflow log; [evaluate] and [drainOverflow] call the
    hunter client, the overflow log and, [evaluate] only, [KillProcess].
    The step relation of [Broker] is built from the same operations, and
    [Main] from that relation.  [KillAuthority] puts the service at the
    other end of the client's network: the bodies the broker decodes are
    those the service renders.  [Prompts.prompts.call_model] is the model as
    the service calls it.  Both JSON printers, Go's and Python's, are proved
    readable through one relation, [JsonFacts.denotes].  The loader's
    default pin is the path of [brokermain.default_flags] and the file the
    dashboard takes for the sensor; the command lines of [run_all.sh] and
    [docker-compose.yml] are parsed by [Flags.flags.Parse], and the panels
    of the dashboard read what [observability.serve] sends.

    ** What the environment is

    System calls: any of them may fail; [faults] says which, by the number
    of calls made before, and how much of a failing write reached the file.
    The network: each attempt meets an arbitrary exchange (transport error,
    status, body, cancellation during the back-off).  The theorems about the
    client hold for any decoding of bodies into verdicts;
    [verdictjson.decode_verdict] is the one it uses.  [cilium/ebpf]: which
    of its calls succeed.  Processes: an arbitrary table
    that may change at any time, also between [KillProcess]'s check and its
    signal.  The BPF helpers: their documented behaviour ([helpers_ok]).
    The boot time: a parameter of [Decode], which [BootTime] computes from
    the file and the clock.  The language model: any message or exception,
    per request.  pydantic: the outcome of the declared constraints.
    FastAPI: some reading of requests, and a rendering of verdicts as JSON
    objects with their fields ([reads], [renders]).  sudo: runs the script, refuses
    with a message, is missing, or times out with or without the script's
    work done; [tr] and [kill] write anything when they fail.  Unicode:
    which code points beyond ASCII Go prints as they are
    ([print_beyond_ascii]) and Python takes for digits
    ([digit_beyond_ascii]).  The dashboard's and the scripts' surroundings:
    which files exist ([path_exists]), what a request is answered
    ([urlopen]), what Python makes of JSON values that are no integers, of
    [NaN] and of upper case beyond ASCII; the process table at each look,
    the builds, mount points and health probes.  aya: a class of operations on a kernel ([Aya])
    with what its documentation says of pins and attachments ([AyaLaws]).

    ** What the theorems show

    Decoding: [Decode] is total, inverts the sensor's layout, respects the
    bounds of every field; the layout of the Rust struct gives the Go
    offsets; what the kernel program saw is what the broker gets.  Triage:
    [IsSuspicious] is its five heuristics.  The log: [Append] writes a whole
    line with one write or leaves a dead log; [rotate] hands over what was
    written; what is logged is read back.  The client: attempts, back-off,
    outcome.  The response: exactly when a signal is sent, and that only a
    verdict received for that very event leads to one.  The pipeline: every
    event audited, every suspicious one queued, spilled or counted as lost,
    a replay pass in full.  The running broker, over all interleavings:
    conservation of suspicious events, nothing lost when no system call
    fails, spilled events on disk, counters and queue within their types,
    the reader never blocked, no deadlock, every accepted event evaluated in
    the end when the broker is not told to stop, its threads are scheduled
    fairly and the hunter comes back, every thread stopped in the end after
    the signal, and the next start accounting for what was spilled; every execution is one of
    an abstract account in which an event is accepted, delivered, reported
    lost or, where system calls fail, gone; [main] is
    an execution of that machine once [New] has succeeded, and out before, and [/metrics] reads back as its state.
    Time: one anchor for all time stamps, a bound on an evaluation.  The
    service: its verdicts respect the technique list, the range of the
    confidence and the limits on a kill whatever the model does; its
    responder kills at most the process asked for, in the cases in which the
    broker's does; and, composed with the broker, no process dies without
    the model's own critical answer above the floor; the user prompt says
    what the event says, whatever strings the process chose, bytes that are
    not UTF-8 replaced, and the event is what the kernel saw.  The loader: which calls it makes however it ends; and, over a
    kernel that keeps pins, the map is pinned where the broker looks.  The
    dashboard: one row per verdict, as logged, and every counter of the
    broker as it is.  The command line: a configuration written in any of
    the accepted styles is the one the broker runs with, and one it refuses
    leaves no trace.  The scripts: which processes are signalled, what is
    started and when, what the end reports.  And where the code
    falls short of its intention: the queue at shutdown, a failed open and a
    crash during a replay, a failed write, the comm check against a process
    that changed its name at [execve], a comm that is not UTF-8, the
    [truncated] flag, the time a host was suspended, a confidence that is
    not a number, a verdict whose row in the dashboard the process chose, a
    sensor shown as up when it has stopped, a negative queue size.

    ** Bounds and fuel

    [BufWrite]'s loop gets two turns, enough for any buffer and input (its
    outcome is characterised for all); [drain_loop] gets the length of the
    file, and every decoded event consumes a byte ([next_shorter]), so that
    the pass is complete ([drainOverflow_refines]); the JSON parser gets
    twice the length of its text, enough for every text of a value
    ([all_read]).  The retry loop runs on the number of attempts left.

    ** What is not modelled

    The HTTP servers, request routing beyond exact paths and the service's
    environment variables; log messages other than the verdict line;
    directories, permissions and read errors after a successful open; the
    service's own health check; the loader's build script; what [rich]
    draws of the dashboard's texts, its fixed header and footer and its
    refresh loop; the banner and the pre-flight check, which only print.
    A step of the machine is atomic: the logs' mutex and the channel make
    the operations so, and increments of counters ride along with the step
    they accompany. *)
From Stdlib Require Import ZArith Lia.
From Stdlib Require Import Strings.Byte Strings.String.
From stdpp Require Import base countable list gmap.
#[local] Open Scope Z_scope.

(** ** Bytes and Go strings

    A Go string is an arbitrary sequence of bytes, so it is a list of
    bytes here, not a list of characters. *)

Abbreviation gostring := (list byte).

(** A literal of the source, as the bytes Go stores. *)
Definition bs (s : string) : gostring := list_byte_of_string s.

Definition byte_val (b : byte) : Z := Z.of_N (Byte.to_N b).

Definition byte_of (z : Z) : byte :=
  match Byte.of_N (Z.to_N (z mod 256)) with
  | Some b => b
  | None => x00
  end.

#[export] Instance byte_eq_decision : EqDecision byte := byte_eq_dec.

#[export] Instance byte_countable : Countable byte.
Proof.
  refine (inj_countable Byte.to_N Byte.of_N _).
  intros b. apply Byte.of_to_N.
Defined.

Lemma byte_val_bound b : 0 <= byte_val b < 256.
Proof. unfold byte_val. pose proof (Byte.to_N_bounded b). lia. Qed.

Lemma byte_val_of z : byte_val (byte_of z) = z mod 256.
Proof.
  unfold byte_of, byte_val.
  pose proof (Z.mod_pos_bound z 256 ltac:(lia)).
  destruct (Byte.of_N (Z.to_N (z mod 256))) as [b|] eqn:E.
  - apply Byte.to_of_N in E. lia.
  - apply Byte.of_N_None_iff in E. lia.
Qed.

Lemma byte_of_val b : byte_of (byte_val b) = b.
Proof.
  unfold byte_of. pose proof (byte_val_bound b).
  rewrite Z.mod_small by done. unfold byte_val. rewrite N2Z.id.
  by rewrite Byte.of_to_N.
Qed.

Lemma byte_val_inj b c : byte_val b = byte_val c -> b = c.
Proof. intros E. by rewrite <- (byte_of_val b), E, byte_of_val. Qed.

(** ** Machine integers

    A [w]-bit unsigned value is a [Z] in [0, 2^w); the wrap-around of the
    conversions and of signed arithmetic is written out. *)

Definition wrapU (w z : Z) : Z := z mod 2 ^ w.

Definition wrapI (w z : Z) : Z := (z + 2 ^ (w - 1)) mod 2 ^ w - 2 ^ (w - 1).

Definition is_u (w z : Z) : Prop := 0 <= z < 2 ^ w.

#[export] Instance is_u_decision w z : Decision (is_u w z).
Proof. unfold is_u. apply _. Defined.

Lemma wrapU_is_u w z : 0 <= w -> is_u w (wrapU w z).
Proof. intros. apply Z.mod_pos_bound. by apply Z.pow_pos_nonneg. Qed.

Lemma wrapU_id w z : is_u w z -> wrapU w z = z.
Proof. intros. by apply Z.mod_small. Qed.

Lemma wrapI_id w z :
  0 < w -> - 2 ^ (w - 1) <= z < 2 ^ (w - 1) -> wrapI w z = z.
Proof.
  intros Hw Hz. unfold wrapI.
  assert (2 ^ w = 2 * 2 ^ (w - 1)) as E.
  { replace w with (Z.succ (w - 1)) at 1 by lia. rewrite Z.pow_succ_r; lia. }
  rewrite Z.mod_small; lia.
Qed.

Lemma wrapI_range w z : 0 < w -> - 2 ^ (w - 1) <= wrapI w z < 2 ^ (w - 1).
Proof.
  intros Hw. unfold wrapI.
  assert (2 ^ w = 2 * 2 ^ (w - 1)) as E.
  { replace w with (Z.succ (w - 1)) at 1 by lia. rewrite Z.pow_succ_r; lia. }
  assert (0 < 2 ^ (w - 1)) by (apply Z.pow_pos_nonneg; lia).
  pose proof (Z.mod_pos_bound (z + 2 ^ (w - 1)) (2 ^ w) ltac:(lia)). lia.
Qed.

(** ** Little-endian words *)

Fixpoint le_val (l : list byte) : Z :=
  match l with
  | [] => 0
  | b :: l' => byte_val b + 256 * le_val l'
  end.

Fixpoint le_bytes (n : nat) (z : Z) : list byte :=
  match n with
  | O => []
  | S n' => byte_of z :: le_bytes n' (z / 256)
  end.

Lemma length_le_bytes n z : length (le_bytes n z) = n.
Proof. revert z. induction n; intros; simpl; auto. Qed.

Lemma le_val_le_bytes n z : le_val (le_bytes n z) = z mod 256 ^ Z.of_nat n.
Proof.
  revert z. induction n as [|n IH]; intros z; simpl le_bytes; simpl le_val.
  - by rewrite Z.mod_1_r.
  - rewrite IH, byte_val_of, Nat2Z.inj_succ, Z.pow_succ_r by lia.
    assert (0 < 256 ^ Z.of_nat n) by (apply Z.pow_pos_nonneg; lia).
    rewrite Z.rem_mul_r by lia. lia.
Qed.

Lemma le_val_bound l : 0 <= le_val l < 256 ^ Z.of_nat (length l).
Proof.
  induction l as [|b l IH]; [simpl; lia|].
  simpl le_val. change (length (b :: l)) with (S (length l)).
  rewrite Nat2Z.inj_succ, Z.pow_succ_r by lia.
  pose proof (byte_val_bound b). lia.
Qed.

(** Bytes of width [8 * n] bits: the form the decoder reads. *)
Lemma le_val_is_u l w : w = 8 * Z.of_nat (length l) -> is_u w (le_val l).
Proof.
  intros ->. unfold is_u. pose proof (le_val_bound l) as H.
  by replace (2 ^ (8 * Z.of_nat (length l)))
    with (256 ^ Z.of_nat (length l)) by (rewrite Z.pow_mul_r; [done|lia|lia]).
Qed.

Lemma le_val_le_bytes_id n w z :
  w = 8 * Z.of_nat n -> is_u w z -> le_val (le_bytes n z) = z.
Proof.
  intros -> Hz. rewrite le_val_le_bytes. apply Z.mod_small.
  unfold is_u in Hz.
  by replace (256 ^ Z.of_nat n)
    with (2 ^ (8 * Z.of_nat n)) by (rewrite Z.pow_mul_r; [done|lia|lia]).
Qed.

(** ** Outcomes of Go code

    [Ok v] is a normal return with a nil error, [Err e] a return with a
    non-nil error, [Panic] a run-time panic (an index or slice expression
    out of range). *)

Inductive go_result (E A : Type) : Type :=
  | Ok (a : A)
  | Err (e : E)
  | Panic.
Arguments Ok {E A} a.
Arguments Err {E A} e.
Arguments Panic {E A}.

Definition go_bind {E A B} (m : go_result E A) (k : A -> go_result E B)
  : go_result E B :=
  match m with
  | Ok a => k a
  | Err e => Err e
  | Panic => Panic
  end.

Declare Scope go_scope.
Delimit Scope go_scope with go.
Notation "x <-- m ;;; k" := (go_bind m (fun x => k))
  (at level 100, m at next level, right associativity) : go_scope.
#[export] Instance go_result_eq_decision {E A} `{EqDecision E, EqDecision A} :
  EqDecision (go_result E A).
Proof. solve_decision. Defined.

Definition is_ok {E A} (r : go_result E A) : bool :=
  match r with Ok _ => true | _ => false end.

Lemma go_bind_ok {E A B} (m : go_result E A) (k : A -> go_result E B) b :
  go_bind m k = Ok b <-> exists a, m = Ok a /\ k a = Ok b.
Proof. destruct m; simpl; naive_solver. Qed.

Lemma go_bind_assoc {E A B C} (m : go_result E A)
    (f : A -> go_result E B) (g : B -> go_result E C) :
  go_bind (go_bind m f) g = go_bind m (fun a => go_bind (f a) g).
Proof. by destruct m. Qed.

(** ** Loops that look for an element *)

Lemma exists_elem_nil {A} (P : A -> Prop) : (exists x, x ∈ [] /\ P x) <-> False.
Proof. split; [intros (x & []%not_elem_of_nil & _)|done]. Qed.

Lemma exists_elem_cons {A} (P : A -> Prop) y l :
  (exists x, x ∈ y :: l /\ P x) <-> P y \/ exists x, x ∈ l /\ P x.
Proof.
  split.
  - intros (x & [->|Hx]%elem_of_cons & Px); eauto.
  - intros [Py|(x & Hx & Px)]; [exists y|exists x]; (split; [|done]); [by left|by right].
Qed.

Lemma not_elem_singleton {A} (x y : A) : x <> y -> x ∉ [y].
Proof. intros H. apply not_elem_of_cons. split; [done|apply not_elem_of_nil]. Qed.

(** ** Slice and index expressions *)

Section slices.
Context {E : Type}.

(** [b[lo:hi]]: panics unless [0 <= lo <= hi <= len b]. *)
Definition slice {A} (b : list A) (lo hi : Z) : go_result E (list A) :=
  if bool_decide (0 <= lo /\ lo <= hi /\ hi <= Z.of_nat (length b))
  then Ok (take (Z.to_nat (hi - lo)) (drop (Z.to_nat lo) b))
  else Panic.

(** [b[i]]: panics unless [0 <= i < len b]. *)
Definition index {A} (b : list A) (i : Z) : go_result E A :=
  if bool_decide (0 <= i) then
    match b !! Z.to_nat i with
    | Some x => Ok x
    | None => Panic
    end
  else Panic.

Lemma slice_ok {A} (b : list A) lo hi :
  0 <= lo -> lo <= hi -> hi <= Z.of_nat (length b) ->
  slice b lo hi = Ok (take (Z.to_nat (hi - lo)) (drop (Z.to_nat lo) b)).
Proof. intros. unfold slice. by rewrite bool_decide_true. Qed.

Lemma slice_inv {A} (b : list A) lo hi s :
  slice b lo hi = Ok s ->
  0 <= lo /\ lo <= hi /\ hi <= Z.of_nat (length b) /\
  s = take (Z.to_nat (hi - lo)) (drop (Z.to_nat lo) b).
Proof.
  unfold slice. case_bool_decide as Hb; [|done]. intros [= <-]. tauto.
Qed.

Lemma slice_length {A} (b : list A) lo hi s :
  slice b lo hi = Ok s -> Z.of_nat (length s) = hi - lo.
Proof.
  intros (?&?&?&->)%slice_inv. rewrite length_take, length_drop. lia.
Qed.

Lemma slice_prefix {A} (b : list A) n :
  0 <= n <= Z.of_nat (length b) -> slice b 0 n = Ok (take (Z.to_nat n) b).
Proof. intros. rewrite slice_ok by lia. by rewrite Z.sub_0_r. Qed.

Lemma slice_app_l {A} (b c : list A) lo hi :
  hi <= Z.of_nat (length b) -> slice (b ++ c) lo hi = slice b lo hi.
Proof.
  intros Hhi. unfold slice. rewrite length_app.
  destruct (decide (0 <= lo /\ lo <= hi)) as [[H1 H2]|Hn].
  - rewrite !bool_decide_true by lia. f_equal.
    rewrite drop_app_le by lia. rewrite take_app_le; [done|].
    rewrite length_drop. lia.
  - rewrite !bool_decide_false by lia. done.
Qed.

Lemma index_ok {A} (b : list A) i x :
  0 <= i -> b !! Z.to_nat i = Some x -> index b i = Ok x.
Proof. intros H E'. unfold index. rewrite bool_decide_true by done. by rewrite E'. Qed.

Lemma index_app_l {A} (b c : list A) i :
  i < Z.of_nat (length b) -> index (b ++ c) i = index b i.
Proof.
  intros. unfold index. case_bool_decide; [|done].
  by rewrite lookup_app_l by lia.
Qed.

Lemma index_in_range {A} (b : list A) i :
  0 <= i < Z.of_nat (length b) -> exists x, index b i = Ok x.
Proof.
  intros Hi. destruct (lookup_lt_is_Some_2 b (Z.to_nat i)) as [x Hx]; [lia|].
  exists x. apply index_ok; [lia|done].
Qed.
End slices.

#[global] Arguments le_bytes : simpl never.
#[global] Arguments le_val : simpl never.
