(* ===== verification/GoStrings.v ===== *)
(** * The functions of Go's [strings] package the broker calls

    Executable definitions of the package's documented behaviour on byte
    strings, for the calls in [events.go], [triage.go] and [respond.go],
    and the lemmas the client files use.  [TrimSpace] follows the package:
    it removes the UTF-8 encodings of every Unicode white-space character,
    not only the ASCII ones. *)
From Stdlib Require Import ZArith Lia.
From Stdlib Require Import Strings.Byte.
From stdpp Require Import base list.
From S2P Require Import Prelude.
#[local] Open Scope Z_scope.

Module strings.

(** ** Prefixes and substrings *)

Fixpoint HasPrefix (s p : gostring) {struct p} : bool :=
  match p, s with
  | [], _ => true
  | c :: p', d :: s' => bool_decide (c = d) && HasPrefix s' p'
  | _ :: _, [] => false
  end.

Fixpoint Contains (s sub : gostring) : bool :=
  HasPrefix s sub ||
  match s with
  | [] => false
  | _ :: s' => Contains s' sub
  end.

(** Index of the last occurrence of [sub], or -1. *)
Fixpoint LastIndex (s sub : gostring) : Z :=
  match s with
  | [] => if HasPrefix s sub then 0 else -1
  | _ :: s' =>
      let i := LastIndex s' sub in
      if 0 <=? i then i + 1
      else if HasPrefix s sub then 0 else -1
  end.

(** [strings.Split] for a separator of one byte. *)
Fixpoint Split (s : gostring) (sep : byte) : list gostring :=
  match s with
  | [] => [[]]
  | c :: s' =>
      if decide (c = sep) then [] :: Split s' sep
      else match Split s' sep with
           | [] => [[c]]
           | p :: ps => (c :: p) :: ps
           end
  end.

Fixpoint Join (elems : list gostring) (sep : gostring) : gostring :=
  match elems with
  | [] => []
  | [e] => e
  | e :: es => e ++ sep ++ Join es sep
  end.

(** ** White space *)

(** The three shapes of an encoded white-space rune: one byte (U+0009 to
    U+000D and U+0020), two (U+0085, U+00A0), three (U+1680, U+2000 to
    U+200A, U+2028, U+2029, U+202F, U+205F, U+3000). *)
Definition space1 (c : byte) : bool :=
  match c with
  | x09 | x0a | x0b | x0c | x0d | x20 => true
  | _ => false
  end.

Definition space2 (c d : byte) : bool :=
  match c, d with
  | xc2, x85 | xc2, xa0 => true
  | _, _ => false
  end.

Definition space3 (c d e : byte) : bool :=
  match c, d, e with
  | xe1, x9a, x80 => true
  | xe2, x80, x80 | xe2, x80, x81 | xe2, x80, x82 | xe2, x80, x83
  | xe2, x80, x84 | xe2, x80, x85 | xe2, x80, x86 | xe2, x80, x87
  | xe2, x80, x88 | xe2, x80, x89 | xe2, x80, x8a => true
  | xe2, x80, xa8 | xe2, x80, xa9 | xe2, x80, xaf => true
  | xe2, x81, x9f => true
  | xe3, x80, x80 => true
  | _, _, _ => false
  end.

(** Removes the runes of the three shapes from the front; the right-hand
    trim runs the same loop on the reversed string with the shapes
    reversed. *)
Fixpoint trim_with (sp2 : byte -> byte -> bool) (sp3 : byte -> byte -> byte -> bool)
    (s : gostring) : gostring :=
  match s with
  | [] => []
  | c :: s1 =>
      if space1 c then trim_with sp2 sp3 s1
      else match s1 with
           | [] => s
           | d :: s2 =>
               if sp2 c d then trim_with sp2 sp3 s2
               else match s2 with
                    | [] => s
                    | e :: s3 => if sp3 c d e then trim_with sp2 sp3 s3 else s
                    end
           end
  end.

Definition TrimLeftSpace (s : gostring) : gostring := trim_with space2 space3 s.

Definition rspace2 (c d : byte) : bool := space2 d c.
Definition rspace3 (c d e : byte) : bool := space3 e d c.

Definition TrimRightSpace (s : gostring) : gostring :=
  rev (trim_with rspace2 rspace3 (rev s)).

Definition TrimSpace (s : gostring) : gostring := TrimRightSpace (TrimLeftSpace s).

(** ** Lemmas *)

Lemma HasPrefix_spec s p : HasPrefix s p = true <-> exists r, s = p ++ r.
Proof.
  revert s. induction p as [|c p IH]; intros s; simpl.
  - split; [by exists s|done].
  - destruct s as [|d s]; [split; [done|intros [r [=]]]|].
    rewrite andb_true_iff, bool_decide_eq_true, IH.
    split; [intros [-> [r ->]]; by exists r|].
    intros [r [= -> ->]]. eauto.
Qed.

Lemma Contains_spec s sub :
  Contains s sub = true <-> exists a b, s = a ++ sub ++ b.
Proof.
  induction s as [|c s IH].
  - simpl. rewrite orb_false_r, HasPrefix_spec. split.
    + intros [r E]. by exists [], r.
    + intros (a & b & E). symmetry in E.
      apply app_nil in E as [_ [-> ->]%app_nil]. by exists [].
  - change (HasPrefix (c :: s) sub || Contains s sub = true <->
      exists a b, c :: s = a ++ sub ++ b).
    rewrite orb_true_iff, HasPrefix_spec, IH. split.
    + intros [[r E]|(a & b & ->)]; [by exists [], r|by exists (c :: a), b].
    + intros ([|a0 a] & b & E); simpl in E.
      * left. eauto.
      * right. injection E as -> ->. eauto.
Qed.

Lemma LastIndex_range s sub : -1 <= LastIndex s sub <= Z.of_nat (length s).
Proof.
  induction s as [|c s IH].
  - simpl. destruct (HasPrefix [] sub); lia.
  - change (LastIndex (c :: s) sub) with
      (if 0 <=? LastIndex s sub then LastIndex s sub + 1
       else if HasPrefix (c :: s) sub then 0 else -1).
    rewrite length_cons.
    destruct (Z.leb_spec 0 (LastIndex s sub)); [lia|].
    destruct (HasPrefix (c :: s) sub); lia.
Qed.

(** For a one-byte needle the result is the position of its last
    occurrence: what follows it does not contain the byte. *)
Lemma LastIndex_byte s c :
  (LastIndex s [c] = -1 /\ c ∉ s) \/
  (exists a b, s = a ++ c :: b /\ (c ∉ b) /\ LastIndex s [c] = Z.of_nat (length a)).
Proof.
  induction s as [|d s IH].
  - left. split; [done|apply not_elem_of_nil].
  - change (LastIndex (d :: s) [c]) with
      (if 0 <=? LastIndex s [c] then LastIndex s [c] + 1
       else if HasPrefix (d :: s) [c] then 0 else -1).
    destruct IH as [[E Hn]|(a & b & -> & Hb & E)]; rewrite E.
    + simpl. rewrite andb_true_r. case_bool_decide as Hc; [subst d|].
      * right. exists [], s. auto.
      * left. split; [done|]. by apply not_elem_of_cons.
    + right. exists (d :: a), b. rewrite length_cons.
      destruct (Z.leb_spec 0 (Z.of_nat (length a))); [|lia].
      repeat split; [done|lia].
Qed.

Lemma Split_not_nil s sep : Split s sep <> [].
Proof. destruct s; simpl; [done|]. case_decide; [done|]. by destruct (Split s sep). Qed.

Lemma Join_cons e es sep : es <> [] -> Join (e :: es) sep = e ++ sep ++ Join es sep.
Proof. by destruct es. Qed.

(** Splitting loses nothing: joining the parts gives the string back. *)
Lemma Join_Split s sep : Join (Split s sep) [sep] = s.
Proof.
  induction s as [|c s IH]; [done|]. simpl Split.
  pose proof (Split_not_nil s sep) as Hne.
  case_decide as Hc.
  - subst. rewrite Join_cons by done. by rewrite IH.
  - destruct (Split s sep) as [|p [|q ps]]; [done| |]; simpl in *; by rewrite <- IH.
Qed.

Lemma Split_no_sep s sep p : p ∈ Split s sep -> sep ∉ p.
Proof.
  revert p. induction s as [|c s IH]; intros p; simpl.
  - intros ->%list_elem_of_singleton. apply not_elem_of_nil.
  - case_decide as Hc.
    + intros [->|Hp]%elem_of_cons; [apply not_elem_of_nil|by apply IH].
    + destruct (Split s sep) as [|q qs] eqn:E.
      * intros ->%list_elem_of_singleton. apply not_elem_of_cons.
        split; [done|apply not_elem_of_nil].
      * intros [->|Hp]%elem_of_cons; [|apply IH; by right].
        apply not_elem_of_cons. split; [done|]. apply IH. by left.
Qed.

Lemma Split_app s t sep : Split (s ++ sep :: t) sep = Split s sep ++ Split t sep.
Proof.
  induction s as [|c s IH]; simpl; [by rewrite decide_True|].
  rewrite IH. case_decide; [done|].
  pose proof (Split_not_nil s sep). by destruct (Split s sep).
Qed.

Lemma Split_none s sep : sep ∉ s -> Split s sep = [s].
Proof.
  induction s as [|c s IH]; simpl; [done|]. intros [Hc Hs]%not_elem_of_cons.
  rewrite decide_False by congruence. by rewrite IH.
Qed.

Lemma Join_app l1 l2 sep :
  l1 <> [] -> l2 <> [] -> Join (l1 ++ l2) sep = Join l1 sep ++ sep ++ Join l2 sep.
Proof.
  intros H1 H2. induction l1 as [|e l1 IH]; [done|].
  destruct l1 as [|e' l1]; [by apply Join_cons|].
  change ((e :: e' :: l1) ++ l2) with (e :: ((e' :: l1) ++ l2)).
  rewrite !Join_cons by done. rewrite IH by done. by rewrite !app_assoc.
Qed.

(** The parts are exactly the maximal stretches without separator. *)
Lemma elem_of_Split s sep p :
  p ∈ Split s sep <->
  (sep ∉ p) /\ exists pre post, s = pre ++ p ++ post /\
    (pre = [] \/ exists q, pre = q ++ [sep]) /\ (post = [] \/ exists q, post = sep :: q).
Proof.
  split.
  - intros Hp. split; [by eapply Split_no_sep|].
    apply list_elem_of_split in Hp as (l1 & l2 & E).
    exists (if decide (l1 = []) then [] else Join l1 [sep] ++ [sep]),
      (if decide (l2 = []) then [] else sep :: Join l2 [sep]).
    split; [|split; case_decide; eauto].
    rewrite <- (Join_Split s sep) at 1. rewrite E.
    assert (Join (p :: l2) [sep] = p ++ (if decide (l2 = []) then [] else sep :: Join l2 [sep])) as <-.
    { case_decide; [subst; by rewrite app_nil_r|by apply Join_cons]. }
    case_decide; [by subst|]. by rewrite Join_app, app_assoc.
  - intros (Hp & pre & post & -> & Hpre & Hpost).
    assert (p ∈ Split (p ++ post) sep).
    { destruct Hpost as [->|[q ->]].
      - rewrite app_nil_r, Split_none by done. by left.
      - rewrite Split_app, Split_none by done. by left. }
    destruct Hpre as [->|[q ->]]; [done|].
    rewrite <- app_assoc. simpl. rewrite Split_app. apply elem_of_app. by right.
Qed.

(** *** Trimming *)

(** Does the string begin with a white-space rune of the given shapes? *)
Definition starts_space (sp2 : byte -> byte -> bool)
    (sp3 : byte -> byte -> byte -> bool) (s : gostring) : bool :=
  match s with
  | [] => false
  | c :: s1 =>
      space1 c ||
      match s1 with
      | [] => false
      | d :: s2 =>
          sp2 c d ||
          match s2 with
          | [] => false
          | e :: _ => sp3 c d e
          end
      end
  end.

Section trim.
Context (sp2 : byte -> byte -> bool) (sp3 : byte -> byte -> byte -> bool).
#[local] Abbreviation trim := (trim_with sp2 sp3).
#[local] Abbreviation starts := (starts_space sp2 sp3).

(** One turn of the loop: either nothing is removed, or one rune of one,
    two or three bytes is, whatever follows it. *)
Lemma trim_turn s :
  (starts s = false /\ trim s = s) \/
  (exists w t, s = w ++ t /\ w <> [] /\ starts s = true /\
               forall z, trim (s ++ z) = trim (t ++ z)).
Proof.
  destruct s as [|c s1]; [by left|]. simpl.
  destruct (space1 c) eqn:E1; [right; by exists [c], s1|].
  destruct s1 as [|d s2]; [by left|]. simpl.
  destruct (sp2 c d) eqn:E2; [right; by exists [c; d], s2|].
  destruct s2 as [|e s3]; [by left|]. simpl.
  destruct (sp3 c d e) eqn:E3; [right; by exists [c; d; e], s3|by left].
Qed.

Lemma trim_ind (P : gostring -> Prop) :
  (forall s, starts s = false -> trim s = s -> P s) ->
  (forall w t, trim (w ++ t) = trim t ->
     (forall z, trim ((w ++ t) ++ z) = trim (t ++ z)) -> P t -> P (w ++ t)) ->
  forall s, P s.
Proof.
  intros Hstop Hturn s. induction s as [s IH] using (induction_ltof1 _ (@length byte)).
  destruct (trim_turn s) as [[Hs Ht]|(w & t & -> & Hw & _ & Ht)]; [by apply Hstop|].
  apply Hturn; [|done|].
  - specialize (Ht []). by rewrite !app_nil_r in Ht.
  - apply IH. unfold ltof. rewrite length_app. destruct w; simpl; [done|lia].
Qed.

Lemma trim_stops s : starts (trim s) = false.
Proof. induction s as [s Hs Ht|w t Ht _ IH] using trim_ind; by rewrite Ht. Qed.

Lemma trim_id s : starts s = false -> trim s = s.
Proof. intros Hs. destruct (trim_turn s) as [[]|(?&?&?&?&?&?)]; congruence. Qed.

Lemma trim_suffix s : exists l, s = l ++ trim s.
Proof.
  induction s as [s _ Ht|w t Ht _ [l IH]] using trim_ind; rewrite Ht.
  - by exists [].
  - exists (w ++ l). by rewrite <- app_assoc, <- IH.
Qed.

Lemma starts_app s t : starts s = true -> starts (s ++ t) = true.
Proof.
  destruct s as [|c [|d [|e s]]]; simpl; rewrite ?orb_false_r; [done|..].
  - by intros ->.
  - by intros [-> | ->]%orb_true_iff; rewrite ?orb_true_r.
  - done.
Qed.

(** A white-space byte that completes no longer rune leaves the trimming
    of what precedes it unchanged. *)
Lemma trim_snoc s b :
  space1 b = true ->
  (forall c, sp2 c b = false) -> (forall c d, sp3 c d b = false) ->
  trim (s ++ [b]) = if decide (trim s = []) then [] else trim s ++ [b].
Proof.
  intros Hb H2 H3. induction s as [s Hs Ht|w t Ht Hz IH] using trim_ind.
  - rewrite Ht. case_decide as Hn; [subst; simpl; by rewrite Hb|].
    apply trim_id. destruct s as [|c [|d [|e s]]]; simpl in *; [done|..];
      rewrite ?H2, ?H3, ?orb_false_r in *; done.
  - by rewrite Ht, Hz, IH.
Qed.
End trim.

Definition leads_space (s : gostring) : bool := starts_space space2 space3 s.
Definition ends_space (s : gostring) : bool := starts_space rspace2 rspace3 (rev s).

Lemma TrimRightSpace_prefix s : exists r, s = TrimRightSpace s ++ r.
Proof.
  unfold TrimRightSpace. destruct (trim_suffix rspace2 rspace3 (rev s)) as [l E].
  exists (rev l). rewrite <- rev_app_distr, <- E. by rewrite rev_involutive.
Qed.

(** A string with no white space at either end is left alone. *)
Lemma TrimSpace_id s :
  leads_space s = false -> ends_space s = false -> TrimSpace s = s.
Proof.
  intros Hl Hr. unfold TrimSpace, TrimLeftSpace, TrimRightSpace.
  rewrite (trim_id _ _ s) by done. rewrite trim_id by done. apply rev_involutive.
Qed.

Lemma leads_TrimSpace s : leads_space (TrimSpace s) = false.
Proof.
  unfold leads_space, TrimSpace, TrimLeftSpace.
  pose proof (trim_stops space2 space3 s) as H. set (t := trim_with _ _ s) in *.
  destruct (TrimRightSpace_prefix t) as [r E].
  destruct (starts_space _ _ (TrimRightSpace t)) eqn:Hs; [|done].
  apply (starts_app _ _ _ r) in Hs. rewrite <- E in Hs. congruence.
Qed.

Lemma ends_TrimSpace s : ends_space (TrimSpace s) = false.
Proof.
  unfold ends_space, TrimSpace, TrimRightSpace. rewrite rev_involutive. apply trim_stops.
Qed.

Lemma TrimSpace_idem s : TrimSpace (TrimSpace s) = TrimSpace s.
Proof. apply TrimSpace_id; [apply leads_TrimSpace|apply ends_TrimSpace]. Qed.

Lemma TrimSpace_infix s : exists l r, s = l ++ TrimSpace s ++ r.
Proof.
  destruct (trim_suffix space2 space3 s) as [l E].
  destruct (TrimRightSpace_prefix (TrimLeftSpace s)) as [r E'].
  exists l, r. unfold TrimSpace. rewrite <- E'. done.
Qed.

(** The newline the kernel puts after a [comm] is white space to Go. *)
Lemma TrimSpace_newline s : TrimSpace (s ++ [x0a]) = TrimSpace s.
Proof.
  unfold TrimSpace, TrimLeftSpace.
  rewrite trim_snoc; [|done|by intros []|by intros c d; destruct c; try done; destruct d].
  case_decide as H; [by rewrite H|].
  unfold TrimRightSpace. rewrite rev_app_distr. done.
Qed.

End strings.

Create HintDb gostrings.
#[export] Hint Resolve strings.TrimSpace_idem strings.TrimSpace_newline
  strings.Join_Split strings.Split_not_nil : gostrings.
