(* ===== verification/Events.v ===== *)
(** * The broker's record decoder ([broker/internal/events/events.go])

    [Decode] and its helpers, with every slice and index expression of the
    source kept as a partial operation: that the function never panics is
    a theorem below, not an assumption of the model.  [boot] is the value
    [bootWallTime()] returns (nanoseconds since the Unix epoch); Go's
    [time.Time] is its nanosecond count. *)
From Stdlib Require Import ZArith Lia.
From Stdlib Require Import Strings.Byte Strings.String.
From stdpp Require Import base list.
From S2P Require Import Prelude GoStrings.
#[local] Open Scope Z_scope.
#[local] Open Scope go_scope.

Module events.

Definition TaskCommLen : Z := 16.
Definition MaxFilename : Z := 256.
Definition MaxArgs : Z := 6.
Definition MaxArgLen : Z := 32.
Definition EventSize : Z := 504.

Definition offTimestamp : Z := 0.
Definition offPID : Z := 8.
Definition offTID : Z := 12.
Definition offUID : Z := 16.
Definition offGID : Z := 20.
Definition offComm : Z := 24.
Definition offFilename : Z := 40.
Definition offFilenameLn : Z := 296.
Definition offArgs : Z := 298.
Definition offArgLens : Z := 490.
Definition offArgc : Z := 502.
Definition offTruncated : Z := 503.

Record Event := mkEvent {
  Timestamp : Z;
  PID : Z;
  TID : Z;
  UID : Z;
  GID : Z;
  Comm : gostring;
  Filename : gostring;
  Args : list gostring;
  Argc : Z;
  Truncated : bool;
  CommandLine : gostring
}.

#[export] Instance Event_eq_decision : EqDecision Event.
Proof. solve_decision. Defined.

(** The one error [Decode] returns, with the length it reports. *)
Inductive error : Type :=
  | ErrShortRecord (got : Z).

#[export] Instance error_eq_decision : EqDecision error.
Proof. solve_decision. Defined.

Abbreviation decoded := (go_result error).

(** ** Helpers *)

Fixpoint indexZero_from (i : Z) (b : list byte) : Z :=
  match b with
  | [] => -1
  | c :: b' => if decide (c = x00) then i else indexZero_from (i + 1) b'
  end.

Definition indexZero (b : list byte) : Z := indexZero_from 0 b.

Definition cString (b : list byte) : decoded gostring :=
  let i := indexZero b in
  if 0 <=? i then slice b 0 i else Ok b.

Definition cStringN (b : list byte) (n : Z) : decoded gostring :=
  let n := if (n <? 0) || (Z.of_nat (length b) <? n)
           then Z.of_nat (length b) else n in
  s <-- slice b 0 n ;;; cString s.

(** [binary.LittleEndian.UintN(raw[off:off+n])]. *)
Definition uint_at (raw : list byte) (off n : Z) : decoded Z :=
  s <-- slice raw off (off + n) ;;; Ok (le_val s).

(** The loop over the arguments: [n] iterations from index [i]. *)
Fixpoint decode_args (raw : list byte) (i : Z) (n : nat) : decoded (list gostring) :=
  match n with
  | O => Ok []
  | S n' =>
      let start := offArgs + i * MaxArgLen in
      argLen <-- uint_at raw (offArgLens + i * 2) 2 ;;;
      buf <-- slice raw start (start + MaxArgLen) ;;;
      a <-- cStringN buf argLen ;;;
      rest <-- decode_args raw (i + 1) n' ;;;
      Ok (a :: rest)
  end.

Definition command_line (filename : gostring) (args : list gostring) : gostring :=
  strings.TrimSpace (strings.Join (filename :: args) (bs " ")).

Definition Decode (boot : Z) (raw : list byte) : decoded Event :=
  if Z.of_nat (length raw) <? EventSize
  then Err (ErrShortRecord (Z.of_nat (length raw)))
  else
    bootNS <-- uint_at raw offTimestamp 8 ;;;
    pid <-- uint_at raw offPID 4 ;;;
    tid <-- uint_at raw offTID 4 ;;;
    uid <-- uint_at raw offUID 4 ;;;
    gid <-- uint_at raw offGID 4 ;;;
    commBuf <-- slice raw offComm (offComm + TaskCommLen) ;;;
    comm <-- cString commBuf ;;;
    fnLen <-- uint_at raw offFilenameLn 2 ;;;
    fnBuf <-- slice raw offFilename (offFilename + MaxFilename) ;;;
    filename <-- cStringN fnBuf fnLen ;;;
    argcByte <-- index raw offArgc ;;;
    let argc := if MaxArgs <? byte_val argcByte then MaxArgs
                else byte_val argcByte in
    args <-- decode_args raw 0 (Z.to_nat argc) ;;;
    truncByte <-- index raw offTruncated ;;;
    Ok {| Timestamp := boot + wrapI 64 bootNS;
          PID := pid;
          TID := tid;
          UID := uid;
          GID := gid;
          Comm := comm;
          Filename := filename;
          Args := args;
          Argc := wrapU 8 argc;
          Truncated := bool_decide (truncByte <> x00);
          CommandLine := command_line filename args |}.

(** ** Specifications of the helpers *)

(** The NUL-terminated prefix of a buffer. *)
Fixpoint until_nul (b : list byte) : gostring :=
  match b with
  | [] => []
  | c :: b' => if decide (c = x00) then [] else c :: until_nul b'
  end.

Definition no_nul (s : gostring) : Prop := x00 ∉ s.

Lemma until_nul_no_nul b : no_nul (until_nul b).
Proof.
  unfold no_nul. induction b as [|c b IH]; simpl; [apply not_elem_of_nil|].
  case_decide; [apply not_elem_of_nil|]. by apply not_elem_of_cons.
Qed.

Lemma until_nul_length b : (length (until_nul b) <= length b)%nat.
Proof. induction b as [|c b IH]; simpl; [done|]. case_decide; simpl; lia. Qed.

Lemma until_nul_id s : no_nul s -> until_nul s = s.
Proof.
  unfold no_nul. induction s as [|c s IH]; simpl; [done|].
  intros [Hc Hs]%not_elem_of_cons. rewrite decide_False by done. by rewrite IH.
Qed.

Lemma until_nul_app s t : no_nul s -> until_nul (s ++ x00 :: t) = s.
Proof.
  unfold no_nul. induction s as [|c s IH]; simpl; [done|].
  intros [Hc Hs]%not_elem_of_cons. rewrite decide_False by done. by rewrite IH.
Qed.

Lemma indexZero_from_spec i b :
  0 <= i ->
  (indexZero_from i b = -1 /\ until_nul b = b) \/
  (exists n, indexZero_from i b = i + Z.of_nat n /\ (n < length b)%nat /\
             until_nul b = take n b).
Proof.
  revert i. induction b as [|c b IH]; intros i Hi; simpl; [by left|].
  case_decide as Hc.
  - right. exists O. split_and!; [lia|lia|done].
  - destruct (IH (i + 1) ltac:(lia)) as [[-> ->]|(n & -> & Hn & ->)]; [by left|].
    right. exists (S n). split_and!; [lia|lia|done].
Qed.

Lemma cString_spec b : cString b = Ok (until_nul b).
Proof.
  unfold cString, indexZero.
  destruct (indexZero_from_spec 0 b) as [[-> ->]|(n & -> & Hn & ->)]; [lia|done|].
  rewrite Z.add_0_l. destruct (Z.leb_spec 0 (Z.of_nat n)); [|lia].
  rewrite slice_prefix by lia. by rewrite Nat2Z.id.
Qed.

(** [cStringN] ignores a length outside the buffer and stops at a NUL
    inside it. *)
Definition clip (b : list byte) (n : Z) : list byte :=
  if (n <? 0) || (Z.of_nat (length b) <? n) then b else take (Z.to_nat n) b.

Lemma cStringN_spec b n : cStringN b n = Ok (until_nul (clip b n)).
Proof.
  unfold cStringN, clip. destruct (_ || _) eqn:E.
  - rewrite slice_prefix by lia. simpl. rewrite Nat2Z.id, firstn_all. apply cString_spec.
  - apply orb_false_iff in E as [?%Z.ltb_ge ?%Z.ltb_ge].
    rewrite slice_prefix by lia. simpl. apply cString_spec.
Qed.

Lemma uint_at_spec raw off n :
  0 <= off -> 0 <= n -> off + n <= Z.of_nat (length raw) ->
  uint_at raw off n = Ok (le_val (take (Z.to_nat n) (drop (Z.to_nat off) raw))).
Proof.
  intros. unfold uint_at. rewrite slice_ok by lia. simpl.
  by replace (off + n - off) with n by lia.
Qed.

End events.
