(* ===== verification/Wire.v ===== *)
(** * The wire format ([sensor/cyber-patrol-common/src/lib.rs])

    The [#[repr(C)]] struct [ExecEvent]: its fields with their C layout
    (offsets computed from sizes and alignments, padding included), the
    bytes the kernel program leaves in the ring buffer, and the abstract
    reading of those bytes as the broker's [Event].  The layout rules are
    those of [repr(C)] on a little-endian target. *)
From Stdlib Require Import ZArith Lia.
From Stdlib Require Import Strings.Byte Strings.String.
From stdpp Require Import base list.
From S2P Require Import Prelude GoStrings Events.
#[local] Open Scope Z_scope.

Module wire.

Definition TASK_COMM_LEN : Z := 16.
Definition MAX_FILENAME_LEN : Z := 256.
Definition MAX_ARGS : Z := 6.
Definition MAX_ARG_LEN : Z := 32.
Definition EVENT_SIZE : Z := 504.

(** ** [repr(C)] layout *)

Inductive cty : Type :=
  | U8 | U16 | U32 | U64
  | Arr (t : cty) (n : Z).

Fixpoint sizeof (t : cty) : Z :=
  match t with
  | U8 => 1 | U16 => 2 | U32 => 4 | U64 => 8
  | Arr t' n => sizeof t' * n
  end.

Fixpoint alignof (t : cty) : Z :=
  match t with
  | U8 => 1 | U16 => 2 | U32 => 4 | U64 => 8
  | Arr t' _ => alignof t'
  end.

Definition align_up (off a : Z) : Z := (off + a - 1) / a * a.

(** Offsets of the fields of a struct laid out from [off]. *)
Fixpoint offsets (off : Z) (fs : list cty) : list Z :=
  match fs with
  | [] => []
  | t :: fs' => align_up off (alignof t) :: offsets (align_up off (alignof t) + sizeof t) fs'
  end.

Fixpoint end_of (off : Z) (fs : list cty) : Z :=
  match fs with
  | [] => off
  | t :: fs' => end_of (align_up off (alignof t) + sizeof t) fs'
  end.

Definition struct_align (fs : list cty) : Z := foldr (fun t a => Z.max (alignof t) a) 1 fs.

Definition struct_size (fs : list cty) : Z := align_up (end_of 0 fs) (struct_align fs).

(** The fields of [ExecEvent], in the order of their declaration. *)
Definition exec_event_fields : list cty :=
  [U64; U32; U32; U32; U32;
   Arr U8 TASK_COMM_LEN; Arr U8 MAX_FILENAME_LEN; U16;
   Arr (Arr U8 MAX_ARG_LEN) MAX_ARGS; Arr U16 MAX_ARGS; U8; U8].

Definition zeros (n : Z) : list byte := replicate (Z.to_nat n) x00.

(** The bytes of a struct whose fields have the given bytes: each field at
    its offset, padding (zeroed by the producer) between them. *)
Fixpoint place (off : Z) (fs : list (cty * list byte)) : list byte :=
  match fs with
  | [] => []
  | (t, b) :: fs' =>
      let o := align_up off (alignof t) in
      zeros (o - off) ++ b ++ place (o + sizeof t) fs'
  end.

(** ** The struct *)

Record ExecEvent := mkExecEvent {
  timestamp_ns : Z;
  pid : Z;
  tid : Z;
  uid : Z;
  gid : Z;
  comm : list byte;
  filename : list byte;
  filename_len : Z;
  args : list (list byte);
  arg_lens : list Z;
  argc : Z;
  truncated : Z
}.

(** Values the field types admit. *)
Record wf (e : ExecEvent) : Prop := mkWf {
  wf_timestamp : is_u 64 (timestamp_ns e);
  wf_pid : is_u 32 (pid e);
  wf_tid : is_u 32 (tid e);
  wf_uid : is_u 32 (uid e);
  wf_gid : is_u 32 (gid e);
  wf_comm : length (comm e) = 16%nat;
  wf_filename : length (filename e) = 256%nat;
  wf_filename_len : is_u 16 (filename_len e);
  wf_args : length (args e) = 6%nat;
  wf_arg : Forall (fun a : list byte => length a = 32%nat) (args e);
  wf_arg_lens : length (arg_lens e) = 6%nat;
  wf_arg_len : Forall (is_u 16) (arg_lens e);
  wf_argc : is_u 8 (argc e);
  wf_truncated : is_u 8 (truncated e)
}.

Lemma wf_iff e :
  (is_u 64 (timestamp_ns e) /\ is_u 32 (pid e) /\ is_u 32 (tid e) /\
   is_u 32 (uid e) /\ is_u 32 (gid e) /\ length (comm e) = 16%nat /\
   length (filename e) = 256%nat /\ is_u 16 (filename_len e) /\
   length (args e) = 6%nat /\ Forall (fun a : list byte => length a = 32%nat) (args e) /\
   length (arg_lens e) = 6%nat /\ Forall (is_u 16) (arg_lens e) /\
   is_u 8 (argc e) /\ is_u 8 (truncated e)) <-> wf e.
Proof. split; [intros; destruct_and!; by constructor|by intros []; split_and!]. Qed.

#[export] Instance wf_decision e : Decision (wf e) :=
  match decide _ with
  | left H => left (proj1 (wf_iff e) H)
  | right H => right (fun W => H (proj2 (wf_iff e) W))
  end.

Definition field_bytes (e : ExecEvent) : list (list byte) :=
  [le_bytes 8 (timestamp_ns e);
   le_bytes 4 (pid e); le_bytes 4 (tid e); le_bytes 4 (uid e); le_bytes 4 (gid e);
   comm e; filename e; le_bytes 2 (filename_len e);
   concat (args e); concat (le_bytes 2 <$> arg_lens e);
   le_bytes 1 (argc e); le_bytes 1 (truncated e)].

(** The memory image of the struct. *)
Definition to_bytes (e : ExecEvent) : list byte :=
  place 0 (zip exec_event_fields (field_bytes e)) ++
  zeros (struct_size exec_event_fields - end_of 0 exec_event_fields).

(** Reading the image back, field by field. *)
Definition at_off (raw : list byte) (off n : nat) : list byte := take n (drop off raw).

Definition of_bytes (raw : list byte) : ExecEvent :=
  {| timestamp_ns := le_val (at_off raw 0 8);
     pid := le_val (at_off raw 8 4);
     tid := le_val (at_off raw 12 4);
     uid := le_val (at_off raw 16 4);
     gid := le_val (at_off raw 20 4);
     comm := at_off raw 24 16;
     filename := at_off raw 40 256;
     filename_len := le_val (at_off raw 296 2);
     args := (fun i => at_off raw (298 + 32 * i) 32) <$> seq 0 6;
     arg_lens := (fun i => le_val (at_off raw (490 + 2 * i) 2)) <$> seq 0 6;
     argc := le_val (at_off raw 502 1);
     truncated := le_val (at_off raw 503 1) |}.

(** ** The abstract reading of a record as the broker's event *)

Definition arg_count (e : ExecEvent) : nat := Z.to_nat (Z.min MAX_ARGS (argc e)).

Definition arg_strings (e : ExecEvent) : list gostring :=
  zip_with (fun a n => events.until_nul (events.clip a n))
    (take (arg_count e) (args e)) (take (arg_count e) (arg_lens e)).

Definition view (boot : Z) (e : ExecEvent) : events.Event :=
  let fn := events.until_nul (events.clip (filename e) (filename_len e)) in
  {| events.Timestamp := boot + wrapI 64 (timestamp_ns e);
     events.PID := pid e;
     events.TID := tid e;
     events.UID := uid e;
     events.GID := gid e;
     events.Comm := events.until_nul (comm e);
     events.Filename := fn;
     events.Args := arg_strings e;
     events.Argc := Z.min MAX_ARGS (argc e);
     events.Truncated := bool_decide (truncated e <> 0);
     events.CommandLine := events.command_line fn (arg_strings e) |}.

(** ** The layout *)

(** The [repr(C)] layout of the Rust struct is exactly the offset
    table of the Go decoder, its size is both [EVENT_SIZE] and [EventSize],
    and no byte of it is padding. *)
Lemma layout_matches :
  offsets 0 exec_event_fields =
    [events.offTimestamp; events.offPID; events.offTID; events.offUID; events.offGID;
     events.offComm; events.offFilename; events.offFilenameLn; events.offArgs;
     events.offArgLens; events.offArgc; events.offTruncated] /\
  struct_size exec_event_fields = EVENT_SIZE /\
  EVENT_SIZE = events.EventSize /\
  foldr Z.add 0 (sizeof <$> exec_event_fields) = EVENT_SIZE.
Proof. by vm_compute. Qed.

Lemma to_bytes_concat e : to_bytes e = concat (field_bytes e).
Proof.
  unfold to_bytes.
  change (zeros (struct_size exec_event_fields - end_of 0 exec_event_fields)) with (@nil byte).
  by rewrite app_nil_r.
Qed.

Lemma at_off_all b n : length b = n -> at_off b 0 n = b.
Proof. intros <-. unfold at_off. by rewrite drop_0, firstn_all. Qed.

Lemma at_off_skip a b k off n : length a = k -> at_off (a ++ b) (k + off) n = at_off b off n.
Proof.
  intros <-. unfold at_off. rewrite drop_app_ge by lia.
  by replace (length a + off - length a)%nat with off by lia.
Qed.

Lemma at_off_app_l a b off n :
  (off + n <= length a)%nat -> at_off (a ++ b) off n = at_off a off n.
Proof.
  intros H. unfold at_off. rewrite drop_app_le by lia.
  rewrite take_app_le; [done|]. rewrite length_drop. lia.
Qed.

Lemma at_off_length raw off n : (off + n <= length raw)%nat -> length (at_off raw off n) = n.
Proof. intros. unfold at_off. rewrite length_take, length_drop. lia. Qed.

Lemma at_off_le n z r : at_off (le_bytes n z ++ r) 0 n = le_bytes n z.
Proof.
  rewrite at_off_app_l by by rewrite length_le_bytes.
  apply at_off_all, length_le_bytes.
Qed.

(** Reading the [i]-th of a sequence of parts. *)
Lemma at_off_part (parts : list (list byte)) i p off extra :
  parts !! i = Some p -> length (concat (take i parts)) = off ->
  at_off (concat parts ++ extra) off (length p) = p.
Proof.
  intros Hi <-.
  assert (concat parts = concat (take i parts) ++ p ++ concat (drop (S i) parts)) as ->.
  { rewrite <- (take_drop i parts) at 1. by rewrite (drop_S _ _ _ Hi), concat_app. }
  rewrite <- !app_assoc, <- (Nat.add_0_r (length (concat _))).
  rewrite at_off_skip by done. rewrite at_off_app_l by lia. by apply at_off_all.
Qed.

Lemma concat_uniform_length (l : list (list byte)) w :
  Forall (fun x => length x = w) l -> length (concat l) = (w * length l)%nat.
Proof. induction 1; simpl; rewrite ?length_app; lia. Qed.

Lemma at_off_uniform (l : list (list byte)) w i x :
  Forall (fun x => length x = w) l -> l !! i = Some x ->
  at_off (concat l) (w * i) w = x.
Proof.
  intros Hl Hi. assert (length x = w) as Hx by exact (Forall_lookup_1 _ _ _ _ Hl Hi).
  pose proof (at_off_part l i x (w * i) [] Hi) as H.
  rewrite app_nil_r, Hx in H. apply H.
  rewrite (concat_uniform_length _ w) by by apply Forall_take.
  rewrite length_take. apply lookup_lt_Some in Hi. lia.
Qed.

(** Mapping a function over [0 .. n-1] that reads the elements of [l] gives
    [l] back. *)
Lemma fmap_seq_lookup {A} (f : nat -> A) (l : list A) n :
  length l = n -> (forall i x, l !! i = Some x -> f i = x) -> f <$> seq 0 n = l.
Proof.
  intros <- H. apply list_eq. intros i. rewrite list_lookup_fmap.
  destruct (l !! i) as [x|] eqn:E.
  - rewrite lookup_seq_lt by by eapply lookup_lt_Some. simpl. f_equal. by apply H.
  - rewrite lookup_seq_ge by by apply lookup_ge_None. done.
Qed.

(** ** The image determines the struct *)

Definition header (e : ExecEvent) : list (list byte) := take 8 (field_bytes e).

Lemma concat_fields e :
  concat (field_bytes e) =
  concat (header e) ++ concat (args e) ++ concat (le_bytes 2 <$> arg_lens e) ++
  le_bytes 1 (argc e) ++ le_bytes 1 (truncated e).
Proof. unfold header, field_bytes. cbn [take concat]. by rewrite <- !app_assoc. Qed.

Lemma header_length e : wf e -> length (concat (header e)) = 298%nat.
Proof.
  intros []. unfold header, field_bytes. cbn [take concat].
  rewrite !length_app, !length_le_bytes. simpl. lia.
Qed.

Lemma arg_len_bytes_length e :
  Forall (fun x : list byte => length x = 2%nat) (le_bytes 2 <$> arg_lens e).
Proof. apply Forall_fmap, Forall_true. intros z. apply length_le_bytes. Qed.

Lemma args_length e : wf e -> length (concat (args e)) = 192%nat.
Proof. intros []. by rewrite (concat_uniform_length _ 32), wf_args0. Qed.

Lemma lens_length e : wf e -> length (concat (le_bytes 2 <$> arg_lens e)) = 12%nat.
Proof.
  intros []. rewrite (concat_uniform_length _ 2) by apply arg_len_bytes_length.
  by rewrite length_fmap, wf_arg_lens0.
Qed.

Lemma to_bytes_length e : wf e -> length (to_bytes e) = 504%nat.
Proof.
  intros H. rewrite to_bytes_concat, concat_fields, !length_app, !length_le_bytes.
  by rewrite header_length, args_length, lens_length.
Qed.

Section read_back.
Context (e : ExecEvent) (He : wf e) (extra : list byte).
#[local] Abbreviation raw := (to_bytes e ++ extra).

Lemma read_header i p off n :
  header e !! i = Some p -> length (concat (take i (header e))) = off ->
  length p = n -> at_off raw off n = p.
Proof.
  intros Hi Hoff <-. rewrite to_bytes_concat, concat_fields, <- app_assoc.
  by eapply at_off_part.
Qed.

Lemma read_headers :
  at_off raw 0 8 = le_bytes 8 (timestamp_ns e) /\
  at_off raw 8 4 = le_bytes 4 (pid e) /\
  at_off raw 12 4 = le_bytes 4 (tid e) /\
  at_off raw 16 4 = le_bytes 4 (uid e) /\
  at_off raw 20 4 = le_bytes 4 (gid e) /\
  at_off raw 24 16 = comm e /\
  at_off raw 40 256 = filename e /\
  at_off raw 296 2 = le_bytes 2 (filename_len e).
Proof.
  destruct He. split_and!;
    [eapply (read_header 0)|eapply (read_header 1)|eapply (read_header 2)
    |eapply (read_header 3)|eapply (read_header 4)|eapply (read_header 5)
    |eapply (read_header 6)|eapply (read_header 7)]; try reflexivity; try done;
    unfold header, field_bytes; cbn [take concat];
    rewrite ?length_app, ?length_le_bytes; simpl; lia.
Qed.

Lemma read_args i a : args e !! i = Some a -> at_off raw (298 + 32 * i) 32 = a.
Proof.
  intros Hi. rewrite to_bytes_concat, concat_fields, <- !app_assoc.
  rewrite at_off_skip by by apply header_length. pose proof (wf_arg e He) as Ha.
  rewrite at_off_app_l; [by apply at_off_uniform|].
  rewrite args_length by done. apply lookup_lt_Some in Hi. rewrite (wf_args e He) in Hi. lia.
Qed.

Lemma read_arg_lens i n :
  arg_lens e !! i = Some n -> le_val (at_off raw (490 + 2 * i) 2) = n.
Proof.
  intros Hi. rewrite to_bytes_concat, concat_fields, <- !app_assoc.
  change (490 + 2 * i)%nat with (298 + (192 + 2 * i))%nat.
  rewrite at_off_skip by by apply header_length.
  rewrite at_off_skip by by apply args_length.
  rewrite at_off_app_l.
  - rewrite (at_off_uniform _ 2 i (le_bytes 2 n));
      [|apply arg_len_bytes_length|by rewrite list_lookup_fmap, Hi].
    apply (le_val_le_bytes_id 2 16); [done|].
    exact (Forall_lookup_1 _ _ _ _ (wf_arg_len e He) Hi).
  - rewrite lens_length by done. apply lookup_lt_Some in Hi.
    rewrite (wf_arg_lens e He) in Hi. lia.
Qed.

Lemma read_tail :
  le_val (at_off raw 502 1) = argc e /\ le_val (at_off raw 503 1) = truncated e.
Proof.
  rewrite to_bytes_concat, concat_fields, <- !app_assoc.
  pose proof (header_length e He). pose proof (args_length e He).
  pose proof (lens_length e He).
  split.
  - rewrite (at_off_skip _ _ 298 204), (at_off_skip _ _ 192 12), (at_off_skip _ _ 12 0),
      at_off_le by done. apply (le_val_le_bytes_id 1 8), He. done.
  - rewrite (at_off_skip _ _ 298 205), (at_off_skip _ _ 192 13), (at_off_skip _ _ 12 1),
      (at_off_skip _ _ 1 0), at_off_le by (done || apply length_le_bytes).
    apply (le_val_le_bytes_id 1 8), He. done.
Qed.
End read_back.

(** The image determines the struct: whatever follows it in the buffer,
    reading it back gives every field. *)
Lemma of_bytes_to_bytes e extra : wf e -> of_bytes (to_bytes e ++ extra) = e.
Proof.
  intros He. unfold of_bytes.
  destruct (read_tail e He extra) as [-> ->].
  destruct (read_headers e He extra) as (-> & -> & -> & -> & -> & -> & -> & ->).
  rewrite (fmap_seq_lookup _ (args e)); [|apply He|by apply read_args].
  rewrite (fmap_seq_lookup _ (arg_lens e)); [|apply He|by apply read_arg_lens].
  destruct e, He; simpl in *. f_equal; by eapply le_val_le_bytes_id.
Qed.

End wire.
