(* ===== verification/Decoding.v ===== *)
(** * The decoder against the wire format

    [Decode] reads exactly the fields of the Rust struct: it is total, its
    only error is the length check, its results obey the field bounds, and
    on the memory image of a struct it returns the abstract reading
    [wire.view] of that struct. *)
From Stdlib Require Import ZArith Lia.
From Stdlib Require Import Strings.Byte Strings.String.
From stdpp Require Import base list.
From S2P Require Import Prelude GoStrings Events Wire.
Import events wire.
#[local] Open Scope Z_scope.

(** The string the decoder extracts for argument [j]. *)
Definition arg_at (raw : list byte) (j : nat) : gostring :=
  until_nul (clip (at_off raw (298 + 32 * j) 32) (le_val (at_off raw (490 + 2 * j) 2))).

(** Reads at the literal offsets of the source, as reads of the layout. *)
Lemma uint_at_off raw o k (off n : nat) :
  o = Z.of_nat off -> k = Z.of_nat n -> (off + n <= length raw)%nat ->
  uint_at raw o k = Ok (le_val (at_off raw off n)).
Proof. intros -> -> ?. rewrite uint_at_spec by lia. by rewrite !Nat2Z.id. Qed.

Lemma slice_at_off {E} raw lo hi (off n : nat) :
  lo = Z.of_nat off -> hi = Z.of_nat (off + n) -> (off + n <= length raw)%nat ->
  slice (E := E) raw lo hi = Ok (at_off raw off n).
Proof.
  intros -> -> ?. rewrite slice_ok by lia. unfold at_off.
  replace (Z.to_nat (Z.of_nat (off + n) - Z.of_nat off)) with n by lia.
  by rewrite Nat2Z.id.
Qed.

Lemma index_at_off {E} raw o (off : nat) :
  o = Z.of_nat off -> (off < length raw)%nat ->
  exists b, index (E := E) raw o = Ok b /\ le_val (at_off raw off 1) = byte_val b.
Proof.
  intros -> H. destruct (lookup_lt_is_Some_2 raw off H) as [b Hb]. exists b. split.
  - apply index_ok; [lia|by rewrite Nat2Z.id].
  - unfold at_off. rewrite (drop_S _ _ _ Hb). unfold le_val. simpl. lia.
Qed.

Lemma decode_args_spec raw i n :
  (504 <= length raw)%nat -> (i + n <= 6)%nat ->
  decode_args raw (Z.of_nat i) n = Ok (arg_at raw <$> seq i n).
Proof.
  intros Hraw. revert i. induction n as [|n IH]; intros i Hi; [done|].
  cbn [decode_args]. unfold offArgLens, offArgs, MaxArgLen.
  rewrite (uint_at_off _ _ _ (490 + 2 * i) 2) by lia. cbn [go_bind].
  rewrite (slice_at_off _ _ _ (298 + 32 * i) 32) by lia. cbn [go_bind].
  rewrite cStringN_spec. cbn [go_bind].
  replace (Z.of_nat i + 1) with (Z.of_nat (S i)) by lia.
  rewrite IH by lia. done.
Qed.

Lemma zip_with_seq {A B C} (f : A -> B -> C) (g : nat -> A) (h : nat -> B) i n :
  zip_with f (g <$> seq i n) (h <$> seq i n) = (fun j => f (g j) (h j)) <$> seq i n.
Proof. revert i. induction n; intros i; simpl; f_equal; auto. Qed.

Lemma take_fmap_seq {A} (g : nat -> A) (k n : nat) :
  (k <= n)%nat -> take k (g <$> seq 0 n) = g <$> seq 0 k.
Proof. intros. rewrite <- fmap_take, take_seq. by rewrite Nat.min_l. Qed.

Lemma arg_strings_of_bytes raw :
  arg_strings (of_bytes raw) = arg_at raw <$> seq 0 (arg_count (of_bytes raw)).
Proof.
  unfold arg_strings. cbn [args arg_lens of_bytes].
  rewrite !take_fmap_seq by (unfold arg_count, MAX_ARGS; lia). by rewrite zip_with_seq.
Qed.

(** The whole function in one equation. *)
Lemma Decode_view boot raw :
  (504 <= length raw)%nat -> Decode boot raw = Ok (view boot (of_bytes raw)).
Proof.
  intros Hraw. unfold Decode, EventSize.
  destruct (Z.ltb_spec (Z.of_nat (length raw)) 504); [lia|].
  rewrite (uint_at_off raw offTimestamp 8 0 8) by (done || lia). cbn [go_bind].
  rewrite (uint_at_off raw offPID 4 8 4) by (done || lia). cbn [go_bind].
  rewrite (uint_at_off raw offTID 4 12 4) by (done || lia). cbn [go_bind].
  rewrite (uint_at_off raw offUID 4 16 4) by (done || lia). cbn [go_bind].
  rewrite (uint_at_off raw offGID 4 20 4) by (done || lia). cbn [go_bind].
  rewrite (slice_at_off raw _ _ 24 16) by (done || lia). cbn [go_bind].
  rewrite cString_spec. cbn [go_bind].
  rewrite (uint_at_off raw offFilenameLn 2 296 2) by (done || lia). cbn [go_bind].
  rewrite (slice_at_off raw _ _ 40 256) by (done || lia). cbn [go_bind].
  rewrite cStringN_spec. cbn [go_bind].
  destruct (@index_at_off error raw offArgc 502) as (c & -> & Hc); [done|lia|].
  destruct (@index_at_off error raw offTruncated 503) as (t & Ht & Htv); [done|lia|].
  cbn [go_bind]. pose proof (byte_val_bound c) as Hcb.
  assert ((if MaxArgs <? byte_val c then MaxArgs else byte_val c) =
          Z.min MAX_ARGS (argc (of_bytes raw))) as ->.
  { cbn [argc of_bytes]. rewrite Hc. unfold MaxArgs, MAX_ARGS.
    destruct (Z.ltb_spec 6 (byte_val c)); lia. }
  rewrite (decode_args_spec raw 0)
    by (done || cbn [argc of_bytes]; unfold MAX_ARGS; lia).
  cbn [go_bind]. rewrite Ht. cbn [go_bind].
  rewrite wrapU_id by (cbn [argc of_bytes]; unfold is_u, MAX_ARGS; lia).
  unfold view. rewrite arg_strings_of_bytes. cbn [truncated of_bytes]. rewrite Htv.
  f_equal. f_equal. apply bool_decide_ext. by destruct t.
Qed.

Lemma of_bytes_wf raw : (504 <= length raw)%nat -> wf (of_bytes raw).
Proof.
  intros H.
  constructor; unfold of_bytes; cbn -[at_off seq fmap];
    try (apply le_val_is_u; rewrite at_off_length by lia; done);
    try (apply at_off_length; lia); try by rewrite length_fmap, length_seq.
  - apply Forall_fmap, Forall_forall. intros i [_ Hi]%elem_of_seq. apply at_off_length. lia.
  - apply Forall_fmap, Forall_forall. intros i [_ Hi]%elem_of_seq. cbn -[at_off].
    apply le_val_is_u. by rewrite at_off_length by lia.
Qed.

Lemma clip_length b n : (length (clip b n) <= length b)%nat.
Proof. unfold clip. destruct (_ || _); [done|]. rewrite length_take. lia. Qed.

(** Lengths and contents of an extracted string. *)
Definition cstring_within (n : nat) (s : gostring) : Prop :=
  (length s <= n)%nat /\ no_nul s.

Lemma until_nul_within b n : (length b <= n)%nat -> cstring_within n (until_nul b).
Proof.
  intros H. split; [|apply until_nul_no_nul]. pose proof (until_nul_length b). lia.
Qed.

Lemma clip_within b n m : (length b <= m)%nat -> cstring_within m (until_nul (clip b n)).
Proof. intros H. apply until_nul_within. pose proof (clip_length b n). lia. Qed.

Lemma arg_strings_within e :
  wf e -> Forall (cstring_within 32) (arg_strings e).
Proof.
  intros [].
  apply Forall_lookup_2. intros i s. unfold arg_strings.
  rewrite lookup_zip_with_Some. intros (a & n & -> & Ha & _). apply clip_within.
  apply lookup_take_Some in Ha as [Ha _]. by rewrite (Forall_lookup_1 _ _ _ _ wf_arg0 Ha).
Qed.

Lemma arg_strings_length e :
  wf e -> Z.of_nat (length (arg_strings e)) = Z.min MAX_ARGS (argc e).
Proof.
  intros []. unfold arg_strings. rewrite length_zip_with, !length_take, wf_args0, wf_arg_lens0.
  unfold arg_count, MAX_ARGS in *. destruct wf_argc0. lia.
Qed.

(** What the rest of the broker may rely on about a decoded event. *)
Record event_ok (boot : Z) (ev : Event) : Prop := {
  ok_pid : is_u 32 (PID ev);
  ok_tid : is_u 32 (TID ev);
  ok_uid : is_u 32 (UID ev);
  ok_gid : is_u 32 (GID ev);
  ok_time : boot - 2 ^ 63 <= Timestamp ev < boot + 2 ^ 63;
  ok_comm : cstring_within 16 (Comm ev);
  ok_filename : cstring_within 256 (Filename ev);
  ok_argc : 0 <= Argc ev <= MaxArgs;
  ok_args_length : Z.of_nat (length (Args ev)) = Argc ev;
  ok_args : Forall (cstring_within 32) (Args ev);
  ok_command_line : strings.TrimSpace (CommandLine ev) = CommandLine ev
}.

Lemma view_ok boot e : wf e -> event_ok boot (view boot e).
Proof.
  intros He. pose proof (arg_strings_within e He) as Ha.
  pose proof (arg_strings_length e He) as Hl. destruct He.
  constructor; unfold view; cbn -[arg_strings Z.min]; try done.
  - pose proof (wrapI_range 64 (timestamp_ns e) ltac:(lia)) as Ht. simpl in *. lia.
  - apply until_nul_within. lia.
  - apply clip_within. lia.
  - unfold MaxArgs, MAX_ARGS. destruct wf_argc0. lia.
  - apply strings.TrimSpace_idem.
Qed.

(** ** The decoder's contract *)

Lemma Decode_cases boot raw :
  (Z.of_nat (length raw) < EventSize /\
   Decode boot raw = Err (ErrShortRecord (Z.of_nat (length raw)))) \/
  (EventSize <= Z.of_nat (length raw) /\
   Decode boot raw = Ok (view boot (of_bytes raw))).
Proof.
  destruct (Z.lt_ge_cases (Z.of_nat (length raw)) EventSize) as [H|H].
  - left. split; [done|]. unfold Decode. by destruct (Z.ltb_spec (Z.of_nat (length raw)) EventSize); [|lia].
  - right. split; [done|]. apply Decode_view. unfold EventSize in H. lia.
Qed.

(** C17: [Decode] never panics: a record shorter than [EventSize] is refused
    with an error that carries its length, and every other record, whatever
    its bytes, is decoded. *)
Theorem Decode_total boot raw :
  (Z.of_nat (length raw) < EventSize /\
   Decode boot raw = Err (ErrShortRecord (Z.of_nat (length raw)))) \/
  (EventSize <= Z.of_nat (length raw) /\
   Decode boot raw = Ok (view boot (of_bytes raw))).
Proof. apply Decode_cases. Qed.

(** C15: on the memory image the sensor's struct has in the ring buffer,
    [Decode] returns that struct's fields: numbers unchanged, strings cut at
    the reported length and at the first NUL, at most six arguments,
    whatever padding the kernel hands over after the record. *)
Theorem Decode_roundtrip boot e extra :
  wf e -> Decode boot (to_bytes e ++ extra) = Ok (view boot e).
Proof.
  intros He. rewrite Decode_view by (rewrite length_app, to_bytes_length by done; lia).
  by rewrite of_bytes_to_bytes.
Qed.

Lemma Decode_event_ok boot raw ev : Decode boot raw = Ok ev -> event_ok boot ev.
Proof.
  destruct (Decode_cases boot raw) as [[_ ->]|[H ->]]; [done|]. intros [= <-].
  apply view_ok, of_bytes_wf. unfold EventSize in H. lia.
Qed.

(** Every decoded event is within bounds: 32-bit identifiers, at most
    six arguments of at most 32 bytes, as many as [Argc] says, a file name
    of at most 256 bytes and a comm of at most 16, no NUL byte in any of
    them, a trimmed command line, and a timestamp within 2^63 ns of boot. *)
Lemma Decode_bounds boot raw ev : Decode boot raw = Ok ev -> event_ok boot ev.
Proof. apply Decode_event_ok. Qed.

(** ** A concrete record *)

Definition pad_to (n : nat) (s : gostring) : list byte := s ++ replicate (n - length s) x00.

(** [bash] running [/tmp/.x/run -c id], as the sensor writes it. *)
Definition sample_record : ExecEvent :=
  {| timestamp_ns := 1500; pid := 4242; tid := 4243; uid := 1000; gid := 100;
     comm := pad_to 16 (bs "bash");
     filename := pad_to 256 (bs "/tmp/.x/run"); filename_len := 11;
     args := [pad_to 32 (bs "run"); pad_to 32 (bs "-c"); pad_to 32 (bs "id");
              pad_to 32 []; pad_to 32 []; pad_to 32 []];
     arg_lens := [3; 2; 2; 0; 0; 0]; argc := 3; truncated := 0 |}.

Lemma Decode_roundtrip_witness :
  wf sample_record /\
  Decode 1000 (to_bytes sample_record ++ [x01; x02]) = Ok (view 1000 sample_record).
Proof.
  assert (wf sample_record) as H by (apply (bool_decide_unpack _); vm_compute; exact I).
  split; [exact H|]. exact (Decode_roundtrip 1000 sample_record [x01; x02] H).
Defined.

Lemma Decode_bounds_witness :
  event_ok 1000 (view 1000 sample_record) /\
  CommandLine (view 1000 sample_record) = bs "/tmp/.x/run run -c id".
Proof.
  split; [|vm_compute; reflexivity].
  apply (Decode_bounds 1000 (to_bytes sample_record)). vm_compute. reflexivity.
Defined.
