(* ===== verification/Sensor.v ===== *)
(** * The kernel-space sensor ([sensor/cyber-patrol-ebpf/src/main.rs])

    [try_sys_enter_execve]: reserve a record, zero it, fill it field by
    field from the BPF helpers, submit it.  The helpers (kernel and
    [aya_ebpf]) are a record of operations [helpers]; what the program
    relies on about them is [helpers_ok], their documented behaviour.
    [user_helpers] is a concrete instance over a user memory of
    NUL-terminated strings. *)
From Stdlib Require Import ZArith Lia.
From Stdlib Require Import Strings.Byte Strings.String.
From stdpp Require Import base list gmap.
From S2P Require Import Prelude GoStrings Events Wire Decoding.
Import wire.
#[local] Open Scope Z_scope.

Module sensor.

Definition FILENAME_OFFSET : Z := 16.
Definition ARGV_OFFSET : Z := 24.

(** Addresses are 64-bit values; [None] is a helper's error return. *)
Record helpers := mkHelpers {
  reserve : bool;
  ktime_get_ns : Z;
  current_pid_tgid : Z;
  current_uid_gid : Z;
  current_comm : option (list byte);
  read_at : Z -> option Z;
  probe_read_user : Z -> option Z;
  probe_read_user_str_bytes : Z -> Z -> option (list byte)
}.

(** Documented behaviour: 64-bit results, a [TASK_COMM_LEN]-byte comm, and a
    string read into [n] bytes that returns fewer than [n] bytes, none of
    them the terminating NUL it also stores. *)
Record helpers_ok (h : helpers) : Prop := {
  ok_ktime : is_u 64 (ktime_get_ns h);
  ok_pid_tgid : is_u 64 (current_pid_tgid h);
  ok_uid_gid : is_u 64 (current_uid_gid h);
  ok_current_comm : forall c, current_comm h = Some c -> length c = 16%nat;
  ok_str : forall p n b, probe_read_user_str_bytes h p n = Some b ->
    Z.of_nat (length b) < n /\ events.no_nul b
}.

(** The record [ptr::write_bytes(ptr, 0, 1)] leaves. *)
Definition zeroed : ExecEvent :=
  {| timestamp_ns := 0; pid := 0; tid := 0; uid := 0; gid := 0;
     comm := zeros 16; filename := zeros 256; filename_len := 0;
     args := replicate 6 (zeros 32); arg_lens := replicate 6 0;
     argc := 0; truncated := 0 |}.

(** A successful string read into a buffer: the bytes, the NUL, and what
    the buffer held after them. *)
Definition store_str (buf b : list byte) : list byte :=
  b ++ x00 :: drop (S (length b)) buf.

Definition set_ids (h : helpers) (e : ExecEvent) : ExecEvent :=
  {| timestamp_ns := ktime_get_ns h;
     pid := wrapU 32 (Z.shiftr (current_pid_tgid h) 32);
     tid := wrapU 32 (current_pid_tgid h);
     uid := wrapU 32 (current_uid_gid h);
     gid := wrapU 32 (Z.shiftr (current_uid_gid h) 32);
     comm := match current_comm h with Some c => c | None => comm e end;
     filename := filename e; filename_len := filename_len e;
     args := args e; arg_lens := arg_lens e; argc := argc e; truncated := truncated e |}.

Definition set_filename (b : list byte) (e : ExecEvent) : ExecEvent :=
  {| timestamp_ns := timestamp_ns e; pid := pid e; tid := tid e; uid := uid e; gid := gid e;
     comm := comm e;
     filename := store_str (filename e) b;
     filename_len := wrapU 16 (Z.of_nat (length b));
     args := args e; arg_lens := arg_lens e; argc := argc e; truncated := truncated e |}.

Definition set_arg (i : nat) (b : list byte) (e : ExecEvent) : ExecEvent :=
  {| timestamp_ns := timestamp_ns e; pid := pid e; tid := tid e; uid := uid e; gid := gid e;
     comm := comm e; filename := filename e; filename_len := filename_len e;
     args := alter (fun buf => store_str buf b) i (args e);
     arg_lens := <[i := wrapU 16 (Z.of_nat (length b))]> (arg_lens e);
     argc := argc e; truncated := truncated e |}.

Definition set_counts (ac tr : Z) (e : ExecEvent) : ExecEvent :=
  {| timestamp_ns := timestamp_ns e; pid := pid e; tid := tid e; uid := uid e; gid := gid e;
     comm := comm e; filename := filename e; filename_len := filename_len e;
     args := args e; arg_lens := arg_lens e; argc := ac; truncated := tr |}.

(** The filename part of the handler, with the [truncated] local. *)
Definition capture_filename (h : helpers) (e : ExecEvent) (tr : Z) : ExecEvent * Z :=
  match read_at h FILENAME_OFFSET with
  | Some filename_ptr =>
      match probe_read_user_str_bytes h filename_ptr MAX_FILENAME_LEN with
      | Some b => (set_filename b e, tr)
      | None => (e, Z.lor tr 1)
      end
  | None => (e, Z.lor tr 1)
  end.

(** The argv loop: [n] iterations from index [i], with the [argc] and
    [truncated] locals; [break] returns at once. *)
Fixpoint capture_args (h : helpers) (argv_ptr : Z) (i n : nat)
    (e : ExecEvent) (ac tr : Z) : ExecEvent * Z * Z :=
  match n with
  | O => (e, ac, tr)
  | S n' =>
      match probe_read_user h (wrapU 64 (argv_ptr + 8 * Z.of_nat i)) with
      | Some arg_ptr =>
          if arg_ptr =? 0 then (e, ac, tr)
          else match probe_read_user_str_bytes h arg_ptr MAX_ARG_LEN with
               | Some b => capture_args h argv_ptr (S i) n' (set_arg i b e) (wrapU 8 (ac + 1)) tr
               | None => (e, ac, Z.lor tr 1)
               end
      | None => (e, ac, tr)
      end
  end.

(** The handler: the record it submits to the ring buffer, or [None] when
    no space could be reserved.  Its return value is 0 either way. *)
Definition try_sys_enter_execve (h : helpers) : option ExecEvent :=
  if negb (reserve h) then None
  else
    let e := set_ids h zeroed in
    let '(e, tr) := capture_filename h e 0 in
    let '(e, ac, tr) :=
      match read_at h ARGV_OFFSET with
      | Some argv_ptr => capture_args h argv_ptr 0 (Z.to_nat MAX_ARGS) e 0 tr
      | None => (e, 0, tr)
      end in
    Some (set_counts ac tr e).

(** ** What the handler observes, without the record *)

(** The file name it could read. *)
Definition seen_filename (h : helpers) : option gostring :=
  p ← read_at h FILENAME_OFFSET; probe_read_user_str_bytes h p MAX_FILENAME_LEN.

(** The arguments it could read from index [i], and whether it stopped on
    one whose bytes could not be read. *)
Fixpoint seen_args_from (h : helpers) (argv_ptr : Z) (i n : nat) : list gostring * bool :=
  match n with
  | O => ([], false)
  | S n' =>
      match probe_read_user h (wrapU 64 (argv_ptr + 8 * Z.of_nat i)) with
      | Some arg_ptr =>
          if arg_ptr =? 0 then ([], false)
          else match probe_read_user_str_bytes h arg_ptr MAX_ARG_LEN with
               | Some b => let '(l, t) := seen_args_from h argv_ptr (S i) n' in (b :: l, t)
               | None => ([], true)
               end
      | None => ([], false)
      end
  end.

Definition seen_args (h : helpers) : list gostring * bool :=
  match read_at h ARGV_OFFSET with
  | Some argv_ptr => seen_args_from h argv_ptr 0 6
  | None => ([], false)
  end.

(** The event the broker should end up with. *)
Definition observed (boot : Z) (h : helpers) : events.Event :=
  let fn := default [] (seen_filename h) in
  let '(argl, bad) := seen_args h in
  {| events.Timestamp := boot + wrapI 64 (ktime_get_ns h);
     events.PID := current_pid_tgid h / 2 ^ 32;
     events.TID := current_pid_tgid h mod 2 ^ 32;
     events.UID := current_uid_gid h mod 2 ^ 32;
     events.GID := current_uid_gid h / 2 ^ 32;
     events.Comm := events.until_nul (default [] (current_comm h));
     events.Filename := fn;
     events.Args := argl;
     events.Argc := Z.of_nat (length argl);
     events.Truncated := negb (bool_decide (is_Some (seen_filename h))) || bad;
     events.CommandLine := events.command_line fn argl |}.

End sensor.
