(* ===== verification/SensorFacts.v ===== *)
(** * The sensor's records, and the path from the kernel to the broker

    What [try_sys_enter_execve] submits is a well-formed struct holding what
    the helpers returned, and the broker's [Decode] recovers exactly that. *)
From Stdlib Require Import ZArith Lia.
From Stdlib Require Import Strings.Byte Strings.String.
From stdpp Require Import base list gmap.
From S2P Require Import Prelude GoStrings Events Wire Decoding Sensor.
Import wire sensor.
#[local] Open Scope Z_scope.

(** ** Strings in zeroed buffers *)

Section stored.
Context (size : nat) (b : list byte).
Context (Hlen : (length b < size)%nat) (Hnul : events.no_nul b).
#[local] Abbreviation buf := (store_str (zeros (Z.of_nat size)) b).

Lemma store_str_length : length buf = size.
Proof.
  unfold store_str, zeros. rewrite length_app, length_cons, length_drop, length_replicate. lia.
Qed.

(** The decoder's extraction gives the stored string back. *)
Lemma extract_stored :
  Z.of_nat size < 2 ^ 16 ->
  events.until_nul (events.clip buf (wrapU 16 (Z.of_nat (length b)))) = b.
Proof.
  intros Hs. rewrite wrapU_id by (unfold is_u; lia).
  unfold events.clip. rewrite store_str_length.
  destruct (Z.ltb_spec (Z.of_nat (length b)) 0); [lia|].
  destruct (Z.ltb_spec (Z.of_nat size) (Z.of_nat (length b))); [lia|]. simpl.
  rewrite Nat2Z.id. unfold store_str. rewrite take_app_length.
  by apply events.until_nul_id.
Qed.
End stored.

(** ** The argv loop *)

Lemma seen_args_from_length h p i n : (length (seen_args_from h p i n).1 <= n)%nat.
Proof.
  revert i. induction n as [|n IH]; intros i; simpl; [lia|].
  destruct (probe_read_user _ _) as [a|]; [|simpl; lia].
  destruct (a =? 0); [simpl; lia|].
  destruct (probe_read_user_str_bytes _ _ _) as [b|]; [|simpl; lia].
  specialize (IH (S i)). destruct (seen_args_from _ _ _ _). simpl in *. lia.
Qed.

Lemma seen_args_from_ok h p i n :
  helpers_ok h ->
  Forall (fun b => (length b < 32)%nat /\ events.no_nul b) (seen_args_from h p i n).1.
Proof.
  intros Hh. revert i. induction n as [|n IH]; intros i; simpl; [constructor|].
  destruct (probe_read_user _ _) as [a|]; [|constructor].
  destruct (a =? 0); [constructor|].
  destruct (probe_read_user_str_bytes _ _ _) as [b|] eqn:E; [|constructor].
  specialize (IH (S i)). destruct (seen_args_from _ _ _ _). simpl in *.
  constructor; [|done]. apply (ok_str h Hh) in E. unfold MAX_ARG_LEN in E. split; [lia|by apply E].
Qed.

Lemma alter_middle {A} (f : A -> A) (pre : list A) x suf :
  alter f (length pre) (pre ++ x :: suf) = pre ++ f x :: suf.
Proof. induction pre as [|y pre IH]; [done|]. simpl. f_equal. apply IH. Qed.

Lemma insert_middle {A} (y : A) (pre : list A) x suf :
  <[length pre := y]> (pre ++ x :: suf) = pre ++ y :: suf.
Proof. rewrite insert_app_r_alt by lia. by rewrite Nat.sub_diag. Qed.

Definition with_args (e : ExecEvent) (a : list (list byte)) (l : list Z) : ExecEvent :=
  {| timestamp_ns := timestamp_ns e; pid := pid e; tid := tid e; uid := uid e; gid := gid e;
     comm := comm e; filename := filename e; filename_len := filename_len e;
     args := a; arg_lens := l; argc := argc e; truncated := truncated e |}.

Definition stored_args (n : nat) (l : list gostring) : list (list byte) :=
  (store_str (zeros 32) <$> l) ++ replicate (n - length l) (zeros 32).

Definition stored_lens (n : nat) (l : list gostring) : list Z :=
  ((fun b : gostring => wrapU 16 (Z.of_nat (length b))) <$> l) ++ replicate (n - length l) 0.

(** The loop stores what it sees in consecutive slots and changes nothing
    else of the record. *)
Lemma capture_args_spec h p n e ac tr pre prel :
  length pre = length prel -> 0 <= ac -> ac + Z.of_nat n < 256 ->
  let '(l, bad) := seen_args_from h p (length pre) n in
  capture_args h p (length pre) n
    (with_args e (pre ++ replicate n (zeros 32)) (prel ++ replicate n 0)) ac tr =
  (with_args e (pre ++ stored_args n l) (prel ++ stored_lens n l),
   ac + Z.of_nat (length l), if bad then Z.lor tr 1 else tr).
Proof.
  unfold stored_args, stored_lens.
  revert ac pre prel. induction n as [|n IH]; intros ac pre prel Hl Hac Hb;
    cbn [seen_args_from capture_args replicate]; [simpl; by rewrite Z.add_0_r|].
  destruct (probe_read_user _ _) as [a|]; [|simpl; by rewrite Z.add_0_r].
  destruct (a =? 0); [simpl; by rewrite Z.add_0_r|].
  destruct (probe_read_user_str_bytes _ _ _) as [b|]; [|simpl; by rewrite Z.add_0_r].
  change (set_arg ?i ?b (with_args ?e ?a ?l)) with
    (with_args e (alter (fun buf => store_str buf b) i a)
       (<[i := wrapU 16 (Z.of_nat (length b))]> l)).
  rewrite alter_middle, Hl, insert_middle, <- Hl, (wrapU_id 8) by (unfold is_u; lia).
  specialize (IH (ac + 1) (pre ++ [store_str (zeros 32) b])
    (prel ++ [wrapU 16 (Z.of_nat (length b))])).
  rewrite <- !app_assoc, length_app, Nat.add_1_r in IH. cbn [app] in IH.
  destruct (seen_args_from _ _ _ _) as [l bad].
  rewrite IH by (rewrite ?length_app; simpl; lia).
  rewrite !fmap_cons, length_cons, <- !app_assoc.
  by replace (ac + Z.of_nat (S (length l))) with (ac + 1 + Z.of_nat (length l)) by lia.
Qed.

(** ** The submitted record *)

(** The record in closed form. *)
Definition submitted (h : helpers) : ExecEvent :=
  let '(l, bad) := seen_args h in
  let tr := if seen_filename h is Some _ then 0 else 1 in
  {| timestamp_ns := ktime_get_ns h;
     pid := current_pid_tgid h / 2 ^ 32;
     tid := current_pid_tgid h mod 2 ^ 32;
     uid := current_uid_gid h mod 2 ^ 32;
     gid := current_uid_gid h / 2 ^ 32;
     comm := default (zeros 16) (current_comm h);
     filename := match seen_filename h with
                 | Some b => store_str (zeros 256) b
                 | None => zeros 256
                 end;
     filename_len := match seen_filename h with
                     | Some b => wrapU 16 (Z.of_nat (length b))
                     | None => 0
                     end;
     args := stored_args 6 l;
     arg_lens := stored_lens 6 l;
     argc := Z.of_nat (length l);
     truncated := if bad then 1 else tr |}.

Lemma u32_halves z :
  is_u 64 z -> wrapU 32 (Z.shiftr z 32) = z / 2 ^ 32 /\ is_u 32 (z / 2 ^ 32).
Proof.
  intros [H1 H2]. rewrite Z.shiftr_div_pow2 by lia.
  assert (is_u 32 (z / 2 ^ 32)) as Hu.
  { unfold is_u. split; [apply Z.div_pos; lia|]. apply Z.div_lt_upper_bound; lia. }
  split; [by apply wrapU_id|done].
Qed.

Lemma try_sys_enter_execve_submitted h :
  helpers_ok h -> reserve h = true -> try_sys_enter_execve h = Some (submitted h).
Proof.
  intros Hh Hr. unfold try_sys_enter_execve. rewrite Hr. simpl negb. cbv beta iota zeta.
  set (e0 := submitted h).
  assert (capture_filename h (set_ids h zeroed) 0 =
    (with_args (set_counts 0 0 e0) (replicate 6 (zeros 32)) (replicate 6 0),
     if seen_filename h is Some _ then 0 else 1)) as ->.
  { unfold capture_filename, set_ids, e0, submitted, seen_filename.
    destruct (u32_halves _ (ok_pid_tgid h Hh)) as [-> _].
    destruct (u32_halves _ (ok_uid_gid h Hh)) as [-> _].
    destruct (seen_args h) as [l bad].
    destruct (read_at h FILENAME_OFFSET) as [q|]; simpl; [|by destruct (current_comm h)].
    destruct (probe_read_user_str_bytes _ _ _); by destruct (current_comm h). }
  unfold e0, submitted, seen_args. set (tr := if seen_filename h is Some _ then 0 else 1).
  assert (tr = 0 \/ tr = 1) as Htr by (subst tr; destruct (seen_filename h); auto).
  destruct (read_at h ARGV_OFFSET) as [q|]; [|done].
  match goal with |- context [with_args ?e _ _] =>
    pose proof (capture_args_spec h q 6 e 0 tr [] [] eq_refl ltac:(lia) ltac:(lia)) as Hc
  end.
  cbn [length app] in Hc. change (Z.to_nat MAX_ARGS) with 6%nat.
  destruct (seen_args_from h q 0 6) as [l bad]. rewrite Hc.
  unfold set_counts, with_args. cbn -[Z.of_nat]. do 2 f_equal. destruct bad; [|done].
  by destruct Htr as [-> | ->].
Qed.

Lemma seen_args_ok h :
  helpers_ok h ->
  (length (seen_args h).1 <= 6)%nat /\
  Forall (fun b => (length b < 32)%nat /\ events.no_nul b) (seen_args h).1.
Proof.
  intros Hh. unfold seen_args. destruct (read_at _ _); [|by split; [simpl; lia|constructor]].
  split; [apply seen_args_from_length|by apply seen_args_from_ok].
Qed.

Lemma seen_filename_ok h b :
  helpers_ok h -> seen_filename h = Some b -> (length b < 256)%nat /\ events.no_nul b.
Proof.
  intros Hh. unfold seen_filename. destruct (read_at _ _) as [p|]; simpl; [|done].
  intros E. apply (ok_str h Hh) in E. unfold MAX_FILENAME_LEN in E. split; [lia|by apply E].
Qed.

Lemma submitted_wf h : helpers_ok h -> wf (submitted h).
Proof.
  intros Hh. unfold submitted.
  destruct (seen_args_ok h Hh) as [Hl Hs]. destruct (seen_args h) as [l bad]. simpl in Hl, Hs.
  destruct (u32_halves _ (ok_pid_tgid h Hh)) as [_ Hp].
  destruct (u32_halves _ (ok_uid_gid h Hh)) as [_ Hg].
  constructor; cbn -[Z.of_nat wrapU stored_args stored_lens Z.div Z.modulo]; try done.
  - apply Hh.
  - by apply wrapU_is_u.
  - by apply wrapU_is_u.
  - destruct (current_comm h) as [c|] eqn:E; [by apply (ok_current_comm h Hh)|done].
  - destruct (seen_filename h) as [b|] eqn:E; [|done].
    destruct (seen_filename_ok h b Hh E). by apply (store_str_length 256).
  - destruct (seen_filename h); [by apply wrapU_is_u|done].
  - unfold stored_args. rewrite length_app, length_fmap, length_replicate. lia.
  - unfold stored_args. apply Forall_app. split; [|by apply Forall_replicate].
    apply Forall_fmap. eapply Forall_impl; [exact Hs|]. intros b [? ?]. by apply (store_str_length 32).
  - unfold stored_lens. rewrite length_app, length_fmap, length_replicate. lia.
  - unfold stored_lens. apply Forall_app. split; [|by apply Forall_replicate].
    apply Forall_fmap, Forall_true. intros b. by apply wrapU_is_u.
  - unfold is_u. lia.
  - destruct bad; [done|]. by destruct (seen_filename h).
Qed.

Lemma extract_stored_args l :
  Forall (fun b => (length b < 32)%nat /\ events.no_nul b) l ->
  zip_with (fun a n => events.until_nul (events.clip a n))
    (store_str (zeros 32) <$> l)
    ((fun b : gostring => wrapU 16 (Z.of_nat (length b))) <$> l) = l.
Proof.
  induction 1 as [|b l [Hb Hn] Hl IH]; [done|]. rewrite !fmap_cons. cbn [zip_with].
  rewrite IH. f_equal. by apply (extract_stored 32).
Qed.

Lemma arg_strings_submitted h :
  helpers_ok h -> arg_strings (submitted h) = (seen_args h).1.
Proof.
  intros Hh. destruct (seen_args_ok h Hh) as [Hl Hs]. unfold submitted.
  destruct (seen_args h) as [l bad]. simpl in Hl, Hs.
  unfold arg_strings, arg_count, MAX_ARGS. cbn -[Z.of_nat Z.min take stored_args stored_lens].
  rewrite Z.min_r, Nat2Z.id by lia. unfold stored_args, stored_lens.
  rewrite !take_app_length' by by rewrite length_fmap.
  by apply extract_stored_args.
Qed.

Lemma view_submitted boot h : helpers_ok h -> view boot (submitted h) = observed boot h.
Proof.
  intros Hh. pose proof (arg_strings_submitted h Hh) as Ha.
  destruct (seen_args_ok h Hh) as [Hl _].
  unfold view, observed. rewrite Ha. unfold submitted.
  destruct (seen_args h) as [l bad]. simpl in Hl.
  cbn -[wrapU wrapI Z.of_nat Z.min events.command_line store_str events.until_nul events.clip
        zeros Z.div Z.modulo bool_decide].
  assert (events.until_nul (events.clip
    match seen_filename h with Some b => store_str (zeros 256) b | None => zeros 256 end
    match seen_filename h with Some b => wrapU 16 (Z.of_nat (length b)) | None => 0 end) =
    default [] (seen_filename h)) as ->.
  { destruct (seen_filename h) as [b|] eqn:E; [|done].
    destruct (seen_filename_ok h b Hh E). by apply (extract_stored 256). }
  assert (events.until_nul (default (zeros 16) (current_comm h)) =
    events.until_nul (default [] (current_comm h))) as -> by by destruct (current_comm h).
  rewrite Z.min_r by (unfold MAX_ARGS; lia). f_equal.
  by destruct bad, (seen_filename h).
Qed.

(** ** From the kernel to the broker *)

Lemma submitted_decodes boot h extra :
  helpers_ok h -> reserve h = true ->
  exists e, try_sys_enter_execve h = Some e /\ wf e /\
    Z.of_nat (length (to_bytes e)) = EVENT_SIZE /\
    events.Decode boot (to_bytes e ++ extra) = Ok (observed boot h).
Proof.
  intros Hh Hr. exists (submitted h).
  split; [by apply try_sys_enter_execve_submitted|].
  pose proof (submitted_wf h Hh) as Hw. split; [done|]. split; [by rewrite to_bytes_length|].
  rewrite Decode_view by (rewrite length_app, to_bytes_length by done; lia).
  by rewrite of_bytes_to_bytes, view_submitted.
Qed.

(** C14: when the ring buffer has room, the sensor submits one well-formed
    504-byte record, and the broker's [Decode] of it returns exactly what
    the helpers reported: the thread-group and thread ids, the user and
    group, the file name and the leading arguments up to the first NULL or
    unreadable pointer, and the truncation flag set exactly when a read of
    the file name or of an argument's bytes failed. *)
Theorem sensor_to_broker boot h extra :
  helpers_ok h -> reserve h = true ->
  exists e, try_sys_enter_execve h = Some e /\ wf e /\
    Z.of_nat (length (to_bytes e)) = EVENT_SIZE /\
    events.Decode boot (to_bytes e ++ extra) = Ok (observed boot h).
Proof. apply submitted_decodes. Qed.

(** ** A concrete kernel *)

(** User memory: NUL-terminated strings at some addresses and pointers at
    others.  [bpf_probe_read_user_str] copies at most [n - 1] bytes and
    always terminates the copy. *)
Record user_mem := mkMem {
  mem_strings : gmap Z gostring;
  mem_pointers : gmap Z Z
}.

Definition user_read_str (m : user_mem) (p n : Z) : option (list byte) :=
  if bool_decide (0 < n) then
    s ← mem_strings m !! p;
    Some (take (Z.to_nat (n - 1)) (events.until_nul s))
  else None.

Definition user_helpers (m : user_mem) (filename argv tgid tg uid gid : Z)
    (cm : gostring) (now : Z) : helpers :=
  {| reserve := true;
     ktime_get_ns := wrapU 64 now;
     current_pid_tgid := wrapU 64 (tgid * 2 ^ 32 + tg);
     current_uid_gid := wrapU 64 (gid * 2 ^ 32 + uid);
     current_comm := Some (take 16 (cm ++ zeros 16));
     read_at := fun off => if off =? FILENAME_OFFSET then Some filename
                           else if off =? ARGV_OFFSET then Some argv else None;
     probe_read_user := fun p => mem_pointers m !! p;
     probe_read_user_str_bytes := user_read_str m |}.

Lemma until_nul_take n s : events.no_nul (take n (events.until_nul s)).
Proof.
  unfold events.no_nul. intros H. apply (events.until_nul_no_nul s).
  apply elem_of_take in H as (i & Hi & _). by eapply list_elem_of_lookup_2.
Qed.

Lemma user_helpers_ok m fn av tgid tg uid gid cm now :
  helpers_ok (user_helpers m fn av tgid tg uid gid cm now).
Proof.
  constructor; cbn -[wrapU]; try by apply wrapU_is_u.
  - intros c [= <-]. rewrite length_take, length_app. unfold zeros. rewrite length_replicate. lia.
  - intros p n b. unfold user_read_str. case_bool_decide; [|done].
    destruct (mem_strings m !! p) as [s|]; simpl; [|done]. intros [= <-].
    split; [rewrite length_take; lia|apply until_nul_take].
Qed.

(** The [truncated] flag does not report truncation.  A path of 256
    bytes or more, all of it readable, reaches the broker cut to 255 bytes
    with [Truncated] false, although the struct documents the flag as set
    when the file name was truncated. *)
Lemma long_path_not_flagged m fn av tgid tg uid gid cm now boot s :
  let h := user_helpers m fn av tgid tg uid gid cm now in
  mem_strings m !! fn = Some s -> events.no_nul s -> (256 <= length s)%nat ->
  (seen_args h).2 = false ->
  exists e ev, try_sys_enter_execve h = Some e /\
    events.Decode boot (to_bytes e) = Ok ev /\
    events.Filename ev = take 255 s /\ events.Filename ev <> s /\
    events.Truncated ev = false.
Proof.
  intros h Hs Hn Hlen Hbad.
  destruct (submitted_decodes boot h [] ltac:(apply user_helpers_ok) eq_refl)
    as (e & He & _ & _ & Hd).
  rewrite app_nil_r in Hd. exists e, (observed boot h). split_and!; [done..| | |];
    unfold observed; destruct (seen_args h) as [l bad]; simpl in Hbad; subst bad;
    assert (seen_filename h = Some (take 255 s)) as ->
      by (unfold seen_filename, h; cbn; unfold user_read_str; cbn; rewrite Hs; cbn;
          by rewrite events.until_nul_id);
    cbn -[take]; [done| |done].
  intros E. apply (f_equal length) in E. rewrite length_take in E. lia.
Qed.

(** [/bin/cat a], and a program at a path of 300 bytes. *)
Definition sample_mem : user_mem :=
  {| mem_strings := {[ 4096 := bs "/bin/cat"; 4200 := bs "cat"; 4204 := bs "a";
                       8192 := replicate 300 x2f ]};
     mem_pointers := {[ 5000 := 4200; 5008 := 4204; 5016 := 0 ]} |}.

Definition sample_helpers (fn : Z) : helpers :=
  user_helpers sample_mem fn 5000 77 78 1000 100 (bs "bash") 99.

Lemma sensor_to_broker_witness :
  (exists e, try_sys_enter_execve (sample_helpers 4096) = Some e /\ wf e /\
    Z.of_nat (length (to_bytes e)) = EVENT_SIZE /\
    events.Decode 5 (to_bytes e ++ []) = Ok (observed 5 (sample_helpers 4096))) /\
  events.CommandLine (observed 5 (sample_helpers 4096)) = bs "/bin/cat cat a" /\
  events.PID (observed 5 (sample_helpers 4096)) = 77.
Proof.
  split; [|vm_compute; split; reflexivity].
  apply (sensor_to_broker 5 (sample_helpers 4096) []); [apply user_helpers_ok|reflexivity].
Defined.

Lemma long_path_not_flagged_witness :
  exists e ev, try_sys_enter_execve (sample_helpers 8192) = Some e /\
    events.Decode 5 (to_bytes e) = Ok ev /\
    events.Filename ev = take 255 (replicate 300 x2f) /\
    events.Filename ev <> replicate 300 x2f /\
    events.Truncated ev = false.
Proof.
  apply (long_path_not_flagged sample_mem 8192 5000 77 78 1000 100 (bs "bash") 99 5
    (replicate 300 x2f)).
  - vm_compute. reflexivity.
  - apply (bool_decide_unpack _). vm_compute. exact I.
  - apply (bool_decide_unpack _). vm_compute. exact I.
  - vm_compute. reflexivity.
Defined.
