(* ===== verification/Triage.v ===== *)
(** * Local triage ([broker/internal/triage/triage.go])

    The heuristics that decide which events are sent to the AI hunter, with
    the slice expressions of the source kept partial, and their declarative
    meaning. *)
From Stdlib Require Import ZArith Lia.
From Stdlib Require Import Strings.Byte Strings.String.
From stdpp Require Import base list gmap.
From S2P Require Import Prelude GoStrings Events.
#[local] Open Scope Z_scope.
#[local] Open Scope go_scope.

Module triage.

(** The functions of this package return no error. *)
Abbreviation total := (go_result Empty_set).

Definition interpreterBinaries : gset gostring :=
  list_to_set (bs <$>
    ["python"; "python3"; "python2"; "perl"; "ruby"; "php"; "node";
     "bash"; "sh"; "dash"; "zsh"; "nc"; "ncat"; "netcat"; "socat"]%string).

Definition suspiciousDirs : list gostring :=
  bs <$> ["/tmp/"; "/dev/shm/"; "/var/tmp/"; "/run/"]%string.

Definition slash : byte := x2f.
Definition dot : byte := x2e.

Definition baseName (path : gostring) : total gostring :=
  let i := strings.LastIndex path (bs "/") in
  if 0 <=? i then slice path (i + 1) (Z.of_nat (length path)) else Ok path.

Fixpoint hasExecFlag (args : list gostring) : bool :=
  match args with
  | [] => false
  | a :: rest => if strings.Contains a (bs "+x") then true else hasExecFlag rest
  end.

(** The loop of [isHiddenPath] over the components of the path. *)
Fixpoint hiddenPart (parts : list gostring) : bool :=
  match parts with
  | [] => false
  | part :: rest =>
      if bool_decide (part = []) || bool_decide (part = bs ".") || bool_decide (part = bs "..")
      then hiddenPart rest
      else if strings.HasPrefix part (bs ".") then true
      else hiddenPart rest
  end.

Definition isHiddenPath (path : gostring) : bool := hiddenPart (strings.Split path slash).

Definition isMasquerading (execBase comm : gostring) : total bool :=
  if bool_decide (execBase = []) || bool_decide (comm = []) then Ok false
  else
    let n := Z.of_nat (length comm) in
    let n := if Z.of_nat (length execBase) <? n then Z.of_nat (length execBase) else n in
    a <-- slice execBase 0 n ;;;
    b <-- slice comm 0 n ;;;
    Ok (bool_decide (a <> b)).

(** The loop over [suspiciousDirs]. *)
Fixpoint inSuspiciousDir (dirs : list gostring) (filename : gostring) : bool :=
  match dirs with
  | [] => false
  | dir :: rest =>
      if strings.HasPrefix filename dir then true else inSuspiciousDir rest filename
  end.

Definition IsSuspicious (e : events.Event) : total bool :=
  base <-- baseName (events.Filename e) ;;;
  if bool_decide (base ∈ interpreterBinaries) then Ok true
  else if inSuspiciousDir suspiciousDirs (events.Filename e) then Ok true
  else if bool_decide (base = bs "chmod") && hasExecFlag (events.Args e) then Ok true
  else if isHiddenPath (events.Filename e) then Ok true
  else
    m <-- isMasquerading base (events.Comm e) ;;;
    if m then Ok true else Ok false.

(** ** Declarative meaning *)

(** [base] is what follows the last slash of [path]. *)
Definition basename_of (path base : gostring) : Prop :=
  (slash ∉ base) /\ (path = base \/ exists dir, path = dir ++ slash :: base).

(** A component that begins with a dot and is neither [.] nor [..]. *)
Definition hidden_component (part : gostring) : Prop :=
  (exists rest, part = dot :: rest) /\ part <> bs "." /\ part <> bs "..".

(** A component of a path: delimited by slashes or the ends of it. *)
Definition component (path part : gostring) : Prop :=
  (slash ∉ part) /\ exists pre post, path = pre ++ part ++ post /\
    (pre = [] \/ exists p, pre = p ++ [slash]) /\ (post = [] \/ exists q, post = slash :: q).

Definition mismatch (base comm : gostring) : Prop :=
  base <> [] /\ comm <> [] /\
  let n := Nat.min (length base) (length comm) in take n base <> take n comm.

(** The five heuristics. *)
Inductive suspicious (e : events.Event) (base : gostring) : Prop :=
  | sus_interpreter : base ∈ interpreterBinaries -> suspicious e base
  | sus_dir dir : dir ∈ suspiciousDirs -> (exists r, events.Filename e = dir ++ r) ->
      suspicious e base
  | sus_chmod a : base = bs "chmod" -> a ∈ events.Args e ->
      (exists p q, a = p ++ bs "+x" ++ q) -> suspicious e base
  | sus_hidden part : component (events.Filename e) part -> hidden_component part ->
      suspicious e base
  | sus_masquerade : mismatch base (events.Comm e) -> suspicious e base.

(** ** Lemmas *)

Lemma baseName_spec path : exists base, baseName path = Ok base /\ basename_of path base.
Proof.
  unfold baseName. change (bs "/") with [slash].
  destruct (strings.LastIndex_byte path slash) as [[-> Hn]|(a & b & -> & Hb & ->)].
  - exists path. split; [done|]. split; [done|by left].
  - exists b. destruct (Z.leb_spec 0 (Z.of_nat (length a))); [|lia].
    rewrite slice_ok by (rewrite ?length_app, ?length_cons; lia).
    split; [|split; [done|right; by exists a]]. f_equal.
    rewrite cons_middle, app_assoc, drop_app_ge, take_ge;
      rewrite ?length_drop, ?length_app; simpl; try lia.
    by replace (Z.to_nat (Z.of_nat (length a) + 1) - (length a + 1))%nat with O by lia.
Qed.

Lemma basename_of_unique path b1 b2 : basename_of path b1 -> basename_of path b2 -> b1 = b2.
Proof.
  intros [H1 D1] [H2 D2].
  destruct D1 as [->|[d1 ->]], D2 as [E|[d2 E]]; [done|..].
  - subst b1. exfalso. apply H1. apply elem_of_app. right. apply elem_of_cons. by left.
  - subst b2. exfalso. apply H2. apply elem_of_app. right. apply elem_of_cons. by left.
  - by apply not_elem_of_app_cons_inv_r in E as (_ & _ & ->).
Qed.

Lemma hasExecFlag_spec args :
  hasExecFlag args = true <-> exists a, a ∈ args /\ exists p q, a = p ++ bs "+x" ++ q.
Proof.
  induction args as [|a args IH]; cbn [hasExecFlag]; [by rewrite exists_elem_nil|].
  rewrite exists_elem_cons, <- IH, <- strings.Contains_spec.
  destruct (strings.Contains _ _); intuition congruence.
Qed.

Lemma hidden_component_test p :
  hidden_component p <->
  bool_decide (p = []) || bool_decide (p = bs ".") || bool_decide (p = bs "..") = false /\
  strings.HasPrefix p (bs ".") = true.
Proof.
  unfold hidden_component.
  rewrite strings.HasPrefix_spec, !orb_false_iff, !bool_decide_eq_false.
  change (bs ".") with [dot]. change (bs "..") with [dot; dot]. split.
  - intros ([r ->] & H1 & H2). split; [by split_and!|by exists r].
  - intros [[[H1 H2] H3] [r ->]]. split_and!; [by exists r|done..].
Qed.

Lemma hiddenPart_spec parts :
  hiddenPart parts = true <-> exists p, p ∈ parts /\ hidden_component p.
Proof.
  induction parts as [|p parts IH]; cbn [hiddenPart]; [by rewrite exists_elem_nil|].
  rewrite exists_elem_cons, <- IH, hidden_component_test.
  destruct (_ || _ || _), (strings.HasPrefix _ _); intuition congruence.
Qed.

Lemma isHiddenPath_spec path :
  isHiddenPath path = true <-> exists p, component path p /\ hidden_component p.
Proof.
  unfold isHiddenPath. rewrite hiddenPart_spec.
  by setoid_rewrite (strings.elem_of_Split path slash).
Qed.

Lemma isMasquerading_spec base comm :
  exists b, isMasquerading base comm = Ok b /\ (b = true <-> mismatch base comm).
Proof.
  unfold isMasquerading, mismatch.
  destruct (bool_decide (base = []) || bool_decide (comm = [])) eqn:E.
  - exists false. split; [done|]. rewrite orb_true_iff, !bool_decide_eq_true in E. naive_solver.
  - rewrite orb_false_iff, !bool_decide_eq_false in E. destruct E as [Hb Hc].
    assert ((if Z.of_nat (length base) <? Z.of_nat (length comm)
             then Z.of_nat (length base) else Z.of_nat (length comm)) =
            Z.of_nat (Nat.min (length base) (length comm))) as ->.
    { destruct (Z.ltb_spec (Z.of_nat (length base)) (Z.of_nat (length comm))); lia. }
    rewrite !slice_prefix by lia. simpl. rewrite Nat2Z.id.
    eexists. split; [done|]. rewrite bool_decide_eq_true. naive_solver.
Qed.

Lemma inSuspiciousDir_spec dirs f :
  inSuspiciousDir dirs f = true <-> exists dir, dir ∈ dirs /\ exists r, f = dir ++ r.
Proof.
  induction dirs as [|d dirs IH]; cbn [inSuspiciousDir]; [by rewrite exists_elem_nil|].
  rewrite exists_elem_cons, <- IH, <- strings.HasPrefix_spec.
  destruct (strings.HasPrefix _ _); intuition congruence.
Qed.

(** The function as a disjunction of its tests. *)
Lemma IsSuspicious_value e base m :
  baseName (events.Filename e) = Ok base ->
  isMasquerading base (events.Comm e) = Ok m ->
  IsSuspicious e = Ok (bool_decide (base ∈ interpreterBinaries) ||
    inSuspiciousDir suspiciousDirs (events.Filename e) ||
    bool_decide (base = bs "chmod") && hasExecFlag (events.Args e) ||
    isHiddenPath (events.Filename e) || m).
Proof.
  intros Eb Em. unfold IsSuspicious. rewrite Eb. cbn [go_bind]. rewrite Em. cbn [go_bind].
  destruct (bool_decide (base ∈ _)), (inSuspiciousDir _ _),
    (bool_decide (base = bs "chmod") && _), (isHiddenPath _), m; done.
Qed.

Lemma suspicious_iff e base :
  suspicious e base <->
  base ∈ interpreterBinaries \/
  (exists dir, dir ∈ suspiciousDirs /\ exists r, events.Filename e = dir ++ r) \/
  (base = bs "chmod" /\ exists a, a ∈ events.Args e /\ exists p q, a = p ++ bs "+x" ++ q) \/
  (exists p, component (events.Filename e) p /\ hidden_component p) \/
  mismatch base (events.Comm e).
Proof.
  split.
  - intros []; eauto 10.
  - intros [?|[(?&?&?)|[(?&?&?&?)|[(?&?&?)|?]]]];
      eauto using sus_interpreter, sus_dir, sus_chmod, sus_hidden, sus_masquerade.
Qed.

(** ** The triage contract *)

Lemma IsSuspicious_cases e :
  exists base b, basename_of (events.Filename e) base /\
    IsSuspicious e = Ok b /\ (b = true <-> suspicious e base).
Proof.
  destruct (baseName_spec (events.Filename e)) as (base & Eb & Hbase).
  destruct (isMasquerading_spec base (events.Comm e)) as (m & Em & Hm).
  exists base. eexists. split; [done|]. split; [by apply IsSuspicious_value|].
  rewrite suspicious_iff, !orb_true_iff, andb_true_iff, !bool_decide_eq_true.
  rewrite inSuspiciousDir_spec, isHiddenPath_spec, hasExecFlag_spec, Hm. tauto.
Qed.

(** C16: [IsSuspicious] never panics and decides exactly the five documented
    heuristics, taken with the real base name of the file: a well-known
    interpreter, a file under a world-writable directory, [chmod] with a
    [+x] argument, a hidden path component, or a base name that differs
    from the comm on their common length. *)
Theorem IsSuspicious_spec e :
  exists base b, basename_of (events.Filename e) base /\
    IsSuspicious e = Ok b /\ (b = true <-> suspicious e base).
Proof. apply IsSuspicious_cases. Qed.

(** The verdict as a plain boolean, for the callers. *)
Definition verdict (e : events.Event) : bool :=
  match IsSuspicious e with Ok b => b | _ => false end.

Lemma IsSuspicious_ok e : IsSuspicious e = Ok (verdict e).
Proof.
  unfold verdict. by destruct (IsSuspicious_cases e) as (base & b & _ & -> & _).
Qed.

(** The comm comparison has no false positive from the kernel's
    truncation alone: an event whose comm is the base name of its file cut
    to [TASK_COMM_LEN - 1] bytes is never flagged as masquerading. *)
Lemma truncated_comm_not_masquerading base k :
  isMasquerading base (take k base) = Ok false.
Proof.
  destruct (isMasquerading_spec base (take k base)) as (b & -> & Hb).
  destruct b; [|done]. destruct (proj1 Hb eq_refl) as (_ & _ & Hne). cbn zeta in Hne.
  exfalso. apply Hne. rewrite take_take, length_take. f_equal. lia.
Qed.

End triage.
