(* ===== verification/GoTime.v ===== *)
(** * Go's [time.Time] as text

    The RFC 3339 form in which [encoding/json] writes an event's timestamp
    and reads it back.  A time is its nanosecond count since the Unix
    epoch; [zone] is the local zone's offset in minutes. *)
From Stdlib Require Import ZArith Lia.
From Stdlib Require Import Strings.Byte Strings.String.
From stdpp Require Import base list sets.
From S2P Require Import Prelude.
#[local] Open Scope Z_scope.

(** ** Decimal digits *)

Definition digit (d : Z) : byte := byte_of (48 + d).

Definition digit_val (c : byte) : option Z :=
  let v := byte_val c - 48 in
  if (0 <=? v) && (v <=? 9) then Some v else None.

Lemma digit_val_digit d : 0 <= d < 10 -> digit_val (digit d) = Some d.
Proof.
  intros Hd. unfold digit_val, digit. rewrite byte_val_of, Z.mod_small by lia.
  replace (48 + d - 48) with d by lia.
  by rewrite (proj2 (Z.leb_le 0 d)), (proj2 (Z.leb_le d 9)) by lia.
Qed.

(** [z] in exactly [w] digits. *)
Fixpoint digits (w : nat) (z : Z) : list byte :=
  match w with
  | O => []
  | S w' => digit (z / 10 ^ Z.of_nat w' mod 10) :: digits w' z
  end.

Lemma length_digits w z : length (digits w z) = w.
Proof. induction w; simpl; auto. Qed.

(** Exactly [w] digits read as a number, [acc] before them. *)
Fixpoint read_digits (w : nat) (acc : Z) (s : list byte) : option (Z * list byte) :=
  match w with
  | O => Some (acc, s)
  | S w' =>
      match s with
      | c :: s' => d ← digit_val c; read_digits w' (acc * 10 + d) s'
      | [] => None
      end
  end.

Lemma div_pow_step z w :
  z / 10 ^ Z.of_nat (S w) * 10 + z / 10 ^ Z.of_nat w mod 10 = z / 10 ^ Z.of_nat w.
Proof.
  rewrite Nat2Z.inj_succ, Z.pow_succ_r by lia.
  assert (0 < 10 ^ Z.of_nat w) by (apply Z.pow_pos_nonneg; lia).
  rewrite (Z.mul_comm 10), <- Z.div_div by lia.
  pose proof (Z.div_mod (z / 10 ^ Z.of_nat w) 10 ltac:(lia)). lia.
Qed.

Lemma read_digits_step w z s :
  read_digits w (z / 10 ^ Z.of_nat w) (digits w z ++ s) = Some (z, s).
Proof.
  induction w as [|w IH]; cbn [read_digits digits app].
  - by rewrite Z.div_1_r.
  - rewrite digit_val_digit by (apply Z.mod_pos_bound; lia). cbn [mbind option_bind].
    by rewrite div_pow_step.
Qed.

Lemma read_digits_digits w z s :
  0 <= z < 10 ^ Z.of_nat w -> read_digits w 0 (digits w z ++ s) = Some (z, s).
Proof. intros Hz. rewrite <- (read_digits_step w z s). by rewrite Z.div_small. Qed.

Lemma digits_are_digits w z c : c ∈ digits w z -> is_Some (digit_val c).
Proof.
  induction w as [|w IH]; cbn [digits]; [by intros ?%elem_of_nil|].
  intros [->|Hc]%elem_of_cons; [|by apply IH].
  rewrite digit_val_digit by (apply Z.mod_pos_bound; lia). by eexists.
Qed.

(** A number without leading zeros: the number of digits it needs. *)
Fixpoint width_from (fuel : nat) (z : Z) : nat :=
  match fuel with
  | O => 1
  | S fuel' => if z <? 10 then 1 else S (width_from fuel' (z / 10))
  end.

(** Twenty digits hold any 64-bit value. *)
Definition width (z : Z) : nat := width_from 20 z.

Definition decimal (z : Z) : list byte := digits (width z) z.

Lemma width_from_bound fuel z :
  0 <= z < 10 ^ Z.of_nat (S fuel) ->
  z < 10 ^ Z.of_nat (width_from fuel z) /\
  (z / 10 ^ (Z.of_nat (width_from fuel z) - 1) = 0 -> z = 0 /\ width_from fuel z = 1%nat).
Proof.
  revert z. induction fuel as [|fuel IH]; intros z Hz; cbn [width_from].
  { simpl in *. rewrite Z.div_1_r. lia. }
  destruct (Z.ltb_spec z 10) as [Hlt|Hge]; [simpl; rewrite Z.div_1_r; lia|].
  assert (0 <= z / 10 < 10 ^ Z.of_nat (S fuel)) as Hz'.
  { split; [apply Z.div_pos; lia|]. apply Z.div_lt_upper_bound; [lia|].
    rewrite <- Z.pow_succ_r by lia. rewrite <- Nat2Z.inj_succ. lia. }
  destruct (IH _ Hz') as [Hb Hlead]. set (v := width_from fuel (z / 10)) in *.
  assert (1 <= v)%nat by (unfold v; destruct fuel; cbn; [lia|]; destruct (_ <? _); lia).
  rewrite Nat2Z.inj_succ. split.
  - rewrite Z.pow_succ_r by lia. pose proof (Z.div_mod z 10 ltac:(lia)).
    pose proof (Z.mod_pos_bound z 10 ltac:(lia)). lia.
  - replace (Z.succ (Z.of_nat v) - 1) with (Z.succ (Z.of_nat v - 1)) by lia.
    rewrite Z.pow_succ_r by lia. rewrite <- Z.div_div by (try apply Z.pow_pos_nonneg; lia).
    intros Hq. destruct (Hlead Hq) as [H0 _]. exfalso.
    assert (1 <= z / 10) by (apply Z.div_le_lower_bound; lia). lia.
Qed.

Lemma decimal_bound z : 0 <= z < 2 ^ 64 -> z < 10 ^ Z.of_nat (width z).
Proof. intros Hz. apply width_from_bound. simpl in *. lia. Qed.

(** ** Dates

    Days are counted from 1 March of year 0, so that leap days end a year;
    the cycles of 400, 100, 4 and 1 years are cut off one after another. *)

Definition epoch_days : Z := 719468.

Lemma min_cut k q r :
  0 < q -> 0 <= k -> 0 <= r -> r <= q * (k + 1) ->
  0 <= Z.min k (r / q) <= k /\ 0 <= r - q * Z.min k (r / q) <= q /\
  (r - q * Z.min k (r / q) = q -> Z.min k (r / q) = k /\ r = q * (k + 1)).
Proof.
  intros Hq Hk Hr Hr'. pose proof (Z.div_mod r q ltac:(lia)).
  pose proof (Z.mod_pos_bound r q Hq). assert (0 <= r / q) by (by apply Z.div_pos).
  destruct (Z.min_spec k (r / q)) as [[Hlt ->]|[Hle ->]]; [|nia].
  assert (q * k + q <= q * (r / q)) by nia. nia.
Qed.

(** Year counted from March, and day of that year. *)
Definition march_year (n : Z) : Z * Z :=
  let n400 := n / 146097 in let n := n mod 146097 in
  let n100 := Z.min 3 (n / 36524) in let n := n - 36524 * n100 in
  let n4 := n / 1461 in let n := n mod 1461 in
  let n1 := Z.min 3 (n / 365) in let n := n - 365 * n1 in
  (400 * n400 + 100 * n100 + 4 * n4 + n1, n).

Definition civil_of_days (days : Z) : Z * Z * Z :=
  let '(y, doy) := march_year (days + epoch_days) in
  let mp := (5 * doy + 2) / 153 in
  let d := doy - (153 * mp + 2) / 5 + 1 in
  let m := if mp <? 10 then mp + 3 else mp - 9 in
  ((if m <=? 2 then y + 1 else y), m, d).

Definition days_of_civil (y m d : Z) : Z :=
  let y := if m <=? 2 then y - 1 else y in
  let mp := if m <=? 2 then m + 9 else m - 3 in
  let doy := (153 * mp + 2) / 5 + d - 1 in
  365 * y + y / 4 - y / 100 + y / 400 + doy - epoch_days.

Definition is_leap (y : Z) : bool :=
  (y mod 4 =? 0) && (negb (y mod 100 =? 0) || (y mod 400 =? 0)).

Definition days_in (m y : Z) : Z :=
  if m =? 2 then (if is_leap y then 29 else 28)
  else if (m =? 4) || (m =? 6) || (m =? 9) || (m =? 11) then 30 else 31.

Lemma march_year_spec n y doy :
  march_year n = (y, doy) ->
  n = 365 * y + y / 4 - y / 100 + y / 400 + doy /\ 0 <= doy <= 365 /\
  (doy = 365 -> is_leap (y + 1) = true).
Proof.
  unfold march_year. cbn zeta.
  pose proof (Z.div_mod n 146097 ltac:(lia)). pose proof (Z.mod_pos_bound n 146097 ltac:(lia)).
  set (n400 := n / 146097) in *. set (r := n mod 146097) in *.
  clearbody n400 r.
  destruct (min_cut 3 36524 r) as (H100 & Hr1 & Hlast100); [lia..|].
  set (n100 := Z.min 3 (r / 36524)) in *. set (r1 := r - 36524 * n100) in *.
  assert (r = r1 + 36524 * n100) by (unfold r1; lia). clearbody n100 r1.
  pose proof (Z.div_mod r1 1461 ltac:(lia)). pose proof (Z.mod_pos_bound r1 1461 ltac:(lia)).
  set (n4 := r1 / 1461) in *. set (r2 := r1 mod 1461) in *.
  clearbody n4 r2.
  destruct (min_cut 3 365 r2) as (Hn1 & Hdoy & Hlast1); [lia..|].
  set (n1 := Z.min 3 (r2 / 365)) in *. clearbody n1.
  assert (0 <= n4 <= 24) by lia.
  intros [= <- <-].
  set (y := 400 * n400 + 100 * n100 + 4 * n4 + n1).
  assert (y / 4 = 100 * n400 + 25 * n100 + n4) as -> by (symmetry; apply (Z.div_unique_pos y 4 _ (n1)); unfold y; lia).
  assert (y / 100 = 4 * n400 + n100) as -> by (symmetry; apply (Z.div_unique_pos y 100 _ (4 * n4 + n1)); unfold y; lia).
  assert (y / 400 = n400) as -> by (symmetry; apply (Z.div_unique_pos y 400 _ (100 * n100 + 4 * n4 + n1)); unfold y; lia).
  split; [lia|]. split; [lia|]. intros E.
  destruct (Hlast1 E) as [-> ->].
  assert (n4 = 24 -> n100 = 3) by lia.
  unfold is_leap. rewrite andb_true_iff, orb_true_iff, negb_true_iff, !Z.eqb_eq, Z.eqb_neq.
  assert ((y + 1) mod 4 = 0) as -> by
    (symmetry; apply (Z.mod_unique_pos _ _ (100 * n400 + 25 * n100 + n4 + 1)); unfold y; lia).
  split; [done|]. destruct (decide (n4 = 24)).
  - right. symmetry. apply (Z.mod_unique_pos _ _ (n400 + 1)); unfold y; lia.
  - left. assert ((y + 1) mod 100 = 4 * n4 + 4) as -> by
      (symmetry; apply (Z.mod_unique_pos _ _ (4 * n400 + n100)); unfold y; lia). lia.
Qed.

(** The month cut off a year that starts in March. *)
Lemma march_month doy :
  0 <= doy <= 365 ->
  let mp := (5 * doy + 2) / 153 in
  let d := doy - (153 * mp + 2) / 5 + 1 in
  0 <= mp <= 11 /\ 1 <= d <= 31 /\ (mp = 11 -> d <= 29 /\ (d = 29 -> doy = 365)) /\
  (mp = 1 \/ mp = 3 \/ mp = 6 \/ mp = 8 -> d <= 30).
Proof.
  intros Hdoy mp d.
  assert (153 * mp <= 5 * doy + 2 < 153 * mp + 153) as Hmp.
  { pose proof (Z.div_mod (5 * doy + 2) 153 ltac:(lia)).
    pose proof (Z.mod_pos_bound (5 * doy + 2) 153 ltac:(lia)). fold mp in H. lia. }
  subst d. clearbody mp.
  assert (mp = 0 \/ mp = 1 \/ mp = 2 \/ mp = 3 \/ mp = 4 \/ mp = 5 \/ mp = 6 \/ mp = 7 \/
    mp = 8 \/ mp = 9 \/ mp = 10 \/ mp = 11) as Hc by lia.
  repeat destruct Hc as [->|Hc]; try subst mp;
    match goal with |- context [doy - ?q + 1] => let v := eval vm_compute in q in change q with v end;
    lia.
Qed.

Lemma civil_of_days_spec days y m d :
  civil_of_days days = (y, m, d) ->
  days_of_civil y m d = days /\ 1 <= m <= 12 /\ 1 <= d <= days_in m y.
Proof.
  unfold civil_of_days. destruct (march_year _) as [y0 doy] eqn:E.
  apply march_year_spec in E as (E & Hdoy & Hleap).
  destruct (march_month doy Hdoy) as (Hmp & Hd & Hfeb & Hshort).
  set (mp := (5 * doy + 2) / 153) in *. set (d0 := doy - (153 * mp + 2) / 5 + 1) in *.
  intros [= <- <- <-]. fold mp d0.
  assert (0 <= (if mp <? 10 then mp + 3 else mp - 9) - 1 <= 11) as Hm by (destruct (Z.ltb_spec mp 10); lia).
  split; [|split; [lia|]].
  - unfold days_of_civil.
    destruct (Z.ltb_spec mp 10);
      [destruct (Z.leb_spec (mp + 3) 2); [lia|]|destruct (Z.leb_spec (mp - 9) 2); [|lia]].
    + replace (mp + 3 - 3) with mp by lia. unfold d0. lia.
    + replace (mp - 9 + 9) with mp by lia. replace (y0 + 1 - 1) with y0 by lia. unfold d0. lia.
  - split; [lia|]. unfold days_in.
    destruct (Z.ltb_spec mp 10).
    + destruct (Z.eqb_spec (mp + 3) 2); [lia|].
      destruct ((_ =? 4) || _ || _ || _) eqn:Es; [|lia].
      rewrite !orb_true_iff, !Z.eqb_eq in Es. apply Hshort. lia.
    + destruct (Z.leb_spec (mp - 9) 2); [|lia]. destruct (Z.eqb_spec (mp - 9) 2) as [E2|].
      * destruct (Hfeb ltac:(lia)) as [? H29]. destruct (is_leap (y0 + 1)) eqn:El; [lia|].
        assert (d0 <> 29) by (intros ?; specialize (Hleap (H29 ltac:(done))); congruence). lia.
      * destruct (_ || _) eqn:Es; [|lia]. rewrite !orb_true_iff, !Z.eqb_eq in Es. lia.
Qed.

(** ** RFC 3339 *)

Definition minute_ns : Z := 60000000000.
Definition day_ns : Z := 86400000000000.

Definition dash : byte := x2d.
Definition colon : byte := x3a.
Definition period : byte := x2e.
Definition char_T : byte := x54.
Definition char_Z : byte := x5a.
Definition plus : byte := x2b.
Definition zero : byte := x30.

(** Trailing zeros dropped. *)
Fixpoint strip_zeros (s : list byte) : list byte :=
  match s with
  | [] => []
  | c :: s' =>
      match strip_zeros s' with
      | [] => if decide (c = zero) then [] else [c]
      | t => c :: t
      end
  end.

Definition format_fraction (ns : Z) : list byte :=
  match strip_zeros (digits 9 ns) with
  | [] => []
  | f => period :: f
  end.

Definition format_zone (zone : Z) : list byte :=
  if zone =? 0 then [char_Z]
  else (if zone <? 0 then dash else plus) ::
       digits 2 (Z.abs zone / 60) ++ colon :: digits 2 (Z.abs zone mod 60).

(** [Time.MarshalJSON] without the quotes: refuses years outside
    [0, 9999]. *)
Definition format_time (zone t : Z) : option (list byte) :=
  let l := t + zone * minute_ns in
  let '(y, m, d) := civil_of_days (l / day_ns) in
  let r := l mod day_ns in
  let s := r / 1000000000 in
  if (y <? 0) || (9999 <? y) then None
  else Some (digits 4 y ++ dash :: digits 2 m ++ dash :: digits 2 d ++ char_T ::
             digits 2 (s / 3600) ++ colon :: digits 2 (s / 60 mod 60) ++ colon ::
             digits 2 (s mod 60) ++ format_fraction (r mod 1000000000) ++ format_zone zone).

Definition expect (c : byte) (s : list byte) : option (list byte) :=
  match s with
  | x :: s' => if decide (x = c) then Some s' else None
  | [] => None
  end.

(** A two-digit or four-digit field within bounds. *)
Definition field (w : nat) (lo hi : Z) (s : list byte) : option (Z * list byte) :=
  '(v, s) ← read_digits w 0 s;
  if (lo <=? v) && (v <=? hi) then Some (v, s) else None.

(** The digits of a fraction: their value in the first [n] places. *)
Fixpoint read_fraction (n : nat) (acc : Z) (s : list byte) : Z * list byte :=
  match s with
  | c :: s' =>
      match digit_val c with
      | Some d =>
          match n with
          | O => read_fraction O acc s'
          | S n' => read_fraction n' (acc * 10 + d) s'
          end
      | None => (acc * 10 ^ Z.of_nat n, s)
      end
  | [] => (acc * 10 ^ Z.of_nat n, [])
  end.

Definition parse_fraction (s : list byte) : Z * list byte :=
  match s with
  | c :: (d :: _) as s' =>
      if decide (c = period) then
        match digit_val d with
        | Some _ => read_fraction 9 0 (drop 1 s)
        | None => (0, s)
        end
      else (0, s)
  | _ => (0, s)
  end.

(** The zone at the end, in minutes. *)
Definition parse_zone (s : list byte) : option Z :=
  if decide (s = [char_Z]) then Some 0
  else
    match s with
    | sign :: s =>
        '(h, s) ← field 2 0 23 s;
        s ← expect colon s;
        '(mi, s) ← field 2 0 59 s;
        if negb (bool_decide (s = [])) then None
        else if decide (sign = dash) then Some (- (h * 60 + mi))
        else if decide (sign = plus) then Some (h * 60 + mi)
        else None
    | [] => None
    end.

(** [time]'s strict RFC 3339 parser. *)
Definition parse_time (s : list byte) : option Z :=
  '(y, s) ← field 4 0 9999 s; s ← expect dash s;
  '(m, s) ← field 2 1 12 s; s ← expect dash s;
  '(d, s) ← field 2 1 (days_in m y) s; s ← expect char_T s;
  '(h, s) ← field 2 0 23 s; s ← expect colon s;
  '(mi, s) ← field 2 0 59 s; s ← expect colon s;
  '(sec, s) ← field 2 0 59 s;
  let '(ns, s) := parse_fraction s in
  z ← parse_zone s;
  Some (days_of_civil y m d * day_ns + ((h * 60 + mi) * 60 + sec) * 1000000000 + ns - z * minute_ns).

(** ** The round trip *)

Lemma field_digits w lo hi v s :
  0 <= v < 10 ^ Z.of_nat w -> lo <= v <= hi -> field w lo hi (digits w v ++ s) = Some (v, s).
Proof.
  intros Hv Hb. unfold field. rewrite read_digits_digits by done. cbn [mbind option_bind].
  by rewrite (proj2 (Z.leb_le lo v)), (proj2 (Z.leb_le v hi)) by lia.
Qed.

Lemma expect_cons c s : expect c (c :: s) = Some s.
Proof. unfold expect. by rewrite decide_True. Qed.

Lemma expect_ne c x s : x <> c -> expect c (x :: s) = None.
Proof. intros H. unfold expect. by rewrite decide_False. Qed.

Lemma expect_Some c s s' : expect c s = Some s' -> s = c :: s'.
Proof. destruct s as [|x s]; [done|]. unfold expect. case_decide; [|done]. by intros [= <-]; subst. Qed.

Lemma strip_zeros_spec s : exists k, s = strip_zeros s ++ replicate k zero.
Proof.
  induction s as [|c s [k IH]]; [by exists 0%nat|]. cbn [strip_zeros].
  destruct (strip_zeros s) as [|x t] eqn:E.
  - case_decide as Hc; [|exists k; by rewrite IH at 1]. exists (S k). rewrite IH at 1. by subst.
  - exists k. by rewrite IH at 1.
Qed.

(** A fraction reads as the digits it stands for, padded with zeros. *)
Lemma read_fraction_digits n acc f k s :
  Forall (fun c => is_Some (digit_val c)) f -> (length f + k)%nat = n ->
  match s with [] => True | c :: _ => digit_val c = None end ->
  Some (read_fraction n acc (f ++ s)) = read_digits n acc (f ++ replicate k zero ++ s).
Proof.
  intros Hf. revert n acc. induction Hf as [|c f [d Hd] Hf IH]; intros n acc Hn Hs; cbn [length app] in *.
  - assert (read_fraction n acc s = (acc * 10 ^ Z.of_nat n, s)) as ->.
    { destruct s as [|c s]; [by destruct n|]. destruct n; cbn [read_fraction]; by rewrite Hs. }
    subst n. clear. revert acc. induction k as [|k IH]; intros acc; cbn [Nat.add replicate app read_digits].
    + by rewrite Z.mul_1_r.
    + change (digit_val zero) with (Some 0). cbn [mbind option_bind].
      change (0 + k)%nat with k in IH. rewrite <- IH.
      f_equal. f_equal. rewrite Nat2Z.inj_succ, Z.pow_succ_r by lia. lia.
  - subst n. cbn [Nat.add read_fraction read_digits]. rewrite Hd. cbn [mbind option_bind].
    by apply IH.
Qed.

Lemma parse_format_fraction ns s :
  0 <= ns < 1000000000 ->
  match s with [] => True | c :: _ => c <> period /\ digit_val c = None end ->
  parse_fraction (format_fraction ns ++ s) = (ns, s).
Proof.
  intros Hns Hs. unfold format_fraction.
  destruct (strip_zeros_spec (digits 9 ns)) as [k E].
  assert (Forall (fun c => is_Some (digit_val c)) (strip_zeros (digits 9 ns))) as Hf.
  { apply (Forall_app _ _ (replicate k zero)). rewrite <- E.
    apply Forall_forall, digits_are_digits. }
  pose proof (f_equal length E) as El. rewrite length_digits, length_app, length_replicate in El.
  assert (read_fraction 9 0 (strip_zeros (digits 9 ns) ++ s) = (ns, s)) as Hr.
  { apply (inj Some). rewrite (read_fraction_digits 9 0 _ k s Hf) by (lia || by destruct s; [|apply Hs]).
    by rewrite app_assoc, <- E, read_digits_digits. }
  destruct (strip_zeros (digits 9 ns)) as [|c f].
  - assert (ns = 0) as ->.
    { assert (Some (ns, @nil byte) = Some (0, [])) as [= ->]; [|done].
      rewrite <- (read_digits_digits 9 ns []), E by done. simpl in El. subst k. reflexivity. }
    cbn [app]. destruct s as [|c [|d s]]; [done..|]. destruct Hs as [Hs _]. unfold parse_fraction.
    by rewrite decide_False.
  - inversion Hf as [|? ? [d Hd] _]; subst. cbn [app parse_fraction].
    rewrite decide_True, Hd by done. exact Hr.
Qed.

Lemma parse_format_zone zone : Z.abs zone < 1440 -> parse_zone (format_zone zone) = Some zone.
Proof.
  intros Hz. unfold format_zone. destruct (Z.eqb_spec zone 0) as [->|Hne]; [done|].
  set (sign := if zone <? 0 then dash else plus).
  assert (0 <= Z.abs zone) as H0 by lia.
  pose proof (Z.div_mod (Z.abs zone) 60 ltac:(lia)) as E.
  pose proof (Z.mod_pos_bound (Z.abs zone) 60 ltac:(lia)) as Hmi.
  set (h := Z.abs zone / 60) in *. set (mi := Z.abs zone mod 60) in *. clearbody h mi.
  assert (0 <= h <= 23) by lia.
  unfold parse_zone. rewrite decide_False by (intros [= _ ?]; by destruct (digits 2 h)).
  rewrite field_digits by (simpl; lia). cbn [mbind option_bind].
  rewrite expect_cons. cbn [mbind option_bind].
  rewrite <- (app_nil_r (digits 2 mi)), field_digits by (simpl; lia).
  cbn [mbind option_bind]. rewrite bool_decide_true by done. cbn [negb].
  subst sign. destruct (Z.ltb_spec zone 0).
  - rewrite decide_True by done. f_equal. lia.
  - rewrite decide_False, decide_True by done. f_equal. lia.
Qed.

Lemma clock_split sec :
  0 <= sec < 86400 ->
  0 <= sec / 3600 <= 23 /\ 0 <= sec / 60 mod 60 <= 59 /\ 0 <= sec mod 60 <= 59 /\
  sec = (sec / 3600 * 60 + sec / 60 mod 60) * 60 + sec mod 60.
Proof.
  intros Hs. replace (sec / 3600) with (sec / 60 / 60) by (rewrite Z.div_div by lia; done).
  pose proof (Z.div_mod sec 60 ltac:(lia)). pose proof (Z.mod_pos_bound sec 60 ltac:(lia)).
  pose proof (Z.div_mod (sec / 60) 60 ltac:(lia)).
  pose proof (Z.mod_pos_bound (sec / 60) 60 ltac:(lia)). lia.
Qed.

Lemma parse_format_time zone t s :
  Z.abs zone < 1440 -> format_time zone t = Some s -> parse_time s = Some t.
Proof.
  intros Hz. unfold format_time. set (l := t + zone * minute_ns).
  destruct (civil_of_days (l / day_ns)) as [[y m] d] eqn:Ec.
  apply civil_of_days_spec in Ec as (Ec & Hm & Hd).
  destruct (Z.ltb_spec y 0), (Z.ltb_spec 9999 y); try done. cbn [orb]. intros <-%(inj Some).
  pose proof (Z.div_mod l day_ns ltac:(done)) as El.
  pose proof (Z.mod_pos_bound l day_ns ltac:(done)) as Hr.
  set (r := l mod day_ns) in *. clearbody r.
  pose proof (Z.div_mod r 1000000000 ltac:(lia)) as Er.
  pose proof (Z.mod_pos_bound r 1000000000 ltac:(lia)) as Hns.
  assert (0 <= r / 1000000000 < 86400) as Hs by (unfold day_ns in Hr; lia).
  set (sec := r / 1000000000) in *. set (ns := r mod 1000000000) in *. clearbody sec ns.
  destruct (clock_split sec Hs) as (Hhh & Hmi & Hss & Es).
  set (hh := sec / 3600) in *. set (mi := sec / 60 mod 60) in *. set (ss := sec mod 60) in *.
  clearbody hh mi ss.
  assert (days_in m y <= 31) by (unfold days_in; repeat destruct (_ =? _); destruct (is_leap y); simpl; lia).
  unfold parse_time.
  do 5 (rewrite field_digits by (simpl; lia); cbn [mbind option_bind];
    rewrite expect_cons; cbn [mbind option_bind]).
  rewrite field_digits by (simpl; lia). cbn [mbind option_bind].
  rewrite parse_format_fraction; [|done|].
  - rewrite parse_format_zone by done. cbn [mbind option_bind]. f_equal. rewrite Ec.
    set (q := l / day_ns) in *. clearbody q. unfold l, day_ns, minute_ns in *. lia.
  - unfold format_zone. destruct (zone =? 0); [done|]. by destruct (zone <? 0).
Qed.

(** Nothing in the text needs escaping in a JSON string. *)
Definition plain (c : byte) : Prop := digit_val c <> None \/ c ∈ [dash; colon; period; char_T; char_Z; plus].

Lemma format_time_plain zone t s : format_time zone t = Some s -> Forall plain s.
Proof.
  unfold format_time. destruct (civil_of_days _) as [[y m] d]. destruct (_ || _); [done|].
  intros <-%(inj Some).
  assert (forall w z, Forall plain (digits w z)) as Hd.
  { intros w z. apply Forall_forall. intros c Hc. left.
    destruct (digits_are_digits w z c Hc) as [? ->]. done. }
  assert (forall c l, plain c -> Forall plain l -> Forall plain (c :: l)) as Hc by by constructor.
  assert (forall c, c ∈ [dash; colon; period; char_T; char_Z; plus] -> plain c) as Hp by by right.
  repeat first [apply Forall_app; split; [apply Hd|]|apply Hc; [apply Hp; set_solver|]].
  apply Forall_app. split.
  - unfold format_fraction. destruct (strip_zeros_spec (digits 9 ((t + zone * minute_ns) mod day_ns mod 1000000000))) as [k E].
    pose proof (Hd 9%nat ((t + zone * minute_ns) mod day_ns mod 1000000000)) as Hf. rewrite E in Hf.
    apply Forall_app in Hf as [Hf _]. destruct (strip_zeros _); [done|].
    apply Hc; [apply Hp; set_solver|done].
  - unfold format_zone. destruct (zone =? 0); [apply Hc; [apply Hp; set_solver|done]|].
    apply Hc; [apply Hp; destruct (zone <? 0); set_solver|].
    apply Forall_app. split; [apply Hd|]. apply Hc; [apply Hp; set_solver|apply Hd].
Qed.
