(* ===== verification/Json.v ===== *)
(** * [encoding/json], as the broker uses it

    The JSON texts of strings, numbers, arrays and objects: what
    [json.Marshal] prints and what [json.Decoder] reads, byte for byte,
    including HTML escaping, the replacement of invalid UTF-8 and the
    escapes of the reader.  Go's limit on nesting (10000) is not modelled. *)
From Stdlib Require Import ZArith Lia.
From Stdlib Require Import Strings.Byte Strings.String.
From stdpp Require Import base list.
From S2P Require Import Prelude GoTime.
#[local] Open Scope Z_scope.

Module json.

(** ** UTF-8 *)

Definition between (lo hi : Z) (c : byte) : bool := (lo <=? byte_val c) && (byte_val c <=? hi).

Definition ascii (c : byte) : bool := between 0 127 c.
Definition cont (c : byte) : bool := between 128 191 c.

(** The valid encodings of two, three and four bytes. *)
Definition utf8_2 (c d : byte) : bool := between 194 223 c && cont d.
Definition utf8_3 (c d e : byte) : bool :=
  (between 224 224 c && between 160 191 d || (between 225 236 c || between 238 239 c) && cont d ||
   between 237 237 c && between 128 159 d) && cont e.
Definition utf8_4 (c d e f : byte) : bool :=
  (between 240 240 c && between 144 191 d || between 241 243 c && cont d ||
   between 244 244 c && between 128 143 d) && cont e && cont f.

(** A string cut into the encodings of its runes; a byte that begins none
    is a segment of its own. *)
Inductive segment : Type :=
  | Rune (r : list byte)
  | Invalid.

Fixpoint segments (s : list byte) : list segment :=
  match s with
  | [] => []
  | c :: s1 =>
      if ascii c then Rune [c] :: segments s1
      else
        match s1 with
        | d :: s2 =>
            if utf8_2 c d then Rune [c; d] :: segments s2
            else
              match s2 with
              | e :: s3 =>
                  if utf8_3 c d e then Rune [c; d; e] :: segments s3
                  else
                    match s3 with
                    | f :: s4 =>
                        if utf8_4 c d e f then Rune [c; d; e; f] :: segments s4
                        else Invalid :: segments s1
                    | [] => Invalid :: segments s1
                    end
              | [] => Invalid :: segments s1
              end
        | [] => Invalid :: segments s1
        end
  end.

(** U+FFFD, which replaces what is not valid. *)
Definition replacement : list byte := [xef; xbf; xbd].

Definition valid_segment (g : segment) : list byte :=
  match g with Rune r => r | Invalid => replacement end.

(** A string with its invalid bytes replaced. *)
Definition to_valid (s : list byte) : list byte := concat (valid_segment <$> segments s).

(** The encoding of a code point. *)
Definition utf8_encode (v : Z) : list byte :=
  if v <? 128 then [byte_of v]
  else if v <? 2048 then [byte_of (192 + v / 64); byte_of (128 + v mod 64)]
  else if v <? 65536 then
    [byte_of (224 + v / 4096); byte_of (128 + v / 64 mod 64); byte_of (128 + v mod 64)]
  else [byte_of (240 + v / 262144); byte_of (128 + v / 4096 mod 64);
        byte_of (128 + v / 64 mod 64); byte_of (128 + v mod 64)].

(** ** Strings *)

Definition quote : byte := x22.
Definition backslash : byte := x5c.

Definition hex_digit (d : Z) : byte := if d <? 10 then byte_of (48 + d) else byte_of (87 + d).

(** An ASCII byte inside a string, with HTML escaping. *)
Definition escape_ascii (c : byte) : list byte :=
  match c with
  | x22 | x5c => [backslash; c]
  | x08 => [backslash; x62]
  | x0c => [backslash; x66]
  | x0a => [backslash; x6e]
  | x0d => [backslash; x72]
  | x09 => [backslash; x74]
  | _ =>
      if between 0 31 c || between 38 38 c || between 60 60 c || between 62 62 c
      then backslash :: x75 :: x30 :: x30 :: hex_digit (byte_val c / 16) :: [hex_digit (byte_val c mod 16)]
      else [c]
  end.

Definition escape_segment (g : segment) : list byte :=
  match g with
  | Rune [c] => escape_ascii c
  | Rune [xe2; x80; xa8] => bs "\u2028"
  | Rune [xe2; x80; xa9] => bs "\u2029"
  | Rune r => r
  | Invalid => bs "\ufffd"
  end.

(** What [appendString] writes between the quotes. *)
Definition escape (s : list byte) : list byte := concat (escape_segment <$> segments s).

Definition hex_val (c : byte) : option Z :=
  let v := byte_val c in
  if between 48 57 c then Some (v - 48)
  else if between 97 102 c then Some (v - 87)
  else if between 65 70 c then Some (v - 55)
  else None.

Definition hex4 (a b c d : byte) : option Z :=
  a ← hex_val a; b ← hex_val b; c ← hex_val c; d ← hex_val d;
  Some (a * 4096 + b * 256 + c * 16 + d).

Definition simple_escape (c : byte) : option byte :=
  match c with
  | x22 | x5c | x2f => Some c
  | x62 => Some x08
  | x66 => Some x0c
  | x6e => Some x0a
  | x72 => Some x0d
  | x74 => Some x09
  | _ => None
  end.

Definition is_surrogate (v : Z) : bool := (55296 <=? v) && (v <? 57344).

(** The code point of a surrogate pair. *)
Definition surrogate_pair (hi lo : Z) : option Z :=
  if (55296 <=? hi) && (hi <? 56320) && (56320 <=? lo) && (lo <? 57344)
  then Some ((hi - 55296) * 1024 + (lo - 56320) + 65536) else None.

Definition emit (b : list byte) (r : option (list byte * list byte)) : option (list byte * list byte) :=
  '(v, rest) ← r; Some (b ++ v, rest).

(** The characters of a string up to the closing quote: the value, and
    what follows the quote. *)
Fixpoint parse_chars (s : list byte) : option (list byte * list byte) :=
  match s with
  | [] => None
  | c :: s1 =>
      if decide (c = quote) then Some ([], s1)
      else if decide (c = backslash) then
        match s1 with
        | x75 :: h1 :: h2 :: h3 :: h4 :: s6 =>
            match hex4 h1 h2 h3 h4 with
            | None => None
            | Some v =>
                if is_surrogate v then
                  match s6 with
                  | x5c :: x75 :: g1 :: g2 :: g3 :: g4 :: s12 =>
                      match hex4 g1 g2 g3 g4 with
                      | Some v2 =>
                          match surrogate_pair v v2 with
                          | Some r => emit (utf8_encode r) (parse_chars s12)
                          | None => emit replacement (parse_chars s6)
                          end
                      | None => emit replacement (parse_chars s6)
                      end
                  | _ => emit replacement (parse_chars s6)
                  end
                else emit (utf8_encode v) (parse_chars s6)
            end
        | e :: s2 =>
            match simple_escape e with
            | Some x => emit [x] (parse_chars s2)
            | None => None
            end
        | [] => None
        end
      else if between 0 31 c then None
      else if ascii c then emit [c] (parse_chars s1)
      else
        match s1 with
        | d :: s2 =>
            if utf8_2 c d then emit [c; d] (parse_chars s2)
            else
              match s2 with
              | e :: s3 =>
                  if utf8_3 c d e then emit [c; d; e] (parse_chars s3)
                  else
                    match s3 with
                    | f :: s4 =>
                        if utf8_4 c d e f then emit [c; d; e; f] (parse_chars s4)
                        else emit replacement (parse_chars s1)
                    | [] => emit replacement (parse_chars s1)
                    end
              | [] => emit replacement (parse_chars s1)
              end
        | [] => emit replacement (parse_chars s1)
        end
  end.

(** ** Values *)

(** [JStr] keeps the text between the quotes besides the value, [JNum] the
    text of the number. *)
#[warnings="-register-all"] Inductive value : Type :=
  | JNull
  | JBool (b : bool)
  | JNum (lit : list byte)
  | JStr (raw val : list byte)
  | JArr (vs : list value)
  | JObj (ms : list (list byte * value)).

Definition comma : byte := x2c.
Definition lbrace : byte := x7b.
Definition rbrace : byte := x7d.
Definition lbrack : byte := x5b.
Definition rbrack : byte := x5d.

Definition quoted (s : list byte) : list byte := quote :: s ++ [quote].

(** Separated by commas. *)
Fixpoint commas (ts : list (list byte)) : list byte :=
  match ts with
  | [] => []
  | [t] => t
  | t :: ts' => t ++ comma :: commas ts'
  end.

Fixpoint print (v : value) : list byte :=
  match v with
  | JNull => bs "null"
  | JBool true => bs "true"
  | JBool false => bs "false"
  | JNum lit => lit
  | JStr raw _ => quoted raw
  | JArr vs => lbrack :: commas (print <$> vs) ++ [rbrack]
  | JObj ms => lbrace :: commas ((fun '(k, v) => quoted (escape k) ++ colon :: print v) <$> ms) ++ [rbrace]
  end.

Definition is_space (c : byte) : bool :=
  match c with x20 | x09 | x0d | x0a => true | _ => false end.

Fixpoint skip_ws (s : list byte) : list byte :=
  match s with
  | c :: s' => if is_space c then skip_ws s' else s
  | [] => []
  end.

Definition is_digit (c : byte) : bool := between 48 57 c.

(** The digits at the front. *)
Fixpoint span_digits (s : list byte) : list byte * list byte :=
  match s with
  | c :: s' => if is_digit c then let '(d, r) := span_digits s' in (c :: d, r) else ([], s)
  | [] => ([], [])
  end.

(** One or more digits. *)
Definition some_digits (s : list byte) : option (list byte * list byte) :=
  match span_digits s with
  | ([], _) => None
  | (d, r) => Some (d, r)
  end.

Definition parse_int (s : list byte) : option (list byte * list byte) :=
  match expect zero s with
  | Some s' => Some ([zero], s')
  | None => some_digits s
  end.

Definition parse_frac (s : list byte) : option (list byte * list byte) :=
  match expect period s with
  | Some s' => '(d, r) ← some_digits s'; Some (period :: d, r)
  | None => Some ([], s)
  end.

Definition parse_sign (s : list byte) : list byte * list byte :=
  match s with
  | c :: s' => if decide (c = plus \/ c = dash) then ([c], s') else ([], s)
  | [] => ([], s)
  end.

Definition parse_exp (s : list byte) : option (list byte * list byte) :=
  match s with
  | c :: s' =>
      if decide (c = x65 \/ c = x45) then
        let '(sg, s') := parse_sign s' in
        '(d, r) ← some_digits s'; Some (c :: sg ++ d, r)
      else Some ([], s)
  | [] => Some ([], s)
  end.

Definition parse_number (s : list byte) : option (list byte * list byte) :=
  let '(neg, s) := match expect dash s with Some s' => ([dash], s') | None => ([], s) end in
  '(i, s) ← parse_int s;
  '(f, s) ← parse_frac s;
  '(e, s) ← parse_exp s;
  Some (neg ++ i ++ f ++ e, s).

(** The literal [l] at the front. *)
Fixpoint parse_literal (l s : list byte) : option (list byte) :=
  match l, s with
  | [], _ => Some s
  | c :: l', x :: s' => if decide (x = c) then parse_literal l' s' else None
  | _, [] => None
  end.

(** A string after its opening quote, with the text between the quotes. *)
Definition parse_string (s : list byte) : option (value * list byte) :=
  '(v, rest) ← parse_chars s;
  Some (JStr (take (length s - S (length rest)) s) v, rest).

Fixpoint parse_value (fuel : nat) (s : list byte) : option (value * list byte) :=
  match fuel with
  | O => None
  | S fuel' =>
      match skip_ws s with
      | [] => None
      | c :: s' =>
          if decide (c = quote) then parse_string s'
          else if decide (c = lbrace) then
            let s' := skip_ws s' in
            match expect rbrace s' with
            | Some r => Some (JObj [], r)
            | None => '(ms, r) ← parse_members fuel' s'; Some (JObj ms, r)
            end
          else if decide (c = lbrack) then
            let s' := skip_ws s' in
            match expect rbrack s' with
            | Some r => Some (JArr [], r)
            | None => '(vs, r) ← parse_elems fuel' s'; Some (JArr vs, r)
            end
          else if decide (c = x6e) then r ← parse_literal (bs "ull") s'; Some (JNull, r)
          else if decide (c = x74) then r ← parse_literal (bs "rue") s'; Some (JBool true, r)
          else if decide (c = x66) then r ← parse_literal (bs "alse") s'; Some (JBool false, r)
          else '(n, r) ← parse_number (c :: s'); Some (JNum n, r)
      end
  end
with parse_elems (fuel : nat) (s : list byte) : option (list value * list byte) :=
  match fuel with
  | O => None
  | S fuel' =>
      '(v, s) ← parse_value fuel' s;
      let s := skip_ws s in
      match expect comma s with
      | Some s => '(vs, r) ← parse_elems fuel' s; Some (v :: vs, r)
      | None => r ← expect rbrack s; Some ([v], r)
      end
  end
with parse_members (fuel : nat) (s : list byte) : option (list (list byte * value) * list byte) :=
  match fuel with
  | O => None
  | S fuel' =>
      s ← expect quote (skip_ws s);
      '(k, s) ← parse_chars s;
      s ← expect colon (skip_ws s);
      '(v, s) ← parse_value fuel' s;
      let s := skip_ws s in
      match expect comma s with
      | Some s => '(ms, r) ← parse_members fuel' s; Some ((k, v) :: ms, r)
      | None => r ← expect rbrace s; Some ([(k, v)], r)
      end
  end.

(** Fuel for a text: every two calls consume a byte. *)
Definition fuel_for (s : list byte) : nat := 2 * length s + 2.

(** One value off a stream, white space before it skipped. *)
Definition next_value (s : list byte) : option (value * list byte) :=
  let s := skip_ws s in parse_value (fuel_for s) s.

(** A literal as an unsigned integer of [w] bits. *)
Definition parse_uint (w : Z) (lit : list byte) : option Z :=
  match lit with
  | [] => None
  | _ => '(v, _) ← read_digits (length lit) 0 lit;
         if v <? 2 ^ w then Some v else None
  end.

End json.
