(* ===== verification/JsonFacts.v ===== *)
(** * JSON round trips

    What the printer writes the parser reads back: strings come back with
    their invalid UTF-8 replaced, values unchanged; and every value parsed
    consumes at least a byte. *)
From Stdlib Require Import ZArith Lia.
From Stdlib Require Import Strings.Byte Strings.String.
From stdpp Require Import base list sets.
From S2P Require Import Prelude GoTime Json.
Import json.
#[local] Open Scope Z_scope.

(** ** UTF-8 segments *)

(** The encodings of one rune. *)
Inductive rune : list byte -> Prop :=
  | rune_1 c : ascii c = true -> rune [c]
  | rune_2 c d : utf8_2 c d = true -> rune [c; d]
  | rune_3 c d e : utf8_3 c d e = true -> rune [c; d; e]
  | rune_4 c d e f : utf8_4 c d e f = true -> rune [c; d; e; f].

Lemma between_spec lo hi c : between lo hi c = true <-> lo <= byte_val c <= hi.
Proof. unfold between. by rewrite andb_true_iff, !Z.leb_le. Qed.

Lemma between_false lo hi c : ~ (lo <= byte_val c <= hi) -> between lo hi c = false.
Proof. intros H. apply not_true_iff_false. by rewrite between_spec. Qed.

(** The lead byte says how long the encoding is. *)
Lemma utf8_2_lead c d : utf8_2 c d = true -> 194 <= byte_val c <= 223.
Proof. unfold utf8_2. rewrite andb_true_iff, !between_spec. tauto. Qed.

Lemma utf8_3_lead c d e : utf8_3 c d e = true -> 224 <= byte_val c <= 239.
Proof.
  unfold utf8_3. rewrite !andb_true_iff, !orb_true_iff, !andb_true_iff, !orb_true_iff, !between_spec. lia.
Qed.

Lemma utf8_4_lead c d e f : utf8_4 c d e f = true -> 240 <= byte_val c <= 244.
Proof.
  unfold utf8_4. rewrite !andb_true_iff, !orb_true_iff, !andb_true_iff, !between_spec. lia.
Qed.

Lemma ascii_lead c : ascii c = true <-> byte_val c <= 127.
Proof. unfold ascii. rewrite between_spec. pose proof (byte_val_bound c). lia. Qed.

Ltac lead_bytes :=
  repeat match goal with
  | H : utf8_2 _ _ = true |- _ => apply utf8_2_lead in H
  | H : utf8_3 _ _ _ = true |- _ => apply utf8_3_lead in H
  | H : utf8_4 _ _ _ _ = true |- _ => apply utf8_4_lead in H
  | H : ascii _ = true |- _ => apply ascii_lead in H
  end; lia.

Lemma not_ascii c : 128 <= byte_val c -> ascii c = false.
Proof. intros H. apply not_true_iff_false. intros E. lead_bytes. Qed.
Lemma not_utf8_2 c d : 224 <= byte_val c -> utf8_2 c d = false.
Proof. intros H. apply not_true_iff_false. intros E. lead_bytes. Qed.
Lemma not_utf8_3 c d e : 240 <= byte_val c -> utf8_3 c d e = false.
Proof. intros H. apply not_true_iff_false. intros E. lead_bytes. Qed.

Lemma segments_rune r s : rune r -> segments (r ++ s) = Rune r :: segments s.
Proof.
  intros [c H|c d H|c d e H|c d e f H]; cbn [app segments].
  - by rewrite H.
  - rewrite not_ascii by lead_bytes. by rewrite H.
  - rewrite not_ascii by lead_bytes. rewrite not_utf8_2 by lead_bytes. by rewrite H.
  - rewrite not_ascii by lead_bytes. rewrite not_utf8_2 by lead_bytes.
    rewrite not_utf8_3 by lead_bytes. by rewrite H.
Qed.

(** A byte that begins no rune of [s]. *)
Definition stray (c : byte) (s : list byte) : Prop := segments (c :: s) = Invalid :: segments s.

(** Every string is a sequence of runes and stray bytes. *)
Lemma segments_ind (P : list byte -> Prop) :
  P [] -> (forall r s, rune r -> P s -> P (r ++ s)) -> (forall c s, stray c s -> P s -> P (c :: s)) ->
  forall s, P s.
Proof.
  intros Hnil Hrune Hstray s. remember (length s) as n eqn:Hn.
  revert s Hn. induction (lt_wf n) as [n _ IH]. intros s ->.
  destruct s as [|c s1]; [done|].
  assert (P s1) as Hs1 by by apply (IH (length s1)); simpl; [lia|].
  destruct (ascii c) eqn:E1.
  { apply (Hrune [c]); [by constructor|done]. }
  destruct s1 as [|d s2]; [apply Hstray; [by unfold stray; cbn [segments]; rewrite E1|done]|].
  destruct (utf8_2 c d) eqn:E2.
  { apply (Hrune [c; d]); [by constructor|]. apply (IH (length s2)); simpl; [lia|done]. }
  destruct s2 as [|e s3];
    [apply Hstray; [unfold stray; remember [d] as t; cbn [segments]; rewrite E1; subst t; by rewrite E2|done]|].
  destruct (utf8_3 c d e) eqn:E3.
  { apply (Hrune [c; d; e]); [by constructor|]. apply (IH (length s3)); simpl; [lia|done]. }
  destruct s3 as [|f s4];
    [apply Hstray; [unfold stray; remember [d; e] as t; cbn [segments]; rewrite E1; subst t; by rewrite E2, E3|done]|].
  destruct (utf8_4 c d e f) eqn:E4.
  { apply (Hrune [c; d; e; f]); [by constructor|]. apply (IH (length s4)); simpl; [lia|done]. }
  apply Hstray; [|done]. unfold stray. remember (d :: e :: f :: s4) as t.
  cbn [segments]. rewrite E1. subst t. by rewrite E2, E3, E4.
Qed.

Lemma to_valid_nil : to_valid [] = [].
Proof. done. Qed.
Lemma to_valid_rune r s : rune r -> to_valid (r ++ s) = r ++ to_valid s.
Proof. intros H. unfold to_valid. by rewrite segments_rune. Qed.
Lemma to_valid_stray c s : stray c s -> to_valid (c :: s) = replacement ++ to_valid s.
Proof. intros H. unfold to_valid. by rewrite H. Qed.
Lemma escape_rune r s : rune r -> escape (r ++ s) = escape_segment (Rune r) ++ escape s.
Proof. intros H. unfold escape. by rewrite segments_rune. Qed.
Lemma escape_stray c s : stray c s -> escape (c :: s) = bs "\ufffd" ++ escape s.
Proof. intros H. unfold escape. by rewrite H. Qed.

Lemma rune_replacement : rune replacement.
Proof. by apply rune_3. Qed.

Lemma to_valid_idem s : to_valid (to_valid s) = to_valid s.
Proof.
  induction s as [|r s Hr IH|c s Hc IH] using segments_ind; [done|..].
  - by rewrite to_valid_rune, to_valid_rune, IH.
  - rewrite to_valid_stray, to_valid_rune, IH by (done || apply rune_replacement). done.
Qed.

Lemma to_valid_ascii s : Forall (fun c => ascii c = true) s -> to_valid s = s.
Proof.
  induction 1 as [|c s Hc Hs IH]; [done|].
  change (c :: s) with ([c] ++ s) at 1. rewrite to_valid_rune by by constructor. by rewrite IH.
Qed.

(** ** Strings *)

Lemma parse_chars_plain c t :
  c <> quote -> c <> backslash -> 32 <= byte_val c ->
  parse_chars (c :: t) =
  match segments (c :: t) with
  | Rune r :: _ => emit r (parse_chars (drop (length r) (c :: t)))
  | _ => emit replacement (parse_chars t)
  end.
Proof.
  intros Hq Hb Hc. cbn [parse_chars segments]. rewrite !decide_False by done.
  rewrite (between_false 0 31) by lia.
  destruct (ascii c); [done|]. destruct t as [|d t]; [done|].
  destruct (utf8_2 c d); [done|]. destruct t as [|e t]; [done|].
  destruct (utf8_3 c d e); [done|]. destruct t as [|f t]; [done|].
  by destruct (utf8_4 c d e f).
Qed.

Lemma high_byte c : 128 <= byte_val c -> c <> quote /\ c <> backslash /\ 32 <= byte_val c.
Proof. intros H. split_and!; [intros ->; by vm_compute in H..|lia]. Qed.

Lemma parse_chars_rune r t :
  rune r -> (2 <= length r)%nat -> parse_chars (r ++ t) = emit r (parse_chars t).
Proof.
  intros Hr Hl. pose proof (segments_rune r t Hr) as Hs.
  assert (exists c r', r = c :: r' /\ 128 <= byte_val c) as (c & r' & -> & Hc).
  { destruct Hr; simpl in Hl; try lia; eexists _, _; (split; [done|lead_bytes]). }
  cbn [app] in *. destruct (high_byte c Hc) as (? & ? & ?).
  rewrite parse_chars_plain, Hs by done.
  change (c :: r' ++ t) with ((c :: r') ++ t). by rewrite drop_app_length.
Qed.

Lemma parse_chars_ascii c t :
  ascii c = true -> parse_chars (escape_ascii c ++ t) = emit [c] (parse_chars t).
Proof. destruct c; try done; intros _; reflexivity. Qed.

Lemma escape_segment_long r :
  (2 <= length r)%nat ->
  escape_segment (Rune r) = r \/
  (r = [xe2; x80; xa8] /\ escape_segment (Rune r) = bs "\u2028") \/
  (r = [xe2; x80; xa9] /\ escape_segment (Rune r) = bs "\u2029").
Proof.
  intros Hl. destruct r as [|c [|d [|e [|f r]]]]; simpl in Hl; try lia.
  - left. destruct c; try done. by destruct d.
  - destruct (decide (c = xe2)) as [->|]; [|left; by destruct c].
    destruct (decide (d = x80)) as [->|]; [|left; by destruct d].
    destruct (decide (e = xa8)) as [->|]; [by eauto|].
    destruct (decide (e = xa9)) as [->|]; [by eauto|]. left. by destruct e.
  - left. destruct c; try done. destruct d; try done. by destruct e.
Qed.

Lemma parse_escape_segment r t :
  rune r -> parse_chars (escape_segment (Rune r) ++ t) = emit r (parse_chars t).
Proof.
  intros Hr. destruct (decide (length r = 1)%nat) as [Hl|Hl].
  - destruct Hr as [c Hc| | |]; try done.
    assert (escape_segment (Rune [c]) = escape_ascii c) as -> by by destruct c.
    by apply parse_chars_ascii.
  - assert (2 <= length r)%nat as H2 by (destruct Hr; simpl in *; lia).
    destruct (escape_segment_long r H2) as [->|[[-> ->]|[-> ->]]]; [by apply parse_chars_rune|done..].
Qed.

Lemma emit_some b v t : emit b (Some (v, t)) = Some (b ++ v, t).
Proof. done. Qed.

(** What [appendString] writes, the reader reads back with the invalid
    bytes replaced. *)
Lemma parse_escape s t : parse_chars (escape s ++ quote :: t) = Some (to_valid s, t).
Proof.
  induction s as [|r s Hr IH|c s Hc IH] using segments_ind.
  - done.
  - rewrite escape_rune, to_valid_rune, <- app_assoc, parse_escape_segment, IH by done. done.
  - rewrite escape_stray, to_valid_stray, <- app_assoc by done.
    transitivity (emit replacement (parse_chars (escape s ++ quote :: t))); [done|]. by rewrite IH.
Qed.

Lemma parse_chars_shorter s v t : parse_chars s = Some (v, t) -> (length t < length s)%nat.
Proof.
  remember (length s) as n eqn:Hn. revert s v t Hn.
  induction (lt_wf n) as [n _ IH]. intros s v t ->.
  assert (forall s' b v', (length s' < length s)%nat -> emit b (parse_chars s') = Some (v', t) ->
    (length t < length s)%nat) as Hrec.
  { intros s' b v' Hl He. destruct (parse_chars s') as [[v'' t']|] eqn:E; [|done].
    simpl in He. injection He as <- ->. specialize (IH (length s') Hl s' v'' t eq_refl E). lia. }
  destruct s as [|c s]; [done|]. cbn [parse_chars].
  case_decide; [intros [= <- <-]; simpl; lia|]. case_decide.
  - destruct s as [|e s]; [done|].
    assert (forall x, match simple_escape x with
      | Some x => emit [x] (parse_chars s) | None => None end = Some (v, t) ->
      (length t < length (c :: e :: s))%nat) as Hsimple.
    { intros x. destruct (simple_escape x); [|done]. apply Hrec. simpl. lia. }
    destruct (decide (e = x75)) as [->|He]; [|intros E; apply (Hsimple e); destruct e; done].
    destruct s as [|h1 [|h2 [|h3 [|h4 s]]]]; try done.
    destruct (hex4 h1 h2 h3 h4) as [x|]; [|done].
    assert (emit replacement (parse_chars s) = Some (v, t) ->
      (length t < length (c :: x75 :: h1 :: h2 :: h3 :: h4 :: s))%nat) as Hrep
      by (apply Hrec; simpl; lia).
    destruct (is_surrogate x); [|apply Hrec; simpl; lia].
    destruct s as [|y s]; [done|]. destruct (decide (y = x5c)) as [->|];
      [|intros E; apply Hrep; rewrite <- E; by destruct y].
    destruct s as [|z s]; [done|]. destruct (decide (z = x75)) as [->|];
      [|intros E; apply Hrep; rewrite <- E; by destruct z].
    destruct s as [|g1 [|g2 [|g3 [|g4 s]]]]; try done.
    destruct (hex4 g1 g2 g3 g4) as [x2|]; [|done].
    destruct (surrogate_pair x x2); [apply Hrec; simpl; lia|done].
  - destruct (between 0 31 c); [done|]. destruct (ascii c); [apply Hrec; simpl; lia|].
    destruct s as [|d s]; [apply Hrec; simpl; lia|].
    destruct (utf8_2 c d); [apply Hrec; simpl; lia|].
    destruct s as [|e s]; [apply Hrec; simpl; lia|].
    destruct (utf8_3 c d e); [apply Hrec; simpl; lia|].
    destruct s as [|f s]; [apply Hrec; simpl; lia|].
    destruct (utf8_4 c d e f); apply Hrec; simpl; lia.
Qed.

(** ** Numbers *)

Lemma is_digit_val c : is_digit c = true <-> is_Some (digit_val c).
Proof.
  unfold is_digit, digit_val. rewrite between_spec.
  destruct (Z.leb_spec 0 (byte_val c - 48)), (Z.leb_spec (byte_val c - 48) 9); cbn [andb];
    (split; [intros; try lia; by eexists|intros []; by (done || lia)]).
Qed.

(** What may follow a value: white space, a comma or a closing bracket. *)
Definition delimited (t : list byte) : Prop :=
  match t with [] => True | c :: _ => c ∈ [comma; rbrace; rbrack; x0a; x20; x09; x0d] end.

Lemma delimited_cons c t : c ∈ [comma; rbrace; rbrack] \/ is_space c = true -> delimited (c :: t).
Proof. unfold delimited. intros [H|H]; [set_solver|]. destruct c; try done; set_solver. Qed.

Ltac delimited_cases H :=
  match type of H with delimited ?t =>
    destruct t as [|? ?]; [|cbn [delimited] in H; repeat (apply elem_of_cons in H as [->|H]); [..|by apply elem_of_nil in H]]
  end.

Lemma span_digits_app d t :
  Forall (fun c => is_digit c = true) d -> delimited t -> span_digits (d ++ t) = (d, t).
Proof.
  intros Hd Ht. induction Hd as [|c d Hc Hd IH]; cbn [app span_digits].
  - by delimited_cases Ht.
  - by rewrite Hc, IH.
Qed.

Lemma decimal_digits z : Forall (fun c => is_digit c = true) (decimal z).
Proof. apply Forall_forall. intros c Hc. apply is_digit_val. by eapply digits_are_digits. Qed.

Lemma width_pos z : exists n, width z = S n.
Proof. unfold width. cbn [width_from]. destruct (_ <? _); eauto. Qed.

Lemma digit_zero d : 0 <= d < 10 -> digit d = x30 -> d = 0.
Proof.
  intros Hd E. pose proof (digit_val_digit d Hd) as Hv. rewrite E in Hv.
  change (Some 0 = Some d) in Hv. congruence.
Qed.

(** The digits of a natural number, as many as it needs. *)
Definition natural (fuel : nat) (z : Z) : list byte := digits (width_from fuel z) z.

Lemma natural_digits fuel z : Forall (fun c => is_digit c = true) (natural fuel z).
Proof. apply Forall_forall. intros c Hc. apply is_digit_val. by eapply digits_are_digits. Qed.

Lemma width_from_pos fuel z : exists n, width_from fuel z = S n.
Proof. destruct fuel; cbn [width_from]; [by eexists|]. destruct (_ <? _); eauto. Qed.

Lemma natural_lead fuel z r : 0 <= z < 10 ^ Z.of_nat (S fuel) -> natural fuel z = x30 :: r -> r = [].
Proof.
  intros Hz. unfold natural. destruct (width_from_pos fuel z) as [n Hn].
  destruct (width_from_bound fuel z Hz) as [Hlt Hlead]. rewrite Hn in *. cbn [digits]. intros [= Hd Hr].
  rewrite Nat2Z.inj_succ in *.
  replace (Z.succ (Z.of_nat n) - 1) with (Z.of_nat n) in Hlead by lia.
  apply digit_zero in Hd; [|apply Z.mod_pos_bound; lia].
  rewrite Z.mod_small in Hd.
  - destruct (Hlead Hd) as [-> Hw]. destruct n; [done|lia].
  - assert (0 < 10 ^ Z.of_nat n) by (apply Z.pow_pos_nonneg; lia).
    split; [apply Z.div_pos; lia|]. apply Z.div_lt_upper_bound; [done|].
    by rewrite Z.mul_comm, <- Z.pow_succ_r by lia.
Qed.

(** A literal the reader takes for a number, whatever follows. *)
Definition number_lit (lit : list byte) : Prop :=
  (exists c r, lit = c :: r /\ (is_digit c = true \/ c = dash)) /\
  forall t, delimited t -> parse_number (lit ++ t) = Some (lit, t).

Lemma parse_int_natural fuel z t :
  0 <= z < 10 ^ Z.of_nat (S fuel) -> delimited t ->
  parse_int (natural fuel z ++ t) = Some (natural fuel z, t) /\ expect dash (natural fuel z ++ t) = None.
Proof.
  intros Hz Ht. pose proof (natural_digits fuel z) as Hd. pose proof (natural_lead fuel z) as Hlead.
  pose proof (span_digits_app _ t Hd Ht) as Hs. unfold natural in *.
  destruct (width_from_pos fuel z) as [n Hn]. rewrite Hn in *. cbn [digits app] in *.
  set (c := digit _) in *. set (r := digits n z) in *. clearbody c r. split.
  - unfold parse_int. destruct (decide (c = x30)) as [->|Hc].
    + by rewrite expect_cons, (Hlead r) by done.
    + rewrite expect_ne by done. unfold some_digits. by rewrite Hs.
  - inversion Hd as [|? ? Hc]; subst. apply expect_ne. intros E. by rewrite E in Hc.
Qed.

Lemma integer_number sign fuel z :
  sign = [] \/ sign = [dash] -> 0 <= z < 10 ^ Z.of_nat (S fuel) -> number_lit (sign ++ natural fuel z).
Proof.
  intros Hsign Hz. split.
  - pose proof (natural_digits fuel z) as Hd. unfold natural in *. destruct (width_from_pos fuel z) as [n Hn].
    rewrite Hn in *. cbn [digits] in *. apply Forall_cons in Hd as [Hc _]. destruct Hsign as [->| ->]; eexists _, _; by eauto.
  - intros t Ht. destruct (parse_int_natural fuel z t Hz Ht) as [Hi Hneg].
    assert (parse_frac t = Some ([], t) /\ parse_exp t = Some ([], t)) as [Hf He] by by delimited_cases Ht.
    assert (match expect dash ((sign ++ natural fuel z) ++ t) with Some s => ([dash], s) | None => ([], (sign ++ natural fuel z) ++ t) end
      = (sign, natural fuel z ++ t)) as Hs.
    { destruct Hsign as [->| ->]; cbn [app]; [by rewrite Hneg|by rewrite expect_cons]. }
    unfold parse_number. rewrite Hs, Hi. cbn [mbind option_bind]. rewrite Hf. cbn [mbind option_bind].
    rewrite He. cbn [mbind option_bind]. by rewrite !app_nil_r.
Qed.

Lemma decimal_number z : 0 <= z < 2 ^ 64 -> number_lit (decimal z).
Proof. intros Hz. apply (integer_number [] 20); [by left|]. simpl in *. lia. Qed.

Lemma parse_uint_decimal w z :
  0 <= z < 2 ^ w -> w <= 64 -> parse_uint w (decimal z) = Some z.
Proof.
  intros Hz Hw. assert (0 <= z < 2 ^ 64) as Hz'.
  { split; [lia|]. eapply Z.lt_le_trans; [apply Hz|]. apply Z.pow_le_mono_r; lia. }
  unfold parse_uint. destruct (decimal z) as [|c r] eqn:E.
  { apply (f_equal length) in E. unfold decimal in E. rewrite length_digits in E.
    by destruct (width_pos z) as [? ?]; simplify_eq/=; congruence. }
  rewrite <- E. unfold decimal. rewrite length_digits.
  rewrite <- (app_nil_r (digits _ _)), read_digits_digits by (split; [lia|by apply decimal_bound]).
  cbn [mbind option_bind]. by rewrite (proj2 (Z.ltb_lt z (2 ^ w))) by lia.
Qed.

(** ** Values *)

(** The values the printer is given: numbers are unsigned 64-bit, strings
    are escaped from some bytes, keys are valid. *)
#[warnings="-register-all"] Inductive printable : value -> Prop :=
  | pr_null : printable JNull
  | pr_bool b : printable (JBool b)
  | pr_num z : 0 <= z < 2 ^ 64 -> printable (JNum (decimal z))
  | pr_str s : printable (JStr (escape s) (to_valid s))
  | pr_arr vs : Forall printable vs -> printable (JArr vs)
  | pr_obj ms : Forall (fun kv => to_valid kv.1 = kv.1 /\ printable kv.2) ms -> printable (JObj ms).

(** ** Texts of a value

    [denotes v s]: the text [s] is one of the value [v], with any white
    space between the tokens. *)

Definition blanks (w : list byte) : Prop := Forall (fun c => is_space c = true) w.

(** The text of a string between the quotes. *)
Definition string_lit (raw val : list byte) : Prop :=
  forall t, parse_chars (raw ++ quote :: t) = Some (val, t).

#[warnings="-register-all"] Inductive denotes : value -> list byte -> Prop :=
  | dn_null : denotes JNull (bs "null")
  | dn_bool (b : bool) : denotes (JBool b) (if b then bs "true" else bs "false")
  | dn_num lit : number_lit lit -> denotes (JNum lit) lit
  | dn_str raw val : string_lit raw val -> denotes (JStr raw val) (quoted raw)
  | dn_nil w : blanks w -> denotes (JArr []) (lbrack :: w ++ [rbrack])
  | dn_arr w v s vs b : blanks w -> denotes v s -> elems_after vs b -> denotes (JArr (v :: vs)) (lbrack :: w ++ s ++ b)
  | dn_empty w : blanks w -> denotes (JObj []) (lbrace :: w ++ [rbrace])
  | dn_obj w kv s ms b : blanks w -> member kv s -> members_after ms b -> denotes (JObj (kv :: ms)) (lbrace :: w ++ s ++ b)
with elems_after : list value -> list byte -> Prop :=
  | el_close w : blanks w -> elems_after [] (w ++ [rbrack])
  | el_more w w' v s vs b : blanks w -> blanks w' -> denotes v s -> elems_after vs b ->
      elems_after (v :: vs) (w ++ comma :: w' ++ s ++ b)
with member : list byte * value -> list byte -> Prop :=
  | mb_intro raw k w w' v s : string_lit raw k -> blanks w -> blanks w' -> denotes v s ->
      member (k, v) (quoted raw ++ w ++ colon :: w' ++ s)
with members_after : list (list byte * value) -> list byte -> Prop :=
  | ms_close w : blanks w -> members_after [] (w ++ [rbrace])
  | ms_more w w' kv s ms b : blanks w -> blanks w' -> member kv s -> members_after ms b ->
      members_after (kv :: ms) (w ++ comma :: w' ++ s ++ b).

Scheme denotes_mind := Minimality for denotes Sort Prop
  with elems_after_mind := Minimality for elems_after Sort Prop
  with member_mind := Minimality for member Sort Prop
  with members_after_mind := Minimality for members_after Sort Prop.
Combined Scheme denotes_mutual from denotes_mind, elems_after_mind, member_mind, members_after_mind.

Lemma skip_ws_head c r : is_space c = false -> skip_ws (c :: r) = c :: r.
Proof. intros H. cbn [skip_ws]. by rewrite H. Qed.

Lemma skip_blanks w s : blanks w -> skip_ws (w ++ s) = skip_ws s.
Proof. induction 1 as [|c w Hc _ IH]; [done|]. cbn [app skip_ws]. by rewrite Hc. Qed.

(** No text of a value starts with white space or a closing bracket. *)
Lemma denotes_head v s : denotes v s -> exists c r, s = c :: r /\ is_space c = false /\ c <> rbrace /\ c <> rbrack.
Proof.
  destruct 1 as [|[]|lit [(c & r & -> & Hc) _]| | | | | ]; try by eexists _, _.
  eexists _, _. split; [done|]. destruct Hc as [Hc| ->]; [|done]. by destruct c.
Qed.

Lemma skip_ws_denotes v s w t : denotes v s -> blanks w -> skip_ws (w ++ s ++ t) = s ++ t.
Proof.
  intros (c & r & -> & Hc & _)%denotes_head Hw. rewrite skip_blanks by done. by apply skip_ws_head.
Qed.

Lemma quoted_app s t : quoted s ++ t = quote :: s ++ quote :: t.
Proof. unfold quoted. simpl. by rewrite <- app_assoc. Qed.

Lemma parse_string_lit raw val t : string_lit raw val -> parse_string (raw ++ quote :: t) = Some (JStr raw val, t).
Proof.
  intros H. unfold parse_string. rewrite H. cbn [mbind option_bind]. do 3 f_equal.
  rewrite length_app. cbn [length].
  replace (length raw + S (length t) - S (length t))%nat with (length raw) by lia. apply take_app_length.
Qed.

(** What the parser does with each kind of text, given enough fuel. *)
Definition value_reads (v : value) (s : list byte) : Prop :=
  forall n w t, blanks w -> (2 * length s <= n)%nat -> delimited t -> parse_value n (w ++ s ++ t) = Some (v, t).
Definition elems_read (vs : list value) (b : list byte) : Prop :=
  forall t, delimited (b ++ t) /\
    forall n v s w, blanks w -> denotes v s -> value_reads v s -> (2 * length (s ++ b) <= n)%nat ->
      parse_elems n (w ++ s ++ b ++ t) = Some (v :: vs, t).
Definition member_reads (kv : list byte * value) (s : list byte) : Prop :=
  (exists r, s = quote :: r) /\
  forall n w t, blanks w -> (2 * length s <= S n)%nat -> delimited t ->
    parse_members (S n) (w ++ s ++ t) =
      match expect comma (skip_ws t) with
      | Some s => '(ms, r) ← parse_members n s; Some (kv :: ms, r)
      | None => r ← expect rbrace (skip_ws t); Some ([kv], r)
      end.
Definition members_read (ms : list (list byte * value)) (b : list byte) : Prop :=
  forall t, delimited (b ++ t) /\
    forall n kv s w, blanks w -> member_reads kv s -> (2 * length (s ++ b) <= n)%nat ->
      parse_members n (w ++ s ++ b ++ t) = Some (kv :: ms, t).

Lemma delimited_blanks w c t : blanks w -> c ∈ [comma; rbrace; rbrack] -> delimited (w ++ c :: t).
Proof.
  intros [|x w' Hx _] Hc; apply delimited_cons; [by left|by right].
Qed.

Lemma parse_value_head n c s w : blanks w -> is_space c = false ->
  parse_value (S n) (w ++ c :: s) = parse_value (S n) (c :: s).
Proof. intros Hw Hc. cbn [parse_value]. by rewrite skip_blanks, skip_ws_head by done. Qed.

Lemma number_reads lit : number_lit lit -> value_reads (JNum lit) lit.
Proof.
  intros [(c & r & -> & Hc) Hp] [|n] w t Hw Hn Ht; [cbn in Hn; lia|]. specialize (Hp t Ht). cbn [app] in *.
  assert (is_space c = false /\ Forall (fun x => c <> x) [quote; lbrace; lbrack; x6e; x74; x66]) as [Hs Hne].
  { destruct Hc as [Hc| ->]; [|split; [done|by repeat constructor]].
    split; [by destruct c|]. repeat constructor; intros ->; done. }
  rewrite parse_value_head by done. cbn [parse_value]. rewrite skip_ws_head by done.
  repeat (apply Forall_cons in Hne as [? Hne]; rewrite decide_False by done). by rewrite Hp.
Qed.

Lemma array_reads w v s vs b :
  blanks w -> denotes v s -> value_reads v s -> elems_read vs b -> value_reads (JArr (v :: vs)) (lbrack :: w ++ s ++ b).
Proof.
  intros Hw Hv Hr He [|n] w0 t Hw0 Hn Ht; [cbn in Hn; lia|]. cbn [app length] in *. rewrite !length_app in Hn.
  rewrite parse_value_head by done. cbn [parse_value]. rewrite skip_ws_head by done.
  rewrite !decide_False, decide_True by done. rewrite <- !app_assoc, skip_ws_denotes with (v := v) by done.
  destruct (denotes_head v s Hv) as (c & r & Es & _ & _ & Hc).
  assert (expect rbrack (s ++ b ++ t) = None) as -> by by rewrite Es; apply expect_ne.
  destruct (He t) as [_ Hp]. pose proof (Hp n v s [] (Forall_nil_2 _) Hv Hr) as E. cbn [app] in E.
  rewrite E by (rewrite length_app; lia). done.
Qed.

Lemma object_reads w kv s ms b :
  blanks w -> member_reads kv s -> members_read ms b -> value_reads (JObj (kv :: ms)) (lbrace :: w ++ s ++ b).
Proof.
  intros Hw Hr He [|n] w0 t Hw0 Hn Ht; [cbn in Hn; lia|]. cbn [app length] in *. rewrite !length_app in Hn.
  rewrite parse_value_head by done. cbn [parse_value]. rewrite skip_ws_head by done.
  rewrite !decide_False, decide_True by done. rewrite <- !app_assoc, skip_blanks by done.
  destruct (proj1 Hr) as [r Es].
  assert (skip_ws (s ++ b ++ t) = s ++ b ++ t) as -> by by rewrite Es.
  assert (expect rbrace (s ++ b ++ t) = None) as -> by by rewrite Es; apply expect_ne.
  destruct (He t) as [_ Hp]. pose proof (Hp n kv s [] (Forall_nil_2 _) Hr) as E. cbn [app] in E.
  rewrite E by (rewrite length_app; lia). done.
Qed.

Lemma elems_close_read w : blanks w -> elems_read [] (w ++ [rbrack]).
Proof.
  intros Hw t. rewrite <- app_assoc. cbn [app]. split; [apply delimited_blanks; [done|set_solver]|].
  intros [|n] v s w0 Hw0 Hv Hr Hn; rewrite !length_app in Hn; cbn [length] in Hn; [lia|]. cbn [parse_elems].
  rewrite Hr; [|done|lia|apply delimited_blanks; [done|set_solver]]. cbn [mbind option_bind]. cbn zeta.
  by rewrite skip_blanks, skip_ws_head, expect_ne, expect_cons by done.
Qed.

Lemma elems_more_read w w' v s vs b :
  blanks w -> blanks w' -> denotes v s -> value_reads v s -> elems_read vs b ->
  elems_read (v :: vs) (w ++ comma :: w' ++ s ++ b).
Proof.
  intros Hw Hw' Hv Hr He t. rewrite <- app_assoc. cbn [app]. rewrite <- !app_assoc.
  split; [apply delimited_blanks; [done|set_solver]|].
  intros [|n] u s0 w0 Hw0 Hu Hr0 Hn; repeat (rewrite length_app in Hn || cbn [length] in Hn); [lia|]. cbn [parse_elems].
  rewrite Hr0; [|done|lia|apply delimited_blanks; [done|set_solver]]. cbn [mbind option_bind]. cbn zeta.
  rewrite skip_blanks, skip_ws_head, expect_cons by done. destruct (He t) as [_ Hp].
  by rewrite (Hp n v s w') by (rewrite ?length_app; done || lia).
Qed.

Lemma member_reads_intro raw k w w' v s :
  string_lit raw k -> blanks w -> blanks w' -> value_reads v s ->
  member_reads (k, v) (quoted raw ++ w ++ colon :: w' ++ s).
Proof.
  intros Hk Hw Hw' Hv. split; [by eexists|]. intros n w0 t Hw0 Hn Ht.
  unfold quoted in Hn. repeat (rewrite length_app in Hn || cbn [length] in Hn).
  cbn [parse_members]. rewrite <- app_assoc, quoted_app, skip_blanks, skip_ws_head, expect_cons by done.
  cbn [mbind option_bind]. rewrite Hk. cbn [mbind option_bind].
  rewrite <- app_assoc, skip_blanks by done. cbn [app]. rewrite skip_ws_head, expect_cons by done.
  cbn [mbind option_bind]. rewrite <- app_assoc, Hv by (done || lia). done.
Qed.

Lemma members_close_read w : blanks w -> members_read [] (w ++ [rbrace]).
Proof.
  intros Hw t. rewrite <- app_assoc. cbn [app]. split; [apply delimited_blanks; [done|set_solver]|].
  intros [|n] kv s w0 Hw0 [_ Hr] Hn; rewrite !length_app in Hn; cbn [length] in Hn; [lia|].
  rewrite Hr; [|done|lia|apply delimited_blanks; [done|set_solver]].
  by rewrite skip_blanks, skip_ws_head, expect_ne, expect_cons by done.
Qed.

Lemma members_more_read w w' kv s ms b :
  blanks w -> blanks w' -> member_reads kv s -> members_read ms b ->
  members_read (kv :: ms) (w ++ comma :: w' ++ s ++ b).
Proof.
  intros Hw Hw' Hr He t. rewrite <- app_assoc. cbn [app]. rewrite <- !app_assoc.
  split; [apply delimited_blanks; [done|set_solver]|].
  intros [|n] u s0 w0 Hw0 [_ Hr0] Hn; repeat (rewrite length_app in Hn || cbn [length] in Hn); [lia|].
  rewrite Hr0; [|done|lia|apply delimited_blanks; [done|set_solver]].
  rewrite skip_blanks, skip_ws_head, expect_cons by done. destruct (He t) as [_ Hp].
  by rewrite (Hp n kv s w') by (rewrite ?length_app; done || lia).
Qed.

(** A text of a value, followed by what ends a value, is read as the
    value. *)
Lemma all_read :
  (forall v s, denotes v s -> value_reads v s) /\ (forall vs b, elems_after vs b -> elems_read vs b) /\
  (forall kv s, member kv s -> member_reads kv s) /\ (forall ms b, members_after ms b -> members_read ms b).
Proof.
  apply denotes_mutual; eauto using number_reads, array_reads, object_reads, elems_close_read, elems_more_read,
    member_reads_intro, members_close_read, members_more_read.
  2: intros [].
  all: intros; intros [|n] w0 t0 Hw0 Hn Ht; [cbn in Hn; rewrite ?length_app in Hn; cbn in Hn; lia|].
  1-3: by apply parse_value_head.
  - rewrite quoted_app, parse_value_head by done. cbn [parse_value].
    rewrite skip_ws_head, decide_True by done. by apply parse_string_lit.
  - cbn [app]. rewrite parse_value_head, <- app_assoc by done. cbn [parse_value].
    by rewrite skip_ws_head, !decide_False, decide_True, skip_blanks by done.
  - cbn [app]. rewrite parse_value_head, <- app_assoc by done. cbn [parse_value].
    by rewrite skip_ws_head, !decide_False, decide_True, skip_blanks by done.
Qed.

Lemma next_value_denotes v s t : denotes v s -> delimited t -> next_value (s ++ t) = Some (v, t).
Proof.
  intros Hv Ht. unfold next_value, fuel_for.
  pose proof (skip_ws_denotes v s [] t Hv (Forall_nil_2 _)) as E. cbn [app] in E. rewrite E.
  apply (proj1 all_read v s Hv _ []); [constructor|rewrite length_app; lia|done].
Qed.

(** ** Printing then parsing *)

(** The items after the first, with their commas. *)
Definition rest (ts : list (list byte)) : list byte := match ts with [] => [] | _ => comma :: commas ts end.

Lemma commas_cons t ts : commas (t :: ts) = t ++ rest ts.
Proof. destruct ts; [symmetry; apply app_nil_r|done]. Qed.

(** Arrays and objects laid out with the same white space before every
    item. *)
Lemma elems_rest (f : value -> list byte) w w' vs :
  blanks w -> blanks w' -> Forall (fun v => denotes v (f v)) vs ->
  elems_after vs (rest ((fun v => w ++ f v) <$> vs) ++ w' ++ [rbrack]).
Proof.
  intros Hw Hw'. induction 1 as [|v vs Hv _ IH]; [by apply el_close|].
  rewrite fmap_cons. unfold rest at 1. rewrite commas_cons, <- !app_comm_cons, <- !app_assoc.
  by apply (el_more [] w v (f v)); [constructor|..].
Qed.

Lemma array_denotes (f : value -> list byte) w w' v vs :
  blanks w -> blanks w' -> Forall (fun v => denotes v (f v)) (v :: vs) ->
  denotes (JArr (v :: vs)) (lbrack :: commas ((fun v => w ++ f v) <$> v :: vs) ++ w' ++ [rbrack]).
Proof.
  intros Hw Hw' [Hv Hvs]%Forall_cons. rewrite fmap_cons, commas_cons, <- !app_assoc.
  apply dn_arr; [done..|by apply elems_rest].
Qed.

Lemma members_rest (f : list byte * value -> list byte) w w' ms :
  blanks w -> blanks w' -> Forall (fun kv => member kv (f kv)) ms ->
  members_after ms (rest ((fun kv => w ++ f kv) <$> ms) ++ w' ++ [rbrace]).
Proof.
  intros Hw Hw'. induction 1 as [|v vs Hv _ IH]; [by apply ms_close|].
  rewrite fmap_cons. unfold rest at 1. rewrite commas_cons, <- !app_comm_cons, <- !app_assoc.
  by apply (ms_more [] w v (f v)); [constructor|..].
Qed.

Lemma object_denotes (f : list byte * value -> list byte) w w' kv ms :
  blanks w -> blanks w' -> Forall (fun kv => member kv (f kv)) (kv :: ms) ->
  denotes (JObj (kv :: ms)) (lbrace :: commas ((fun kv => w ++ f kv) <$> kv :: ms) ++ w' ++ [rbrace]).
Proof.
  intros Hw Hw' [Hv Hvs]%Forall_cons. rewrite fmap_cons, commas_cons, <- !app_assoc.
  apply dn_obj; [done..|by apply members_rest].
Qed.

Definition member_text (kv : list byte * value) : list byte := quoted (escape kv.1) ++ colon :: print kv.2.

Lemma print_arr vs : print (JArr vs) = lbrack :: commas (print <$> vs) ++ [rbrack].
Proof. done. Qed.
Lemma print_obj ms : print (JObj ms) = lbrace :: commas (member_text <$> ms) ++ [rbrace].
Proof. cbn [print]. do 3 f_equal. apply list_fmap_ext. by intros _ [? ?] _. Qed.

Lemma print_denotes v : printable v -> denotes v (print v).
Proof.
  revert v. fix IH 2. intros v Hv. destruct Hv as [|[]|z Hz|s|vs Hvs|ms Hms].
  - apply dn_null.
  - apply (dn_bool true).
  - apply (dn_bool false).
  - by apply dn_num, decimal_number.
  - apply dn_str. intros t. apply parse_escape.
  - assert (Forall (fun v => denotes v (print v)) vs) as H.
    { clear -IH Hvs. induction Hvs as [|v vs Hv _ IHvs]; constructor; [by apply IH|exact IHvs]. }
    clear IH. rewrite print_arr. destruct vs as [|v vs]; [apply (dn_nil []); constructor|].
    apply (array_denotes print [] []); [constructor..|done].
  - assert (Forall (fun kv => member kv (member_text kv)) ms) as H.
    { clear -IH Hms. induction Hms as [|[k v] ms [Hk Hv] _ IHms]; constructor; [|exact IHms].
      apply (mb_intro (escape k) k [] []); [|constructor..|by apply IH].
      intros t. cbn [fst] in Hk. by rewrite parse_escape, Hk. }
    clear IH. rewrite print_obj. destruct ms as [|kv ms]; [apply (dn_empty []); constructor|].
    apply (object_denotes member_text [] []); [constructor..|done].
Qed.

(** A printed value, followed by what ends a value, is read back. *)
Lemma next_value_print v t : printable v -> delimited t -> next_value (print v ++ t) = Some (v, t).
Proof. intros Hv. by apply next_value_denotes, print_denotes. Qed.

(** ** Progress *)

Definition shorter (t s : list byte) : Prop := (length t < length s)%nat.

Lemma expect_shorter c s r : expect c s = Some r -> shorter r s.
Proof. intros ->%expect_Some. unfold shorter. simpl. lia. Qed.

Lemma skip_ws_length s : (length (skip_ws s) <= length s)%nat.
Proof. induction s as [|c s IH]; simpl; [done|]. destruct (is_space c); simpl; lia. Qed.

Lemma span_digits_length s d r : span_digits s = (d, r) -> (length r + length d = length s)%nat.
Proof.
  revert d r. induction s as [|c s IH]; intros d r; cbn [span_digits]; [by intros [= <- <-]|].
  destruct (is_digit c); [|by intros [= <- <-]]. destruct (span_digits s) as [d' r'] eqn:E.
  intros [= <- <-]. specialize (IH _ _ eq_refl). simpl. lia.
Qed.

Lemma some_digits_shorter s d r : some_digits s = Some (d, r) -> shorter r s.
Proof.
  unfold some_digits, shorter. destruct (span_digits s) as [d' r'] eqn:E.
  apply span_digits_length in E. destruct d'; [done|]. intros [= <- <-]. simpl in *. lia.
Qed.

Lemma parse_number_shorter s n r : parse_number s = Some (n, r) -> shorter r s.
Proof.
  unfold parse_number, shorter. intros Hp.
  assert (exists neg s0, (match expect dash s with Some s' => ([dash], s') | None => ([], s) end) = (neg, s0)
    /\ (length s0 <= length s)%nat) as (neg & s0 & E & Hs0).
  { destruct (expect dash s) as [s'|] eqn:E; eexists _, _; (split; [done|]); [|done].
    apply expect_shorter in E. unfold shorter in E. lia. }
  rewrite E in Hp.
  destruct (parse_int s0) as [[i s1]|] eqn:Ei; [|done]. cbn [mbind option_bind] in Hp.
  destruct (parse_frac s1) as [[f s2]|] eqn:Ef; [|done]. cbn [mbind option_bind] in Hp.
  destruct (parse_exp s2) as [[e s3]|] eqn:Ee; [|done]. cbn [mbind option_bind] in Hp.
  injection Hp as _ <-.
  assert (shorter s1 s0) as H1.
  { unfold parse_int in Ei. destruct (expect zero s0) eqn:Ez; [|by eapply some_digits_shorter].
    injection Ei as _ ->. by eapply expect_shorter. }
  assert (length s2 <= length s1)%nat as H2.
  { unfold parse_frac in Ef. destruct (expect period s1) as [s'|] eqn:Ez; [|by injection Ef as _ ->].
    apply expect_shorter in Ez. destruct (some_digits s') as [[d r']|] eqn:Ed; [|done].
    cbn [mbind option_bind] in Ef. injection Ef as _ ->. apply some_digits_shorter in Ed.
    unfold shorter in *. lia. }
  assert (length s3 <= length s2)%nat as H3.
  { unfold parse_exp in Ee. destruct s2 as [|c s2]; [by injection Ee as _ <-|].
    case_decide; [|by injection Ee as _ <-].
    destruct (parse_sign s2) as [sg s'] eqn:Es. destruct (some_digits s') as [[d r']|] eqn:Ed; [|done].
    cbn [mbind option_bind] in Ee. injection Ee as _ ->. apply some_digits_shorter in Ed.
    assert (length s' <= length s2)%nat.
    { unfold parse_sign in Es. destruct s2 as [|x s2]; [by injection Es as _ <-|].
      case_decide; injection Es as _ <-; simpl; lia. }
    unfold shorter in *. simpl. lia. }
  unfold shorter in *. lia.
Qed.

Lemma parse_literal_length l s r : parse_literal l s = Some r -> (length r <= length s)%nat.
Proof.
  revert s. induction l as [|c l IH]; intros s; cbn [parse_literal]; [by intros [= ->]|].
  destruct s as [|x s]; [done|]. case_decide; [|done]. intros ?%IH. simpl. lia.
Qed.

Lemma parse_string_shorter s v r : parse_string s = Some (v, r) -> shorter r s.
Proof.
  unfold parse_string. destruct (parse_chars s) as [[x t]|] eqn:E; [|done].
  intros [= _ <-]. by eapply parse_chars_shorter.
Qed.

Ltac shorten :=
  repeat match goal with
  | H : _ ≫= _ = Some _ |- _ => apply bind_Some in H as (? & ? & ?)
  | H : (let '(_, _) := ?p in _) = Some _ |- _ => destruct p
  | H : Some _ = Some _ |- _ => apply (inj Some) in H; simplify_eq
  | H : expect _ _ = Some _ |- _ => apply expect_shorter in H
  | H : parse_number _ = Some _ |- _ => apply parse_number_shorter in H
  | H : parse_literal _ _ = Some _ |- _ => apply parse_literal_length in H
  | H : parse_string _ = Some _ |- _ => apply parse_string_shorter in H
  | H : parse_chars _ = Some _ |- _ => apply parse_chars_shorter in H
  end.

Lemma parse_shorter n :
  (forall s v r, parse_value n s = Some (v, r) -> shorter r s) /\
  (forall s v r, parse_elems n s = Some (v, r) -> shorter r s) /\
  (forall s v r, parse_members n s = Some (v, r) -> shorter r s).
Proof.
  induction n as [|n (Hv & He & Hm)]; [done|]. unfold shorter in *. split_and!; intros s v r.
  - cbn [parse_value]. pose proof (skip_ws_length s) as Hs.
    destruct (skip_ws s) as [|c s']; [done|]. cbn [length] in Hs. pose proof (skip_ws_length s') as Hs'.
    case_decide; [intros; shorten; unfold shorter in *; lia|]. case_decide.
    { cbn zeta. destruct (expect rbrace _) eqn:E; intros; shorten; unfold shorter in *;
        [lia|]. apply Hm in H1. lia. }
    case_decide.
    { cbn zeta. destruct (expect rbrack _) eqn:E; intros; shorten; unfold shorter in *;
        [lia|]. apply He in H2. lia. }
    repeat (case_decide; [intros; shorten; lia|]).
    intros; shorten. unfold shorter in *. simpl in *. lia.
  - cbn [parse_elems]. intros; shorten. apply Hv in H.
    match goal with H : context [skip_ws ?x] |- _ => pose proof (skip_ws_length x) end.
    destruct (expect comma _) eqn:E; shorten; unfold shorter in *; [|lia].
    match goal with H : parse_elems _ _ = _ |- _ => apply He in H end. lia.
  - cbn [parse_members]. intros; shorten.
    match goal with H : parse_value _ _ = _ |- _ => apply Hv in H end.
    repeat match goal with H : context [skip_ws ?x] |- _ =>
      lazymatch goal with _ : (length (skip_ws x) <= _)%nat |- _ => fail | _ => pose proof (skip_ws_length x) end end.
    destruct (expect comma _) eqn:E; shorten; unfold shorter in *; [|lia].
    match goal with H : parse_members _ _ = _ |- _ => apply Hm in H end. lia.
Qed.

Lemma next_value_shorter s v r : next_value s = Some (v, r) -> (length r < length s)%nat.
Proof.
  unfold next_value. intros H. apply (proj1 (parse_shorter _)) in H. unfold shorter in H.
  pose proof (skip_ws_length s). lia.
Qed.
