(* ===== verification/GoIO.v ===== *)
(** * Files and buffered writers, as the append log uses them

    The part of Go's [os], [bufio] and [path/filepath] that [appendlog.go]
    and [drainOverflow] call.  A file system maps paths to inodes and
    inodes to contents, so that an open file keeps its inode across a
    rename.  Every system call may fail: [faults] gives the outcome of the
    n-th one, and the file system counts the calls made. *)
From Stdlib Require Import ZArith Lia.
From Stdlib Require Import Strings.Byte Strings.String.
From stdpp Require Import base list gmap.
From S2P Require Import Prelude GoStrings.
#[local] Open Scope Z_scope.

Inductive ioerr : Type :=
  | ErrSys
  | ErrNotExist
  | ErrClosed
  | ErrMarshal.

#[export] Instance ioerr_eq_decision : EqDecision ioerr.
Proof. solve_decision. Defined.

(** Outcome of a system call: success, or failure after [n] bytes of a
    write reached the file. *)
Inductive fault : Type :=
  | Good
  | Bad (n : nat).

Module filepath.

Definition dotdot : gostring := bs "..".

(** One component of [Clean]'s scan: [stack] holds the components kept so
    far, last first. *)
Definition clean_step (rooted : bool) (stack : list gostring) (c : gostring) : list gostring :=
  if bool_decide (c = []) || bool_decide (c = bs ".") then stack
  else if bool_decide (c = dotdot) then
    match stack with
    | top :: rest => if bool_decide (top = dotdot) then c :: stack else rest
    | [] => if rooted then [] else [c]
    end
  else c :: stack.

Definition Clean (path : gostring) : gostring :=
  let rooted := strings.HasPrefix path (bs "/") in
  let kept := rev (fold_left (clean_step rooted) (strings.Split path x2f) []) in
  let body := strings.Join kept (bs "/") in
  if rooted then bs "/" ++ body
  else if bool_decide (body = []) then bs "." else body.

(** [filepath.Dir]: everything up to the last slash, cleaned. *)
Definition Dir (path : gostring) : gostring :=
  Clean (take (Z.to_nat (strings.LastIndex path (bs "/") + 1)) path).

End filepath.

Record FS := mkFS {
  fs_names : gmap gostring nat;
  fs_inodes : gmap nat (list byte);
  fs_next : nat;
  fs_calls : nat
}.

(** An open file: its inode, and whether [Close] was called. *)
Record file := mkFile {
  f_inode : nat;
  f_closed : bool
}.

Definition contents (fs : FS) (path : gostring) : option (list byte) :=
  i ← fs_names fs !! path; fs_inodes fs !! i.

Section calls.
Context (faults : nat -> fault).

Definition tick (fs : FS) : FS :=
  {| fs_names := fs_names fs; fs_inodes := fs_inodes fs;
     fs_next := fs_next fs; fs_calls := S (fs_calls fs) |}.

Definition outcome (fs : FS) : fault := faults (fs_calls fs).

(** [os.MkdirAll]: directories are not part of the state. *)
Definition MkdirAll (fs : FS) : go_result ioerr unit * FS :=
  match outcome fs with
  | Good => (Ok tt, tick fs)
  | Bad _ => (Err ErrSys, tick fs)
  end.

(** [os.OpenFile(path, O_APPEND|O_CREATE|O_WRONLY, _)]. *)
Definition OpenAppend (path : gostring) (fs : FS) : go_result ioerr file * FS :=
  match outcome fs with
  | Bad _ => (Err ErrSys, tick fs)
  | Good =>
      match fs_names fs !! path with
      | Some i => (Ok (mkFile i false), tick fs)
      | None =>
          (Ok (mkFile (fs_next fs) false),
           {| fs_names := <[path := fs_next fs]> (fs_names fs);
              fs_inodes := <[fs_next fs := []]> (fs_inodes fs);
              fs_next := S (fs_next fs); fs_calls := S (fs_calls fs) |})
      end
  end.

(** [os.Open] followed by reading the whole file. *)
Definition OpenRead (path : gostring) (fs : FS) : go_result ioerr (list byte) * FS :=
  match outcome fs with
  | Bad _ => (Err ErrSys, tick fs)
  | Good =>
      match contents fs path with
      | Some b => (Ok b, tick fs)
      | None => (Err ErrNotExist, tick fs)
      end
  end.

(** Bytes appended to an inode. *)
Definition extend (i : nat) (b : list byte) (fs : FS) : FS :=
  {| fs_names := fs_names fs;
     fs_inodes := alter (fun c => c ++ b) i (fs_inodes fs);
     fs_next := fs_next fs; fs_calls := S (fs_calls fs) |}.

(** [File.Write] of a non-empty [b]: the number of bytes that reached the
    file, and the error. *)
Definition Write (f : file) (b : list byte) (fs : FS) : (nat * option ioerr) * FS :=
  if f_closed f then ((0%nat, Some ErrClosed), fs)
  else match outcome fs with
       | Good => ((length b, None), extend (f_inode f) b fs)
       | Bad n =>
           let k := Nat.min n (length b - 1) in
           ((k, Some ErrSys), extend (f_inode f) (take k b) fs)
       end.

Definition Close (f : file) (fs : FS) : go_result ioerr unit * file * FS :=
  if f_closed f then (Err ErrClosed, f, fs)
  else match outcome fs with
       | Good => (Ok tt, mkFile (f_inode f) true, tick fs)
       | Bad _ => (Err ErrSys, mkFile (f_inode f) true, tick fs)
       end.

(** [os.Rename], which replaces an existing target. *)
Definition Rename (old new : gostring) (fs : FS) : go_result ioerr unit * FS :=
  match outcome fs with
  | Bad _ => (Err ErrSys, tick fs)
  | Good =>
      match fs_names fs !! old with
      | None => (Err ErrNotExist, tick fs)
      | Some i =>
          (Ok tt, {| fs_names := <[new := i]> (delete old (fs_names fs));
                     fs_inodes := fs_inodes fs; fs_next := fs_next fs;
                     fs_calls := S (fs_calls fs) |})
      end
  end.

Definition Remove (path : gostring) (fs : FS) : FS :=
  match outcome fs with
  | Bad _ => tick fs
  | Good =>
      {| fs_names := delete path (fs_names fs); fs_inodes := fs_inodes fs;
         fs_next := fs_next fs; fs_calls := S (fs_calls fs) |}
  end.

(** ** [bufio.Writer] over an open file

    The buffer holds at most [bufsize] bytes; the first error sticks: it is
    returned by every later [Write] and [Flush]. *)

Definition bufsize : nat := 4096.

Record writer := mkWriter {
  w_buf : list byte;
  w_err : option ioerr
}.

Definition Flush (f : file) (w : writer) (fs : FS) : go_result ioerr unit * writer * FS :=
  match w_err w with
  | Some e => (Err e, w, fs)
  | None =>
      if bool_decide (w_buf w = []) then (Ok tt, w, fs)
      else match Write f (w_buf w) fs with
           | ((_, None), fs') => (Ok tt, mkWriter [] None, fs')
           | ((n, Some e), fs') => (Err e, mkWriter (drop n (w_buf w)) (Some e), fs')
           end
  end.

(** [Writer.Write]; [fuel] bounds the turns of its loop. *)
Fixpoint BufWrite (fuel : nat) (f : file) (p : list byte) (w : writer) (fs : FS)
    : go_result ioerr unit * writer * FS :=
  let avail := (bufsize - length (w_buf w))%nat in
  if bool_decide (avail < length p)%nat && bool_decide (w_err w = None) then
    match fuel with
    | O => (Panic, w, fs)
    | S fuel' =>
        if bool_decide (w_buf w = []) then
          let '((n, e), fs') := Write f p fs in
          BufWrite fuel' f (drop n p) (mkWriter [] e) fs'
        else
          let '(_, w', fs') := Flush f (mkWriter (w_buf w ++ take avail p) None) fs in
          BufWrite fuel' f (drop avail p) w' fs'
    end
  else match w_err w with
       | Some e => (Err e, w, fs)
       | None => (Ok tt, mkWriter (w_buf w ++ p) None, fs)
       end.

(** Two turns are enough whatever the buffer and the input are. *)
Definition write_fuel : nat := 2.

End calls.
