(* ===== verification/AppendLog.v ===== *)
(** * The append log ([broker/internal/pipeline/appendlog.go])

    The JSON-lines file behind the audit log and the overflow queue:
    creation, [Append], [Close] and [rotate] on a file system where any
    call may fail.  The JSON coding of an event is the interface
    [EventCodec]; the operations are proved against it. *)
From Stdlib Require Import ZArith Lia.
From Stdlib Require Import Strings.Byte Strings.String.
From stdpp Require Import base list gmap.
From S2P Require Import Prelude GoStrings Events GoIO.
#[local] Open Scope Z_scope.

Abbreviation Event := events.Event.

Definition newline : byte := x0a.

(** What [encoding/json] promises the log: [marshal] gives the bytes of an
    event or an error; [next] decodes the next value of a stream, skipping
    leading white space, and returns the rest.  [canon] is what a decoded
    event has become (JSON replaces invalid UTF-8, for instance). *)
Class EventCodec := {
  marshal : Event -> option (list byte);
  next : list byte -> option (Event * list byte);
  canon : Event -> Event;
  next_marshal ev b rest :
    marshal ev = Some b -> next (b ++ newline :: rest) = Some (canon ev, newline :: rest);
  next_newline s : next (newline :: s) = next s;
  next_nil : next [] = None;
  next_shorter s ev rest : next s = Some (ev, rest) -> (length rest < length s)%nat;
  canon_idem ev : canon (canon ev) = canon ev;
  canon_marshal ev : is_Some (marshal ev) -> is_Some (marshal (canon ev))
}.

Section codec.
Context `{EventCodec} (faults : nat -> fault).

(** The struct; [w] and [enc] always wrap the current [f]. *)
Record appendLog := mkLog {
  al_path : gostring;
  al_f : file;
  al_w : writer;
  al_enc : option ioerr
}.

Definition newAppendLog (path : gostring) (fs : FS) : go_result ioerr appendLog * FS :=
  let '(r, fs) := if bool_decide (filepath.Dir path <> bs ".")
                  then MkdirAll faults fs else (Ok tt, fs) in
  match r with
  | Err e => (Err e, fs)
  | Panic => (Panic, fs)
  | Ok _ =>
      match OpenAppend faults path fs with
      | (Ok f, fs) => (Ok (mkLog path f (mkWriter [] None) None), fs)
      | (Err e, fs) => (Err e, fs)
      | (Panic, fs) => (Panic, fs)
      end
  end.

(** [json.Encoder.Encode]: marshal, append a newline, one [Write]; a write
    error sticks to the encoder. *)
Definition Encode (ev : Event) (a : appendLog) (fs : FS)
    : go_result ioerr unit * appendLog * FS :=
  match al_enc a with
  | Some e => (Err e, a, fs)
  | None =>
      match marshal ev with
      | None => (Err ErrMarshal, a, fs)
      | Some b =>
          let '(r, w, fs) := BufWrite faults write_fuel (al_f a) (b ++ [newline]) (al_w a) fs in
          (r, mkLog (al_path a) (al_f a) w (match r with Err e => Some e | _ => None end), fs)
      end
  end.

Definition log_flush (a : appendLog) (fs : FS) : go_result ioerr unit * appendLog * FS :=
  let '(r, w, fs) := Flush faults (al_f a) (al_w a) fs in
  (r, mkLog (al_path a) (al_f a) w (al_enc a), fs).

Definition Append (ev : Event) (a : appendLog) (fs : FS)
    : go_result ioerr unit * appendLog * FS :=
  match Encode ev a fs with
  | (Ok _, a, fs) => log_flush a fs
  | r => r
  end.

Definition log_close (a : appendLog) (fs : FS) : go_result ioerr unit * appendLog * FS :=
  let '(r, f, fs) := GoIO.Close faults (al_f a) fs in
  (r, mkLog (al_path a) f (al_w a) (al_enc a), fs).

Definition Close (a : appendLog) (fs : FS) : go_result ioerr unit * appendLog * FS :=
  match log_flush a fs with
  | (Ok _, a, fs) => log_close a fs
  | (r, a, fs) => let '(_, a, fs) := log_close a fs in (r, a, fs)
  end.

Definition replay_path (a : appendLog) : gostring := al_path a ++ bs ".replay".

(** [rotate]: flush, close, rename aside, reopen.  The returned path is
    empty when there was no file to rename. *)
Definition rotate (a : appendLog) (fs : FS) : go_result ioerr gostring * appendLog * FS :=
  match log_flush a fs with
  | (Err e, a, fs) => (Err e, a, fs)
  | (Panic, a, fs) => (Panic, a, fs)
  | (Ok _, a, fs) =>
      match log_close a fs with
      | (Err e, a, fs) => (Err e, a, fs)
      | (Panic, a, fs) => (Panic, a, fs)
      | (Ok _, a, fs) =>
          let '(r, fs) := Rename faults (al_path a) (replay_path a) fs in
          let rotated := match r with
                         | Ok _ => Ok (replay_path a)
                         | Err ErrNotExist => Ok []
                         | Err e => Err e
                         | Panic => Panic
                         end in
          match rotated with
          | Err e => (Err e, a, fs)
          | Panic => (Panic, a, fs)
          | Ok path =>
              match OpenAppend faults (al_path a) fs with
              | (Ok f, fs) => (Ok path, mkLog (al_path a) f (mkWriter [] None) None, fs)
              | (Err e, fs) => (Err e, a, fs)
              | (Panic, fs) => (Panic, a, fs)
              end
          end
      end
  end.

(** Decoding a whole stream the way a replay loop reads it: until the first
    value that cannot be decoded. *)
Fixpoint decode_stream (fuel : nat) (s : list byte) : list Event :=
  match fuel with
  | O => []
  | S fuel' =>
      match next s with
      | Some (ev, rest) => ev :: decode_stream fuel' rest
      | None => []
      end
  end.

End codec.
