(* ===== verification/EventJson.v ===== *)
(** * Events as JSON ([broker/internal/events/events.go], the field tags)

    [json.Marshal] of an [Event] and [json.Decoder.Decode] into one, with
    Go's rules for the fields: keys match without regard to case, unknown
    keys are ignored, the last of several equal keys wins, [null] leaves a
    field alone, anything of the wrong type is an error.  This is the
    implementation of [EventCodec] that the broker runs with. *)
From Stdlib Require Import ZArith Lia.
From Stdlib Require Import Strings.Byte Strings.String.
From stdpp Require Import base list sets.
From S2P Require Import Prelude GoTime Json JsonFacts Events Wire Decoding AppendLog.
Import json.
#[local] Open Scope Z_scope.

Module eventjson.

(** ** Writing *)

Definition json_uint (z : Z) : value := JNum (decimal z).
Definition json_string (s : gostring) : value := JStr (escape s) (to_valid s).

(** The numbers fit their Go types. *)
Definition typed (ev : Event) : Prop :=
  is_u 32 (events.PID ev) /\ is_u 32 (events.TID ev) /\ is_u 32 (events.UID ev) /\
  is_u 32 (events.GID ev) /\ is_u 8 (events.Argc ev).

#[export] Instance typed_decision ev : Decision (typed ev).
Proof. unfold typed. apply _. Defined.

(** The object of an event whose timestamp's text is [t]; the keys are the
    struct's tags, in its order. *)
Definition event_members (t : list byte) (ev : Event) : list (list byte * value) :=
  [(bs "timestamp", JStr t t);
   (bs "pid", json_uint (events.PID ev));
   (bs "tid", json_uint (events.TID ev));
   (bs "uid", json_uint (events.UID ev));
   (bs "gid", json_uint (events.GID ev));
   (bs "comm", json_string (events.Comm ev));
   (bs "filename", json_string (events.Filename ev));
   (bs "args", JArr (json_string <$> events.Args ev));
   (bs "argc", json_uint (events.Argc ev));
   (bs "truncated", JBool (events.Truncated ev));
   (bs "command_line", json_string (events.CommandLine ev))].

Definition marshal_event (zone : Z) (ev : Event) : option (list byte) :=
  t ← format_time zone (events.Timestamp ev);
  if decide (typed ev) then Some (print (JObj (event_members t ev))) else None.

(** ** Reading *)

(** The zero value: the year-1 time, and nothing else. *)
Definition zero_event : Event :=
  events.mkEvent (-62135596800000000000) 0 0 0 0 [] [] [] 0 false [].

(** A key in upper case, as keys are compared; two letters outside ASCII
    fold to ASCII ones. *)
Definition upper (c : byte) : byte := if between 97 122 c then byte_of (byte_val c - 32) else c.

Fixpoint fold_name (s : list byte) : list byte :=
  match s with
  | [] => []
  | c :: s1 =>
      match s1 with
      | d :: s2 =>
          if decide (c = xc5 /\ d = xbf) then x53 :: fold_name s2
          else
            match s2 with
            | e :: s3 =>
                if decide (c = xe2 /\ d = x84 /\ e = xaa) then x4b :: fold_name s3
                else upper c :: fold_name s1
            | [] => upper c :: fold_name s1
            end
      | [] => upper c :: fold_name s1
      end
  end.

(** Decoding into a field that holds [old]. *)
Definition to_uint (w old : Z) (v : value) : option Z :=
  match v with JNull => Some old | JNum lit => parse_uint w lit | _ => None end.

Definition to_string (old : gostring) (v : value) : option gostring :=
  match v with JNull => Some old | JStr _ s => Some s | _ => None end.

Definition to_bool (old : bool) (v : value) : option bool :=
  match v with JNull => Some old | JBool b => Some b | _ => None end.

Definition to_strings (v : value) : option (list gostring) :=
  match v with JNull => Some [] | JArr vs => mapM (to_string []) vs | _ => None end.

(** [Time.UnmarshalJSON] takes the text between the quotes as it is. *)
Definition to_time (old : Z) (v : value) : option Z :=
  match v with JNull => Some old | JStr raw _ => parse_time raw | _ => None end.

Definition set_member (ev : Event) (k : list byte) (v : value) : option Event :=
  let '(events.mkEvent ts pid tid uid gid comm fn args argc tr cl) := ev in
  let k := fold_name k in
  if decide (k = bs "TIMESTAMP") then
    ts ← to_time ts v; Some (events.mkEvent ts pid tid uid gid comm fn args argc tr cl)
  else if decide (k = bs "PID") then
    pid ← to_uint 32 pid v; Some (events.mkEvent ts pid tid uid gid comm fn args argc tr cl)
  else if decide (k = bs "TID") then
    tid ← to_uint 32 tid v; Some (events.mkEvent ts pid tid uid gid comm fn args argc tr cl)
  else if decide (k = bs "UID") then
    uid ← to_uint 32 uid v; Some (events.mkEvent ts pid tid uid gid comm fn args argc tr cl)
  else if decide (k = bs "GID") then
    gid ← to_uint 32 gid v; Some (events.mkEvent ts pid tid uid gid comm fn args argc tr cl)
  else if decide (k = bs "COMM") then
    comm ← to_string comm v; Some (events.mkEvent ts pid tid uid gid comm fn args argc tr cl)
  else if decide (k = bs "FILENAME") then
    fn ← to_string fn v; Some (events.mkEvent ts pid tid uid gid comm fn args argc tr cl)
  else if decide (k = bs "ARGS") then
    args ← to_strings v; Some (events.mkEvent ts pid tid uid gid comm fn args argc tr cl)
  else if decide (k = bs "ARGC") then
    argc ← to_uint 8 argc v; Some (events.mkEvent ts pid tid uid gid comm fn args argc tr cl)
  else if decide (k = bs "TRUNCATED") then
    tr ← to_bool tr v; Some (events.mkEvent ts pid tid uid gid comm fn args argc tr cl)
  else if decide (k = bs "COMMAND_LINE") then
    cl ← to_string cl v; Some (events.mkEvent ts pid tid uid gid comm fn args argc tr cl)
  else Some ev.

Fixpoint set_members (ev : Event) (ms : list (list byte * value)) : option Event :=
  match ms with
  | [] => Some ev
  | (k, v) :: ms' => ev' ← set_member ev k v; set_members ev' ms'
  end.

Definition event_of_value (v : value) : option Event :=
  match v with
  | JObj ms => set_members zero_event ms
  | JNull => Some zero_event
  | _ => None
  end.

Definition next_event (s : list byte) : option (Event * list byte) :=
  '(v, r) ← next_value s; ev ← event_of_value v; Some (ev, r).

(** What an event has become when it is read back: its strings without
    invalid UTF-8. *)
Definition valid_event (ev : Event) : Event :=
  {| events.Timestamp := events.Timestamp ev;
     events.PID := events.PID ev; events.TID := events.TID ev;
     events.UID := events.UID ev; events.GID := events.GID ev;
     events.Comm := to_valid (events.Comm ev);
     events.Filename := to_valid (events.Filename ev);
     events.Args := to_valid <$> events.Args ev;
     events.Argc := events.Argc ev;
     events.Truncated := events.Truncated ev;
     events.CommandLine := to_valid (events.CommandLine ev) |}.

(** ** The round trip *)

Lemma plain_escape c : plain c -> ascii c = true /\ escape_segment (Rune [c]) = [c].
Proof.
  intros [Hd|Hc].
  - assert (is_digit c = true) as H by (apply is_digit_val; by destruct (digit_val c)).
    by destruct c.
  - rewrite !elem_of_cons, elem_of_nil in Hc.
    by destruct Hc as [-> |[-> |[-> |[-> |[-> |[-> |[]]]]]]].
Qed.

Lemma escape_plain t : Forall plain t -> escape t = t /\ to_valid t = t.
Proof.
  induction 1 as [|c t Hc Ht [IHe IHv]]; [done|].
  destruct (plain_escape c Hc) as [Ha He].
  change (c :: t) with ([c] ++ t). rewrite escape_rune, to_valid_rune by by constructor.
  by rewrite He, IHe, IHv.
Qed.

Lemma json_uint_printable z w : is_u w z -> 0 <= w <= 64 -> printable (json_uint z).
Proof.
  intros Hz Hw. apply pr_num. unfold is_u in Hz. split; [lia|].
  eapply Z.lt_le_trans; [apply Hz|]. apply Z.pow_le_mono_r; lia.
Qed.

Lemma event_printable zone t ev :
  format_time zone (events.Timestamp ev) = Some t -> typed ev -> printable (JObj (event_members t ev)).
Proof.
  intros Ht (H1 & H2 & H3 & H4 & H5). apply pr_obj.
  destruct (escape_plain t (format_time_plain _ _ _ Ht)) as [Ee Ev].
  assert (printable (JStr t t)) as Hts by (rewrite <- Ee at 1; rewrite <- Ev at 2; apply pr_str).
  unfold event_members. repeat (apply Forall_cons; split; [split; [reflexivity|cbn [snd]]|]);
    try apply Forall_nil; try done; try (by apply pr_str); try (by eapply json_uint_printable); try apply pr_bool.
  apply pr_arr, Forall_fmap, Forall_true. intros s. apply pr_str.
Qed.

Lemma to_uint_decimal w old z : is_u w z -> w <= 64 -> to_uint w old (json_uint z) = Some z.
Proof. intros Hz Hw. by apply parse_uint_decimal. Qed.

Lemma to_strings_args l : to_strings (JArr (json_string <$> l)) = Some (to_valid <$> l).
Proof.
  cbn [to_strings]. induction l as [|s l IH]; [done|].
  rewrite !fmap_cons. cbn [mapM]. rewrite IH. done.
Qed.

(** Decoding a member under one of the tags, once the value is decoded. *)
Ltac member :=
  match goal with
  | |- context [set_member (events.mkEvent ?a ?b ?c ?d ?e ?f ?g ?h ?i ?j ?l) ?k ?v] =>
      let E := fresh in
      eassert (set_member (events.mkEvent a b c d e f g h i j l) k v = _) as E;
      [unfold set_member; cbv zeta;
       repeat rewrite decide_False by (vm_compute; congruence);
       rewrite decide_True by (vm_compute; congruence); reflexivity|];
      rewrite E; clear E
  end.

Lemma event_of_members zone t ev :
  Z.abs zone < 1440 -> format_time zone (events.Timestamp ev) = Some t -> typed ev ->
  event_of_value (JObj (event_members t ev)) = Some (valid_event ev).
Proof.
  intros Hz Ht (H1 & H2 & H3 & H4 & H5). apply parse_format_time in Ht; [|done].
  cbn [event_of_value]. unfold event_members, zero_event. cbn [set_members].
  member. cbn [to_time]. rewrite Ht. cbn [mbind option_bind].
  do 4 (member; rewrite to_uint_decimal by (done || lia); cbn [mbind option_bind]).
  do 2 (member; cbn [to_string json_string mbind option_bind]).
  member. rewrite to_strings_args. cbn [mbind option_bind].
  member. rewrite to_uint_decimal by (done || lia). cbn [mbind option_bind].
  member. cbn [to_bool mbind option_bind].
  member. done.
Qed.

Lemma marshal_event_Some zone ev b :
  marshal_event zone ev = Some b ->
  exists t, format_time zone (events.Timestamp ev) = Some t /\ typed ev /\
    b = print (JObj (event_members t ev)).
Proof.
  unfold marshal_event. destruct (format_time _ _) as [t|]; [|done]. cbn [mbind option_bind].
  case_decide; [|done]. intros E%(inj Some). by exists t.
Qed.

Lemma next_marshal_event zone ev b rest :
  Z.abs zone < 1440 -> marshal_event zone ev = Some b ->
  next_event (b ++ newline :: rest) = Some (valid_event ev, newline :: rest).
Proof.
  intros Hz (t & Ht & Hty & ->)%marshal_event_Some. unfold next_event.
  rewrite next_value_print by (by eapply event_printable || by apply delimited_cons; right).
  cbn [mbind option_bind]. by rewrite (event_of_members zone t ev) by done.
Qed.

Lemma valid_event_idem ev : valid_event (valid_event ev) = valid_event ev.
Proof.
  assert (forall l : list gostring, to_valid <$> (to_valid <$> l) = to_valid <$> l) as Hl.
  { intros l. rewrite <- list_fmap_compose. apply list_fmap_ext. intros _ s _. apply to_valid_idem. }
  destruct ev as [ts pid tid uid gid comm fn args argc tr cl].
  change (events.mkEvent ts pid tid uid gid (to_valid (to_valid comm)) (to_valid (to_valid fn))
    (to_valid <$> (to_valid <$> args)) argc tr (to_valid (to_valid cl)) =
    events.mkEvent ts pid tid uid gid (to_valid comm) (to_valid fn) (to_valid <$> args) argc tr (to_valid cl)).
  by rewrite !to_valid_idem, Hl.
Qed.

Lemma marshal_valid zone ev :
  is_Some (marshal_event zone ev) -> is_Some (marshal_event zone (valid_event ev)).
Proof.
  intros [b (t & Ht & Hty & _)%marshal_event_Some]. unfold marshal_event.
  change (events.Timestamp (valid_event ev)) with (events.Timestamp ev). rewrite Ht.
  cbn [mbind option_bind]. rewrite decide_True by done. by eexists.
Qed.

Lemma next_event_shorter s ev rest : next_event s = Some (ev, rest) -> (length rest < length s)%nat.
Proof.
  unfold next_event. destruct (next_value s) as [[v r]|] eqn:E; [|done]. cbn [mbind option_bind].
  destruct (event_of_value v); [|done]. intros [= _ <-]. by eapply next_value_shorter.
Qed.

(** ** Which events have a JSON form *)

(** Years 0 to 9999, generously: 293 years before the epoch to 676 after. *)
Lemma format_time_Some zone t :
  Z.abs zone < 1440 -> - 2 ^ 63 <= t < 2 ^ 64 -> is_Some (format_time zone t).
Proof.
  intros Hz Ht. unfold format_time. set (l := t + zone * minute_ns).
  assert (-200000 <= l / day_ns <= 300000) as Hd.
  { unfold l, minute_ns, day_ns. split; [apply Z.div_le_lower_bound|apply Z.div_le_upper_bound]; lia. }
  destruct (civil_of_days (l / day_ns)) as [[y m] d] eqn:Ec.
  apply civil_of_days_spec in Ec as (Ec & Hm & Hdd). clearbody l.
  assert (days_in m y <= 31) as Hdin
    by (unfold days_in; repeat destruct (_ =? _); destruct (is_leap y); simpl; lia).
  assert (0 <= y <= 9999) as Hy.
  { unfold days_of_civil, epoch_days in Ec. set (q := l / day_ns) in *. clearbody q.
    set (mp := if m <=? 2 then m + 9 else m - 3) in *.
    assert (0 <= mp <= 11) as Hmp by (unfold mp; destruct (Z.leb_spec m 2); lia). clearbody mp.
    assert (0 <= (153 * mp + 2) / 5 <= 337) as Hdoy
      by (split; [apply Z.div_pos; lia|apply Z.div_le_upper_bound; lia]).
    set (doy := (153 * mp + 2) / 5) in *. clearbody doy.
    set (y0 := if m <=? 2 then y - 1 else y) in *.
    assert (y - 1 <= y0 <= y) as Hy0 by (unfold y0; destruct (m <=? 2); lia). clearbody y0.
    clear -Ec Hd Hdoy Hdd Hdin Hy0.
    pose proof (Z.div_mod y0 4 ltac:(lia)). pose proof (Z.mod_pos_bound y0 4 ltac:(lia)).
    pose proof (Z.div_mod y0 100 ltac:(lia)). pose proof (Z.mod_pos_bound y0 100 ltac:(lia)).
    pose proof (Z.div_mod y0 400 ltac:(lia)). pose proof (Z.mod_pos_bound y0 400 ltac:(lia)). lia. }
  destruct (Z.ltb_spec y 0), (Z.ltb_spec 9999 y); try lia. cbn [orb]. by eexists.
Qed.

Lemma decoded_marshalable zone boot raw ev :
  Z.abs zone < 1440 -> 0 <= boot < 2 ^ 63 -> events.Decode boot raw = Ok ev ->
  is_Some (marshal_event zone ev).
Proof.
  intros Hz Hb Hd. apply Decode_event_ok in Hd as [].
  destruct (format_time_Some zone (events.Timestamp ev)) as [t Ht]; [done|lia|].
  unfold marshal_event. rewrite Ht. cbn [mbind option_bind]. rewrite decide_True; [by eexists|].
  unfold typed. split_and!; try done. unfold is_u, events.MaxArgs in *. lia.
Qed.

(** Every event the decoder produces has a JSON form, if the machine
    booted between 1970 and 2262: writing it to a log cannot fail for its
    content. *)
Lemma decoded_events_marshal zone boot raw ev :
  Z.abs zone < 1440 -> 0 <= boot < 2 ^ 63 -> events.Decode boot raw = Ok ev ->
  is_Some (marshal_event zone ev).
Proof. apply decoded_marshalable. Qed.

(** An event that was logged is read back from the log, with everything
    after it left for the next read, as the same event except that invalid
    UTF-8 in its strings is replaced; if its strings are valid, as exactly
    the same event. *)
Lemma logged_event_read_back zone ev b rest :
  Z.abs zone < 1440 -> marshal_event zone ev = Some b ->
  next_event (b ++ newline :: rest) = Some (valid_event ev, newline :: rest) /\
  (Forall (fun s => to_valid s = s)
     (events.Comm ev :: events.Filename ev :: events.CommandLine ev :: events.Args ev) ->
   valid_event ev = ev).
Proof.
  intros Hz Hm. split; [by apply (next_marshal_event zone)|].
  intros Hv. inversion_clear Hv as [|? ? Hc Hv']. inversion_clear Hv' as [|? ? Hf Hv].
  inversion_clear Hv as [|? ? Hl Ha]. unfold valid_event. rewrite Hc, Hf, Hl.
  assert (to_valid <$> events.Args ev = events.Args ev) as ->; [|by destruct ev].
  induction Ha as [|s l Hs _ IH]; [done|]. by rewrite fmap_cons, Hs, IH.
Qed.

(** The codec, in a zone [zone] minutes east of UTC. *)
Definition json_codec (zone : Z) (Hz : Z.abs zone < 1440) : EventCodec.
Proof.
  refine {| marshal := marshal_event zone; next := next_event; canon := valid_event |}.
  - intros. by apply (next_marshal_event zone).
  - done.
  - done.
  - apply next_event_shorter.
  - apply valid_event_idem.
  - apply marshal_valid.
Defined.

#[export] Instance utc_codec : EventCodec := json_codec 0 eq_refl.

(** ** Examples *)

Lemma decoded_events_marshal_witness :
  is_Some (marshal_event 330 (wire.view 1700000000000000000 sample_record)).
Proof.
  apply (decoded_events_marshal 330 1700000000000000000 (wire.to_bytes sample_record));
    [reflexivity|lia|by vm_compute].
Defined.

Example sample_text :
  marshal_event 330 (events.mkEvent 1700000000123456000 4242 4242 1000 1000 (bs "bash")
    (bs "/tmp/a<b" ++ [x80; x0a]) [bs "-c"; []] 2 false (bs "/tmp/a -c")) =
  Some (bs "{" ++ quoted (bs "timestamp") ++ bs ":" ++ quoted (bs "2023-11-15T03:43:20.123456+05:30") ++
    bs "," ++ quoted (bs "pid") ++ bs ":4242," ++ quoted (bs "tid") ++ bs ":4242," ++
    quoted (bs "uid") ++ bs ":1000," ++ quoted (bs "gid") ++ bs ":1000," ++
    quoted (bs "comm") ++ bs ":" ++ quoted (bs "bash") ++ bs "," ++
    quoted (bs "filename") ++ bs ":" ++ quoted (bs "/tmp/a\u003cb\ufffd\n") ++ bs "," ++
    quoted (bs "args") ++ bs ":[" ++ quoted (bs "-c") ++ bs "," ++ quoted [] ++ bs "]," ++
    quoted (bs "argc") ++ bs ":2," ++ quoted (bs "truncated") ++ bs ":false," ++
    quoted (bs "command_line") ++ bs ":" ++ quoted (bs "/tmp/a -c") ++ bs "}").
Proof. by vm_compute. Qed.

Lemma logged_event_read_back_witness :
  let ev := wire.view 1700000000000000000 sample_record in
  let b := default [] (marshal_event 0 ev) in
  next_event (b ++ newline :: bs "{}") = Some (valid_event ev, newline :: bs "{}") /\
  (Forall (fun s => to_valid s = s)
     (events.Comm ev :: events.Filename ev :: events.CommandLine ev :: events.Args ev) ->
   valid_event ev = ev).
Proof.
  apply (logged_event_read_back 0 (wire.view 1700000000000000000 sample_record)
    (default [] (marshal_event 0 (wire.view 1700000000000000000 sample_record))) (bs "{}"));
    [reflexivity|by vm_compute].
Defined.

End eventjson.
