(* ===== verification/Hunter.v ===== *)
(** * The hunter client and the response action
    ([broker/internal/hunter/{verdict,client,respond}.go])

    [Client.Evaluate] with its retry loop over an arbitrary network, and
    [KillProcess] over a table of processes that may change between the
    check and the signal. *)
From Stdlib Require Import ZArith Lia Floats.SpecFloat.
From Stdlib Require Import Strings.Byte Strings.String.
From stdpp Require Import base list gmap.
From S2P Require Import Prelude GoStrings Events GoIO AppendLog.
#[local] Open Scope Z_scope.
#[local] Open Scope go_scope.

Module hunter.

(** ** Vocabulary shared with the Python service ([verdict.go]) *)

Definition SeverityBenign : gostring := bs "benign".
Definition SeverityLow : gostring := bs "low".
Definition SeverityMedium : gostring := bs "medium".
Definition SeverityHigh : gostring := bs "high".
Definition SeverityCritical : gostring := bs "critical".

Definition ActionIgnore : gostring := bs "ignore".
Definition ActionMonitor : gostring := bs "monitor".
Definition ActionAlert : gostring := bs "alert".
Definition ActionKill : gostring := bs "kill".

Record Verdict := mkVerdict {
  Severity : gostring;
  Action : gostring;
  MitreTechnique : gostring;
  MitreTactic : gostring;
  Confidence : spec_float;
  Rationale : gostring
}.

(** ** One request ([client.go]) *)

(** What the network does with a request: it cannot be built, the transport
    fails, or a response arrives. *)
Inductive transport : Type :=
  | BuildFails
  | TransportFails
  | Response (status : Z) (body : list byte).

Inductive request_error : Type :=
  | ErrBuild
  | ErrRequest
  | ErrStatus (code : Z)
  | ErrDecode.

Inductive error : Type :=
  | ErrMarshalEvent
  | ErrContext
  | ErrUnavailable (attempts : Z) (last : option request_error).

Definition StatusOK : Z := 200.

(** One attempt as the environment decides it: whether the context is
    cancelled during the back-off before it, and what the network does. *)
Record exchange := mkExchange {
  ex_cancelled : bool;
  ex_transport : transport
}.

Section client.
Context `{EventCodec} (decode_verdict : list byte -> option Verdict).
Context (net : nat -> exchange).

(** The parts of [net/http] that [New] sets: times in nanoseconds. *)
Record Transport := mkTransport {
  MaxIdleConns : Z;
  MaxIdleConnsPerHost : Z;
  IdleConnTimeout : Z
}.

Record HTTPClient := mkHTTPClient {
  Timeout : Z;
  HTTPTransport : Transport
}.

Record Client := mkClient {
  baseURL : gostring;
  httpClient : HTTPClient;
  maxRetries : Z
}.

Definition New (url : gostring) (timeout : Z) (retries : Z) : Client :=
  mkClient url (mkHTTPClient timeout (mkTransport 64 32 (90 * 1000000000))) retries.

(** How long a request can take, its redirects and the reading of its body
    included: as [net/http] documents [Client.Timeout], at most that long,
    and without limit when it is not positive. *)
Definition may_take (h : HTTPClient) (d : Z) : Prop := 0 <= d /\ (0 < Timeout h -> d <= Timeout h).

(** Where the requests go. *)
Definition evaluate_url (c : Client) : gostring := baseURL c ++ bs "/v1/evaluate".

Definition doRequest (t : transport) : go_result request_error Verdict :=
  match t with
  | BuildFails => Err ErrBuild
  | TransportFails => Err ErrRequest
  | Response status body =>
      if negb (status =? StatusOK) then Err (ErrStatus status)
      else match decode_verdict body with
           | None => Err ErrDecode
           | Some v => Ok v
           end
  end.

(** What one call of [Evaluate] did: its result, the requests issued so far
    and the back-offs waited, in order. *)
Record evaluation := mkEvaluation {
  ev_result : go_result error Verdict;
  ev_requests : nat;
  ev_waits : list Z
}.

(** The loop from [attempt] on, [left] attempts remaining, the [k]-th
    exchange of the environment next. *)
Fixpoint retry_loop (c : Client) (left : nat) (attempt backoff : Z)
    (last : option request_error) (k : nat) : evaluation :=
  match left with
  | O => mkEvaluation (Err (ErrUnavailable (maxRetries c + 1) last)) k []
  | S left' =>
      if (0 <? attempt) && ex_cancelled (net k) then mkEvaluation (Err ErrContext) k []
      else
        let waited := if 0 <? attempt then [backoff] else [] in
        let backoff := if 0 <? attempt then wrapI 64 (backoff * 2) else backoff in
        match doRequest (ex_transport (net k)) with
        | Ok v => mkEvaluation (Ok v) (S k) waited
        | Panic => mkEvaluation Panic (S k) waited
        | Err e =>
            let r := retry_loop c left' (attempt + 1) backoff (Some e) (S k) in
            mkEvaluation (ev_result r) (ev_requests r) (waited ++ ev_waits r)
        end
  end.

Definition millisecond : Z := 1000000.
Definition initial_backoff : Z := 200 * millisecond.

Definition Evaluate (c : Client) (ev : Event) (k : nat) : evaluation :=
  match marshal ev with
  | None => mkEvaluation (Err ErrMarshalEvent) k []
  | Some _ => retry_loop c (Z.to_nat (maxRetries c + 1)) 0 initial_backoff None k
  end.

End client.

(** ** The response action ([respond.go]) *)

(** A process: the content of [/proc/<pid>/comm] without the newline the
    kernel appends, and its start time, which identifies it across reuse of
    its pid. *)
Record proc := mkProc {
  p_comm : gostring;
  p_start : Z
}.

Abbreviation procs := (gmap Z proc).

Inductive kill_error : Type :=
  | ErrRefused
  | ErrExited
  | ErrCommMismatch (current : gostring)
  | ErrKill.

Definition read_comm (ps : procs) (pid : Z) : option gostring :=
  (fun p => p_comm p ++ [newline]) <$> ps !! pid.

(** [syscall.Kill(pid, SIGKILL)]: [allowed] is the permission check. *)
Definition sigkill (allowed : Z -> bool) (ps : procs) (pid : Z) : go_result kill_error procs :=
  match ps !! pid with
  | None => Err ErrKill
  | Some _ => if allowed pid then Ok (delete pid ps) else Err ErrKill
  end.

(** [ps] is the process table when [comm] is read, [ps'] the one when the
    signal is sent. *)
Definition KillProcess (allowed : Z -> bool) (pid : Z) (expectedComm : gostring)
    (ps ps' : procs) : go_result kill_error procs :=
  if pid <=? 1 then Err ErrRefused
  else match read_comm ps pid with
       | None => Err ErrExited
       | Some commBytes =>
           let current := strings.TrimSpace commBytes in
           if bool_decide (current <> expectedComm) then Err (ErrCommMismatch current)
           else sigkill allowed ps' pid
       end.

End hunter.
