(* ===== verification/GoLog.v ===== *)
(** * The broker's log lines ([pipeline.go], [log.Printf])

    What [fmt] and [log] make of the verdict line: [%q] as
    [strconv.Quote] documents it, [%.2f] as the exact decimal rounding of a
    binary64, and the time stamp the standard logger puts in front.  Which
    runes beyond ASCII count as printable is Unicode's matter: a
    parameter. *)
From Stdlib Require Import ZArith Lia Floats.SpecFloat.
From Stdlib Require Import Strings.Byte Strings.String.
From stdpp Require Import base list.
From S2P Require Import Prelude GoStrings GoTime Json JsonFacts Events GoIO AppendLog Hunter.
#[local] Open Scope Z_scope.

Module golog.

(** ** Runes *)

(** The code point an encoding stands for. *)
Definition rune_value (r : list byte) : Z :=
  match byte_val <$> r with
  | [c] => c
  | [c; d] => (c - 192) * 64 + (d - 128)
  | [c; d; e] => (c - 224) * 4096 + (d - 128) * 64 + (e - 128)
  | [c; d; e; f] => (c - 240) * 262144 + (d - 128) * 4096 + (e - 128) * 64 + (f - 128)
  | _ => 65533
  end.

(** The lowest [w] hexadecimal digits. *)
Fixpoint hex (w : nat) (v : Z) : list byte :=
  match w with
  | O => []
  | S w' => json.hex_digit (v / 16 ^ Z.of_nat w' mod 16) :: hex w' v
  end.

(** ** [strconv.Quote] *)

Section quote.
Context (print_beyond_ascii : Z -> bool).

Definition IsPrint (v : Z) : bool :=
  if v <? 128 then (32 <=? v) && (v <=? 126) else print_beyond_ascii v.

Definition escape_code (v : Z) : list byte :=
  if v =? 7 then bs "\a" else if v =? 8 then bs "\b" else if v =? 12 then bs "\f"
  else if v =? 10 then bs "\n" else if v =? 13 then bs "\r" else if v =? 9 then bs "\t"
  else if v =? 11 then bs "\v"
  else if (v <? 32) || (v =? 127) then bs "\x" ++ hex 2 v
  else if v <? 65536 then bs "\u" ++ hex 4 v
  else bs "\U" ++ hex 8 v.

Definition quote_rune (r : list byte) : list byte :=
  let v := rune_value r in
  if (v =? 34) || (v =? 92) then json.backslash :: r
  else if IsPrint v then r
  else escape_code v.

Definition quote_stray (c : byte) : list byte := bs "\x" ++ hex 2 (byte_val c).

(** What goes between the quotes. *)
Fixpoint quote_body (s : gostring) : gostring :=
  match s with
  | [] => []
  | c :: s1 =>
      if json.ascii c then quote_rune [c] ++ quote_body s1
      else
        match s1 with
        | d :: s2 =>
            if json.utf8_2 c d then quote_rune [c; d] ++ quote_body s2
            else
              match s2 with
              | e :: s3 =>
                  if json.utf8_3 c d e then quote_rune [c; d; e] ++ quote_body s3
                  else
                    match s3 with
                    | f :: s4 =>
                        if json.utf8_4 c d e f then quote_rune [c; d; e; f] ++ quote_body s4
                        else quote_stray c ++ quote_body s1
                    | [] => quote_stray c ++ quote_body s1
                    end
              | [] => quote_stray c ++ quote_body s1
              end
        | [] => quote_stray c ++ quote_body s1
        end
  end.

Definition Quote (s : gostring) : gostring := json.quote :: quote_body s ++ [json.quote].

(** ** [%.2f] *)

(** A natural number in full. *)
Definition integer (z : Z) : gostring := digits (width_from (Z.to_nat (Z.log2_up (z + 1))) z) z.

(** [m] divided by [2^k], to the nearest, ties to even. *)
Definition div_pow2_even (m : Z) (k : Z) : Z :=
  let q := m / 2 ^ k in
  let r := 2 * (m mod 2 ^ k) in
  if r <? 2 ^ k then q else if 2 ^ k <? r then q + 1 else if Z.even q then q else q + 1.

(** A hundred times a magnitude, rounded to an integer. *)
Definition hundredths (m : positive) (e : Z) : Z :=
  if 0 <=? e then Zpos m * 100 * 2 ^ e else div_pow2_even (Zpos m * 100) (- e).

Definition with_sign (neg : bool) (s : gostring) : gostring := if neg then dash :: s else s.

Definition fixed2 (x : spec_float) : gostring :=
  match x with
  | S754_zero neg => with_sign neg (bs "0.00")
  | S754_finite neg m e =>
      let h := hundredths m e in with_sign neg (integer (h / 100) ++ period :: digits 2 (h mod 100))
  | S754_infinity neg => bs (if neg then "-Inf" else "+Inf")
  | S754_nan => bs "NaN"
  end.

(** ** The line *)

(** The moment of a log entry, in local time. *)
Record moment := mkMoment { year : Z; month : Z; day : Z; hour : Z; minute : Z; sec : Z }.

Definition log_header (t : moment) : gostring :=
  digits 4 (year t) ++ bs "/" ++ digits 2 (month t) ++ bs "/" ++ digits 2 (day t) ++ bs " " ++
  digits 2 (hour t) ++ bs ":" ++ digits 2 (minute t) ++ bs ":" ++ digits 2 (sec t) ++ bs " ".

(** The line [evaluate] prints for a verdict. *)
Definition verdict_line (t : moment) (ev : events.Event) (v : hunter.Verdict) : gostring :=
  log_header t ++ bs "verdict pid=" ++ decimal (events.PID ev) ++
  bs " comm=" ++ Quote (events.Comm ev) ++ bs " cmd=" ++ Quote (events.CommandLine ev) ++
  bs " severity=" ++ hunter.Severity v ++ bs " action=" ++ hunter.Action v ++
  bs " technique=" ++ hunter.MitreTechnique v ++ bs " confidence=" ++ fixed2 (hunter.Confidence v) ++
  [newline].

(** ** What quoting does *)

Lemma quote_body_rune r s : rune r -> quote_body (r ++ s) = quote_rune r ++ quote_body s.
Proof.
  intros [c H|c d H|c d e H|c d e f H]; cbn [app quote_body].
  - by rewrite H.
  - rewrite not_ascii by lead_bytes. by rewrite H.
  - rewrite not_ascii by lead_bytes. rewrite not_utf8_2 by lead_bytes. by rewrite H.
  - rewrite not_ascii by lead_bytes. rewrite not_utf8_2 by lead_bytes.
    rewrite not_utf8_3 by lead_bytes. by rewrite H.
Qed.

Lemma quote_body_stray c s : stray c s -> quote_body (c :: s) = quote_stray c ++ quote_body s.
Proof.
  unfold stray. cbn [json.segments quote_body]. destruct (json.ascii c); [done|].
  destruct s as [|d s]; [done|]. destruct (json.utf8_2 c d); [done|].
  destruct s as [|e s]; [done|]. destruct (json.utf8_3 c d e); [done|].
  destruct s as [|f s]; [done|]. by destruct (json.utf8_4 c d e f).
Qed.

End quote.

(** ** Examples *)

Example quoted_line :
  Quote (fun _ => true) [x61; x22; x5c; x0a; xff; xc3; xa9] =
    [x22; x61; x5c; x22; x5c; x5c; x5c; x6e; x5c; x78; x66; x66; xc3; xa9; x22].
Proof. by vm_compute. Qed.

(** 0.85, 0.125 (a tie), 2^73 + 2^21 and -0.001. *)
Example fixed_point :
  fixed2 (S754_finite false 7656119366529843 (-53)) = bs "0.85" /\
  fixed2 (S754_finite false 4503599627370496 (-55)) = bs "0.12" /\
  fixed2 (S754_finite false 4503599627370497 21) = bs "9444732965739292524544.00" /\
  fixed2 (S754_finite true 4611686018427388 (-62)) = bs "-0.00".
Proof. by vm_compute. Qed.

End golog.
