(* ===== verification/PyJson.v ===== *)
(** * Python's [json.dumps]

    [json.dumps(value, indent=2)], as the threat hunter uses it: escaping to
    ASCII, the layout over lines and indents.  Strings are the UTF-8 of
    Python's strings. *)
From Stdlib Require Import ZArith Lia.
From Stdlib Require Import Strings.Byte Strings.String.
From stdpp Require Import base list sets.
From S2P Require Import Prelude GoTime Json JsonFacts GoIO AppendLog GoLog.
Import json golog.
#[local] Open Scope Z_scope.

Module pyjson.

(** ** Strings *)

(** [\uXXXX] *)
Definition unicode_escape (v : Z) : list byte := bs "\u" ++ hex 4 v.

(** A character in [ESCAPE_ASCII]'s form: what is not printable ASCII
    becomes an escape, beyond U+FFFF a surrogate pair. *)
Definition ascii_code (v : Z) : list byte :=
  if v =? 34 then bs "\" ++ [quote]
  else if v =? 92 then bs "\\"
  else if v =? 10 then bs "\n"
  else if v =? 13 then bs "\r"
  else if v =? 9 then bs "\t"
  else if v =? 12 then bs "\f"
  else if v =? 8 then bs "\b"
  else if (32 <=? v) && (v <=? 126) then [byte_of v]
  else if v <? 65536 then unicode_escape v
  else
    let n := v - 65536 in
    unicode_escape (Z.lor 55296 (Z.land (Z.shiftr n 10) 1023)) ++
    unicode_escape (Z.lor 56320 (Z.land n 1023)).

Definition escape_segment (g : segment) : list byte := ascii_code (rune_value (valid_segment g)).

Definition escape (s : list byte) : list byte := concat (escape_segment <$> segments s).

(** ** Layout *)

Definition space : byte := x20.

Definition newline_indent (level : nat) : list byte := newline :: replicate (2 * level) space.

(** A member: the separator after a key is a colon and a space. *)
Definition member_text (k text : list byte) : list byte := quoted (escape k) ++ colon :: space :: text.

Fixpoint dumps (level : nat) (v : value) : list byte :=
  match v with
  | JArr [] => [lbrack; rbrack]
  | JArr vs =>
      lbrack :: commas ((fun v => newline_indent (S level) ++ dumps (S level) v) <$> vs) ++
      newline_indent level ++ [rbrack]
  | JObj [] => [lbrace; rbrace]
  | JObj ms =>
      lbrace :: commas ((fun '(k, v) => newline_indent (S level) ++ member_text k (dumps (S level) v)) <$> ms) ++
      newline_indent level ++ [rbrace]
  | v => print v
  end.

(** The values of Python's types. *)
Definition py_str (s : list byte) : value := JStr (escape s) (to_valid s).

(** An integer's digits, as many as it needs. *)
Definition int_fuel (z : Z) : nat := Z.to_nat (Z.log2_up (Z.abs z + 1)).
Definition int_text (z : Z) : list byte := (if z <? 0 then [dash] else []) ++ natural (int_fuel z) (Z.abs z).
Definition py_int (z : Z) : value := JNum (int_text z).

(** ** Escapes are read back *)

Lemma hex_val_digit d : 0 <= d < 16 -> hex_val (hex_digit d) = Some d.
Proof.
  intros Hd. unfold hex_digit, hex_val, between.
  destruct (Z.ltb_spec d 10); rewrite !byte_val_of, !Z.mod_small by lia.
  - destruct (Z.leb_spec 48 (48 + d)), (Z.leb_spec (48 + d) 57); cbn [andb]; try lia. f_equal. lia.
  - destruct (Z.leb_spec (87 + d) 57); [lia|]. rewrite andb_false_r.
    destruct (Z.leb_spec 97 (87 + d)), (Z.leb_spec (87 + d) 102); cbn [andb]; try lia. f_equal. lia.
Qed.

Lemma hex4_hex v : 0 <= v < 65536 ->
  exists a b c d, hex 4 v = [a; b; c; d] /\ hex4 a b c d = Some v.
Proof.
  intros Hv. cbn [hex]. eexists _, _, _, _. split; [done|].
  unfold hex4. change (16 ^ Z.of_nat 3) with 4096. change (16 ^ Z.of_nat 2) with 256.
  change (16 ^ Z.of_nat 1) with 16. change (16 ^ Z.of_nat 0) with 1.
  rewrite !hex_val_digit by (apply Z.mod_pos_bound; lia). cbn [mbind option_bind]. f_equal.
  rewrite Z.div_1_r, (Z.mod_small (v / 4096)) by (split; [apply Z.div_pos|apply Z.div_lt_upper_bound]; lia).
  pose proof (Z.div_mod v 16). pose proof (Z.div_mod (v / 16) 16). pose proof (Z.div_mod (v / 16 / 16) 16).
  rewrite !Z.div_div in * by lia. change (16 * 16) with 256 in *. change (256 * 16) with 4096 in *. lia.
Qed.

Lemma split_64 a x : 0 <= x < 64 -> (a * 64 + x) / 64 = a /\ (a * 64 + x) mod 64 = x.
Proof.
  intros Hx. split; [rewrite Z.div_add_l, Z.div_small; lia|]. by rewrite Z.add_comm, Z.mod_add, Z.mod_small.
Qed.

Lemma byte_of_offset k c : byte_of (k + (byte_val c - k)) = c.
Proof. replace (k + (byte_val c - k)) with (byte_val c) by lia. apply byte_of_val. Qed.

Lemma utf8_encode_value r : rune r -> utf8_encode (rune_value r) = r.
Proof.
  intros [c H|c d H|c d e H|c d e f H]; unfold utf8_encode, rune_value; cbn [fmap list_fmap].
  - apply ascii_lead in H. rewrite (proj2 (Z.ltb_lt _ _)) by lia. by rewrite byte_of_val.
  - unfold utf8_2, cont in H. rewrite andb_true_iff, !between_spec in H.
    destruct (split_64 (byte_val c - 192) (byte_val d - 128)) as [Eq Er]; [lia|].
    rewrite (proj2 (Z.ltb_ge _ _)), (proj2 (Z.ltb_lt _ _)), Eq, Er, !byte_of_offset by lia. done.
  - unfold utf8_3, cont in H. rewrite !andb_true_iff, !orb_true_iff, !andb_true_iff, !orb_true_iff, !between_spec in H.
    replace ((byte_val c - 224) * 4096 + (byte_val d - 128) * 64 + (byte_val e - 128))
      with (((byte_val c - 224) * 64 + (byte_val d - 128)) * 64 + (byte_val e - 128)) by lia.
    rewrite !(proj2 (Z.ltb_ge _ _)), (proj2 (Z.ltb_lt _ _)) by lia.
    change 4096 with (64 * 64). rewrite <- Z.div_div by lia.
    destruct (split_64 ((byte_val c - 224) * 64 + (byte_val d - 128)) (byte_val e - 128)) as [-> ->]; [lia|].
    destruct (split_64 (byte_val c - 224) (byte_val d - 128)) as [-> ->]; [lia|]. by rewrite !byte_of_offset.
  - unfold utf8_4, cont in H. rewrite !andb_true_iff, !orb_true_iff, !andb_true_iff, !between_spec in H.
    replace ((byte_val c - 240) * 262144 + (byte_val d - 128) * 4096 + (byte_val e - 128) * 64 + (byte_val f - 128))
      with ((((byte_val c - 240) * 64 + (byte_val d - 128)) * 64 + (byte_val e - 128)) * 64 + (byte_val f - 128)) by lia.
    rewrite !(proj2 (Z.ltb_ge _ _)) by lia.
    change 262144 with (64 * 64 * 64). change 4096 with (64 * 64). rewrite <- !Z.div_div by lia.
    destruct (split_64 (((byte_val c - 240) * 64 + (byte_val d - 128)) * 64 + (byte_val e - 128)) (byte_val f - 128))
      as [-> ->]; [lia|].
    destruct (split_64 ((byte_val c - 240) * 64 + (byte_val d - 128)) (byte_val e - 128)) as [-> ->]; [lia|].
    destruct (split_64 (byte_val c - 240) (byte_val d - 128)) as [-> ->]; [lia|]. by rewrite !byte_of_offset.
Qed.

(** The code points of encodings: no surrogate, none beyond U+10FFFF. *)
Lemma rune_value_range r : rune r -> 0 <= rune_value r < 1114112 /\ is_surrogate (rune_value r) = false.
Proof.
  intros Hr. assert (0 <= rune_value r < 1114112 /\ (rune_value r < 55296 \/ 57344 <= rune_value r)) as [H1 H2].
  { destruct Hr as [c H|c d H|c d e H|c d e f H]; unfold rune_value; cbn [fmap list_fmap].
    - apply ascii_lead in H. pose proof (byte_val_bound c). lia.
    - unfold utf8_2, cont in H. rewrite andb_true_iff, !between_spec in H. lia.
    - unfold utf8_3, cont in H. rewrite !andb_true_iff, !orb_true_iff, !andb_true_iff, !orb_true_iff, !between_spec in H. lia.
    - unfold utf8_4, cont in H. rewrite !andb_true_iff, !orb_true_iff, !andb_true_iff, !between_spec in H. lia. }
  split; [done|]. unfold is_surrogate. rewrite andb_false_iff, Z.leb_gt, Z.ltb_ge. lia.
Qed.

(** The reader at an escape of a code point. *)
Lemma parse_chars_u a b c d t :
  parse_chars (backslash :: x75 :: a :: b :: c :: d :: t) =
    match hex4 a b c d with
    | None => None
    | Some v =>
        if is_surrogate v then
          match t with
          | x5c :: x75 :: a' :: b' :: c' :: d' :: t' =>
              match hex4 a' b' c' d' with
              | Some v2 =>
                  match surrogate_pair v v2 with
                  | Some r => emit (utf8_encode r) (parse_chars t')
                  | None => emit replacement (parse_chars t)
                  end
              | None => emit replacement (parse_chars t)
              end
          | _ => emit replacement (parse_chars t)
          end
        else emit (utf8_encode v) (parse_chars t)
    end.
Proof. reflexivity. Qed.

Lemma parse_unicode v t : 0 <= v < 65536 -> is_surrogate v = false ->
  parse_chars (unicode_escape v ++ t) = emit (utf8_encode v) (parse_chars t).
Proof.
  intros Hv Hs. unfold unicode_escape. destruct (hex4_hex v Hv) as (a & b & c & d & -> & E).
  transitivity (parse_chars (backslash :: x75 :: a :: b :: c :: d :: t)); [done|].
  by rewrite parse_chars_u, E, Hs.
Qed.

Lemma parse_pair hi lo v t : 0 <= hi < 65536 -> 0 <= lo < 65536 -> is_surrogate hi = true ->
  surrogate_pair hi lo = Some v ->
  parse_chars (unicode_escape hi ++ unicode_escape lo ++ t) = emit (utf8_encode v) (parse_chars t).
Proof.
  intros Hhi Hlo Hs Hv. unfold unicode_escape. destruct (hex4_hex hi Hhi) as (a & b & c & d & -> & E).
  destruct (hex4_hex lo Hlo) as (a' & b' & c' & d' & -> & E').
  transitivity (parse_chars (backslash :: x75 :: a :: b :: c :: d :: x5c :: x75 :: a' :: b' :: c' :: d' :: t)); [done|].
  by rewrite parse_chars_u, E, Hs, E', Hv.
Qed.

Lemma lor_1024 a x : 0 <= x < 1024 -> Z.lor (a * 1024) x = a * 1024 + x.
Proof.
  intros Hx. rewrite <- Z.add_lor_land. assert (Z.land (a * 1024) x = 0) as ->; [|lia].
  change 1024 with (2 ^ 10). rewrite <- Z.shiftl_mul_pow2 by lia. apply Z.bits_inj'. intros n Hn.
  rewrite Z.land_spec, Z.shiftl_spec, Z.bits_0 by done. destruct (Z.ltb_spec n 10).
  - by rewrite Z.testbit_neg_r by lia.
  - rewrite <- (Z.mod_small x (2 ^ 10)), Z.mod_pow2_bits_high by lia. apply andb_false_r.
Qed.

Lemma surrogates n : 0 <= n < 1048576 ->
  let hi := Z.lor 55296 (Z.land (Z.shiftr n 10) 1023) in
  let lo := Z.lor 56320 (Z.land n 1023) in
  surrogate_pair hi lo = Some (n + 65536) /\ 0 <= hi < 65536 /\ 0 <= lo < 65536 /\ is_surrogate hi = true.
Proof.
  intros Hn. change 1023 with (Z.ones 10). rewrite !Z.land_ones, Z.shiftr_div_pow2 by lia.
  change (2 ^ 10) with 1024. pose proof (Z.div_mod n 1024 ltac:(lia)) as E.
  assert (0 <= n / 1024 < 1024) by (split; [apply Z.div_pos|apply Z.div_lt_upper_bound]; lia).
  pose proof (Z.mod_pos_bound n 1024 ltac:(lia)).
  change 55296 with (54 * 1024). change 56320 with (55 * 1024).
  rewrite (Z.mod_small (n / 1024)), !lor_1024 by lia. cbn zeta.
  unfold surrogate_pair, is_surrogate.
  rewrite !(proj2 (Z.leb_le _ _)), !(proj2 (Z.ltb_lt _ _)) by lia. split; [cbn [andb]; f_equal; lia|]. split; [lia|]. split; [lia|done].
Qed.

Lemma parse_ascii_code r t : rune r -> parse_chars (ascii_code (rune_value r) ++ t) = emit r (parse_chars t).
Proof.
  intros Hr. destruct (rune_value_range r Hr) as [Hv Hs]. pose proof (utf8_encode_value r Hr) as Ev.
  revert Hv Hs Ev. generalize (rune_value r). intros v Hv Hs Ev. unfold ascii_code.
  repeat (match goal with |- context [v =? ?k] => destruct (Z.eqb_spec v k) as [->|] end; [by subst r|]).
  destruct ((32 <=? v) && (v <=? 126)) eqn:Ep.
  - rewrite andb_true_iff, !Z.leb_le in Ep. unfold utf8_encode in Ev. rewrite (proj2 (Z.ltb_lt _ _)) in Ev by lia.
    subst r. assert (byte_val (byte_of v) = v) as Eb by (rewrite byte_val_of, Z.mod_small; lia).
    assert (rune [byte_of v]) as Hr' by (constructor; apply ascii_lead; lia).
    cbn [app]. pose proof (segments_rune [byte_of v] t Hr') as Eg. cbn [app] in Eg.
    rewrite parse_chars_plain; [by rewrite Eg|..].
    + intros E. rewrite E in Eb. by subst v.
    + intros E. rewrite E in Eb. by subst v.
    + lia.
  - destruct (Z.ltb_spec v 65536); [by rewrite parse_unicode, Ev by (done || lia)|]. cbn zeta. rewrite <- app_assoc.
    destruct (surrogates (v - 65536)) as (Es & Hhi & Hlo & Ess); [lia|].
    rewrite (parse_pair _ _ v), Ev; [done..|]. rewrite Es. f_equal. lia.
Qed.

(** What [dumps] writes for a string is read back. *)
Lemma escape_reads s : string_lit (escape s) (to_valid s).
Proof.
  intros t. induction s as [|r s Hr IH|c s Hc IH] using segments_ind.
  - done.
  - unfold escape. rewrite segments_rune, fmap_cons by done. cbn [concat].
    rewrite <- app_assoc. unfold escape_segment at 1. cbn [valid_segment]. rewrite parse_ascii_code by done.
    fold (escape s). by rewrite IH, to_valid_rune.
  - unfold escape. rewrite Hc, fmap_cons. cbn [concat].
    rewrite <- app_assoc. unfold escape_segment at 1. cbn [valid_segment]. rewrite parse_ascii_code by apply rune_replacement.
    fold (escape s). by rewrite IH, to_valid_stray.
Qed.

(** ** What [dumps] writes *)

#[warnings="-register-all"] Inductive pyvalue : value -> Prop :=
  | py_none : pyvalue JNull
  | py_bool b : pyvalue (JBool b)
  | py_integer z : pyvalue (py_int z)
  | py_string s : pyvalue (py_str s)
  | py_list vs : Forall pyvalue vs -> pyvalue (JArr vs)
  | py_dict ms : Forall (fun kv => to_valid kv.1 = kv.1 /\ pyvalue kv.2) ms -> pyvalue (JObj ms).

(** The integer back from its digits. *)
Definition read_natural (s : list byte) : Z := match read_digits (length s) 0 s with Some (z, _) => z | None => 0 end.
Definition read_int (s : list byte) : Z :=
  match s with c :: s' => if decide (c = dash) then - read_natural s' else read_natural s | [] => 0 end.

Lemma read_natural_digits fuel z : 0 <= z < 10 ^ Z.of_nat (S fuel) -> read_natural (natural fuel z) = z.
Proof.
  intros Hz. destruct (width_from_bound fuel z Hz) as [Hb _]. unfold read_natural, natural. rewrite length_digits.
  rewrite <- (app_nil_r (digits _ _)), read_digits_digits by lia. done.
Qed.

Lemma int_fuel_bound z : 0 <= Z.abs z < 10 ^ Z.of_nat (S (int_fuel z)).
Proof.
  unfold int_fuel.
  rewrite Nat2Z.inj_succ, Z2Nat.id by apply Z.log2_up_nonneg.
  split; [lia|]. apply Z.le_lt_trans with (2 ^ Z.log2_up (Z.abs z + 1) - 1).
  - pose proof (Z.log2_up_spec (Z.abs z + 1)). destruct (Z.eqb_spec z 0) as [->|]; [done|]. lia.
  - pose proof (Z.log2_up_nonneg (Z.abs z + 1)).
    pose proof (Z.pow_le_mono_l 2 10 (Z.log2_up (Z.abs z + 1)) ltac:(lia)).
    rewrite Z.pow_succ_r by done. lia.
Qed.

Lemma int_number z : number_lit (int_text z).
Proof. apply integer_number; [by destruct (_ <? _); auto|apply int_fuel_bound]. Qed.

Lemma read_int_text z : read_int (int_text z) = z.
Proof.
  unfold int_text. pose proof (read_natural_digits _ _ (int_fuel_bound z)) as Hr.
  destruct (Z.ltb_spec z 0) as [Hz|Hz]; cbn [app].
  - unfold read_int. rewrite decide_True, Hr by done. lia.
  - pose proof (natural_digits (int_fuel z) (Z.abs z)) as Hd. unfold natural in *.
    destruct (width_from_pos (int_fuel z) (Z.abs z)) as [n Hn]. rewrite Hn in *. cbn [digits] in *.
    inversion Hd as [|? ? Hc]; subst. unfold read_int. rewrite decide_False; [rewrite Hr; lia|].
    intros E. by rewrite E in Hc.
Qed.

Lemma py_int_inj z z' : py_int z = py_int z' -> z = z'.
Proof. intros [= E]. by rewrite <- (read_int_text z), E, read_int_text. Qed.

Lemma newline_indent_blank l : blanks (newline_indent l).
Proof. constructor; [done|]. apply Forall_replicate. done. Qed.

Definition item_text (l : nat) (kv : list byte * value) : list byte := member_text kv.1 (dumps (S l) kv.2).

Lemma dumps_arr l v vs :
  dumps l (JArr (v :: vs)) =
    lbrack :: commas ((fun v => newline_indent (S l) ++ dumps (S l) v) <$> v :: vs) ++ newline_indent l ++ [rbrack].
Proof. reflexivity. Qed.

Lemma dumps_obj l kv ms :
  dumps l (JObj (kv :: ms)) =
    lbrace :: commas ((fun kv => newline_indent (S l) ++ item_text l kv) <$> kv :: ms) ++ newline_indent l ++ [rbrace].
Proof. cbn [dumps]. do 3 f_equal. apply list_fmap_ext. by intros _ [? ?] _. Qed.

Lemma dumps_denotes v : pyvalue v -> forall l, denotes v (dumps l v).
Proof.
  revert v. fix IH 2. intros v Hv l. destruct Hv as [|b|z|s|vs Hvs|ms Hms].
  - apply dn_null.
  - destruct b; [apply (dn_bool true)|apply (dn_bool false)].
  - apply dn_num, int_number.
  - apply dn_str, escape_reads.
  - assert (Forall (fun v => denotes v (dumps (S l) v)) vs) as H.
    { clear -IH Hvs. induction Hvs as [|v vs Hv _ IHvs]; constructor; [by apply IH|exact IHvs]. }
    clear IH. destruct vs as [|v vs]; [apply (dn_nil []); constructor|]. rewrite dumps_arr.
    apply array_denotes; [apply newline_indent_blank..|done].
  - assert (Forall (fun kv => member kv (item_text l kv)) ms) as H.
    { clear -IH Hms. induction Hms as [|[k v] ms [Hk Hv] _ IHms]; constructor; [|exact IHms].
      apply (mb_intro (escape k) k [] [space]); [|constructor|by repeat constructor|by apply IH].
      cbn [fst] in Hk. rewrite <- Hk at 2. apply escape_reads. }
    clear IH. destruct ms as [|kv ms]; [apply (dn_empty []); constructor|]. rewrite dumps_obj.
    apply object_denotes; [apply newline_indent_blank..|done].
Qed.

(** Printable ASCII and line feeds, nothing else. *)
Definition plain_text (c : byte) : Prop := c = newline \/ 32 <= byte_val c <= 126.

Lemma hex_plain w v : Forall plain_text (hex w v).
Proof.
  induction w as [|w IH]; cbn [hex]; constructor; [|done]. right.
  pose proof (Z.mod_pos_bound (v / 16 ^ Z.of_nat w) 16 ltac:(lia)).
  unfold hex_digit. destruct (_ <? _) eqn:E; rewrite byte_val_of, Z.mod_small; rewrite ?Z.ltb_lt, ?Z.ltb_ge in E; lia.
Qed.

Lemma bs_plain_text s : forallb (fun c => between 32 126 c) s = true -> Forall plain_text s.
Proof. rewrite forallb_forall. intros H. apply Forall_forall. intros c Hc%list_elem_of_In%H%between_spec. by right. Qed.

Lemma unicode_plain v : Forall plain_text (unicode_escape v).
Proof. apply Forall_app. split; [by apply bs_plain_text|apply hex_plain]. Qed.

Lemma ascii_code_plain v : Forall plain_text (ascii_code v).
Proof.
  unfold ascii_code.
  repeat (match goal with |- context [v =? ?k] => destruct (v =? k) end; [by apply bs_plain_text|]).
  destruct (_ && _) eqn:E; [|destruct (_ <? _); [|apply Forall_app; split]; apply unicode_plain].
  rewrite andb_true_iff, !Z.leb_le in E. constructor; [|constructor]. right. rewrite byte_val_of, Z.mod_small; lia.
Qed.

Lemma escaped_plain s : Forall plain_text (escape s).
Proof. unfold escape. apply Forall_concat, Forall_fmap, Forall_true. intros g. apply ascii_code_plain. Qed.

Lemma quoted_plain s : Forall plain_text (quoted (escape s)).
Proof. constructor; [by right|]. apply Forall_app. split; [apply escaped_plain|]. constructor; [by right|constructor]. Qed.

Lemma commas_plain ts : Forall (Forall plain_text) ts -> Forall plain_text (commas ts).
Proof.
  induction 1 as [|t ts Ht Hts IH]; [constructor|]. rewrite commas_cons. apply Forall_app. split; [done|].
  destruct ts; [constructor|]. constructor; [by right|done].
Qed.

Lemma newline_indent_plain l : Forall plain_text (newline_indent l).
Proof. constructor; [by left|]. apply Forall_replicate. by right. Qed.

Lemma int_text_plain z : Forall plain_text (int_text z).
Proof.
  apply Forall_app. split; [destruct (_ <? _); [by apply bs_plain_text|constructor]|].
  eapply Forall_impl; [apply natural_digits|]. intros c Hc%between_spec. right. lia.
Qed.

(** Brackets around items laid out over lines. *)
Lemma layout_plain (c d : byte) l (ts : list (list byte)) :
  plain_text c -> plain_text d -> Forall (Forall plain_text) ts ->
  Forall plain_text (c :: commas ((fun t => newline_indent (S l) ++ t) <$> ts) ++ newline_indent l ++ [d]).
Proof.
  intros Hc Hd Hts. constructor; [done|]. apply Forall_app. split.
  - apply commas_plain, Forall_fmap. eapply Forall_impl; [exact Hts|]. intros t Ht.
    apply Forall_app. split; [apply newline_indent_plain|done].
  - apply Forall_app. split; [apply newline_indent_plain|constructor; [done|constructor]].
Qed.

Lemma dumps_plain v : pyvalue v -> forall l, Forall plain_text (dumps l v).
Proof.
  revert v. fix IH 2. intros v Hv l. destruct Hv as [|b|z|s|vs Hvs|ms Hms].
  - by apply bs_plain_text.
  - destruct b; by apply bs_plain_text.
  - apply int_text_plain.
  - apply quoted_plain.
  - assert (Forall (Forall plain_text) (dumps (S l) <$> vs)) as H.
    { clear -IH Hvs. induction Hvs as [|v vs Hv _ IHvs]; constructor; [by apply IH|exact IHvs]. }
    clear IH. destruct vs as [|v vs]; [by apply bs_plain_text|]. rewrite dumps_arr.
    pose proof (layout_plain lbrack rbrack l _ ltac:(by right) ltac:(by right) H) as Hl.
    by rewrite <- list_fmap_compose in Hl.
  - assert (Forall (Forall plain_text) (item_text l <$> ms)) as H.
    { clear -IH Hms. induction Hms as [|[k v] ms [Hk Hv] _ IHms]; constructor; [|exact IHms].
      apply Forall_app. split; [apply quoted_plain|]. do 2 (constructor; [by right|]). by apply IH. }
    clear IH. destruct ms as [|kv ms]; [by apply bs_plain_text|]. rewrite dumps_obj.
    pose proof (layout_plain lbrace rbrace l _ ltac:(by right) ltac:(by right) H) as Hl.
    by rewrite <- list_fmap_compose in Hl.
Qed.

Example dumped :
  dumps 0 (JObj [(bs "a", py_int (-12)); (bs "b", JArr [py_str [xf0; x9f; x98; x80; x7f]; JBool false]); (bs "c", JArr [])]) =
    bs "{" ++ [newline] ++ bs "  " ++ quoted (bs "a") ++ bs ": -12," ++ [newline] ++
    bs "  " ++ quoted (bs "b") ++ bs ": [" ++ [newline] ++ bs "    " ++ quoted (bs "\ud83d\ude00\u007f") ++ bs "," ++ [newline] ++
    bs "    false" ++ [newline] ++ bs "  ]," ++ [newline] ++ bs "  " ++ quoted (bs "c") ++ bs ": []" ++ [newline] ++ bs "}".
Proof. by vm_compute. Qed.

End pyjson.
