(* ===== verification/VerdictJson.v ===== *)
(** * Verdicts as JSON ([broker/internal/hunter/{verdict,client}.go])

    [json.NewDecoder(resp.Body).Decode(&v)]: the first JSON value of the
    body as a [Verdict], with Go's rules for the fields and its conversion
    of a number to the nearest [float64]. *)
From Stdlib Require Import ZArith Lia Floats.SpecFloat.
From Stdlib Require Import Strings.Byte Strings.String.
From stdpp Require Import base list sets.
From S2P Require Import Prelude GoTime Json JsonFacts Events AppendLog EventJson Hunter.
Import json.
#[local] Open Scope Z_scope.

Module verdictjson.

(** ** Numbers as floats *)

(** [float64]: 53 bits of mantissa, exponents below 1024. *)
Definition prec : Z := 53.
Definition emax : Z := 1024.

(** The double nearest to [m * 10^e], ties to even. *)
Definition round_decimal (neg : bool) (m : Z) (e : Z) : spec_float :=
  match m with
  | Zpos p =>
      if 0 <=? e then binary_normalize prec emax (if neg then Zneg p else Zpos p) 0 neg
      else
        let '(q, eq, l) := SFdiv_core_binary prec emax (Zpos p) 0 (10 ^ (- e)) 0 in
        binary_round_aux prec emax neg q eq l
  | _ => S754_zero neg
  end.

(** A literal's sign, digits and power of ten: the fraction's digits are
    part of the number [m], scaled down by their count. *)
Definition literal_parts (lit : list byte) : option (bool * Z * Z) :=
  let '(neg, s) := match expect dash lit with Some s => (true, s) | None => (false, lit) end in
  let '(i, s) := span_digits s in
  let '(f, s) := match expect period s with Some s => span_digits s | None => ([], s) end in
  '(m, _) ← read_digits (length (i ++ f)) 0 (i ++ f);
  match s with
  | [] => Some (neg, m, - Z.of_nat (length f))
  | _ :: s =>
      let '(sg, d) := parse_sign s in
      '(x, _) ← read_digits (length d) 0 d;
      let x := if decide (sg = [dash]) then - x else x in
      Some (neg, m, x - Z.of_nat (length f))
  end.

(** [strconv.ParseFloat] on a JSON number: an overflow is an error. *)
Definition parse_float (lit : list byte) : option spec_float :=
  '(neg, m, e) ← literal_parts lit;
  let x := if 0 <=? e then round_decimal neg (m * 10 ^ e) 0 else round_decimal neg m e in
  match x with S754_infinity _ => None | _ => Some x end.

(** ** The fields *)

Definition zero_verdict : hunter.Verdict := hunter.mkVerdict [] [] [] [] (S754_zero false) [].

Definition to_float (old : spec_float) (v : value) : option spec_float :=
  match v with JNull => Some old | JNum lit => parse_float lit | _ => None end.

Definition set_member (x : hunter.Verdict) (k : list byte) (v : value) : option hunter.Verdict :=
  let '(hunter.mkVerdict sev act tech tac conf rat) := x in
  let k := eventjson.fold_name k in
  if decide (k = bs "SEVERITY") then
    sev ← eventjson.to_string sev v; Some (hunter.mkVerdict sev act tech tac conf rat)
  else if decide (k = bs "ACTION") then
    act ← eventjson.to_string act v; Some (hunter.mkVerdict sev act tech tac conf rat)
  else if decide (k = bs "MITRE_TECHNIQUE") then
    tech ← eventjson.to_string tech v; Some (hunter.mkVerdict sev act tech tac conf rat)
  else if decide (k = bs "MITRE_TACTIC") then
    tac ← eventjson.to_string tac v; Some (hunter.mkVerdict sev act tech tac conf rat)
  else if decide (k = bs "CONFIDENCE") then
    conf ← to_float conf v; Some (hunter.mkVerdict sev act tech tac conf rat)
  else if decide (k = bs "RATIONALE") then
    rat ← eventjson.to_string rat v; Some (hunter.mkVerdict sev act tech tac conf rat)
  else Some x.

Fixpoint set_members (x : hunter.Verdict) (ms : list (list byte * value)) : option hunter.Verdict :=
  match ms with
  | [] => Some x
  | (k, v) :: ms' => x' ← set_member x k v; set_members x' ms'
  end.

Definition verdict_of_value (v : value) : option hunter.Verdict :=
  match v with
  | JObj ms => set_members zero_verdict ms
  | JNull => Some zero_verdict
  | _ => None
  end.

Definition decode_verdict (body : list byte) : option hunter.Verdict :=
  '(v, _) ← next_value body; verdict_of_value v.

(** ** What decides a kill *)

(** The member that decides the action: the last one whose key is "action"
    in any case and whose value is a string. *)
Fixpoint last_action (old : gostring) (ms : list (list byte * value)) : gostring :=
  match ms with
  | [] => old
  | (k, JStr _ s) :: ms' =>
      last_action (if decide (eventjson.fold_name k = bs "ACTION") then s else old) ms'
  | _ :: ms' => last_action old ms'
  end.

Lemma set_member_action x k v x' :
  set_member x k v = Some x' ->
  hunter.Action x' = last_action (hunter.Action x) [(k, v)].
Proof.
  destruct x as [sev act tech tac conf rat]. unfold set_member.
  set (f := eventjson.fold_name k). cbn [hunter.Action last_action]. fold f.
  destruct (decide (f = bs "SEVERITY")) as [E|_].
  { rewrite E. intros (y & _ & E')%bind_Some. simplify_eq. cbn. by destruct v. }
  destruct (decide (f = bs "ACTION")) as [E|E].
  { intros (y & Hy & E')%bind_Some. simplify_eq. cbn [hunter.Action].
    destruct v; try done; cbn in Hy; by simplify_eq. }
  intros H. transitivity act; [revert H|by destruct v].
  repeat (case_decide; [intros (y & _ & E')%bind_Some; by simplify_eq|]). intros. by simplify_eq.
Qed.

Lemma last_action_cons old k v ms :
  last_action old ((k, v) :: ms) = last_action (last_action old [(k, v)]) ms.
Proof. by destruct v. Qed.

Lemma set_members_action x ms x' :
  set_members x ms = Some x' -> hunter.Action x' = last_action (hunter.Action x) ms.
Proof.
  revert x. induction ms as [|[k v] ms IH]; intros x; cbn [set_members]; [by intros [= ->]|].
  intros (x1 & H1 & H2)%bind_Some. rewrite last_action_cons.
  rewrite <- (set_member_action _ _ _ _ H1). by apply IH.
Qed.

(** A body decodes to a kill verdict only if it begins with a JSON
    object whose last string member named "action", in any case, is exactly
    "kill": an empty, truncated or differently shaped answer never kills. *)
Lemma kill_needs_the_action body v :
  decode_verdict body = Some v -> hunter.Action v = hunter.ActionKill ->
  exists ms rest, next_value body = Some (JObj ms, rest) /\ last_action [] ms = bs "kill".
Proof.
  unfold decode_verdict. intros ([j rest] & Hn & Hv)%bind_Some Ha.
  destruct j as [| | | | |ms]; try done; cbn in Hv.
  - by simplify_eq.
  - exists ms, rest. split; [done|]. apply set_members_action in Hv.
    transitivity (hunter.Action v); [by rewrite Hv|exact Ha].
Qed.

(** The key in capitals, the value with an escape: still a kill. *)
Lemma kill_needs_the_action_witness :
  let body := bs "{" ++ quoted (bs "ACTION") ++ bs ": " ++ quoted (bs "ki\u006cl") ++ bs "}" in
  exists ms rest, next_value body = Some (JObj ms, rest) /\ last_action [] ms = bs "kill".
Proof.
  apply (kill_needs_the_action
    (bs "{" ++ quoted (bs "ACTION") ++ bs ": " ++ quoted (bs "ki\u006cl") ++ bs "}")
    (hunter.mkVerdict [] (bs "kill") [] [] (S754_zero false) []));
    [by vm_compute|reflexivity].
Defined.

(** Numbers become the nearest doubles: 0.95 is 8556839292003942 / 2^53. *)
Example confidence_095 :
  parse_float (bs "0.95") = Some (S754_finite false 8556839292003942 (-53)) /\
  parse_float (bs "4e-324") = Some (S754_finite false 1 (-1074)) /\
  parse_float (bs "1e400") = None.
Proof. by vm_compute. Qed.

End verdictjson.
