(* ===== verification/BootTime.v ===== *)
(** * The anchor of the event timestamps
    ([broker/internal/events/events.go], [bootWallTime])

    The sensor stamps events with nanoseconds since boot; the broker turns
    them into wall-clock times with an anchor it computes once from
    [/proc/uptime].  [strings.Fields], [strconv.ParseFloat] and the
    conversions between floats and integers are modelled as Go documents
    them; the result of converting a float that does not fit, which Go
    leaves open, is a parameter. *)
From Stdlib Require Import ZArith Lia Floats.SpecFloat.
From Stdlib Require Import Strings.Byte Strings.String.
From stdpp Require Import base list.
From S2P Require Import Prelude GoStrings GoTime Json Events Wire Decoding VerdictJson.
Import verdictjson.
#[local] Open Scope Z_scope.
#[local] Open Scope go_scope.

Module boottime.

(** ** [strings.Fields] *)

Definition flush (acc : gostring) : list gostring :=
  match acc with [] => [] | _ => [acc] end.

(** The words of [s], [acc] being the one under way. *)
Fixpoint fields_from (acc s : gostring) : list gostring :=
  match s with
  | [] => flush acc
  | c :: s1 =>
      if strings.space1 c then flush acc ++ fields_from [] s1
      else
        match s1 with
        | [] => flush (acc ++ [c])
        | d :: s2 =>
            if strings.space2 c d then flush acc ++ fields_from [] s2
            else
              match s2 with
              | [] => fields_from (acc ++ [c]) s1
              | e :: s3 =>
                  if strings.space3 c d e then flush acc ++ fields_from [] s3
                  else fields_from (acc ++ [c]) s1
              end
        end
  end.

Definition Fields (s : gostring) : list gostring := fields_from [] s.

(** ** [strconv.ParseFloat] *)

Definition lower (c : byte) : byte := if json.between 65 90 c then byte_of (byte_val c + 32) else c.

(** A letter of a spelled-out value, in any case. *)
Definition spelled (word : string) (s : gostring) : bool := bool_decide (lower <$> s = bs word).

Definition strip_sign (s : gostring) : bool * gostring :=
  match s with
  | c :: s' =>
      if decide (c = plus) then (false, s') else if decide (c = dash) then (true, s') else (false, s)
  | [] => (false, s)
  end.

(** "NaN" without a sign, "Inf" and "Infinity" with or without one. *)
Definition special (s : gostring) : option spec_float :=
  let '(neg, t) := strip_sign s in
  if spelled "inf" t || spelled "infinity" t then Some (S754_infinity neg)
  else if spelled "nan" s then Some S754_nan
  else None.

Definition underscore : byte := x5f.

Definition digit_of (base : Z) (c : byte) : option Z :=
  d ← json.hex_val c; if d <? base then Some d else None.

(** The mantissa: the digits read, those of them behind the point, whether
    there was a digit and a point, and the rest. *)
Fixpoint mantissa (base m behind : Z) (digit dot : bool) (s : gostring) : Z * Z * bool * gostring :=
  match s with
  | [] => (m, behind, digit, s)
  | c :: s' =>
      if decide (c = underscore) then mantissa base m behind digit dot s'
      else if decide (c = period) then
        if dot then (m, behind, digit, s) else mantissa base m behind digit true s'
      else
        match digit_of base c with
        | Some d => mantissa base (m * base + d) (if dot then behind + 1 else behind) true dot s'
        | None => (m, behind, digit, s)
        end
  end.

(** The exponent's digits: values from 10000 on are not continued. *)
Fixpoint exponent (e : Z) (s : gostring) : Z * gostring :=
  match s with
  | [] => (e, s)
  | c :: s' =>
      if decide (c = underscore) then exponent e s'
      else match digit_of 10 c with
           | Some d => exponent (if e <? 10000 then e * 10 + d else e) s'
           | None => (e, s)
           end
  end.

(** [underscoreOK]: [last] is the class of the character before: 0 for a
    digit or the base prefix, 1 for an underscore, 2 for neither. *)
Fixpoint underscores_ok (hex : bool) (last : Z) (s : gostring) : bool :=
  match s with
  | [] => negb (last =? 1)
  | c :: s' =>
      match digit_of (if hex then 16 else 10) c with
      | Some _ => underscores_ok hex 0 s'
      | None =>
          if decide (c = underscore) then
            if last =? 0 then underscores_ok hex 1 s' else false
          else if last =? 1 then false else underscores_ok hex 2 s'
      end
  end.

Definition hex_prefix (s : gostring) : option gostring :=
  match s with
  | c :: d :: s' =>
      if decide (c = zero /\ lower d = x78 /\ s' <> []) then Some s' else None
  | _ => None
  end.

(** [readFloat]: sign, mantissa and power of the base (2 for hexadecimal
    mantissas, 10 otherwise); the whole string has to be read. *)
Definition read_float (s : gostring) : option (bool * Z * Z * bool) :=
  let '(neg, t) := strip_sign s in
  let '(hex, body) := match hex_prefix t with Some b => (true, b) | None => (false, t) end in
  let base := if hex then 16 else 10 in
  let '(m, behind, digit, rest) := mantissa base 0 0 false false body in
  if negb digit then None
  else
    let scale := if hex then - (4 * behind) else - behind in
    let ok := if bool_decide (underscore ∈ s) then underscores_ok hex (if hex then 0 else 2) body else true in
    match rest with
    | c :: r =>
        if decide (lower c = if hex then x70 else x65) then
          let '(eneg, r) := strip_sign r in
          match r with
          | d :: _ =>
              match digit_of 10 d with
              | Some _ =>
                  let '(e, r) := exponent 0 r in
                  if bool_decide (r = []) && ok
                  then Some (neg, m, scale + (if eneg then - e else e), hex) else None
              | None => None
              end
          | [] => None
          end
        else None
    | [] => if negb hex && ok then Some (neg, m, scale, hex) else None
    end.

(** A result too large is an error. *)
Definition finite (x : spec_float) : option spec_float :=
  match x with S754_infinity _ => None | _ => Some x end.

Definition ParseFloat (s : gostring) : option spec_float :=
  match special s with
  | Some x => Some x
  | None =>
      '(neg, m, e, hex) ← read_float s;
      finite (if hex : bool then
                (if m =? 0 then S754_zero neg
                 else binary_normalize prec emax (if neg : bool then - m else m) e neg)
              else if 0 <=? e then round_decimal neg (m * 10 ^ e) 0 else round_decimal neg m e)
  end.

(** ** Floats and integers *)

Definition float_of (z : Z) : spec_float := binary_normalize prec emax z 0 false.

(** The integer part, towards zero. *)
Definition truncate (x : spec_float) : option Z :=
  match x with
  | S754_zero _ => Some 0
  | S754_finite neg m e =>
      let a := if 0 <=? e then Zpos m * 2 ^ e else Zpos m / 2 ^ (- e) in
      Some (if neg : bool then - a else a)
  | _ => None
  end.

Section boot.
(** The conversion of a float that is not an int64. *)
Context (unrepresentable : spec_float -> Z).

Definition to_int64 (x : spec_float) : Z :=
  match truncate x with
  | Some z => if (- 2 ^ 63 <=? z) && (z <? 2 ^ 63) then z else unrepresentable x
  | None => unrepresentable x
  end.

(** ** [bootWallTime] *)

Definition second : Z := 1000000000.

(** What a call meets: the content of [/proc/uptime], if it can be read,
    and the clock. *)
Record environment := mkEnv {
  proc_uptime : option (list byte);
  now : Z
}.

(** The function run once. *)
Definition compute_boot (env : environment) : Z :=
  match proc_uptime env with
  | None => now env
  | Some data =>
      match Fields data with
      | [] => now env
      | f :: _ =>
          match ParseFloat f with
          | None => now env
          | Some uptimeSeconds =>
              let d := to_int64 (SFmul prec emax uptimeSeconds (float_of second)) in
              now env + wrapI 64 (- d)
          end
      end
  end.

(** [procBootWallOnce] and [procBootWall]: the value, once computed. *)
Definition bootWallTime (env : environment) (procBootWall : option Z) : Z * option Z :=
  match procBootWall with
  | Some t => (t, procBootWall)
  | None => let t := compute_boot env in (t, Some t)
  end.

(** [Decode] with the variable it goes through. *)
Definition Decode (env : environment) (raw : list byte) (procBootWall : option Z)
    : events.decoded events.Event * option Z :=
  if Z.of_nat (length raw) <? events.EventSize then (events.Decode 0 raw, procBootWall)
  else let '(boot, st) := bootWallTime env procBootWall in (events.Decode boot raw, st).

(** The records of a process's life, each decoded in its own environment. *)
Fixpoint decode_all (st : option Z) (calls : list (environment * list byte))
    : list (events.decoded events.Event) :=
  match calls with
  | [] => []
  | (env, raw) :: calls' => let '(r, st) := Decode env raw st in r :: decode_all st calls'
  end.

(** ** One anchor for the life of the process *)

Definition complete (raw : list byte) : Prop := events.EventSize <= Z.of_nat (length raw).

Lemma Decode_short env raw st : ~ complete raw -> forall boot,
  Decode env raw st = (events.Decode boot raw, st).
Proof.
  unfold complete, Decode, events.Decode. intros Hs boot.
  by destruct (Z.ltb_spec (Z.of_nat (length raw)) events.EventSize); [|lia].
Qed.

Lemma Decode_complete env raw st : complete raw ->
  Decode env raw st =
    (events.Decode (default (compute_boot env) st) raw, Some (default (compute_boot env) st)).
Proof.
  unfold complete, Decode. intros Hc.
  destruct (Z.ltb_spec (Z.of_nat (length raw)) events.EventSize); [lia|]. by destruct st.
Qed.

Lemma decode_all_anchored boot calls :
  decode_all (Some boot) calls = (fun c => events.Decode boot c.2) <$> calls.
Proof.
  induction calls as [|[env raw] calls IH]; [done|]. cbn [decode_all fmap list_fmap].
  destruct (decide (complete raw)) as [Hc|Hs].
  - rewrite Decode_complete by done. cbn [from_option id]. by rewrite IH.
  - rewrite (Decode_short _ _ _ Hs boot). by rewrite IH.
Qed.

(** One anchor.  Whatever each call would have read from [/proc] or the
    clock, all the records of a process are decoded against one and the
    same boot time: that of the environment of the first record long enough
    to be decoded.  So two decoded events are exactly as far apart as their
    kernel time stamps (as 64-bit signed integers). *)
Lemma timestamps_share_an_anchor calls :
  exists boot,
    decode_all None calls = (fun c => events.Decode boot c.2) <$> calls /\
    (forall pre env raw post, calls = pre ++ (env, raw) :: post ->
       Forall (fun c => ~ complete c.2) pre -> complete raw -> boot = compute_boot env) /\
    (forall i j ei ej ri rj, calls !! i = Some (ei, ri) -> calls !! j = Some (ej, rj) ->
       forall a b, decode_all None calls !! i = Some (Ok a) -> decode_all None calls !! j = Some (Ok b) ->
       events.Timestamp b - events.Timestamp a =
         wrapI 64 (wire.timestamp_ns (wire.of_bytes rj)) - wrapI 64 (wire.timestamp_ns (wire.of_bytes ri))).
Proof.
  assert (exists boot, decode_all None calls = (fun c => events.Decode boot c.2) <$> calls /\
    (forall pre env raw post, calls = pre ++ (env, raw) :: post ->
       Forall (fun c => ~ complete c.2) pre -> complete raw -> boot = compute_boot env)) as (boot & Hall & Hfirst).
  { induction calls as [|[env raw] calls (boot & Hall & Hfirst)].
    - exists 0. split; [done|]. by intros [|? ?] ? ? ?.
    - cbn [decode_all fmap list_fmap]. destruct (decide (complete raw)) as [Hc|Hs].
      + exists (compute_boot env). rewrite Decode_complete by done. cbn [from_option id].
        rewrite decode_all_anchored. split; [done|].
        intros [|[env' raw'] pre] env0 raw0 post E Hpre Hc0; [by simplify_eq/=|].
        simplify_eq/=. by inversion Hpre.
      + exists boot. rewrite (Decode_short _ _ _ Hs boot), Hall. split; [done|].
        intros [|[env' raw'] pre] env0 raw0 post E Hpre Hc0; simplify_eq/=; [done|].
        inversion Hpre; subst. by eapply Hfirst. }
  exists boot. split; [done|]. split; [done|].
  intros i j ei ej ri rj Hi Hj a b Ha Hb. rewrite Hall, list_lookup_fmap in Ha, Hb.
  rewrite Hi in Ha. rewrite Hj in Hb. cbn [fmap option_fmap option_map snd] in Ha, Hb.
  apply (inj Some) in Ha, Hb.
  destruct (Decode_cases boot ri) as [[_ E]|[_ E]]; rewrite E in Ha; [done|].
  destruct (Decode_cases boot rj) as [[_ E']|[_ E']]; rewrite E' in Hb; [done|].
  simplify_eq. cbn [wire.view events.Timestamp]. lia.
Qed.

(** ** A host that has slept *)

(** What the first field of [/proc/uptime] says, in nanoseconds. *)
Definition uptime_ns (data : list byte) : option Z :=
  match Fields data with
  | [] => None
  | f :: _ => x ← ParseFloat f; Some (to_int64 (SFmul prec emax x (float_of second)))
  end.

Lemma compute_boot_uptime env data up :
  proc_uptime env = Some data -> uptime_ns data = Some up -> compute_boot env = now env + wrapI 64 (- up).
Proof.
  unfold compute_boot, uptime_ns. intros -> Hu. destruct (Fields data) as [|f fs]; [done|].
  destruct (ParseFloat f) as [x|]; [|done]. by simplify_eq/=.
Qed.

(** [/proc/uptime] counts the time the host was suspended, the kernel's
    time stamps (CLOCK_MONOTONIC) do not.  On a host that has been
    suspended for [asleep] nanoseconds since it booted, an event that
    happens at the moment the anchor is computed is dated [asleep] in the
    past, up to a second of inaccuracy of the file. *)
Lemma suspension_antedates_events env raw ev data up monotonic asleep :
  proc_uptime env = Some data -> uptime_ns data = Some up ->
  0 <= up < 2 ^ 63 -> Z.abs (up - (monotonic + asleep)) <= second ->
  events.Decode (compute_boot env) raw = Ok ev ->
  wire.timestamp_ns (wire.of_bytes raw) = monotonic -> 0 <= monotonic < 2 ^ 63 ->
  Z.abs (now env - events.Timestamp ev - asleep) <= second.
Proof.
  intros Hd Hu Hup Hacc Hdec Hns Hm.
  destruct (Decode_cases (compute_boot env) raw) as [[_ E]|[_ E]]; rewrite E in Hdec; [done|].
  simplify_eq. cbn [wire.view events.Timestamp].
  rewrite (compute_boot_uptime env data up Hd Hu), !wrapI_id by lia. lia.
Qed.

End boot.

Example uptime_fields :
  Fields (bs "350735.47 234388.90" ++ [x0a]) = [bs "350735.47"; bs "234388.90"].
Proof. by vm_compute. Qed.

Example parsed_floats :
  ParseFloat (bs "0x1p-2") = Some (S754_finite false 4503599627370496 (-54)) /\
  ParseFloat (bs "1_000") = ParseFloat (bs "1e3") /\ ParseFloat (bs "1__0") = None /\
  ParseFloat (bs "-Inf") = Some (S754_infinity true) /\ ParseFloat (bs "1e999") = None /\
  ParseFloat (bs ".") = None /\ ParseFloat (bs "0x1") = None.
Proof. by vm_compute. Qed.

Example boot_from_uptime :
  compute_boot (fun _ => 0) (mkEnv (Some (bs "350735.47 234388.90" ++ [x0a])) 1700000000000000000) =
    1700000000000000000 - 350735470000000.
Proof. by vm_compute. Qed.

(** An hour after boot, half of it asleep: the event is dated half an hour
    in the past. *)
Lemma suspension_antedates_events_witness :
  let env := mkEnv (Some (bs "3600.00 1234.56" ++ [x0a])) 1700000000000000000 in
  let raw := wire.to_bytes (wire.mkExecEvent 1800000000000 1 1 0 0 (replicate 16 x00) (replicate 256 x00) 0
               (replicate 6 (replicate 32 x00)) (replicate 6 0) 0 0) in
  let ev := wire.view (compute_boot (fun _ => 0) env) (wire.of_bytes raw) in
  Z.abs (now env - events.Timestamp ev - 1800 * second) <= second.
Proof.
  cbn zeta.
  apply (suspension_antedates_events (fun _ => 0)
    (mkEnv (Some (bs "3600.00 1234.56" ++ [x0a])) 1700000000000000000)
    (wire.to_bytes (wire.mkExecEvent 1800000000000 1 1 0 0 (replicate 16 x00) (replicate 256 x00) 0
               (replicate 6 (replicate 32 x00)) (replicate 6 0) 0 0))
    _ (bs "3600.00 1234.56" ++ [x0a]) 3600000000000 1800000000000 1800000000000);
    by vm_compute.
Defined.

End boottime.
