(* ===== verification/Strconv.v ===== *)
(** * Numbers and durations on a command line

    [strconv.ParseInt] with base 0, as [flag.Int] calls it, and
    [time.ParseDuration], as [flag.Duration] does: prefixes, underscores,
    signs, units, fractions and every overflow check. *)
From Stdlib Require Import ZArith Lia Floats.SpecFloat.
From Stdlib Require Import Strings.Byte Strings.String.
From stdpp Require Import base list.
From S2P Require Import Prelude GoStrings GoTime Json JsonFacts Events GoIO AppendLog Hunter VerdictJson BootTime.
Import verdictjson boottime.
#[local] Open Scope Z_scope.

Module strconv.

(** ** [ParseInt(s, 0, 64)] *)

(** The digits of a base, underscores between them. *)
Fixpoint read_base (base acc : Z) (s : gostring) : option Z :=
  match s with
  | [] => Some acc
  | c :: s' =>
      if decide (c = underscore) then read_base base acc s'
      else d ← digit_of base c; read_base base (acc * base + d) s'
  end.

(** The base a prefix announces, whether there is one with a letter, and
    what follows. *)
Definition base_of (s : gostring) : Z * bool * gostring :=
  match s with
  | c :: s1 =>
      if decide (c = zero) then
        match s1 with
        | d :: ((_ :: _) as s2) =>
            if decide (lower d = x62) then (2, true, s2)
            else if decide (lower d = x6f) then (8, true, s2)
            else if decide (lower d = x78) then (16, true, s2)
            else (8, false, s1)
        | _ => (8, false, s1)
        end
      else (10, false, s)
  | [] => (10, false, s)
  end.

(** [underscoreOK] looks at the whole numeral: a base prefix counts as a
    digit. *)
Definition underscores_fine (prefix : bool) (base : Z) (body s : gostring) : bool :=
  if bool_decide (underscore ∈ s) then
    if prefix then underscores_ok (base =? 16) 0 body else underscores_ok false 2 s
  else true.

Definition ParseUint (s : gostring) : option Z :=
  match s with
  | [] => None
  | _ =>
      let '(base, prefix, body) := base_of s in
      m ← read_base base 0 body;
      if underscores_fine prefix base body s && (m <? 2 ^ 64) then Some m else None
  end.

Definition ParseInt (s : gostring) : option Z :=
  let '(neg, t) := strip_sign s in
  m ← ParseUint t;
  if neg : bool then if m <=? 2 ^ 63 then Some (- m) else None
  else if m <? 2 ^ 63 then Some m else None.

(** ** [time.ParseDuration] *)

(** Digits read so far [x]; an error as soon as 2^63 is passed. *)
Fixpoint leadingInt (x : Z) (s : gostring) : option (Z * gostring) :=
  match s with
  | c :: s' =>
      match digit_val c with
      | Some d =>
          if 2 ^ 63 / 10 <? x then None
          else let y := x * 10 + d in if 2 ^ 63 <? y then None else leadingInt y s'
      | None => Some (x, s)
      end
  | [] => Some (x, [])
  end.

(** The fraction's digits as an integer and the power of ten, a float, it
    is to be divided by; digits that would overflow are skipped. *)
Fixpoint leadingFraction (overflow : bool) (x : Z) (scale : spec_float) (s : gostring) : Z * spec_float * gostring :=
  match s with
  | c :: s' =>
      match digit_val c with
      | Some d =>
          if overflow then leadingFraction overflow x scale s'
          else if (2 ^ 63 - 1) / 10 <? x then leadingFraction true x scale s'
          else
            let y := x * 10 + d in
            if 2 ^ 63 <? y then leadingFraction true x scale s'
            else leadingFraction false y (SFmul prec emax scale (float_of 10)) s'
      | None => (x, scale, s)
      end
  | [] => (x, scale, [])
  end.

(** A unit's name goes up to the next digit or point. *)
Fixpoint unit_name (s : gostring) : gostring * gostring :=
  match s with
  | c :: s' =>
      if decide (c = period \/ is_Some (digit_val c)) then ([], s)
      else let '(u, r) := unit_name s' in (c :: u, r)
  | [] => ([], [])
  end.

(** Nanoseconds; the micro sign comes as U+00B5 and as U+03BC. *)
Definition unitMap : list (gostring * Z) :=
  [(bs "ns", 1); (bs "us", 1000); ([xc2; xb5; x73], 1000); ([xce; xbc; x73], 1000); (bs "ms", 1000000);
   (bs "s", 1000000000); (bs "m", 60000000000); (bs "h", 3600000000000)].

Fixpoint find_unit (u : gostring) (l : list (gostring * Z)) : option Z :=
  match l with
  | [] => None
  | (k, v) :: l' => if decide (u = k) then Some v else find_unit u l'
  end.

(** [uint64(float64(f) * (float64(unit) / scale))]: the product is not
    above the unit, so it fits. *)
Definition fraction_of (f : Z) (scale : spec_float) (unit : Z) : Z :=
  default 0 (truncate (SFmul prec emax (float_of f) (SFdiv prec emax (float_of unit) scale))).

(** The rest of an item after the integer part [v]: from [s], [s1] is
    left. *)
Definition duration_unit (s s1 : gostring) (v : Z) : option (Z * gostring) :=
  let pre := negb (length s1 =? length s)%nat in
  let '(f, scale, s2, post) :=
    match expect period s1 with
    | Some t => let '(f, scale, t') := leadingFraction false 0 (float_of 1) t in
                (f, scale, t', negb (length t' =? length t)%nat)
    | None => (0, float_of 1, s1, false)
    end in
  if pre || post then
    let '(u, s3) := unit_name s2 in
    unit ← find_unit u unitMap;
    if 2 ^ 63 / unit <? v then None
    else
      let v := v * unit + (if 0 <? f then fraction_of f scale unit else 0) in
      if (0 <? f) && (2 ^ 63 <? v) then None else Some (v, s3)
  else None.

(** One number with its unit. *)
Definition duration_item (s : gostring) : option (Z * gostring) :=
  match s with
  | [] => None
  | c :: _ =>
      if decide (c = period \/ is_Some (digit_val c)) then '(v, s1) ← leadingInt 0 s; duration_unit s s1 v
      else None
  end.

(** The sum is a [uint64]: two halves of its range add up to nothing. *)
Fixpoint duration_items (fuel : nat) (d : Z) (s : gostring) : option Z :=
  match s with
  | [] => Some d
  | _ =>
      match fuel with
      | O => None
      | S fuel' =>
          '(v, s') ← duration_item s;
          let d := wrapU 64 (d + v) in
          if 2 ^ 63 <? d then None else duration_items fuel' d s'
      end
  end.

Definition ParseDuration (s : gostring) : option Z :=
  let '(neg, t) := strip_sign s in
  if decide (t = bs "0") then Some 0
  else
    match t with
    | [] => None
    | _ =>
        d ← duration_items (length t) 0 t;
        if neg : bool then Some (- d) else if 2 ^ 63 - 1 <? d then None else Some d
    end.

(** ** Integers round trip *)

(** [strconv.Itoa] *)
Definition Itoa (z : Z) : gostring := (if z <? 0 then [dash] else []) ++ decimal (Z.abs z).

Lemma digit_of_digit d : 0 <= d < 10 -> digit_of 10 (digit d) = Some d /\ digit d <> underscore /\ digit_val (digit d) = Some d.
Proof.
  intros Hd. rewrite digit_val_digit by done.
  assert (forallb (fun d => bool_decide (digit_of 10 (digit d) = Some d /\ digit d <> underscore)) (Z.of_nat <$> seq 0 10) = true) as H
    by by vm_compute.
  rewrite forallb_forall in H. specialize (H d). rewrite bool_decide_eq_true in H.
  destruct H as [H1 H2]; [|by split_and!]. apply list_elem_of_In, list_elem_of_fmap. exists (Z.to_nat d).
  split; [lia|]. apply elem_of_seq. lia.
Qed.

Lemma read_base_step w z s : read_base 10 (z / 10 ^ Z.of_nat w) (digits w z ++ s) = read_base 10 z s.
Proof.
  induction w as [|w IH]; cbn [read_base digits app]; [by rewrite Z.div_1_r|].
  destruct (digit_of_digit (z / 10 ^ Z.of_nat w mod 10)) as (E & Hn & _); [apply Z.mod_pos_bound; lia|].
  rewrite decide_False by done. rewrite E. cbn [mbind option_bind]. by rewrite div_pow_step.
Qed.

Lemma read_base_decimal z : 0 <= z < 2 ^ 64 -> read_base 10 0 (decimal z) = Some z.
Proof.
  intros Hz. pose proof (read_base_step (width z) z []) as E. rewrite app_nil_r in E.
  rewrite Z.div_small in E by (split; [lia|by apply decimal_bound]). exact E.
Qed.

Lemma decimal_head z : 0 <= z < 2 ^ 64 -> exists d r, decimal z = digit d :: r /\ 0 <= d < 10 /\ (d = 0 -> r = [] /\ z = 0).
Proof.
  intros Hz. destruct (width_pos z) as [n Hn]. unfold decimal. rewrite Hn. cbn [digits].
  eexists _, _. split; [done|]. pose proof (Z.mod_pos_bound (z / 10 ^ Z.of_nat n) 10 ltac:(lia)) as Hd. split; [done|].
  intros E. assert (digits n z = []) as Hr.
  { apply (natural_lead 20 z); [simpl in *; lia|]. unfold natural. fold (width z). rewrite Hn. cbn [digits]. by rewrite E. }
  split; [done|]. apply (f_equal length) in Hr. rewrite length_digits in Hr. cbn [length] in Hr. subst n.
  pose proof (decimal_bound z Hz) as Hb. rewrite Hn in Hb. cbn in E, Hb. rewrite Z.div_1_r, Z.mod_small in E; lia.
Qed.

Lemma digit_not d c : 0 <= d < 10 -> negb (json.between 48 57 c) = true -> digit d <> c.
Proof.
  intros Hd Hc E. apply negb_true_iff in Hc. subst c. unfold json.between, digit in Hc.
  rewrite byte_val_of, Z.mod_small in Hc by lia. apply andb_false_iff in Hc as [Hc|Hc]; apply Z.leb_gt in Hc; lia.
Qed.

Lemma ParseUint_decimal z : 0 <= z < 2 ^ 64 -> ParseUint (decimal z) = Some z.
Proof.
  intros Hz. destruct (decimal_head z Hz) as (d & r & E & Hd & H0). unfold ParseUint. rewrite E.
  assert (underscores_fine false 10 (digit d :: r) (digit d :: r) = true /\
    underscores_fine false 8 r (digit d :: r) = true) as [Hu Hu8].
  { unfold underscores_fine. rewrite bool_decide_false; [done|]. rewrite <- E. intros Hin.
    by apply digits_are_digits in Hin as [? Hin]. }
  pose proof (read_base_decimal z Hz) as Hr. rewrite E in Hr.
  unfold base_of. destruct (decide (digit d = zero)) as [Ez|Ez].
  - assert (d = 0) as -> by (by apply digit_zero). destruct (H0 eq_refl) as [-> ->]. by vm_compute.
  - cbn [mbind option_bind]. rewrite Hr. cbn [mbind option_bind]. rewrite Hu, (proj2 (Z.ltb_lt _ _)) by lia. done.
Qed.

(** A sign is taken for one only if it is. *)
Lemma strip_sign_Itoa z : - 2 ^ 63 <= z < 2 ^ 63 -> forall t, strip_sign (Itoa z ++ t) = (z <? 0, decimal (Z.abs z) ++ t).
Proof.
  intros Hz t. unfold Itoa. destruct (Z.ltb_spec z 0); [done|]. cbn [app].
  destruct (decimal_head (Z.abs z)) as (d & r & -> & Hd & _); [lia|]. cbn [app strip_sign].
  by rewrite !decide_False by (by apply digit_not).
Qed.

Lemma ParseInt_Itoa z : - 2 ^ 63 <= z < 2 ^ 63 -> ParseInt (Itoa z) = Some z.
Proof.
  intros Hz. unfold ParseInt. pose proof (strip_sign_Itoa z Hz []) as E. rewrite !app_nil_r in E. rewrite E.
  rewrite ParseUint_decimal by lia. cbn [mbind option_bind]. destruct (Z.ltb_spec z 0).
  - rewrite (proj2 (Z.leb_le _ _)) by lia. f_equal. lia.
  - rewrite (proj2 (Z.ltb_lt _ _)) by lia. f_equal. lia.
Qed.

(** ** Durations in nanoseconds round trip *)

Lemma leadingInt_step w z s :
  0 <= z <= 2 ^ 63 -> leadingInt (z / 10 ^ Z.of_nat w) (digits w z ++ s) = leadingInt z s.
Proof.
  intros Hz. induction w as [|w IH]; cbn [leadingInt digits app]; [by rewrite Z.div_1_r|].
  destruct (digit_of_digit (z / 10 ^ Z.of_nat w mod 10)) as (_ & _ & ->); [apply Z.mod_pos_bound; lia|].
  assert (0 < 10 ^ Z.of_nat w) by (apply Z.pow_pos_nonneg; lia).
  assert (z / 10 ^ Z.of_nat (S w) <= 2 ^ 63 / 10 /\ z / 10 ^ Z.of_nat w <= 2 ^ 63) as [H1 H2].
  { split; [|apply Z.div_le_upper_bound; nia].
    rewrite Nat2Z.inj_succ, Z.pow_succ_r, <- Z.div_div by lia.
    etransitivity; [|apply Z.div_le_mono with (a := z); lia].
    apply Z.div_le_upper_bound; [lia|]. pose proof (Z.div_pos z 10). nia. }
  rewrite (proj2 (Z.ltb_ge _ _)) by lia. cbn zeta. rewrite div_pow_step, (proj2 (Z.ltb_ge _ _)) by lia. exact IH.
Qed.

Definition nanoseconds (z : Z) : gostring := Itoa z ++ bs "ns".

Lemma duration_item_ns z : 0 <= z <= 2 ^ 63 -> duration_item (decimal z ++ bs "ns") = Some (z, []).
Proof.
  intros Hz. assert (0 <= z < 2 ^ 64) as Hz' by lia. destruct (decimal_head z Hz') as (d & r & E & Hd & _).
  assert (leadingInt 0 (decimal z ++ bs "ns") = Some (z, bs "ns")) as Hl.
  { pose proof (leadingInt_step (width z) z (bs "ns") Hz) as El.
    rewrite Z.div_small in El by (split; [lia|by apply decimal_bound]). exact El. }
  assert (length (bs "ns") < length (decimal z ++ bs "ns"))%nat as Hpre by (rewrite E, length_app; cbn; lia).
  rewrite E in Hl, Hpre |- *. cbn [app] in *. set (s := digit d :: r ++ bs "ns") in *.
  transitivity ('(v, s1) ← leadingInt 0 s; duration_unit s s1 v).
  { unfold s at 1. unfold duration_item.
    by rewrite decide_True by (right; destruct (digit_of_digit d Hd) as (_ & _ & ->); by eexists). }
  rewrite Hl. cbn [mbind option_bind]. unfold duration_unit.
  rewrite (proj2 (Nat.eqb_neq _ _)) by lia.
  change (expect period (bs "ns")) with (@None gostring). cbn [negb orb].
  change (unit_name (bs "ns")) with (bs "ns", @nil byte). cbn match.
  change (find_unit (bs "ns") unitMap) with (Some 1).
  cbn [mbind option_bind]. rewrite Z.div_1_r, (proj2 (Z.ltb_ge _ _)), Z.mul_1_r, Z.add_0_r by lia. done.
Qed.

Lemma ParseDuration_ns z : - 2 ^ 63 <= z < 2 ^ 63 -> ParseDuration (nanoseconds z) = Some z.
Proof.
  intros Hz. unfold ParseDuration, nanoseconds. rewrite strip_sign_Itoa by done.
  pose proof (duration_item_ns (Z.abs z)) as Hi. set (t := decimal (Z.abs z) ++ bs "ns") in *.
  assert (t <> bs "0") as Hne. { intros E. apply (f_equal (@rev byte)) in E. unfold t in E. by rewrite rev_app_distr in E. }
  assert (exists c t', t = c :: t') as (c & t' & Et) by (unfold t; destruct (decimal _); by eexists _, _).
  rewrite decide_False by done. rewrite Et in *. cbn [length duration_items].
  rewrite Hi by lia. cbn [mbind option_bind]. rewrite Z.add_0_l. cbn zeta.
  assert (wrapU 64 (Z.abs z) = Z.abs z) as -> by (unfold wrapU; apply Z.mod_small; lia).
  rewrite (proj2 (Z.ltb_ge (2 ^ 63) (Z.abs z))) by lia.
  assert (duration_items (length t') (Z.abs z) [] = Some (Z.abs z)) as -> by by destruct (length t').
  cbn [mbind option_bind]. destruct (Z.ltb_spec z 0); [f_equal; lia|].
  rewrite (proj2 (Z.ltb_ge _ _)) by lia. f_equal. lia.
Qed.

(** ** What is accepted *)

Example integers :
  ParseInt <$> [bs "0x1F"; bs "-0b101"; bs "010"; bs "1_000"; bs "+7"; bs "9223372036854775808"; bs "0x_1"; bs "1__0"; bs "08"; bs ""]
  = [Some 31; Some (-5); Some 8; Some 1000; Some 7; None; Some 1; None; None; None].
Proof. by vm_compute. Qed.

Example durations :
  ParseDuration <$> [bs "1h30m"; bs "1.5s"; bs "-300ms"; bs ".25h"; bs "0"; bs "5"; bs "1.s"; bs "s"; bs "106752d"; bs "2562048h";
    bs "0.0000000000000000000001h"; bs "-9223372036854775808ns"] =
  [Some 5400000000000; Some 1500000000; Some (-300000000); Some 900000000000; Some 0; None; Some 1000000000; None; None; None;
   Some 0; Some (-9223372036854775808)].
Proof. by vm_compute. Qed.

End strconv.
