(* ===== verification/Pipeline.v ===== *)
(** * The pipeline ([broker/internal/pipeline/{pipeline,metrics}.go])

    The broker's core as functions on its state: the dispatch queue, the
    counters and the two logs ([Pipeline]), and the world they act on, file
    system, request counter and processes ([World]).  [HandleRaw],
    [evaluate] and [drainOverflow] are the whole handlers of the source. *)
From Stdlib Require Import ZArith Lia.
From Stdlib Require Import Strings.Byte Strings.String.
From stdpp Require Import base list gmap.
From S2P Require Import Prelude GoStrings Events Triage GoIO AppendLog Hunter.
#[local] Open Scope Z_scope.
#[local] Open Scope go_scope.

Module pipeline.

(** ** Counters ([metrics.go]): [atomic.Uint64] *)

Record Metrics := mkMetrics {
  EventsTotal : Z;
  SuspiciousTotal : Z;
  QueueOverflows : Z;
  HunterErrors : Z;
  EventsLost : Z;
  ActionsKill : Z;
  DecodeErrors : Z;
  OverflowReplays : Z
}.

Definition zero_metrics : Metrics := mkMetrics 0 0 0 0 0 0 0 0.

(** [Add] on each counter. *)
Definition add_total (n : Z) (m : Metrics) : Metrics :=
  mkMetrics (wrapU 64 (EventsTotal m + n)) (SuspiciousTotal m) (QueueOverflows m)
    (HunterErrors m) (EventsLost m) (ActionsKill m) (DecodeErrors m) (OverflowReplays m).
Definition add_suspicious (n : Z) (m : Metrics) : Metrics :=
  mkMetrics (EventsTotal m) (wrapU 64 (SuspiciousTotal m + n)) (QueueOverflows m)
    (HunterErrors m) (EventsLost m) (ActionsKill m) (DecodeErrors m) (OverflowReplays m).
Definition add_overflows (n : Z) (m : Metrics) : Metrics :=
  mkMetrics (EventsTotal m) (SuspiciousTotal m) (wrapU 64 (QueueOverflows m + n))
    (HunterErrors m) (EventsLost m) (ActionsKill m) (DecodeErrors m) (OverflowReplays m).
Definition add_hunter_errors (n : Z) (m : Metrics) : Metrics :=
  mkMetrics (EventsTotal m) (SuspiciousTotal m) (QueueOverflows m)
    (wrapU 64 (HunterErrors m + n)) (EventsLost m) (ActionsKill m) (DecodeErrors m)
    (OverflowReplays m).
Definition add_lost (n : Z) (m : Metrics) : Metrics :=
  mkMetrics (EventsTotal m) (SuspiciousTotal m) (QueueOverflows m) (HunterErrors m)
    (wrapU 64 (EventsLost m + n)) (ActionsKill m) (DecodeErrors m) (OverflowReplays m).
Definition add_kills (n : Z) (m : Metrics) : Metrics :=
  mkMetrics (EventsTotal m) (SuspiciousTotal m) (QueueOverflows m) (HunterErrors m)
    (EventsLost m) (wrapU 64 (ActionsKill m + n)) (DecodeErrors m) (OverflowReplays m).
Definition add_decode_errors (n : Z) (m : Metrics) : Metrics :=
  mkMetrics (EventsTotal m) (SuspiciousTotal m) (QueueOverflows m) (HunterErrors m)
    (EventsLost m) (ActionsKill m) (wrapU 64 (DecodeErrors m + n)) (OverflowReplays m).
Definition add_replays (n : Z) (m : Metrics) : Metrics :=
  mkMetrics (EventsTotal m) (SuspiciousTotal m) (QueueOverflows m) (HunterErrors m)
    (EventsLost m) (ActionsKill m) (DecodeErrors m) (wrapU 64 (OverflowReplays m + n)).

(** ** State *)

Record Config := mkConfig {
  HunterClient : hunter.Client;
  QueueSize : Z;
  Workers : Z;
  OverflowPath : gostring;
  AuditPath : gostring;
  ReplayEvery : Z
}.

Record Pipeline := mkPipeline {
  cfg : Config;
  queue : list Event;
  metrics : Metrics;
  audit : appendLog;
  overflow : appendLog
}.

Record World := mkWorld {
  w_fs : FS;
  w_requests : nat;
  w_procs : hunter.procs
}.

Definition second : Z := 1000000000.

Definition set_queue (q : list Event) (p : Pipeline) : Pipeline :=
  mkPipeline (cfg p) q (metrics p) (audit p) (overflow p).
Definition count (f : Metrics -> Metrics) (p : Pipeline) : Pipeline :=
  mkPipeline (cfg p) (queue p) (f (metrics p)) (audit p) (overflow p).
Definition set_audit (a : appendLog) (p : Pipeline) : Pipeline :=
  mkPipeline (cfg p) (queue p) (metrics p) a (overflow p).
Definition set_overflow (a : appendLog) (p : Pipeline) : Pipeline :=
  mkPipeline (cfg p) (queue p) (metrics p) (audit p) a.
Definition set_fs (fs : FS) (w : World) : World := mkWorld fs (w_requests w) (w_procs w).
Definition set_requests (k : nat) (w : World) : World := mkWorld (w_fs w) k (w_procs w).
Definition set_procs (ps : hunter.procs) (w : World) : World := mkWorld (w_fs w) (w_requests w) ps.

(** The map [MetricsHandler] builds: the counters and two gauges. *)
Definition metrics_map (p : Pipeline) : list (string * Z) :=
  [("events_total", EventsTotal (metrics p));
   ("suspicious_total", SuspiciousTotal (metrics p));
   ("queue_overflows", QueueOverflows (metrics p));
   ("hunter_errors", HunterErrors (metrics p));
   ("events_lost", EventsLost (metrics p));
   ("actions_kill", ActionsKill (metrics p));
   ("decode_errors", DecodeErrors (metrics p));
   ("overflow_replays", OverflowReplays (metrics p));
   ("queue_depth", wrapU 64 (Z.of_nat (length (queue p))));
   ("queue_capacity", wrapU 64 (QueueSize (cfg p)))]%string.

Section handlers.
Context `{EventCodec} (decode_verdict : list byte -> option hunter.Verdict).
Context (faults : nat -> fault) (net : nat -> hunter.exchange).
Context (allowed : Z -> bool).

(** [New]: opens both logs; [make(chan, n)] panics on a negative size. *)
Definition New (c : Config) (fs : FS) : go_result ioerr Pipeline * FS :=
  let c := if ReplayEvery c <=? 0
           then mkConfig (HunterClient c) (QueueSize c) (Workers c) (OverflowPath c)
                  (AuditPath c) (30 * second)
           else c in
  match newAppendLog faults (AuditPath c) fs with
  | (Err e, fs) => (Err e, fs)
  | (Panic, fs) => (Panic, fs)
  | (Ok au, fs) =>
      match newAppendLog faults (OverflowPath c) fs with
      | (Err e, fs) => let '(_, _, fs) := AppendLog.Close faults au fs in (Err e, fs)
      | (Panic, fs) => (Panic, fs)
      | (Ok ov, fs) =>
          if QueueSize c <? 0 then (Panic, fs)
          else (Ok (mkPipeline c [] zero_metrics au ov), fs)
      end
  end.

(** [Close], once the threads have stopped: both logs are flushed and
    closed; the overflow log's error is returned. *)
Definition Close (p : Pipeline) (w : World) : go_result ioerr unit * Pipeline * World :=
  let '(_, a, fs) := AppendLog.Close faults (audit p) (w_fs w) in
  let '(r, o, fs) := AppendLog.Close faults (overflow p) fs in
  (r, mkPipeline (cfg p) (queue p) (metrics p) a o, set_fs fs w).

(** Appending to a log of the pipeline. *)
Definition append_audit (ev : Event) (p : Pipeline) (w : World)
    : go_result ioerr unit * Pipeline * World :=
  let '(r, a, fs) := Append faults ev (audit p) (w_fs w) in
  (r, set_audit a p, set_fs fs w).

Definition append_overflow (ev : Event) (p : Pipeline) (w : World)
    : go_result ioerr unit * Pipeline * World :=
  let '(r, a, fs) := Append faults ev (overflow p) (w_fs w) in
  (r, set_overflow a p, set_fs fs w).

(** Spilling an event: a failed append is counted as a loss. *)
Definition spill (ev : Event) (p : Pipeline) (w : World) : Pipeline * World :=
  match append_overflow ev p w with
  | (Ok _, p, w) => (p, w)
  | (_, p, w) => (count (add_lost 1) p, w)
  end.

(** The non-blocking send: there is room, or a worker is waiting on the
    empty queue ([waiting]) and takes the event at once. *)
Definition has_room (waiting : bool) (p : Pipeline) : bool :=
  (Z.of_nat (length (queue p)) <? QueueSize (cfg p)) || (waiting && bool_decide (queue p = [])).

(** The send or, when the queue is full, the spill. *)
Definition dispatch (waiting : bool) (ev : Event) (p : Pipeline) (w : World) : Pipeline * World :=
  if has_room waiting p then (set_queue (queue p ++ [ev]) p, w)
  else spill ev (count (add_overflows 1) p) w.

Definition HandleRaw (boot : Z) (waiting : bool) (raw : list byte) (p : Pipeline) (w : World)
    : go_result Empty_set (Pipeline * World) :=
  match events.Decode boot raw with
  | Panic => Panic
  | Err _ => Ok (count (add_decode_errors 1) p, w)
  | Ok ev =>
      let p := count (add_total 1) p in
      let '(_, p, w) := append_audit ev p w in
      sus <-- triage.IsSuspicious ev ;;;
      if negb sus then Ok (p, w)
      else Ok (dispatch waiting ev (count (add_suspicious 1) p) w)
  end.

(** The response to a verdict; [later] is what other processes do between
    the comm check and the signal. *)
Definition respond (later : hunter.procs -> hunter.procs) (ev : Event) (w : World) : World :=
  match hunter.KillProcess allowed (events.PID ev) (events.Comm ev)
          (w_procs w) (later (w_procs w)) with
  | Ok ps => set_procs ps w
  | _ => set_procs (later (w_procs w)) w
  end.

(** [evaluate]: one event off the queue. *)
Definition evaluate (later : hunter.procs -> hunter.procs) (ev : Event)
    (p : Pipeline) (w : World) : Pipeline * World :=
  let r := hunter.Evaluate decode_verdict net (HunterClient (cfg p)) ev (w_requests w) in
  let w := set_requests (hunter.ev_requests r) w in
  match hunter.ev_result r with
  | Ok v =>
      if bool_decide (hunter.Action v <> hunter.ActionKill) then (p, w)
      else (count (add_kills 1) p, respond later ev w)
  | _ => spill ev (count (add_hunter_errors 1) p) w
  end.

(** The loop of [drainOverflow] over the rotated file's bytes, with the
    [replayed] and [respilled] locals; [fuel] bounds its turns. *)
Fixpoint drain_loop (fuel : nat) (s : list byte) (replayed respilled : Z)
    (p : Pipeline) (w : World) : Z * Z * Pipeline * World :=
  match fuel with
  | O => (replayed, respilled, p, w)
  | S fuel' =>
      match next s with
      | None => (replayed, respilled, p, w)
      | Some (ev, rest) =>
          let r := hunter.Evaluate decode_verdict net (HunterClient (cfg p)) ev (w_requests w) in
          let w := set_requests (hunter.ev_requests r) w in
          match hunter.ev_result r with
          | Ok _ => drain_loop fuel' rest (replayed + 1) respilled p w
          | _ =>
              let '(p, w) := spill ev p w in
              drain_loop fuel' rest replayed (respilled + 1) p w
          end
      end
  end.

Definition drainOverflow (p : Pipeline) (w : World) : Pipeline * World :=
  match rotate faults (overflow p) (w_fs w) with
  | (Ok rotated, a, fs) =>
      let p := set_overflow a p in
      let w := set_fs fs w in
      if bool_decide (rotated = []) then (p, w)
      else
        match OpenRead faults rotated (w_fs w) with
        | (Ok s, fs) =>
            let '(replayed, respilled, p, w) := drain_loop (length s) s 0 0 p (set_fs fs w) in
            let p := if 0 <? replayed + respilled
                     then count (add_replays (wrapU 64 replayed)) p else p in
            (p, set_fs (Remove faults rotated (w_fs w)) w)
        | (_, fs) => (p, set_fs (Remove faults rotated fs) (set_fs fs w))
        end
  | (_, a, fs) => (set_overflow a p, set_fs fs w)
  end.

End handlers.

End pipeline.
