(* ===== verification/Samples.v ===== *)
(** * Concrete inputs

    A broker with two empty logs, an event, fault plans and networks on
    which the theorems' hypotheses hold; used by the examples that apply
    the theorems. *)
From Stdlib Require Import ZArith Lia Floats.SpecFloat.
From Stdlib Require Import Strings.Byte Strings.String.
From stdpp Require Import base list gmap.
From S2P Require Import Prelude Events GoIO AppendLog Json EventJson Hunter VerdictJson Pipeline.
#[local] Open Scope Z_scope.

(** An execution of [/tmp/x], observed in 2023. *)
Definition sample_event : Event :=
  {| events.Timestamp := 1700000000123456000;
     events.PID := 4242; events.TID := 4242; events.UID := 1000; events.GID := 1000;
     events.Comm := bs "bash"; events.Filename := bs "/tmp/x"; events.Args := [bs "/tmp/x"; bs "-c"];
     events.Argc := 2; events.Truncated := false; events.CommandLine := bs "/tmp/x /tmp/x -c" |}.

Definition all_good : nat -> fault := fun _ => Good.

(** Only the [k]-th system call fails, none of its bytes written. *)
Definition fails_at (k : nat) : nat -> fault := fun i => if Nat.eqb i k then Bad 0 else Good.

Definition audit_path : gostring := bs "/var/lib/cyber-patrol/audit.jsonl".
Definition overflow_path : gostring := bs "/var/lib/cyber-patrol/overflow.jsonl".

(** The open, empty logs, as inodes 0 and 1. *)
Definition fresh_log (path : gostring) (inode : nat) : appendLog :=
  mkLog path (mkFile inode false) (mkWriter [] None) None.

Definition two_files (audit overflow : list byte) : FS :=
  {| fs_names := <[audit_path := 0%nat]> {[ overflow_path := 1%nat ]};
     fs_inodes := <[0%nat := audit]> {[ 1%nat := overflow ]};
     fs_next := 2; fs_calls := 0 |}.

Definition sample_client : hunter.Client := hunter.New (bs "http://localhost:8000") (5 * pipeline.second) 3.

Definition sample_config : pipeline.Config :=
  {| pipeline.HunterClient := sample_client;
     pipeline.QueueSize := 4096; pipeline.Workers := 8;
     pipeline.OverflowPath := overflow_path; pipeline.AuditPath := audit_path;
     pipeline.ReplayEvery := 30 * pipeline.second |}.

Definition sample_pipeline (size : Z) : pipeline.Pipeline :=
  {| pipeline.cfg := pipeline.mkConfig sample_client size 8 overflow_path audit_path
       (30 * pipeline.second);
     pipeline.queue := []; pipeline.metrics := pipeline.zero_metrics;
     pipeline.audit := fresh_log audit_path 0; pipeline.overflow := fresh_log overflow_path 1 |}.

(** The event's process, alive under its name. *)
Definition sample_procs : hunter.procs := {[ 4242 := hunter.mkProc (bs "bash") 7 ]}.

Definition sample_world (overflow : list byte) : pipeline.World :=
  {| pipeline.w_fs := two_files [] overflow; pipeline.w_requests := 0;
     pipeline.w_procs := sample_procs |}.

(** The hunter's answer for a kill, and its text. *)
Definition kill_answer : json.value :=
  json.JObj
    [(bs "severity", eventjson.json_string (bs "critical"));
     (bs "action", eventjson.json_string (bs "kill"));
     (bs "mitre_technique", eventjson.json_string (bs "T1059.004"));
     (bs "mitre_tactic", eventjson.json_string (bs "Execution"));
     (bs "confidence", json.JNum (bs "0.95"));
     (bs "rationale", eventjson.json_string (bs "reverse shell"))].

Definition kill_body : list byte := json.print kill_answer.

(** A hunter that is down, and one that always answers "kill". *)
Definition net_down : nat -> hunter.exchange := fun _ => hunter.mkExchange false hunter.TransportFails.
Definition net_up : nat -> hunter.exchange :=
  fun _ => hunter.mkExchange false (hunter.Response 200 kill_body).

(** ** A broker just started on an empty disk *)

Definition empty_fs : FS := mkFS ∅ ∅ 0 0.

Definition started : pipeline.Pipeline := sample_pipeline 4096.

Definition started_fs : FS :=
  mkFS (fs_names (two_files [] [])) (fs_inodes (two_files [] [])) 2 4.

Definition started_world : pipeline.World := pipeline.mkWorld started_fs 0 sample_procs.

Lemma started_ok : pipeline.New all_good sample_config empty_fs = (Ok started, started_fs).
Proof. vm_compute. reflexivity. Qed.

(** Booted in November 2023. *)
Definition sample_boot : Z := 1700000000000000000.
