(* ===== verification/Dashboard.v ===== *)
(** * The dashboard's verdict stream ([scripts/dashboard.py])

    The dashboard reads the broker's log as text and finds the verdicts in
    it with a regular expression.  Python's [re] is modelled for the
    constructs the expression uses, with greedy repetition and
    backtracking; text is a list of code points.  Which code points beyond
    ASCII are decimal digits is Unicode's matter: a parameter.  What [rich]
    draws from the rows is not modelled. *)
From Stdlib Require Import ZArith Lia Floats.SpecFloat.
From Stdlib Require Import Strings.Byte Strings.String.
From stdpp Require Import base list.
From S2P Require Import Prelude GoStrings GoTime Json JsonFacts Events Wire GoIO AppendLog Hunter GoLog Samples.
#[local] Open Scope Z_scope.

Module dashboard.
Import golog.

(** ** Text *)

Abbreviation text := (list Z).

(** A literal of the source. *)
Definition chars (s : string) : text := byte_val <$> bs s.

(** The second byte a lead byte of three or four can have. *)
Definition starts_3 (c d : byte) : bool :=
  json.between 224 224 c && json.between 160 191 d ||
  (json.between 225 236 c || json.between 238 239 c) && json.cont d ||
  json.between 237 237 c && json.between 128 159 d.
Definition starts_4 (c d : byte) : bool :=
  json.between 240 240 c && json.between 144 191 d || json.between 241 243 c && json.cont d ||
  json.between 244 244 c && json.between 128 143 d.

(** UTF-8 with [errors="replace"]: the longest beginning of a character
    that does not go on becomes one U+FFFD. *)
Fixpoint decode_replace (s : list byte) : text :=
  match s with
  | [] => []
  | c :: s1 =>
      if json.ascii c then rune_value [c] :: decode_replace s1
      else
        match s1 with
        | d :: s2 =>
            if json.utf8_2 c d then rune_value [c; d] :: decode_replace s2
            else
              match s2 with
              | e :: s3 =>
                  if json.utf8_3 c d e then rune_value [c; d; e] :: decode_replace s3
                  else
                    match s3 with
                    | f :: s4 =>
                        if json.utf8_4 c d e f then rune_value [c; d; e; f] :: decode_replace s4
                        else if starts_4 c d && json.cont e then 65533 :: decode_replace s3
                        else if starts_3 c d || starts_4 c d then 65533 :: decode_replace s2
                        else 65533 :: decode_replace s1
                    | [] =>
                        if starts_4 c d && json.cont e then [65533]
                        else if starts_3 c d || starts_4 c d then 65533 :: decode_replace s2
                        else 65533 :: decode_replace s1
                    end
              | [] =>
                  if starts_3 c d || starts_4 c d then [65533] else 65533 :: decode_replace s1
              end
        | [] => [65533]
        end
  end.

(** Text mode: CR and CR LF become LF. *)
Fixpoint translate_newlines (s : text) : text :=
  match s with
  | [] => []
  | c :: s1 =>
      if c =? 13 then
        match s1 with
        | d :: s2 => if d =? 10 then 10 :: translate_newlines s2 else 10 :: translate_newlines s1
        | [] => [10]
        end
      else c :: translate_newlines s1
  end.

(** [readlines]: every line with its LF, the last perhaps without. *)
Fixpoint split_lines (acc s : text) : list text :=
  match s with
  | [] => match acc with [] => [] | _ => [acc] end
  | c :: s' => if c =? 10 then (acc ++ [c]) :: split_lines [] s' else split_lines (acc ++ [c]) s'
  end.

Definition readlines (data : list byte) : list text := split_lines [] (translate_newlines (decode_replace data)).

(** ** [re] *)

(** A character, or [min] or more characters of a class, as many as
    possible, perhaps captured. *)
Inductive item : Type :=
  | Lit (c : Z)
  | Span (P : Z -> bool) (min : nat) (group : bool).

(** How many characters of a class come first. *)
Fixpoint run_length (P : Z -> bool) (s : text) : nat :=
  match s with
  | c :: s' => if P c then S (run_length P s') else O
  | [] => O
  end.

(** The first success of [f] from [k] down to [min]. *)
Fixpoint backtrack {A} (f : nat -> option A) (k min : nat) : option A :=
  if (k <? min)%nat then None
  else
    match f k with
    | Some a => Some a
    | None => match k with O => None | S k' => backtrack f k' min end
    end.

(** A match at the beginning of [s]: the captured groups. *)
Fixpoint match_at (its : list item) (s : text) : option (list text) :=
  match its with
  | [] => Some []
  | Lit c :: its' =>
      match s with
      | x :: s' => if x =? c then match_at its' s' else None
      | [] => None
      end
  | Span P min group :: its' =>
      backtrack (fun k => gs ← match_at its' (drop k s); Some (if group then take k s :: gs else gs))
        (run_length P s) min
  end.

(** [re.search]: the leftmost match. *)
Fixpoint search (its : list item) (s : text) : option (list text) :=
  match match_at its s with
  | Some gs => Some gs
  | None => match s with _ :: s' => search its s' | [] => None end
  end.

(** [str.isspace] *)
Definition is_space (c : Z) : bool :=
  (9 <=? c) && (c <=? 13) || (28 <=? c) && (c <=? 32) || (c =? 133) || (c =? 160) || (c =? 5760) ||
  (8192 <=? c) && (c <=? 8202) || (c =? 8232) || (c =? 8233) || (c =? 8239) || (c =? 8287) || (c =? 12288).

Definition lits (s : string) : list item := Lit <$> chars s.

(** ** [VERDICT_RE] and [verdict_rows] *)

Section dashboard.
Context (digit_beyond_ascii : Z -> bool).

Definition is_digit (c : Z) : bool := if c <? 128 then (48 <=? c) && (c <=? 57) else digit_beyond_ascii c.
Definition not_quote (c : Z) : bool := negb (c =? 34).
Definition not_space (c : Z) : bool := negb (is_space c).
Definition digit_or_dot (c : Z) : bool := is_digit c || (c =? 46).

Definition spaces : item := Span is_space 1 false.
Definition quoted_group : list item := [Lit 34; Span not_quote 0 true; Lit 34].

Definition verdict_tail : list item :=
  spaces :: lits "severity=" ++ Span not_space 1 true ::
  spaces :: lits "action=" ++ Span not_space 1 true ::
  spaces :: lits "technique=" ++ Span not_space 1 true ::
  spaces :: lits "confidence=" ++ [Span digit_or_dot 1 true].

Definition VERDICT_RE : list item :=
  lits "verdict" ++ spaces :: lits "pid=" ++ Span is_digit 1 true ::
  spaces :: lits "comm=" ++ quoted_group ++
  spaces :: lits "cmd=" ++ quoted_group ++ verdict_tail.

Definition MAX_ROWS : nat := 24.

(** [found[-MAX_ROWS:]] *)
Definition last_rows {A} (l : list A) : list A := drop (length l - MAX_ROWS) l.

(** The log's content, or [None] if it cannot be opened. *)
Definition verdict_rows (log : option (list byte)) : list (list text) :=
  match log with
  | None => []
  | Some data => last_rows (omap (search VERDICT_RE) (readlines data))
  end.

End dashboard.

End dashboard.
