(* ===== verification/DashboardFacts.v ===== *)
(** * From the broker's log to the dashboard

    What the dashboard shows is what the broker logged, for command lines
    without a double quote; and with one, what the process chose. *)
From Stdlib Require Import ZArith Lia Floats.SpecFloat.
From Stdlib Require Import Strings.Byte Strings.String.
From stdpp Require Import base list.
From S2P Require Import Prelude GoStrings GoTime Json JsonFacts Events Wire GoIO AppendLog EventJson Hunter.
From S2P Require Import VerdictJson Samples GoLog Dashboard.
Import golog dashboard.
#[local] Open Scope Z_scope.

(** ** Decoding *)

(** A text that a decoder takes by itself, whatever follows. *)
Definition whole (b : list byte) : Prop := forall t, decode_replace (b ++ t) = decode_replace b ++ decode_replace t.

Lemma decode_rune r t : rune r -> decode_replace (r ++ t) = rune_value r :: decode_replace t.
Proof.
  intros [c H|c d H|c d e H|c d e f H]; cbn [app decode_replace].
  - by rewrite H.
  - rewrite not_ascii by lead_bytes. by rewrite H.
  - rewrite not_ascii by lead_bytes. rewrite not_utf8_2 by lead_bytes. by rewrite H.
  - rewrite not_ascii by lead_bytes. rewrite not_utf8_2 by lead_bytes.
    rewrite not_utf8_3 by lead_bytes. by rewrite H.
Qed.

Lemma whole_nil : whole [].
Proof. by intros t. Qed.

Lemma whole_app b c : whole b -> whole c -> whole (b ++ c).
Proof. intros Hb Hc t. by rewrite <- app_assoc, !Hb, Hc, app_assoc. Qed.

Lemma whole_rune r : rune r -> whole r.
Proof.
  intros Hr t. pose proof (decode_rune r [] Hr) as E. rewrite app_nil_r in E. by rewrite decode_rune, E.
Qed.

Lemma whole_ascii b : Forall (fun c => json.ascii c = true) b -> whole b /\ decode_replace b = byte_val <$> b.
Proof.
  induction 1 as [|c b Hc _ [IHw IHd]]; [by split; [apply whole_nil|]|].
  change (c :: b) with ([c] ++ b). split.
  - apply whole_app; [|exact IHw]. apply whole_rune. by constructor.
  - rewrite decode_rune, IHd by by constructor. done.
Qed.

Lemma decode_ascii b t : Forall (fun c => json.ascii c = true) b ->
  decode_replace (b ++ t) = (byte_val <$> b) ++ decode_replace t.
Proof. intros Hb. destruct (whole_ascii b Hb) as [Hw <-]. apply Hw. Qed.

(** ** Code points of quoted text *)

Lemma rune_value_long r : rune r -> (2 <= length r)%nat -> 128 <= rune_value r.
Proof.
  intros [c H|c d H|c d e H|c d e f H]; cbn [length]; intros Hl; [lia|..]; unfold rune_value; cbn [fmap list_fmap].
  - unfold json.utf8_2, json.cont in H. rewrite andb_true_iff, !between_spec in H. lia.
  - unfold json.utf8_3, json.cont in H.
    rewrite !andb_true_iff, !orb_true_iff, !andb_true_iff, !orb_true_iff, !between_spec in H. lia.
  - unfold json.utf8_4, json.cont in H.
    rewrite !andb_true_iff, !orb_true_iff, !andb_true_iff, !between_spec in H. lia.
Qed.

Lemma rune_short r : rune r -> rune_value r < 128 -> exists c, r = [c] /\ json.ascii c = true /\ rune_value r = byte_val c.
Proof.
  intros Hr Hv. destruct (decide (2 <= length r)%nat) as [Hl|Hl].
  { pose proof (rune_value_long r Hr Hl). lia. }
  destruct Hr as [c Hc| | |]; cbn [length] in Hl; try lia. by exists c.
Qed.

(** Printable ASCII without the double quote. *)
Definition clean (c : byte) : Prop := 32 <= byte_val c <= 126 /\ byte_val c <> 34.

(** What the dashboard's expression takes for the inside of a string. *)
Definition inside (v : Z) : Prop := 32 <= v /\ v <> 34.

Lemma clean_ascii b : Forall clean b -> Forall (fun c => json.ascii c = true) b.
Proof. intros Hb. eapply Forall_impl; [exact Hb|]. intros c [Hc _]. apply ascii_lead. lia. Qed.

Lemma clean_inside b : Forall clean b -> Forall inside (byte_val <$> b).
Proof. intros Hb. apply Forall_fmap. eapply Forall_impl; [exact Hb|]. intros c [Hc Hn]. split; [lia|done]. Qed.

Lemma hex_digit_clean d : 0 <= d < 16 -> clean (json.hex_digit d).
Proof.
  intros Hd. unfold json.hex_digit, clean. destruct (Z.ltb_spec d 10); rewrite byte_val_of, Z.mod_small; lia.
Qed.

Lemma hex_clean w v : Forall clean (hex w v).
Proof.
  induction w as [|w IH]; cbn [hex]; constructor; [|done]. apply hex_digit_clean, Z.mod_pos_bound. lia.
Qed.

Lemma bs_clean s : forallb (fun c => json.between 32 126 c && negb (byte_val c =? 34)) (bs s) = true -> Forall clean (bs s).
Proof.
  intros H. apply Forall_forall. intros c Hc%list_elem_of_In. rewrite forallb_forall in H. specialize (H c Hc).
  apply andb_true_iff in H as [H1%between_spec H2%negb_true_iff%Z.eqb_neq]. by split.
Qed.

Ltac literal := apply bs_clean; reflexivity.

Lemma escape_code_clean v : Forall clean (escape_code v).
Proof.
  unfold escape_code.
  repeat (match goal with |- Forall _ (if ?b then _ else _) => destruct b end; [literal|]).
  destruct (_ || _); [|destruct (_ <? _)]; apply Forall_app; (split; [literal|apply hex_clean]).
Qed.

Section facts.
Context (print_beyond_ascii digit_beyond_ascii : Z -> bool).
#[local] Abbreviation quote_rune := (golog.quote_rune print_beyond_ascii).
#[local] Abbreviation quote_body := (golog.quote_body print_beyond_ascii).

(** Every code point of a quoted string is printable, and the double quote
    occurs only if it did before. *)
Definition kept (s : gostring) (v : Z) : Prop := 32 <= v /\ (x22 ∉ s -> v <> 34).

Lemma clean_kept s b : Forall clean b -> whole b /\ Forall (kept s) (decode_replace b).
Proof.
  intros Hb. destruct (whole_ascii b (clean_ascii b Hb)) as [Hw ->]. split; [done|].
  eapply Forall_impl; [by apply clean_inside|]. by intros v [H1 H2].
Qed.

Lemma quote_rune_kept r : rune r -> whole (quote_rune r) /\ Forall (kept r) (decode_replace (quote_rune r)).
Proof.
  intros Hr. unfold golog.quote_rune. destruct (_ || _) eqn:E.
  - apply orb_true_iff in E. rewrite !Z.eqb_eq in E.
    destruct (rune_short r Hr) as (c & -> & Hc & Ev); [lia|].
    destruct (whole_ascii [json.backslash; c]) as [Hw ->]; [by repeat constructor|]. split; [done|].
    assert (x22 ∉ [c] -> byte_val c <> 34) as Hn.
    { intros Hn E34. apply Hn. assert (c = x22) as -> by by destruct c. by left. }
    constructor; [by split|]. constructor; [|constructor]. split; [lia|exact Hn].
  - apply orb_false_iff in E. rewrite !Z.eqb_neq in E. destruct E as [E34 E92].
    unfold IsPrint. destruct (Z.ltb_spec (rune_value r) 128) as [Hv|Hv].
    + destruct (rune_short r Hr Hv) as (c & -> & Hc & Ev). destruct (_ && _) eqn:Ep; [|apply clean_kept, escape_code_clean].
      apply andb_true_iff in Ep. rewrite !Z.leb_le in Ep. apply clean_kept. repeat constructor; lia.
    + destruct (print_beyond_ascii (rune_value r)); [|apply clean_kept, escape_code_clean].
      split; [by apply whole_rune|]. pose proof (decode_rune r [] Hr) as Ed. rewrite app_nil_r in Ed.
      rewrite Ed. constructor; [split; lia|constructor].
Qed.

Lemma quote_stray_clean c : Forall clean (quote_stray c).
Proof. apply Forall_app. split; [literal|apply hex_clean]. Qed.

Lemma kept_weaken r s l : (x22 ∉ s -> x22 ∉ r) -> Forall (kept r) l -> Forall (kept s) l.
Proof. intros Hs Hl. eapply Forall_impl; [exact Hl|]. intros v [H1 H2]. split; auto. Qed.

Lemma quote_body_kept s : whole (quote_body s) /\ Forall (kept s) (decode_replace (quote_body s)).
Proof.
  induction s as [|r s Hr [IHw IHi]|c s Hc [IHw IHi]] using segments_ind.
  - split; [apply whole_nil|constructor].
  - rewrite quote_body_rune by done. destruct (quote_rune_kept r Hr) as [Hw Hi].
    split; [by apply whole_app|]. rewrite Hw.
    apply Forall_app; split; (eapply kept_weaken; [|done]); rewrite not_elem_of_app; tauto.
  - rewrite quote_body_stray by done. destruct (clean_kept (c :: s) _ (quote_stray_clean c)) as [Hw Hi].
    split; [by apply whole_app|]. rewrite Hw.
    apply Forall_app; split; [done|]. eapply kept_weaken; [|done]. rewrite not_elem_of_cons. tauto.
Qed.

(** ** The matcher *)

Lemma match_lits s its t : match_at (lits s ++ its) (chars s ++ t) = match_at its t.
Proof. unfold lits. induction (chars s) as [|c l IH]; [done|]. cbn. by rewrite Z.eqb_refl. Qed.

Lemma match_lit c its t : match_at (Lit c :: its) (c :: t) = match_at its t.
Proof. cbn. by rewrite Z.eqb_refl. Qed.

Definition stops (P : Z -> bool) (t : text) : Prop := match t with c :: _ => P c = false | [] => True end.

Lemma run_length_app P x t : Forall (fun c => P c = true) x -> stops P t -> run_length P (x ++ t) = length x.
Proof.
  intros Hx Ht. induction Hx as [|c x Hc _ IH]; cbn [app run_length length]; [|by rewrite Hc, IH].
  destruct t as [|c t]; [done|]. cbn. by rewrite Ht.
Qed.

(** A class takes all it can, and the rest matches. *)
Lemma match_span P min group its x t gs :
  Forall (fun c => P c = true) x -> stops P t -> (min <= length x)%nat -> match_at its t = Some gs ->
  match_at (Span P min group :: its) (x ++ t) = Some (if group then x :: gs else gs).
Proof.
  intros Hx Ht Hl Hm. cbn [match_at]. rewrite run_length_app by done.
  assert (match_at its (drop (length x) (x ++ t)) = Some gs) as E by by rewrite drop_app_length.
  destruct (length x) as [|n] eqn:En; cbn [backtrack]; (destruct (Nat.ltb_spec (length x) min); [lia|]);
    rewrite <- En in *; (destruct (Nat.ltb_spec (length x) min); [lia|]); rewrite E; cbn [mbind option_bind];
    by rewrite take_app_length.
Qed.

Lemma search_skip its c h t :
  (exists its', its = Lit c :: its') -> Forall (fun x => x <> c) h -> search its (h ++ t) = search its t.
Proof.
  intros [its' ->] Hh. induction Hh as [|x h Hx _ IH]; [done|]. cbn [app search].
  assert (match_at (Lit c :: its') (x :: h ++ t) = None) as ->; [|exact IH].
  cbn. destruct (Z.eqb_spec x c); [done|]. done.
Qed.

Lemma search_here its s gs : match_at its s = Some gs -> search its s = Some gs.
Proof. intros E. destruct s; cbn [search]; by rewrite E. Qed.
(** ** The fields *)

(** A word of printable ASCII. *)
Definition word (s : gostring) : Prop := s <> [] /\ Forall (fun c => 33 <= byte_val c <= 126) s.

Definition number (s : gostring) : Prop :=
  s <> [] /\ Forall (fun c => 48 <= byte_val c <= 57 \/ byte_val c = 46) s.

Lemma chars_app a b : byte_val <$> (a ++ b) = (byte_val <$> a) ++ (byte_val <$> b).
Proof. apply fmap_app. Qed.

Lemma printable_not_space v : 33 <= v <= 126 -> is_space v = false.
Proof.
  intros Hv. unfold is_space. rewrite !orb_false_iff, !andb_false_iff, !Z.eqb_neq, !Z.leb_gt. lia.
Qed.

Lemma word_span s : word s -> Forall (fun v => not_space v = true) (byte_val <$> s) /\ (1 <= length (byte_val <$> s))%nat.
Proof.
  intros [Hne Hs]. split; [|destruct s; [done|cbn; lia]]. apply Forall_fmap.
  eapply Forall_impl; [exact Hs|]. intros c Hc. unfold not_space, compose. by rewrite printable_not_space.
Qed.

#[local] Abbreviation digit_or_dot := (dashboard.digit_or_dot digit_beyond_ascii).

Lemma number_span s : number s -> Forall (fun v => digit_or_dot v = true) (byte_val <$> s) /\ (1 <= length (byte_val <$> s))%nat.
Proof.
  intros [Hne Hs]. split; [|destruct s; [done|cbn; lia]]. apply Forall_fmap.
  eapply Forall_impl; [exact Hs|]. intros c Hc. cbn beta in Hc. unfold dashboard.digit_or_dot, is_digit, compose.
  apply orb_true_iff. rewrite Z.eqb_eq. destruct (Z.ltb_spec (byte_val c) 128); [|lia].
  rewrite andb_true_iff, !Z.leb_le. lia.
Qed.

(** A space, a name and a captured value. *)
Lemma match_field name P its x t gs :
  stops is_space (chars name) -> chars name <> [] ->
  Forall (fun c => P c = true) x -> (1 <= length x)%nat -> stops P t -> match_at its t = Some gs ->
  match_at (spaces :: lits name ++ Span P 1 true :: its) (32 :: chars name ++ x ++ t) = Some (x :: gs).
Proof.
  intros Hn Hne Hx Hl Ht Hm. apply (match_span is_space 1 false _ [32]); [by repeat constructor| |done|].
  - destruct (chars name); [done|exact Hn].
  - rewrite match_lits. by apply (match_span P 1 true).
Qed.

Lemma match_quoted its x t gs :
  Forall (fun v => v <> 34) x -> match_at its t = Some gs ->
  match_at (quoted_group ++ its) (34 :: x ++ 34 :: t) = Some (x :: gs).
Proof.
  intros Hx Hm. unfold quoted_group. cbn [app]. rewrite match_lit.
  apply (match_span not_quote 0 true); [|done|lia|by rewrite match_lit].
  eapply Forall_impl; [exact Hx|]. intros v Hv. unfold not_quote. by rewrite (proj2 (Z.eqb_neq _ _) Hv).
Qed.

(** What the broker writes after the command line, as text. *)
Definition tail_text (sev act tech conf : gostring) : text :=
  32 :: chars "severity=" ++ (byte_val <$> sev) ++ 32 :: chars "action=" ++ (byte_val <$> act) ++
  32 :: chars "technique=" ++ (byte_val <$> tech) ++ 32 :: chars "confidence=" ++ (byte_val <$> conf).

Lemma match_tail sev act tech conf t :
  word sev -> word act -> word tech -> number conf -> stops digit_or_dot t ->
  match_at (verdict_tail digit_beyond_ascii) (tail_text sev act tech conf ++ t) =
    Some [byte_val <$> sev; byte_val <$> act; byte_val <$> tech; byte_val <$> conf].
Proof.
  intros [Hs Hs1]%word_span [Ha Ha1]%word_span [Ht Ht1]%word_span [Hc Hc1]%number_span Hst.
  unfold tail_text, verdict_tail. repeat first [rewrite <- app_comm_cons | rewrite <- app_assoc].
  by do 4 (apply match_field; try done).
Qed.

(** ** The whole line *)

(** The row for a verdict: the process's strings as [%q] shows them. *)
Definition shown (s : gostring) : text := decode_replace (quote_body s).

Definition row (ev : events.Event) (v : hunter.Verdict) : list text :=
  [byte_val <$> decimal (events.PID ev); shown (events.Comm ev); shown (events.CommandLine ev);
   byte_val <$> hunter.Severity v; byte_val <$> hunter.Action v; byte_val <$> hunter.MitreTechnique v;
   byte_val <$> fixed2 (hunter.Confidence v)].

Lemma match_string name its x t gs :
  stops is_space (chars name) -> chars name <> [] -> Forall (fun v => v <> 34) x -> match_at its t = Some gs ->
  match_at (spaces :: lits name ++ quoted_group ++ its) (32 :: chars name ++ 34 :: x ++ 34 :: t) = Some (x :: gs).
Proof.
  intros Hn Hne Hx Hm. apply (match_span is_space 1 false _ [32]); [by repeat constructor| |done|].
  - destruct (chars name); [done|exact Hn].
  - rewrite match_lits. by apply match_quoted.
Qed.

Lemma decimal_span z :
  Forall (fun v => is_digit digit_beyond_ascii v = true) (byte_val <$> decimal z) /\
  (1 <= length (byte_val <$> decimal z))%nat.
Proof.
  split.
  - apply Forall_fmap. eapply Forall_impl; [apply decimal_digits|]. intros c Hc%between_spec.
    unfold compose, is_digit. destruct (Z.ltb_spec (byte_val c) 128); [|lia]. rewrite andb_true_iff, !Z.leb_le. lia.
  - rewrite length_fmap. unfold decimal. rewrite length_digits. destruct (width_pos z) as [n ->]. lia.
Qed.

Lemma match_head ev cmd t gs :
  Forall (fun v => v <> 34) (shown (events.Comm ev)) -> Forall (fun v => v <> 34) cmd ->
  match_at (verdict_tail digit_beyond_ascii) t = Some gs ->
  match_at (VERDICT_RE digit_beyond_ascii)
    (chars "verdict" ++ 32 :: chars "pid=" ++ (byte_val <$> decimal (events.PID ev)) ++
     32 :: chars "comm=" ++ 34 :: shown (events.Comm ev) ++ 34 ::
     32 :: chars "cmd=" ++ 34 :: cmd ++ 34 :: t) =
    Some ((byte_val <$> decimal (events.PID ev)) :: shown (events.Comm ev) :: cmd :: gs).
Proof.
  intros Hc Hm Ht. unfold VERDICT_RE. rewrite match_lits. destruct (decimal_span (events.PID ev)).
  apply match_field; try done. apply match_string; try done. by apply match_string.
Qed.

(** ** The line as text *)

Lemma header_ascii t : Forall (fun c => json.ascii c = true) (log_header t) /\
  Forall (fun v => v <> 118 /\ v <> 10 /\ v <> 13) (byte_val <$> log_header t).
Proof.
  assert (Forall (fun c => 32 <= byte_val c <= 58) (log_header t)) as Hh.
  { assert (forall w z, Forall (fun c => 32 <= byte_val c <= 58) (digits w z)) as Hd.
    { intros w z. apply Forall_forall. intros c Hc. destruct (digits_are_digits w z c Hc) as [d Hv].
      unfold digit_val in Hv. destruct (_ && _) eqn:E; [|done]. rewrite andb_true_iff, !Z.leb_le in E. lia. }
    unfold log_header. repeat (apply Forall_app; split); try apply Hd; (constructor; [by vm_compute|constructor]). }
  split; [|apply Forall_fmap]; (eapply Forall_impl; [exact Hh|]); intros c Hc; cbn beta in Hc; [apply ascii_lead|unfold compose; cbn]; lia.
Qed.

Lemma clean_word s : word s -> Forall (fun c => json.ascii c = true) s.
Proof. intros [_ Hs]. eapply Forall_impl; [exact Hs|]. intros c Hc. apply ascii_lead. cbn in Hc. lia. Qed.

Lemma clean_number s : number s -> Forall (fun c => json.ascii c = true) s.
Proof. intros [_ Hs]. eapply Forall_impl; [exact Hs|]. intros c Hc. apply ascii_lead. cbn in Hc. lia. Qed.

Lemma decimal_ascii z : Forall (fun c => json.ascii c = true) (decimal z).
Proof. eapply Forall_impl; [apply decimal_digits|]. intros c Hc%between_spec. apply ascii_lead. lia. Qed.

(** A verdict whose printed fields are words and a number. *)
Record printable_verdict (v : hunter.Verdict) : Prop := {
  pv_severity : word (hunter.Severity v);
  pv_action : word (hunter.Action v);
  pv_technique : word (hunter.MitreTechnique v);
  pv_confidence : number (fixed2 (hunter.Confidence v))
}.

Definition verdict_text (t : moment) (ev : events.Event) (v : hunter.Verdict) : text :=
  (byte_val <$> log_header t) ++ chars "verdict" ++ 32 :: chars "pid=" ++ (byte_val <$> decimal (events.PID ev)) ++
  32 :: chars "comm=" ++ 34 :: shown (events.Comm ev) ++ 34 ::
  32 :: chars "cmd=" ++ 34 :: shown (events.CommandLine ev) ++ 34 ::
  tail_text (hunter.Severity v) (hunter.Action v) (hunter.MitreTechnique v) (fixed2 (hunter.Confidence v)) ++ [10].

Lemma decode_Quote s t : decode_replace (Quote print_beyond_ascii s ++ t) = 34 :: shown s ++ 34 :: decode_replace t.
Proof.
  unfold Quote. rewrite <- app_comm_cons, <- app_assoc. change (json.quote :: ?x ++ ?y) with ([json.quote] ++ x ++ y).
  rewrite decode_ascii by by repeat constructor. rewrite (proj1 (quote_body_kept s)). unfold shown.
  by rewrite decode_ascii by by repeat constructor.
Qed.

Lemma decode_line t ev v r : printable_verdict v ->
  decode_replace (verdict_line print_beyond_ascii t ev v ++ r) = verdict_text t ev v ++ decode_replace r.
Proof.
  intros [Hs Ha Ht Hc]. unfold verdict_line, verdict_text, tail_text.
  repeat first [rewrite <- app_comm_cons | rewrite <- app_assoc].
  rewrite (decode_ascii (log_header t)) by apply header_ascii.
  repeat first [rewrite decode_Quote | rewrite decode_ascii by
    first [apply decimal_ascii | by apply clean_word | by apply clean_number | by repeat constructor]].
  reflexivity.
Qed.
(** ** Lines *)

Lemma shown_kept s : Forall (kept s) (shown s).
Proof. apply quote_body_kept. Qed.

Lemma shown_not_quote s : x22 ∉ s -> Forall (fun v => v <> 34) (shown s).
Proof. intros Hs. eapply Forall_impl; [apply shown_kept|]. intros v [_ Hv]. auto. Qed.

Definition no_break (v : Z) : Prop := v <> 10 /\ v <> 13.

Lemma kept_no_break s l : Forall (kept s) l -> Forall no_break l.
Proof. intros Hl. eapply Forall_impl; [exact Hl|]. intros v [Hv _]. split; lia. Qed.

Lemma word_no_break s : word s -> Forall no_break (byte_val <$> s).
Proof.
  intros [_ Hs]. apply Forall_fmap. eapply Forall_impl; [exact Hs|]. intros c Hc. cbn in Hc. unfold no_break, compose. lia.
Qed.

Lemma number_no_break s : number s -> Forall no_break (byte_val <$> s).
Proof.
  intros [_ Hs]. apply Forall_fmap. eapply Forall_impl; [exact Hs|]. intros c Hc. cbn in Hc. unfold no_break, compose. lia.
Qed.

Lemma decimal_no_break z : Forall no_break (byte_val <$> decimal z).
Proof.
  apply Forall_fmap. eapply Forall_impl; [apply decimal_digits|]. intros c Hc%between_spec. unfold no_break, compose. lia.
Qed.

Lemma header_no_break t : Forall no_break (byte_val <$> log_header t).
Proof. eapply Forall_impl; [apply header_ascii|]. by intros v (_ & ? & ?). Qed.

Lemma verdict_text_line t ev v : printable_verdict v -> exists l, verdict_text t ev v = l ++ [10] /\ Forall no_break l.
Proof.
  intros [Hs Ha Ht Hc]. eexists. split.
  - unfold verdict_text. repeat first [rewrite app_comm_cons | rewrite app_assoc]. reflexivity.
  - unfold tail_text.
    repeat first [apply header_no_break | apply decimal_no_break | eapply kept_no_break, shown_kept |
      by apply word_no_break | by apply number_no_break | by split | by repeat constructor |
      apply Forall_app; split | apply Forall_cons; split].
Qed.

Lemma translate_no_cr s : Forall (fun v => v <> 13) s -> translate_newlines s = s.
Proof.
  induction 1 as [|c s Hc _ IH]; [done|]. cbn [translate_newlines]. by rewrite (proj2 (Z.eqb_neq _ _) Hc), IH.
Qed.

Lemma split_line acc l r : Forall no_break l -> split_lines acc (l ++ 10 :: r) = (acc ++ l ++ [10]) :: split_lines [] r.
Proof.
  intros Hl. revert acc. induction Hl as [|c l [Hc _] _ IH]; intros acc; cbn [app split_lines].
  - done.
  - rewrite (proj2 (Z.eqb_neq _ _) Hc), IH, <- app_assoc. done.
Qed.

Definition logged : Type := moment * events.Event * hunter.Verdict.

Definition line_of (x : logged) : gostring := verdict_line print_beyond_ascii x.1.1 x.1.2 x.2.
Definition text_of (x : logged) : text := verdict_text x.1.1 x.1.2 x.2.

(** A log of verdicts, read line by line. *)
Lemma readlines_log l :
  Forall (fun x => printable_verdict x.2) l -> readlines (concat (line_of <$> l)) = text_of <$> l.
Proof.
  intros Hl. unfold readlines.
  assert (decode_replace (concat (line_of <$> l)) = concat (text_of <$> l)) as ->.
  { induction Hl as [|x l Hx _ IH]; [done|]. rewrite !fmap_cons. cbn [concat].
    unfold line_of at 1. by rewrite decode_line, IH. }
  rewrite translate_no_cr.
  - induction Hl as [|x l Hx _ IH]; [done|]. rewrite !fmap_cons. cbn [concat].
    destruct (verdict_text_line x.1.1 x.1.2 x.2 Hx) as (b & E & Hb). unfold text_of at 1 3. rewrite E, <- app_assoc.
    cbn [app]. by rewrite split_line, IH.
  - induction Hl as [|x l Hx _ IH]; [constructor|]. rewrite fmap_cons. cbn [concat]. apply Forall_app. split; [|done].
    destruct (verdict_text_line x.1.1 x.1.2 x.2 Hx) as (b & E & Hb). unfold text_of. rewrite E.
    apply Forall_app. split; [|by repeat constructor]. eapply Forall_impl; [exact Hb|]. by intros v [_ ?].
Qed.

(** ** What a line shows *)

Lemma search_line t ev cmd r gs :
  x22 ∉ events.Comm ev -> Forall (fun v => v <> 34) cmd ->
  match_at (verdict_tail digit_beyond_ascii) r = Some gs ->
  search (VERDICT_RE digit_beyond_ascii)
    ((byte_val <$> log_header t) ++ chars "verdict" ++ 32 :: chars "pid=" ++ (byte_val <$> decimal (events.PID ev)) ++
     32 :: chars "comm=" ++ 34 :: shown (events.Comm ev) ++ 34 ::
     32 :: chars "cmd=" ++ 34 :: cmd ++ 34 :: r) =
    Some ((byte_val <$> decimal (events.PID ev)) :: shown (events.Comm ev) :: cmd :: gs).
Proof.
  intros Hc Hm Hr. rewrite (search_skip _ 118).
  - apply search_here, match_head; [by apply shown_not_quote|done|done].
  - by eexists.
  - eapply Forall_impl; [apply header_ascii|]. by intros x (? & _).
Qed.

Lemma search_verdict t ev v :
  printable_verdict v -> x22 ∉ events.Comm ev -> x22 ∉ events.CommandLine ev ->
  search (VERDICT_RE digit_beyond_ascii) (verdict_text t ev v) = Some (row ev v).
Proof.
  intros [Hs Ha Ht Hc] Hcomm Hcmd. unfold verdict_text. apply (search_line t ev); [done|by apply shown_not_quote|].
  apply match_tail; done.
Qed.

(** C21: the dashboard shows what the broker logged.  From a log of verdicts
    whose severity, action and technique are non-empty words of printable
    ASCII without spaces and whose confidence prints as a plain number, on
    events whose comm and command line contain no double quote, the
    dashboard reads exactly one row per verdict, in order, and shows the
    last 24: the pid, comm and command line as the broker quoted them, the
    severity, action, technique and confidence as printed. *)
Theorem dashboard_shows_the_log l :
  Forall (fun x => printable_verdict x.2 /\ (x22 ∉ events.Comm x.1.2) /\ (x22 ∉ events.CommandLine x.1.2)) l ->
  verdict_rows digit_beyond_ascii (Some (concat (line_of <$> l))) = last_rows (fmap (fun x => row x.1.2 x.2) l).
Proof.
  intros Hl. unfold verdict_rows. rewrite readlines_log by (eapply Forall_impl; [exact Hl|]; by intros x (? & _)).
  f_equal. induction Hl as [|[[t ev] v] l (Hv & Hc & Hm) _ IH]; [done|]. rewrite !fmap_cons. cbn [omap list_omap].
  unfold text_of at 1. rewrite search_verdict by done. by rewrite IH.
Qed.

(** ** What a process can make it show *)

(** Characters that [%q] leaves alone. *)
Definition plain (c : byte) : Prop := 32 <= byte_val c <= 126 /\ byte_val c <> 34 /\ byte_val c <> 92.

Lemma bs_plain s : forallb (fun c => json.between 32 126 c && negb (byte_val c =? 34) && negb (byte_val c =? 92)) s = true ->
  Forall plain s.
Proof.
  rewrite forallb_forall. intros H. apply Forall_forall. intros c Hc%list_elem_of_In%H.
  rewrite !andb_true_iff, between_spec, !negb_true_iff, !Z.eqb_neq in Hc. unfold plain. tauto.
Qed.

Lemma quote_body_plain a s : Forall plain a -> quote_body (a ++ s) = a ++ quote_body s.
Proof.
  induction 1 as [|c a (Hc & H34 & H92) _ IH]; [done|].
  assert (rune [c]) as Hr by (constructor; apply ascii_lead; lia).
  change ((c :: a) ++ s) with ([c] ++ (a ++ s)). rewrite quote_body_rune, IH by done.
  unfold golog.quote_rune, rune_value. cbn [fmap list_fmap].
  rewrite (proj2 (Z.eqb_neq _ _) H34), (proj2 (Z.eqb_neq _ _) H92). cbn [orb].
  unfold IsPrint. rewrite (proj2 (Z.ltb_lt _ _)), !(proj2 (Z.leb_le _ _)) by lia. done.
Qed.

Definition forged_tail (sev act tech conf : gostring) : gostring :=
  bs " severity=" ++ sev ++ bs " action=" ++ act ++ bs " technique=" ++ tech ++ bs " confidence=" ++ conf.

Lemma shown_forged a sev act tech conf :
  Forall plain a -> Forall plain sev -> Forall plain act -> Forall plain tech -> Forall plain conf ->
  shown (a ++ x22 :: forged_tail sev act tech conf) =
    (byte_val <$> a ++ [x5c]) ++ 34 :: tail_text sev act tech conf.
Proof.
  intros Ha Hs Hc Ht Hf. unfold shown. rewrite quote_body_plain by done.
  change (x22 :: ?t) with ([x22] ++ t). rewrite quote_body_rune by by constructor.
  assert (Forall plain (forged_tail sev act tech conf)) as Hp.
  { unfold forged_tail. repeat (apply Forall_app; split); first [done | by apply bs_plain]. }
  rewrite <- (app_nil_r (forged_tail _ _ _ _)), quote_body_plain by done. cbn [golog.quote_body]. rewrite app_nil_r.
  assert (forall b, Forall plain b -> Forall (fun c => json.ascii c = true) b) as Hasc.
  { intros b Hb. eapply Forall_impl; [exact Hb|]. intros c (? & _). apply ascii_lead. lia. }
  change (golog.quote_rune print_beyond_ascii [x22]) with [x5c; x22].
  assert (Forall (fun c => json.ascii c = true) (a ++ [x5c; x22] ++ forged_tail sev act tech conf)) as Hall.
  { apply Forall_app; split; [by apply Hasc|]. apply Forall_app; split; [by repeat constructor|by apply Hasc]. }
  rewrite (proj2 (whole_ascii _ Hall)). unfold forged_tail, tail_text. rewrite !fmap_app. cbn [fmap list_fmap app].
  rewrite <- app_assoc. done.
Qed.

(** C40: a process can choose what the dashboard shows of its own verdict.
    If its command line continues, after a double quote, with the fields of
    a verdict, the row for it has those, whatever the hunter decided: an
    action "kill" is shown as, say, "ignore". *)
Theorem verdict_can_be_forged t ev v a sev act tech conf :
  printable_verdict v -> x22 ∉ events.Comm ev ->
  events.CommandLine ev = a ++ x22 :: forged_tail sev act tech conf ->
  Forall plain a -> word sev -> word act -> word tech -> number conf ->
  Forall plain sev -> Forall plain act -> Forall plain tech ->
  verdict_rows digit_beyond_ascii (Some (verdict_line print_beyond_ascii t ev v)) =
    [[byte_val <$> decimal (events.PID ev); shown (events.Comm ev); byte_val <$> a ++ [x5c];
      byte_val <$> sev; byte_val <$> act; byte_val <$> tech; byte_val <$> conf]].
Proof.
  intros Hv Hc Hcmd Ha Hs Hact Ht Hconf Ps Pa Pt.
  assert (Forall plain conf) as Pc.
  { eapply Forall_impl; [apply Hconf|]. intros c Hx. cbn in Hx. unfold plain. lia. }
  pose proof (readlines_log [(t, ev, v)] (Forall_cons_2 _ (t, ev, v) [] Hv (Forall_nil_2 _))) as Hr. unfold line_of, text_of in Hr.
  cbn [fmap list_fmap concat fst snd] in Hr. rewrite app_nil_r in Hr. unfold verdict_rows. rewrite Hr. cbn [omap list_omap].
  unfold verdict_text. rewrite Hcmd, shown_forged by done. rewrite <- app_assoc. cbn [app].
  erewrite (search_line t ev); [done|done| |].
  - apply Forall_fmap. apply Forall_app. split; [|by repeat constructor].
    eapply Forall_impl; [exact Ha|]. by intros c (_ & ? & _).
  - by apply match_tail.
Qed.

End facts.
(** ** Examples *)

Definition wordb (s : gostring) : bool := negb (length s =? 0)%nat && forallb (json.between 33 126) s.
Definition numberb (s : gostring) : bool :=
  negb (length s =? 0)%nat && forallb (fun c => json.between 48 57 c || json.between 46 46 c) s.

Lemma word_bs s : wordb s = true -> word s.
Proof.
  intros [Hn H]%andb_true_iff. rewrite forallb_forall in H. split; [by destruct s|].
  apply Forall_forall. by intros c Hc%list_elem_of_In%H%between_spec.
Qed.

Lemma number_bs s : numberb s = true -> number s.
Proof.
  intros [Hn H]%andb_true_iff. rewrite forallb_forall in H. split; [by destruct s|].
  apply Forall_forall. intros c Hc%list_elem_of_In%H. rewrite orb_true_iff, !between_spec in Hc. lia.
Qed.

Lemma printable_sample v :
  wordb (hunter.Severity v) && wordb (hunter.Action v) && wordb (hunter.MitreTechnique v) &&
  numberb (fixed2 (hunter.Confidence v)) = true -> printable_verdict v.
Proof.
  rewrite !andb_true_iff. intros (((?%word_bs & ?%word_bs) & ?%word_bs) & ?%number_bs). by split.
Qed.

Definition kill_verdict : hunter.Verdict := default verdictjson.zero_verdict (verdictjson.decode_verdict kill_body).

Lemma kill_verdict_printable : printable_verdict kill_verdict.
Proof. apply printable_sample. by vm_compute. Qed.

Definition at_noon : moment := mkMoment 2024 7 1 12 0 0.

Example line_in_full :
  verdict_line (fun _ => true) at_noon sample_event kill_verdict =
    bs "2024/07/01 12:00:00 verdict pid=4242 comm=" ++ [x22] ++ bs "bash" ++ [x22] ++ bs " cmd=" ++ [x22] ++
    bs "/tmp/x /tmp/x -c" ++ [x22] ++
    bs " severity=critical action=kill technique=T1059.004 confidence=0.95" ++ [newline].
Proof. by vm_compute. Qed.

Lemma dashboard_shows_the_log_witness :
  verdict_rows (fun _ => false) (Some (verdict_line (fun _ => true) at_noon sample_event kill_verdict)) =
    [[chars "4242"; chars "bash"; chars "/tmp/x /tmp/x -c"; chars "critical"; chars "kill"; chars "T1059.004"; chars "0.95"]].
Proof.
  pose proof (dashboard_shows_the_log (fun _ => true) (fun _ => false) [(at_noon, sample_event, kill_verdict)]) as Hd.
  unfold line_of in Hd. cbn [fmap list_fmap concat fst snd] in Hd. rewrite app_nil_r in Hd. rewrite Hd; [by vm_compute|].
  constructor; [|constructor]. split; [apply kill_verdict_printable|]. split; by apply (bool_decide_unpack _); vm_compute.
Defined.

(** What the sensor sees of an [execve] of [/tmp/x] whose first argument
    ends in a double quote and whose others look like the fields of a
    verdict, and the event the record becomes. *)
Definition pad (n : nat) (s : gostring) : gostring := s ++ replicate (n - length s) x00.

Definition forging_args : list gostring :=
  [[x78; x22]; bs "severity=benign"; bs "action=ignore"; bs "technique=NONE"; bs "confidence=0.01"].

Definition forging_record : wire.ExecEvent :=
  wire.mkExecEvent 1800000000000 4242 4242 1000 1000 (pad 16 (bs "bash")) (pad 256 (bs "/tmp/x"))
    6 ((pad 32 <$> forging_args) ++ [replicate 32 x00]) ((fun a => Z.of_nat (length a)) <$> (forging_args ++ [[]])) 5 0.

Definition forging_event : events.Event :=
  match events.Decode 0 (wire.to_bytes forging_record) with Ok ev => ev | _ => sample_event end.

Lemma verdict_can_be_forged_witness :
  events.Decode 0 (wire.to_bytes forging_record) = Ok forging_event /\
  hunter.Action kill_verdict = hunter.ActionKill /\
  verdict_rows (fun _ => false) (Some (verdict_line (fun _ => true) at_noon forging_event kill_verdict)) =
    [[chars "4242"; chars "bash"; chars "/tmp/x x\"; chars "benign"; chars "ignore"; chars "NONE"; chars "0.01"]].
Proof.
  split; [by vm_compute|]. split; [by vm_compute|].
  rewrite (verdict_can_be_forged (fun _ => true) (fun _ => false) at_noon forging_event kill_verdict
    (bs "/tmp/x x") (bs "benign") (bs "ignore") (bs "NONE") (bs "0.01"));
    [by vm_compute|apply kill_verdict_printable|by apply (bool_decide_unpack _); vm_compute|by vm_compute|..].
  all: first [by apply bs_plain | by apply word_bs | by apply number_bs].
Defined.

(** A verdict without a severity, as the body of another server could decode
    to, is not shown. *)
Example empty_severity_hidden :
  verdict_rows (fun _ => false) (Some (verdict_line (fun _ => true) at_noon
    (events.mkEvent 0 4242 4242 0 0 (bs "bash") (bs "/bin/bash") [] 0 false (bs "/bin/bash"))
    (hunter.mkVerdict [] (bs "ignore") (bs "none") (bs "none") (hunter.Confidence kill_verdict) []))) = [].
Proof. by vm_compute. Qed.

(** And a verdict on an inline script that prints a quoted string is not
    shown at all. *)
Example quoted_command_hidden :
  verdict_rows (fun _ => false) (Some (verdict_line (fun _ => true) at_noon
    (events.mkEvent 0 4242 4242 0 0 (bs "python3") (bs "/usr/bin/python3") [] 0 false
      (bs "/usr/bin/python3 python3 -c print(" ++ [x22] ++ bs "hi" ++ [x22] ++ bs ")")) kill_verdict)) = [].
Proof. by vm_compute. Qed.
