(* ===== verification/AppendLogFacts.v ===== *)
(** * The append log's contract

    A log is [alive] while its file is open and nothing failed; then every
    [Append] adds exactly one line with one write, and [rotate] hands over
    exactly the lines written.  After a failed call it is [dead], for good:
    the error sticks in the writer or the file stays closed. *)
From Stdlib Require Import ZArith Lia.
From Stdlib Require Import Strings.Byte Strings.String.
From stdpp Require Import base list gmap.
From S2P Require Import Prelude GoStrings Events GoIO AppendLog EventJson Samples.
#[local] Open Scope Z_scope.

(** Every name leads to an inode that exists, and no two names share one. *)
Record fs_wf (fs : FS) : Prop := {
  wf_named : forall p i, fs_names fs !! p = Some i ->
    (i < fs_next fs)%nat /\ is_Some (fs_inodes fs !! i);
  wf_distinct : forall p q i, fs_names fs !! p = Some i -> fs_names fs !! q = Some i -> p = q
}.

Lemma contents_lookup fs p i : fs_names fs !! p = Some i -> contents fs p = fs_inodes fs !! i.
Proof. unfold contents. by intros ->. Qed.

Lemma contents_tick fs p : contents (tick fs) p = contents fs p.
Proof. done. Qed.

Lemma fs_wf_tick fs : fs_wf fs -> fs_wf (tick fs).
Proof. intros []. by constructor. Qed.

Lemma fs_wf_extend i b fs : fs_wf fs -> fs_wf (extend i b fs).
Proof.
  intros [Hn Hd]. constructor; [|done]. intros p j Hp. simpl in *.
  destruct (Hn p j Hp) as [? Hs]. split; [done|].
  rewrite lookup_alter. case_decide; subst; [|done].
  destruct Hs as [c ->]. by eexists.
Qed.

(** Writing through one name leaves the other files alone. *)
Lemma contents_extend fs p q i b :
  fs_wf fs -> fs_names fs !! p = Some i ->
  contents (extend i b fs) q =
    if decide (q = p) then (fun c => c ++ b) <$> contents fs p else contents fs q.
Proof.
  intros Hw Hp. unfold contents. simpl. case_decide as Hq.
  - subst. rewrite Hp. simpl. rewrite lookup_alter. by rewrite decide_True.
  - destruct (fs_names fs !! q) as [j|] eqn:Ej; [|done]. simpl.
    rewrite lookup_alter_ne; [done|]. intros ->. apply Hq. by eapply wf_distinct.
Qed.

(** The step from [fs] to [fs'] keeps the file system well formed and
    touches no file but those at [ps]. *)
Record frame (ps : list gostring) (fs fs' : FS) : Prop := {
  fr_names q : q ∉ ps -> fs_names fs' !! q = fs_names fs !! q;
  fr_wf : fs_wf fs -> fs_wf fs';
  fr_contents q : q ∉ ps -> contents fs' q = contents fs q;
  fr_calls : (fs_calls fs <= fs_calls fs')%nat
}.

Lemma frame_refl ps fs : frame ps fs fs.
Proof. by constructor. Qed.

Lemma frame_tick ps fs : frame ps fs (tick fs).
Proof. constructor; [done|apply fs_wf_tick|done|simpl; lia]. Qed.

Lemma frame_weaken ps qs fs fs' : ps ⊆ qs -> frame ps fs fs' -> frame qs fs fs'.
Proof.
  intros Hs [Hn Hw Hc Hk].
  constructor; [|done| |done]; intros q Hq; [apply Hn|apply Hc]; set_solver.
Qed.

Lemma frame_trans ps fs1 fs2 fs3 : frame ps fs1 fs2 -> frame ps fs2 fs3 -> frame ps fs1 fs3.
Proof.
  intros [N1 W1 C1 K1] [N2 W2 C2 K2].
  constructor; [|by auto| |lia]; intros q Hq; [by rewrite N2, N1|by rewrite C2, C1].
Qed.

Lemma frame_Remove faults path fs : frame [path] fs (Remove faults path fs).
Proof.
  unfold Remove. destruct (outcome faults fs); [|apply frame_tick]. constructor; simpl.
  - intros q Hq%not_elem_of_cons. rewrite lookup_delete_ne; [done|]. naive_solver.
  - intros [Hn Hd]. constructor; simpl.
    + intros p i. rewrite lookup_delete. case_decide; [done|]. apply Hn.
    + intros p q i. rewrite !lookup_delete. repeat case_decide; try done. apply Hd.
  - intros q Hq%not_elem_of_cons. unfold contents. simpl. rewrite lookup_delete_ne; [done|]. naive_solver.
  - simpl. lia.
Qed.

Section facts.
Context `{EventCodec} (faults : nat -> fault).

Definition line (ev : Event) : list byte := default [] (marshal ev) ++ [newline].

Definition lines (evs : list Event) : list byte := concat (line <$> evs).

Lemma lines_length evs : (length evs <= length (lines evs))%nat.
Proof.
  induction evs as [|ev evs IH]; [done|]. unfold lines, line in *.
  rewrite fmap_cons. cbn [concat]. rewrite !length_app. simpl. lia.
Qed.

Definition marshalable (ev : Event) : Prop := is_Some (marshal ev).

Lemma lines_snoc evs ev : lines (evs ++ [ev]) = lines evs ++ line ev.
Proof. unfold lines. rewrite fmap_app, concat_app. simpl. by rewrite app_nil_r. Qed.

(** The open log at its path, nothing buffered, [c] in the file. *)
Record alive (a : appendLog) (fs : FS) (c : list byte) : Prop := {
  alive_open : f_closed (al_f a) = false;
  alive_buf : al_w a = mkWriter [] None;
  alive_enc : al_enc a = None;
  alive_name : fs_names fs !! al_path a = Some (f_inode (al_f a));
  alive_contents : contents fs (al_path a) = Some c;
  alive_fs : fs_wf fs
}.

Definition dead (a : appendLog) : Prop := w_err (al_w a) <> None \/ f_closed (al_f a) = true.

(** ** The buffered writer *)

(** From an empty buffer, a short input is buffered and a long one is
    written through. *)
Lemma BufWrite_empty fuel f p fs :
  (1 <= fuel)%nat ->
  BufWrite faults fuel f p (mkWriter [] None) fs =
  if bool_decide (bufsize < length p)%nat then
    match Write faults f p fs with
    | ((_, None), fs') => (Ok tt, mkWriter [] None, fs')
    | ((_, Some e), fs') => (Err e, mkWriter [] (Some e), fs')
    end
  else (Ok tt, mkWriter p None, fs).
Proof.
  intros Hf. destruct fuel as [|fuel]; [lia|]. cbn [BufWrite w_buf w_err length].
  rewrite Nat.sub_0_r, (bool_decide_true (None = None)) by done.
  rewrite andb_true_r. case_bool_decide as Hp; [|by rewrite app_nil_l].
  rewrite bool_decide_true by done.
  unfold Write. destruct (f_closed f).
  { destruct fuel; cbn [BufWrite w_err]; by rewrite (bool_decide_false (Some _ = None)), andb_false_r by done. }
  destruct (outcome faults fs).
  - rewrite drop_ge by done. destruct fuel; cbn [BufWrite w_buf length];
      by rewrite bool_decide_false by (simpl; lia).
  - destruct fuel; cbn [BufWrite w_err]; by rewrite (bool_decide_false (Some _ = None)), andb_false_r by done.
Qed.

(** A [Write] to a file that is closed, or on a writer with an error,
    touches no file; the loop ends. *)
Lemma BufWrite_dead f p w fs :
  w_err w <> None \/ f_closed f = true -> p <> [] ->
  exists r w', BufWrite faults write_fuel f p w fs = (r, w', fs) /\ r <> Panic /\
    (w_err w' <> None \/ f_closed f = true) /\ (r = Ok tt -> w_buf w' <> []).
Proof.
  intros Hd Hp. destruct w as [buf [e|]]; cbn [w_err] in Hd.
  - exists (Err e), (mkWriter buf (Some e)). unfold write_fuel. cbn [BufWrite w_err w_buf].
    rewrite (bool_decide_false (Some e = None)), andb_false_r by done. split_and!; [done..|by left|done].
  - destruct Hd as [?|Hc]; [done|]. unfold write_fuel. cbn [BufWrite w_err w_buf].
    rewrite (bool_decide_true (None = None)), andb_true_r by done.
    case_bool_decide.
    + unfold Flush, Write. cbn [w_err w_buf]. rewrite Hc. case_bool_decide as Hb.
      * cbn [BufWrite w_err w_buf]. rewrite (bool_decide_false (Some _ = None)), andb_false_r by done.
        eexists _, _. split_and!; [done..|by right|done].
      * rewrite bool_decide_false by (destruct buf; done).
        cbn [BufWrite w_err w_buf]. rewrite (bool_decide_false (Some _ = None)), andb_false_r by done.
        eexists _, _. split_and!; [done..|by right|done].
    + eexists _, _. split_and!; [done..|by right|]. intros _. simpl. by destruct buf, p.
Qed.

(** ** Append *)

(** The bytes of one write, or of the part of it that reached the file. *)
Definition written (o : fault) (b : list byte) : list byte :=
  match o with
  | Good => b
  | Bad n => take (Nat.min n (length b - 1)) b
  end.

Lemma Write_open f b fs :
  f_closed f = false ->
  exists n e, Write faults f b fs =
    ((n, e), extend (f_inode f) (written (outcome faults fs) b) fs) /\
    e = match outcome faults fs with Good => None | Bad _ => Some ErrSys end.
Proof.
  intros Hf. unfold Write, written. rewrite Hf. destruct (outcome faults fs); eauto.
Qed.

(** Encoding and flushing one event on a log with nothing buffered is one
    write of its line. *)
Lemma Append_alive ev b a fs c :
  alive a fs c -> marshal ev = Some b ->
  let fs' := extend (f_inode (al_f a)) (written (outcome faults fs) (b ++ [newline])) fs in
  match outcome faults fs with
  | Good => Append faults ev a fs = (Ok tt, a, fs')
  | Bad _ => exists a', Append faults ev a fs = (Err ErrSys, a', fs') /\ dead a' /\
      al_path a' = al_path a /\ al_f a' = al_f a
  end.
Proof.
  intros Ha Hb. destruct a as [path f w enc], Ha as [Hf Hw He _ _ _]. simpl in Hf, Hw, He. subst w enc.
  destruct (Write_open f (b ++ [newline]) fs Hf) as (n & e & HW & He).
  unfold Append, Encode. cbn [al_enc]. rewrite Hb. cbn [al_f al_w].
  rewrite BufWrite_empty by (unfold write_fuel; lia).
  assert (b ++ [newline] <> []) as Hne by by destruct b.
  case_bool_decide as Hlen; [rewrite HW|]; destruct (outcome faults fs) eqn:Ho; subst e;
    unfold log_flush, Flush; cbn [al_f al_w w_err w_buf al_path al_enc];
    rewrite ?bool_decide_true by done; rewrite ?bool_decide_false by done; try rewrite HW; try done.
  - eexists. split_and!; [done| |done..]. by left.
  - eexists. split_and!; [done| |done..]. by left.
Qed.

Lemma alive_extend a fs c b :
  alive a fs c -> alive a (extend (f_inode (al_f a)) b fs) (c ++ b).
Proof.
  intros []. constructor; try done; [|by apply fs_wf_extend].
  by rewrite (contents_extend fs (al_path a)), decide_True, alive_contents0.
Qed.

(** What [Append] does to the log [a] with contents [c]: one line more, or
    nothing when the event cannot be marshalled, or a dead log with a
    proper prefix of the line in the file. *)
Inductive append_outcome (ev : Event) (a : appendLog) (fs : FS) (c : list byte)
    : go_result ioerr unit -> appendLog -> FS -> Prop :=
  | append_ok fs' : marshalable ev -> outcome faults fs = Good ->
      alive a fs' (c ++ line ev) ->
      append_outcome ev a fs c (Ok tt) a fs'
  | append_unmarshalable : ~ marshalable ev ->
      append_outcome ev a fs c (Err ErrMarshal) a fs
  | append_failed n k a' fs' : marshalable ev -> outcome faults fs = Bad n ->
      dead a' -> al_path a' = al_path a -> (k < length (line ev))%nat ->
      contents fs' (al_path a) = Some (c ++ take k (line ev)) -> fs_wf fs' ->
      append_outcome ev a fs c (Err ErrSys) a' fs'.

Lemma frame_extend a fs c x :
  alive a fs c -> frame [al_path a] fs (extend (f_inode (al_f a)) x fs).
Proof.
  intros []. constructor; [done|by intros; apply fs_wf_extend| |simpl; lia].
  intros q Hq%not_elem_of_cons. by rewrite (contents_extend fs (al_path a)), decide_False by (done || apply Hq).
Qed.

Lemma alive_frame ps a fs fs' c :
  frame ps fs fs' -> al_path a ∉ ps -> alive a fs c -> alive a fs' c.
Proof.
  intros [Hn Hw Hc _] Hp []. constructor; try done; [by rewrite Hn|by rewrite Hc|by apply Hw].
Qed.

Lemma Append_outcome ev a fs c :
  alive a fs c ->
  exists r a' fs', Append faults ev a fs = (r, a', fs') /\ append_outcome ev a fs c r a' fs' /\
    frame [al_path a] fs fs'.
Proof.
  intros Ha. destruct (marshal ev) as [b|] eqn:Hb.
  - pose proof (Append_alive ev b a fs c Ha Hb) as Hap.
    assert (line ev = b ++ [newline]) as Hl by (unfold line; by rewrite Hb).
    assert (marshalable ev) as Hm by (by exists b).
    pose proof (fun x => frame_extend a fs c x Ha) as Hoth.
    cbn zeta in Hap. destruct (outcome faults fs) as [|n] eqn:Ho.
    + eexists _, _, _. split; [done|]. split; [|by apply Hoth]. apply append_ok; [done..|].
      rewrite Hl. by apply alive_extend.
    + destruct Hap as (a' & Hap & Hd & Hp & Hf). eexists _, _, _. split; [done|].
      split; [|by apply Hoth].
      eapply (append_failed _ _ _ _ n (Nat.min n (length (line ev) - 1))); try done.
      * rewrite Hl, length_app. simpl. lia.
      * rewrite Hl. by apply (alive_extend a fs c).
      * by apply (alive_extend a fs c).
  - exists (Err ErrMarshal), a, fs.
    split; [|split; [apply append_unmarshalable|apply frame_refl]].
    + unfold Append, Encode. destruct Ha. by rewrite alive_enc0, Hb.
    + intros [? ?]. congruence.
Qed.

(** ** Dead logs *)

Lemma log_flush_dead a fs :
  dead a -> exists r a', log_flush faults a fs = (r, a', fs) /\ dead a' /\ r <> Panic /\
    al_path a' = al_path a /\ (r = Ok tt -> w_buf (al_w a) = [] /\ f_closed (al_f a) = true /\
      al_f a' = al_f a).
Proof.
  intros Hd. destruct a as [p f [buf [e|]] enc]; unfold log_flush, Flush; cbn [w_err w_buf al_w al_f].
  - eexists _, _. split; [done|]. split_and!; [by left|done..].
  - destruct Hd as [?|Hc]; [done|]. simpl in Hc. case_bool_decide as Hb.
    + eexists _, _. split; [done|]. split_and!; [by right|done..].
    + unfold Write. rewrite Hc. eexists _, _. split; [done|]. split_and!; [by right|done..].
Qed.

Lemma Append_dead ev a fs :
  dead a -> exists e a', Append faults ev a fs = (Err e, a', fs) /\ dead a' /\
    al_path a' = al_path a.
Proof.
  intros Hd. unfold Append, Encode.
  destruct (al_enc a) as [e|]; [by eauto|]. destruct (marshal ev) as [b|]; [|by eauto].
  destruct (BufWrite_dead (al_f a) (b ++ [newline]) (al_w a) fs Hd ltac:(by destruct b))
    as (r & w' & -> & Hr & Hd' & Hbuf).
  destruct r as [[]|e|]; [|by eauto 10|done].
  edestruct log_flush_dead as (r & a' & -> & Hda & Hr' & Hp & Hok); [exact Hd'|].
  destruct r as [[]|e|]; [|by eauto|done].
  destruct (Hok eq_refl) as (? & _). by destruct (Hbuf eq_refl).
Qed.

Lemma rotate_dead a fs :
  dead a -> exists e a', rotate faults a fs = (Err e, a', fs) /\ dead a' /\
    al_path a' = al_path a.
Proof.
  intros Hd. unfold rotate.
  destruct (log_flush_dead a fs Hd) as (r & a' & -> & Hda & Hr & Hp & Hok).
  destruct r as [[]|e|]; [|by eauto|done].
  destruct (Hok eq_refl) as (_ & Hc & Hf). unfold log_close, GoIO.Close. rewrite Hf, Hc.
  eexists _, _. split; [done|]. split; [by right|done].
Qed.

(** ** Rotation *)

Lemma replay_path_ne a : replay_path a <> al_path a.
Proof.
  unfold replay_path. intros E. apply (f_equal length) in E.
  rewrite length_app in E. simpl in E. lia.
Qed.

(** After the rename: the old file is under the new name only. *)
Lemma fs_wf_rename fs old new i calls :
  fs_wf fs -> fs_names fs !! old = Some i -> old <> new ->
  fs_wf (mkFS (<[new := i]> (delete old (fs_names fs))) (fs_inodes fs) (fs_next fs) calls).
Proof.
  intros [Hn Hd] Hi Hne. constructor; simpl.
  - intros p j. rewrite lookup_insert. case_decide as Hp.
    + intros [= <-]. by eapply Hn.
    + rewrite lookup_delete. case_decide; [done|]. apply Hn.
  - intros p q j. rewrite !lookup_insert, !lookup_delete.
    repeat case_decide; subst; try done; intros Hp Hq; simplify_eq; try done.
    + destruct (Hd old q j Hi Hq); done.
    + destruct (Hd old p j Hi Hp); done.
    + by eapply Hd.
Qed.

Lemma fs_wf_create fs p calls :
  fs_wf fs -> fs_names fs !! p = None ->
  fs_wf (mkFS (<[p := fs_next fs]> (fs_names fs)) (<[fs_next fs := []]> (fs_inodes fs))
    (S (fs_next fs)) calls).
Proof.
  intros [Hn Hd] Hp. constructor; simpl.
  - intros q j. rewrite lookup_insert. case_decide.
    + intros [= <-]. split; [lia|]. by rewrite lookup_insert_eq.
    + intros Hq. destruct (Hn q j Hq). split; [lia|]. by rewrite lookup_insert_ne by lia.
  - intros q r j. rewrite !lookup_insert. repeat case_decide; subst; try done; intros Hq Hr;
      simplify_eq; try done.
    + destruct (Hn r (fs_next fs) Hr); lia.
    + destruct (Hn q (fs_next fs) Hq); lia.
    + by eapply Hd.
Qed.

Inductive rotate_outcome (a : appendLog) (fs : FS) (c : list byte)
    : go_result ioerr gostring -> appendLog -> FS -> Prop :=
  | rotate_ok a' fs' :
      alive a' fs' [] -> al_path a' = al_path a ->
      contents fs' (replay_path a) = Some c ->
      (forall q, q <> al_path a -> q <> replay_path a -> contents fs' q = contents fs q) ->
      (forall k, (k < 3)%nat -> faults (fs_calls fs + k)%nat = Good) ->
      rotate_outcome a fs c (Ok (replay_path a)) a' fs'
  | rotate_failed a' fs' k n :
      dead a' -> al_path a' = al_path a ->
      (k < 3)%nat -> faults (fs_calls fs + k)%nat = Bad n ->
      (if bool_decide (k < 2)%nat then contents fs' (al_path a) = Some c
       else contents fs' (replay_path a) = Some c /\ contents fs' (al_path a) = None) ->
      rotate_outcome a fs c (Err ErrSys) a' fs'.

(** The file system after the rename and the reopening. *)
Definition rotated_fs (a : appendLog) (fs : FS) (calls : nat) : FS :=
  {| fs_names := <[al_path a := fs_next fs]>
       (<[replay_path a := f_inode (al_f a)]> (delete (al_path a) (fs_names fs)));
     fs_inodes := <[fs_next fs := []]> (fs_inodes fs);
     fs_next := S (fs_next fs); fs_calls := calls |}.

Lemma renamed_gone a fs :
  (<[replay_path a := f_inode (al_f a)]> (delete (al_path a) (fs_names fs)) : gmap gostring nat)
    !! al_path a = None.
Proof. rewrite lookup_insert_ne by apply replay_path_ne. apply lookup_delete_eq. Qed.

Lemma rotated_fs_spec a fs c calls :
  alive a fs c ->
  alive (mkLog (al_path a) (mkFile (fs_next fs) false) (mkWriter [] None) None)
    (rotated_fs a fs calls) [] /\
  contents (rotated_fs a fs calls) (replay_path a) = Some c /\
  (forall q, q <> al_path a -> q <> replay_path a ->
     contents (rotated_fs a fs calls) q = contents fs q).
Proof.
  intros [_ _ _ Hn Hc Hwf]. pose proof (replay_path_ne a) as Hne.
  destruct (wf_named _ Hwf _ _ Hn) as [Hlt _].
  assert (fs_inodes fs !! f_inode (al_f a) = Some c) as Hi by by rewrite <- (contents_lookup _ _ _ Hn).
  split_and!.
  - constructor; try done; cbn [al_path al_f f_inode].
    + simpl. by rewrite lookup_insert_eq.
    + unfold contents. simpl. by rewrite lookup_insert_eq; simpl; rewrite lookup_insert_eq.
    + exact (fs_wf_create (mkFS _ _ _ 0) _ calls
        (fs_wf_rename fs _ _ _ 0 Hwf Hn (not_eq_sym Hne)) (renamed_gone a fs)).
  - unfold contents. simpl. rewrite lookup_insert_ne, lookup_insert_eq by done.
    simpl. by rewrite lookup_insert_ne by lia.
  - intros q Hq Hq'. unfold contents. simpl.
    rewrite !lookup_insert_ne, lookup_delete_ne by done.
    destruct (fs_names fs !! q) as [j|] eqn:Ej; [|done]. simpl.
    rewrite lookup_insert_ne; [done|]. destruct (wf_named _ Hwf _ _ Ej). lia.
Qed.

(** [rotate] on a live log is a close, a rename and an open. *)
Lemma rotate_calls a fs c :
  alive a fs c ->
  let f' := mkFile (f_inode (al_f a)) true in
  let shut := mkLog (al_path a) f' (mkWriter [] None) None in
  rotate faults a fs =
  match faults (fs_calls fs) with
  | Bad _ => (Err ErrSys, shut, tick fs)
  | Good =>
      match faults (S (fs_calls fs)) with
      | Bad _ => (Err ErrSys, shut, tick (tick fs))
      | Good =>
          match faults (S (S (fs_calls fs))) with
          | Bad _ => (Err ErrSys, shut,
              mkFS (<[replay_path a := f_inode (al_f a)]> (delete (al_path a) (fs_names fs)))
                (fs_inodes fs) (fs_next fs) (S (S (S (fs_calls fs)))))
          | Good => (Ok (replay_path a),
              mkLog (al_path a) (mkFile (fs_next fs) false) (mkWriter [] None) None,
              rotated_fs a fs (S (S (S (fs_calls fs)))))
          end
      end
  end.
Proof.
  intros [Hf Hw He Hn Hc Hwf]. pose proof (renamed_gone a fs) as Hgone.
  destruct a as [path f w enc]. simpl in Hf, Hw, He, Hn, Hc. subst w enc.
  unfold rotate, log_flush, Flush. cbn [al_w w_err w_buf al_path al_f al_enc].
  rewrite bool_decide_true by done. cbn [al_w w_err w_buf al_path al_f al_enc].
  unfold log_close, GoIO.Close, outcome. cbn [al_f]. rewrite Hf.
  destruct (faults (fs_calls fs)); cbn [al_path al_w al_enc al_f]; [|done].
  unfold Rename, outcome. cbn [fs_calls tick fs_names].
  destruct (faults (S (fs_calls fs))); [|done].
  rewrite Hn. cbn [fs_names fs_inodes fs_next fs_calls].
  unfold replay_path in *. cbn [al_path al_f] in *.
  unfold OpenAppend, outcome. cbn [fs_calls fs_names fs_next fs_inodes].
  destruct (faults (S (S (fs_calls fs)))); [|done]. by rewrite Hgone.
Qed.

Lemma rotate_alive a fs c :
  alive a fs c ->
  exists r a' fs', rotate faults a fs = (r, a', fs') /\ rotate_outcome a fs c r a' fs'.
Proof.
  intros Ha. rewrite (rotate_calls a fs c Ha).
  destruct (faults (fs_calls fs)) as [|n] eqn:F0; cycle 1.
  { eexists _, _, _. split; [done|]. apply (rotate_failed _ _ _ _ _ 0 n); try done;
      [by right|lia|by rewrite Nat.add_0_r|apply Ha]. }
  destruct (faults (S (fs_calls fs))) as [|n] eqn:F1; cycle 1.
  { eexists _, _, _. split; [done|]. apply (rotate_failed _ _ _ _ _ 1 n); try done;
      [by right|lia|by rewrite Nat.add_1_r|apply Ha]. }
  destruct (faults (S (S (fs_calls fs)))) as [|n] eqn:F2; cycle 1.
  { eexists _, _, _. split; [done|]. apply (rotate_failed _ _ _ _ _ 2 n); try done;
      [by right|lia|by rewrite Nat.add_comm|].
    cbn [bool_decide]. unfold contents. simpl. rewrite renamed_gone, lookup_insert_eq. simpl.
    split; [|done]. rewrite <- (contents_lookup _ _ _ (alive_name a fs c Ha)). apply Ha. }
  destruct (rotated_fs_spec a fs c (S (S (S (fs_calls fs)))) Ha) as (? & ? & ?).
  eexists _, _, _. split; [done|]. apply rotate_ok; try done.
  intros k Hk. destruct k as [|[|[|k]]]; [..|lia];
    [by rewrite Nat.add_0_r|by rewrite Nat.add_1_r|by rewrite Nat.add_comm].
Qed.

Lemma frame_renamed a fs c calls :
  (fs_calls fs <= calls)%nat -> alive a fs c ->
  frame [al_path a; replay_path a] fs
    (mkFS (<[replay_path a := f_inode (al_f a)]> (delete (al_path a) (fs_names fs)))
       (fs_inodes fs) (fs_next fs) calls).
Proof.
  intros Hk Ha. pose proof (replay_path_ne a) as Hne.
  assert (forall q, q ∉ [al_path a; replay_path a] ->
    (<[replay_path a := f_inode (al_f a)]> (delete (al_path a) (fs_names fs)) : gmap gostring nat) !! q
      = fs_names fs !! q) as Hq.
  { intros q Hq. by rewrite lookup_insert_ne, lookup_delete_ne by set_solver. }
  constructor; [exact Hq| | |done].
  - intros Hw. apply fs_wf_rename; [done|apply (alive_name a fs c Ha)|by apply not_eq_sym].
  - intros q Hq'. unfold contents. simpl. by rewrite Hq.
Qed.

Lemma rotate_frame a fs c :
  alive a fs c -> frame [al_path a; replay_path a] fs (rotate faults a fs).2.
Proof.
  intros Ha. rewrite (rotate_calls a fs c Ha).
  destruct (faults (fs_calls fs)); [|apply frame_tick].
  destruct (faults (S (fs_calls fs))); [|eapply frame_trans; apply frame_tick].
  destruct (faults (S (S (fs_calls fs)))); [|by eapply frame_renamed; [lia|]].
  destruct (rotated_fs_spec a fs c (S (S (S (fs_calls fs)))) Ha) as ([] & _ & Hc).
  constructor; [|done| |simpl; lia]; intros q Hq; [|apply Hc; set_solver].
  simpl. by rewrite !lookup_insert_ne, lookup_delete_ne by set_solver.
Qed.

(** ** Creation *)

(** [newAppendLog] on a well-formed file system: a live log on the file's
    existing bytes, or on an empty file it creates. *)
Lemma newAppendLog_alive path fs a fs' :
  fs_wf fs -> newAppendLog faults path fs = (Ok a, fs') ->
  alive a fs' (default [] (contents fs path)) /\ al_path a = path /\ frame [path] fs fs'.
Proof.
  intros Hw. unfold newAppendLog.
  assert (exists r fs1, (if bool_decide (filepath.Dir path <> bs ".") then MkdirAll faults fs
    else (Ok tt, fs)) = (r, fs1) /\ (fs1 = fs \/ fs1 = tick fs)) as (r & fs1 & -> & Hfs1).
  { case_bool_decide; [|by eauto]. unfold MkdirAll. destruct (outcome faults fs); eauto. }
  assert (fs_wf fs1 /\ fs_names fs1 = fs_names fs /\ fs_inodes fs1 = fs_inodes fs) as (Hw1 & En & Ei).
  { destruct Hfs1 as [-> | ->]; [done|split; [by apply fs_wf_tick|done]]. }
  assert (forall q, contents fs1 q = contents fs q) as Ec by (intros; unfold contents; by rewrite En, Ei).
  assert (frame [path] fs fs1) as Hfr by (destruct Hfs1 as [-> | ->]; [apply frame_refl|apply frame_tick]).
  destruct r; [|done..]. unfold OpenAppend. destruct (outcome faults fs1); [|done].
  destruct (fs_names fs1 !! path) as [i|] eqn:Hp; intros [= <- <-].
  - destruct (wf_named _ Hw1 _ _ Hp) as [_ [c Hc]].
    split; [|split; [done|eapply frame_trans; [exact Hfr|apply frame_tick]]].
    constructor; try done; [|by apply fs_wf_tick].
    rewrite contents_tick, <- Ec. cbn [al_path].
    by rewrite (contents_lookup _ _ _ Hp), Hc.
  - split_and!; [|done|].
    + constructor; try done; cbn [al_path al_f f_inode].
      * simpl. by rewrite lookup_insert_eq.
      * unfold contents at 1. simpl. rewrite lookup_insert_eq. simpl. rewrite lookup_insert_eq.
        f_equal. rewrite <- Ec. unfold contents. by rewrite Hp.
      * by apply fs_wf_create.
    + eapply frame_trans; [exact Hfr|]. constructor.
      * intros q Hq. simpl. rewrite lookup_insert_ne; [done|set_solver].
      * intros _. by apply fs_wf_create.
      * intros q Hq. unfold contents. simpl. rewrite lookup_insert_ne by set_solver.
        destruct (fs_names fs1 !! q) as [j|] eqn:Ej; [|done]. simpl.
        rewrite lookup_insert_ne; [done|]. destruct (wf_named _ Hw1 _ _ Ej). lia.
      * simpl. lia.
Qed.

(** ** Reading back *)

(** A replay loop on a file of lines decodes every event written, in order,
    each as [canon] says, whatever fuel above the file's size it has. *)
Lemma decode_stream_lines evs fuel :
  Forall marshalable evs -> (length (lines evs) <= fuel)%nat ->
  decode_stream fuel (lines evs) = canon <$> evs.
Proof.
  intros Hm. revert fuel. induction Hm as [|ev evs [b Hb] Hm IH]; intros fuel Hf.
  - destruct fuel; simpl; [done|]. by rewrite next_nil.
  - assert (lines (ev :: evs) = b ++ newline :: lines evs) as E.
    { unfold lines. rewrite fmap_cons. cbn [concat]. unfold line at 1. rewrite Hb. simpl.
      by rewrite <- app_assoc. }
    rewrite E in *. rewrite length_app in Hf. cbn [length] in Hf.
    destruct fuel as [|fuel]; [lia|]. cbn [decode_stream].
    rewrite (next_marshal ev b) by done. rewrite fmap_cons. f_equal.
    destruct fuel as [|fuel].
    + pose proof (lines_length evs). destruct evs; [done|]. simpl in *. lia.
    + transitivity (decode_stream (S fuel) (lines evs)).
      * cbn [decode_stream]. by rewrite next_newline.
      * apply IH. lia.
Qed.

(** ** The log's contract *)

(** C18: on a live log, [Append] either adds exactly the event's JSON line
    to the file with one write and leaves the log live, or changes nothing
    because the event has no JSON form, or fails with a proper prefix of the
    line in the file and a log that is dead; no other file changes. *)
Theorem Append_contract ev a fs c :
  alive a fs c ->
  exists r a' fs', Append faults ev a fs = (r, a', fs') /\
    append_outcome ev a fs c r a' fs' /\ frame [al_path a] fs fs'.
Proof. apply Append_outcome. Qed.

(** C19: [rotate] on a live log that holds the lines of [evs] either returns
    the replay path, whose file then holds exactly those lines, so that a
    replay decodes every event in order, and leaves a live, empty log at the
    same path; or fails and leaves the log dead, the lines still on disk
    under the log's path or, when only the reopening failed, under the
    replay path. *)
Theorem rotate_contract a fs evs :
  alive a fs (lines evs) -> Forall marshalable evs ->
  exists r a' fs', rotate faults a fs = (r, a', fs') /\
    rotate_outcome a fs (lines evs) r a' fs' /\
    (r = Ok (replay_path a) -> exists s, contents fs' (replay_path a) = Some s /\
       decode_stream (length s) s = canon <$> evs).
Proof.
  intros Ha Hm. destruct (rotate_alive a fs (lines evs) Ha) as (r & a' & fs' & E & Ho).
  exists r, a', fs'. split; [done|]. split; [done|]. intros ->.
  inversion Ho as [? ? _ _ Hc| ]; subst. exists (lines evs). split; [done|].
  by apply decode_stream_lines.
Qed.

(** A caller's operations on the log, and what they return. *)
Inductive log_op : Type :=
  | OpAppend (ev : Event)
  | OpRotate.

Definition run_op (o : log_op) (a : appendLog) (fs : FS) : bool * appendLog * FS :=
  match o with
  | OpAppend ev => let '(r, a, fs) := Append faults ev a fs in (is_ok r, a, fs)
  | OpRotate => let '(r, a, fs) := rotate faults a fs in (is_ok r, a, fs)
  end.

Fixpoint run_ops (os : list log_op) (a : appendLog) (fs : FS) : list bool * FS :=
  match os with
  | [] => ([], fs)
  | o :: os' =>
      let '(r, a, fs) := run_op o a fs in
      let '(rs, fs) := run_ops os' a fs in (r :: rs, fs)
  end.

Lemma run_ops_dead os a fs : dead a -> run_ops os a fs = (replicate (length os) false, fs).
Proof.
  revert a. induction os as [|o os IH]; intros a Hd; [done|]. cbn [run_ops].
  assert (exists a', run_op o a fs = (false, a', fs) /\ dead a') as (a' & -> & Hd').
  { destruct o as [ev|]; cbn [run_op].
    - destruct (Append_dead ev a fs Hd) as (e & a' & -> & ? & _). by exists a'.
    - destruct (rotate_dead a fs Hd) as (e & a' & -> & ? & _). by exists a'. }
  by rewrite (IH a' Hd').
Qed.

(** C37: one failed write is permanent.  After an [Append] whose write fails,
    however briefly the disk was full, every later [Append] and [rotate] on
    the log fails and no byte reaches any file again, because the buffered
    writer keeps its first error and [rotate], the only code that replaces
    the writer, flushes it first. *)
Theorem failed_write_is_permanent ev a fs c n os :
  alive a fs c -> marshalable ev -> faults (fs_calls fs) = Bad n ->
  exists a' fs', Append faults ev a fs = (Err ErrSys, a', fs') /\
    run_ops os a' fs' = (replicate (length os) false, fs').
Proof.
  intros Ha [b Hb] Hf. pose proof (Append_alive ev b a fs c Ha Hb) as Hap.
  unfold outcome in Hap. rewrite Hf in Hap. cbn zeta in Hap.
  destruct Hap as (a' & Hap & Hd & _). eexists a', _. split; [exact Hap|]. by apply run_ops_dead.
Qed.

End facts.

(** ** Examples *)

#[local] Existing Instance eventjson.utc_codec.

Lemma two_files_wf a o : fs_wf (two_files a o).
Proof.
  assert (forall p i, fs_names (two_files a o) !! p = Some i ->
    (p = audit_path /\ i = 0%nat) \/ (p = overflow_path /\ i = 1%nat)) as Hn.
  { intros p i. cbn [two_files fs_names]. rewrite lookup_insert. case_decide as Hp; [naive_solver|].
    intros [-> ->]%lookup_singleton_Some. by right. }
  constructor.
  - intros p i [[-> ->]|[-> ->]]%Hn; (split; [simpl; lia|by eexists]).
  - intros p q i [[-> ->]|[-> ->]]%Hn [[-> ?]|[-> ?]]%Hn; done.
Qed.

Lemma fresh_overflow_alive a o : alive (fresh_log overflow_path 1) (two_files a o) o.
Proof. constructor; [done..|apply two_files_wf]. Qed.

Lemma fresh_audit_alive a o : alive (fresh_log audit_path 0) (two_files a o) a.
Proof. constructor; [done..|apply two_files_wf]. Qed.

Lemma sample_marshalable : marshalable sample_event.
Proof. eexists. vm_compute. reflexivity. Qed.

Lemma sample_lines_marshalable n : Forall marshalable (replicate n sample_event).
Proof. apply Forall_replicate, sample_marshalable. Qed.

Lemma Append_contract_witness :
  exists r a' fs', Append all_good sample_event (fresh_log overflow_path 1) (two_files [] []) = (r, a', fs') /\
    append_outcome all_good sample_event (fresh_log overflow_path 1) (two_files [] []) [] r a' fs' /\
    frame [overflow_path] (two_files [] []) fs'.
Proof. apply (Append_contract all_good sample_event (fresh_log overflow_path 1)), fresh_overflow_alive. Defined.

Lemma rotate_contract_witness :
  let a := fresh_log overflow_path 1 in
  let fs := two_files [] (lines [sample_event; sample_event]) in
  exists r a' fs', rotate all_good a fs = (r, a', fs') /\
    rotate_outcome all_good a fs (lines [sample_event; sample_event]) r a' fs' /\
    (r = Ok (replay_path a) -> exists s, contents fs' (replay_path a) = Some s /\
       decode_stream (length s) s = canon <$> [sample_event; sample_event]).
Proof.
  apply rotate_contract; [apply fresh_overflow_alive|apply (sample_lines_marshalable 2)].
Defined.

Lemma failed_write_is_permanent_witness :
  exists a' fs', Append (fails_at 0) sample_event (fresh_log overflow_path 1) (two_files [] []) =
      (Err ErrSys, a', fs') /\
    run_ops (fails_at 0) [OpAppend sample_event; OpRotate; OpAppend sample_event] a' fs' =
      ([false; false; false], fs').
Proof.
  apply (failed_write_is_permanent (fails_at 0) sample_event (fresh_log overflow_path 1)
    (two_files [] []) [] 0 [OpAppend sample_event; OpRotate; OpAppend sample_event]);
    [apply fresh_overflow_alive|apply sample_marshalable|reflexivity].
Defined.
