(* ===== verification/HunterFacts.v ===== *)
(** * The client's retries and the safety of the kill

    [Evaluate] stops at the first decisive attempt and makes at most
    [maxRetries + 1] requests with exponentially growing waits; a process
    is killed only under the name the sensor captured. *)
From Stdlib Require Import ZArith Lia Floats.SpecFloat.
From Stdlib Require Import Strings.Byte Strings.String.
From stdpp Require Import base list gmap.
From S2P Require Import VerdictJson.
From S2P Require Import Prelude GoStrings Events GoIO AppendLog Triage EventJson Hunter Pipeline.
From S2P Require Import Samples.
Import hunter.
#[local] Open Scope Z_scope.

Section retries.
Context `{EventCodec} (decode_verdict : list byte -> option Verdict).
Context (net : nat -> exchange) (c : Client).
#[local] Abbreviation request k := (doRequest decode_verdict (ex_transport (net k))).
#[local] Abbreviation loop := (retry_loop decode_verdict net c).

(** Attempt [i] of a call whose first exchange is [k] fails, without the
    context being cancelled in the back-off before it. *)
Definition attempt_failed (k i : nat) : Prop :=
  (exists e, request (k + i)%nat = Err e) /\ (i = 0%nat \/ ex_cancelled (net (k + i)) = false).

(** The three ways a call ends, [n] being the number of attempts allowed:
    success at attempt [j], cancellation before attempt [j], exhaustion. *)
Inductive ends (k n : nat) (ev : evaluation) : Prop :=
  | ends_ok j v : (j < n)%nat -> (forall i, (i < j)%nat -> attempt_failed k i) ->
      (j = 0%nat \/ ex_cancelled (net (k + j)) = false) -> request (k + j)%nat = Ok v ->
      ev_result ev = Ok v -> ev_requests ev = (k + j + 1)%nat -> ends k n ev
  | ends_cancelled j : (0 < j < n)%nat -> (forall i, (i < j)%nat -> attempt_failed k i) ->
      ex_cancelled (net (k + j)) = true ->
      ev_result ev = Err ErrContext -> ev_requests ev = (k + j)%nat -> ends k n ev
  | ends_exhausted last : (forall i, (i < n)%nat -> attempt_failed k i) ->
      ev_result ev = Err (ErrUnavailable (maxRetries c + 1) last) ->
      ev_requests ev = (k + n)%nat -> ends k n ev.

Lemma doRequest_total t : doRequest decode_verdict t <> Panic.
Proof.
  destruct t; simpl; try done. destruct (negb _); [done|]. by destruct (decode_verdict body).
Qed.

Lemma retry_loop_ends k n j backoff last :
  (j <= n)%nat -> (forall i, (i < j)%nat -> attempt_failed k i) ->
  ends k n (loop (n - j) (Z.of_nat j) backoff last (k + j)).
Proof.
  remember (n - j)%nat as left eqn:Hleft. revert j backoff last Hleft.
  induction left as [|left IH]; intros j backoff last Hleft Hj Hfail.
  - assert (j = n) as -> by lia. by eapply ends_exhausted.
  - cbn [retry_loop].
    destruct ((0 <? Z.of_nat j) && ex_cancelled (net (k + j))) eqn:Hc.
    { apply andb_true_iff in Hc as [Hj0%Z.ltb_lt Hc].
      apply (ends_cancelled _ _ _ j); try done; simpl; lia. }
    assert (j = 0%nat \/ ex_cancelled (net (k + j)) = false) as Hlive.
    { destruct (Z.ltb_spec 0 (Z.of_nat j)); [by right|left; lia]. }
    destruct (request (k + j)%nat) as [v|e|] eqn:Hr.
    + apply (ends_ok _ _ _ j v); try done; simpl; lia.
    + specialize (IH (S j) (if 0 <? Z.of_nat j then wrapI 64 (backoff * 2) else backoff)
        (Some e) ltac:(lia) ltac:(lia)).
      replace (Z.of_nat (S j)) with (Z.of_nat j + 1) in IH by lia.
      replace (k + S j)%nat with (S (k + j)) in IH by lia.
      destruct IH as [j' v|j'|l];
        [intros i Hi; destruct (decide (i = j)) as [->|]; [split; [by eexists|done]|apply Hfail; lia]
        |by eapply ends_ok|by eapply ends_cancelled|by eapply ends_exhausted].
    + by destruct (doRequest_total (ex_transport (net (k + j)))).
Qed.

(** ** Back-off *)

Definition backoff_at (i : nat) : Z := initial_backoff * 2 ^ Z.of_nat i.

Lemma backoff_at_wrap i :
  (i < 35)%nat -> wrapI 64 (backoff_at i * 2) = backoff_at (S i).
Proof.
  intros Hi. unfold backoff_at. rewrite Nat2Z.inj_succ, Z.pow_succ_r by lia.
  replace (initial_backoff * 2 ^ Z.of_nat i * 2) with (initial_backoff * (2 * 2 ^ Z.of_nat i)) by lia.
  apply wrapI_id; [lia|].
  assert (1 <= 2 ^ Z.of_nat i <= 2 ^ 34) as Hp.
  { split; [apply (Z.pow_le_mono_r 2 0)|apply Z.pow_le_mono_r]; lia. }
  unfold initial_backoff, millisecond. simpl in *. lia.
Qed.

(** From the first retry on, every request is preceded by one wait. *)
Lemma retry_loop_waits left j last k :
  (S j + left <= 37)%nat ->
  let r := loop left (Z.of_nat (S j)) (backoff_at j) last k in
  (k <= ev_requests r)%nat /\ ev_waits r = backoff_at <$> seq j (ev_requests r - k).
Proof.
  revert j last k. induction left as [|left IH]; intros j last k Hj.
  { cbn. by rewrite Nat.sub_diag. }
  cbn [retry_loop]. rewrite (proj2 (Z.ltb_lt 0 (Z.of_nat (S j)))) by lia. cbn [andb].
  destruct (ex_cancelled (net k)); [cbn; by rewrite Nat.sub_diag|].
  destruct (request k) as [v|e|]; cbn [ev_requests ev_waits];
    try (split; [lia|]; by replace (S k - k)%nat with 1%nat by lia).
  destruct left as [|left]; [cbn; split; [lia|]; by replace (S k - k)%nat with 1%nat by lia|].
  rewrite backoff_at_wrap by lia.
  replace (Z.of_nat (S j) + 1) with (Z.of_nat (S (S j))) by lia.
  specialize (IH (S j) (Some e) (S k) ltac:(lia)).
  destruct (loop _ _ _ _ _) as [res m w]. cbn [ev_requests ev_waits] in *.
  destruct IH as [Hk ->]. split; [lia|].
  by replace (m - k)%nat with (S (m - S k)) by lia.
Qed.

Lemma first_attempt_waits n k :
  (n <= 37)%nat ->
  let r := loop n 0 initial_backoff None k in
  (k <= ev_requests r)%nat /\ ev_waits r = backoff_at <$> seq 0 (ev_requests r - k - 1).
Proof.
  intros Hn. destruct n as [|n]; [cbn; by rewrite Nat.sub_diag|].
  cbn [retry_loop]. change (0 <? 0) with false. cbn [andb].
  destruct (request k) as [v|e|]; cbn [ev_requests ev_waits app];
    try (split; [lia|]; by replace (S k - k - 1)%nat with 0%nat by lia).
  change (0 + 1) with (Z.of_nat 1). change initial_backoff with (backoff_at 0).
  pose proof (retry_loop_waits n 0 (Some e) (S k) ltac:(lia)) as Hw.
  destruct (loop _ _ _ _ _) as [res m w]. cbn [ev_requests ev_waits] in *.
  destruct Hw as [Hk ->]. split; [lia|].
  by replace (m - k - 1)%nat with (m - S k)%nat by lia.
Qed.

Lemma Evaluate_decided ev k :
  marshal ev <> None ->
  ends k (Z.to_nat (maxRetries c + 1)) (Evaluate decode_verdict net c ev k).
Proof.
  intros Hm. unfold Evaluate. destruct (marshal ev); [|done].
  pose proof (retry_loop_ends k (Z.to_nat (maxRetries c + 1)) 0 initial_backoff None) as He.
  rewrite Nat.sub_0_r, Nat.add_0_r in He. apply He; lia.
Qed.

(** C23: an evaluation is decided by its first decisive attempt: it succeeds
    with the verdict of the first request that gets a decodable HTTP 200,
    stops with the context's error when the context is cancelled during a
    back-off, and otherwise reports unavailability after exactly
    [maxRetries + 1] requests; no earlier attempt succeeded, and none is
    made after the decision. *)
Theorem Evaluate_ends ev k :
  marshal ev <> None ->
  ends k (Z.to_nat (maxRetries c + 1)) (Evaluate decode_verdict net c ev k).
Proof. apply Evaluate_decided. Qed.

(** The waits between the requests of one evaluation: with at most 36
    retries the doubling never overflows the 64-bit duration. *)
Lemma Evaluate_backoff ev k :
  maxRetries c <= 36 ->
  let r := Evaluate decode_verdict net c ev k in
  ev_waits r = backoff_at <$> seq 0 (ev_requests r - k - 1) /\
  (ev_requests r <= k + Z.to_nat (maxRetries c + 1))%nat.
Proof.
  intros Hmax. unfold Evaluate. cbn zeta. destruct (marshal ev); cycle 1.
  { cbn. rewrite Nat.sub_diag. split; [done|lia]. }
  split; [apply first_attempt_waits; lia|].
  pose proof (retry_loop_ends k (Z.to_nat (maxRetries c + 1)) 0 initial_backoff None) as He.
  rewrite Nat.sub_0_r, Nat.add_0_r in He. change (Z.of_nat 0) with 0 in He.
  destruct He as [j v ? _ _ _ _ ->|j ? _ _ _ ->|? _ _ ->]; lia.
Qed.

Definition total (ds : list Z) : Z := foldr Z.add 0 ds.

Lemma total_le (f : nat -> Z) b j n :
  (forall i, f i <= b) -> total (f <$> seq j n) <= Z.of_nat n * b.
Proof.
  intros Hf. revert j. induction n as [|n IH]; intros j; [done|].
  cbn [seq fmap list_fmap total foldr]. specialize (IH (S j)). specialize (Hf j).
  unfold total in IH. lia.
Qed.

Lemma total_backoff j n :
  total (backoff_at <$> seq j n) = initial_backoff * (2 ^ Z.of_nat (j + n) - 2 ^ Z.of_nat j).
Proof.
  revert j. induction n as [|n IH]; intros j.
  - cbn. rewrite Nat.add_0_r. lia.
  - cbn [seq fmap list_fmap total foldr]. specialize (IH (S j)). unfold total in IH. rewrite IH.
    unfold backoff_at. replace (j + S n)%nat with (S j + n)%nat by lia.
    rewrite (Nat2Z.inj_succ j), Z.pow_succ_r by lia. lia.
Qed.

(** C29: how long an evaluation can take.  Before every request but the
    first there is one wait: 200 ms, 400 ms, 800 ms and so on.  With a
    positive [Timeout] and at most 36 retries, beyond which the doubling
    leaves the 64 bits of a duration, the requests made and their back-offs
    take at most (maxRetries + 1) timeouts and 200 ms * (2^maxRetries - 1),
    whatever the network does: 21.4 s with the broker's defaults.  A
    timeout that is not positive is none: [no_timeout_no_bound]. *)
Theorem Evaluate_time_bound ev k (duration : nat -> Z) :
  0 <= maxRetries c <= 36 -> 0 < Timeout (httpClient c) ->
  (forall i, may_take (httpClient c) (duration i)) ->
  let r := Evaluate decode_verdict net c ev k in
  ev_waits r = backoff_at <$> seq 0 (ev_requests r - k - 1) /\
  total (duration <$> seq k (ev_requests r - k)) + total (ev_waits r) <=
    (maxRetries c + 1) * Timeout (httpClient c) + initial_backoff * (2 ^ maxRetries c - 1).
Proof.
  intros Hmax Ht Hd. cbn zeta. destruct (Evaluate_backoff ev k ltac:(lia)) as [Hw Hn]. cbn zeta in Hw, Hn.
  set (r := Evaluate decode_verdict net c ev k) in *. split; [exact Hw|].
  pose proof (total_le duration _ k (ev_requests r - k) (fun i => proj2 (Hd i) Ht)) as H1.
  rewrite Hw, total_backoff. change (2 ^ Z.of_nat 0) with 1. rewrite Nat.add_0_l.
  assert (2 ^ Z.of_nat (ev_requests r - k - 1) <= 2 ^ maxRetries c) as H2
    by (apply Z.pow_le_mono_r; lia).
  assert (Z.of_nat (ev_requests r - k) * Timeout (httpClient c) <= (maxRetries c + 1) * Timeout (httpClient c)) as H3
    by (apply Z.mul_le_mono_nonneg_r; lia).
  unfold initial_backoff, millisecond. lia.
Qed.

(** With [-hunter-timeout] 0 or less a single request can outlast any
    bound. *)
Lemma no_timeout_no_bound ev k bound :
  0 <= maxRetries c -> Timeout (httpClient c) <= 0 -> marshal ev <> None ->
  exists duration, (forall i, may_take (httpClient c) (duration i)) /\
    bound < total (duration <$> seq k (ev_requests (Evaluate decode_verdict net c ev k) - k)).
Proof.
  intros Hm Ht Hev. exists (fun _ => Z.max 0 bound + 1). split; [intros i; split; lia|].
  assert (k < ev_requests (Evaluate decode_verdict net c ev k))%nat as Hlt.
  { destruct (Evaluate_decided ev k Hev) as [j v Hj _ _ _ _ E|j Hj Hj' _ _ E|last _ _ E]; lia. }
  destruct (ev_requests _ - k)%nat as [|n] eqn:En; [lia|]. cbn [seq fmap list_fmap total foldr].
  assert (forall j m, 0 <= foldr Z.add 0 ((fun _ : nat => Z.max 0 bound + 1) <$> seq j m)) as H0.
  { intros j m. revert j. induction m as [|m IH]; intros j; cbn; [lia|]. specialize (IH (S j)). cbn in IH. lia. }
  specialize (H0 (S k) n). lia.
Qed.

End retries.

(** ** Killing *)

Lemma KillProcess_spec allowed pid expected ps ps' r :
  KillProcess allowed pid expected ps ps' = Ok r <->
  1 < pid /\ (exists p, ps !! pid = Some p /\ strings.TrimSpace (p_comm p) = expected) /\
  is_Some (ps' !! pid) /\ allowed pid = true /\ r = delete pid ps'.
Proof.
  unfold KillProcess, read_comm, sigkill.
  destruct (Z.leb_spec pid 1); [split; [done|lia]|].
  destruct (ps !! pid) as [p|]; cbn -[strings.TrimSpace];
    [|split; [done|intros (_ & (p & ? & _) & _); done]].
  rewrite strings.TrimSpace_newline. case_bool_decide as Hc.
  { split; [done|]. intros (_ & (q & Hq & E) & _). by simplify_eq. }
  destruct (ps' !! pid); cycle 1.
  { split; [done|]. intros (_ & _ & [? ?] & _). done. }
  destruct (allowed pid); [|split; [done|intros (_ & _ & _ & ? & _); done]].
  split; [intros [= <-]; naive_solver|]. intros (_ & _ & _ & _ & ->). done.
Qed.

(** C8: [KillProcess] sends a signal exactly when the pid is above 1, the
    process holding it when its comm is read has the expected comm (white
    space trimmed), a process still holds it when the signal is sent and
    the signal is permitted; then that process and no other is removed. *)
Theorem KillProcess_ok_iff allowed pid expected ps ps' r :
  KillProcess allowed pid expected ps ps' = Ok r <->
  1 < pid /\ (exists p, ps !! pid = Some p /\ strings.TrimSpace (p_comm p) = expected) /\
  is_Some (ps' !! pid) /\ allowed pid = true /\ r = delete pid ps'.
Proof. apply KillProcess_spec. Qed.

Lemma leads_space_take n s :
  strings.leads_space s = false -> strings.leads_space (take n s) = false.
Proof.
  intros Hs. destruct (strings.leads_space (take n s)) eqn:E; [|done].
  apply (strings.starts_app _ _ _ (drop n s)) in E. rewrite take_drop in E.
  unfold strings.leads_space in Hs. congruence.
Qed.

(** Trimming a string with no leading white space keeps a prefix. *)
Lemma TrimSpace_prefix s :
  strings.leads_space s = false -> exists r, s = strings.TrimSpace s ++ r.
Proof.
  intros Hs. unfold strings.TrimSpace, strings.TrimLeftSpace.
  rewrite (strings.trim_id _ _ s) by done. apply strings.TrimRightSpace_prefix.
Qed.

(** C38: the response cannot reach a process that triage flagged by name.
    Linux renames a process to the first 15 bytes of its new program when
    [execve] completes, while the event's comm is the caller's name from
    before.  For every event that the masquerading heuristic flags and
    whose program's name does not begin with white space, killing the
    process it describes, still running its program, is refused as a comm
    mismatch.  (White space at the front is trimmed from the current comm,
    which can then be the captured one: [leading_space_killed].) *)
Theorem masquerading_kill_refused allowed pid base comm p ps ps' :
  triage.isMasquerading base comm = Ok true ->
  strings.leads_space base = false ->
  1 < pid -> ps !! pid = Some p -> p_comm p = take 15 base ->
  KillProcess allowed pid comm ps ps' =
    Err (ErrCommMismatch (strings.TrimSpace (take 15 base))).
Proof.
  intros Hm Hb Hpid Hp Hc. unfold KillProcess, read_comm.
  destruct (Z.leb_spec pid 1); [lia|]. rewrite Hp. cbn -[strings.TrimSpace].
  rewrite Hc, strings.TrimSpace_newline. rewrite bool_decide_true; [done|]. intros E.
  destruct (triage.isMasquerading_spec base comm) as (b & Hb' & Hspec).
  rewrite Hm in Hb'. injection Hb' as <-.
  destruct (proj1 Hspec eq_refl) as (_ & _ & Hne). apply Hne. clear Hne Hspec.
  destruct (TrimSpace_prefix (take 15 base)) as [r Er]; [by apply leads_space_take|].
  rewrite E in Er. rewrite <- (take_drop 15 base), Er, <- app_assoc.
  rewrite Nat.min_r by (rewrite !length_app; lia).
  by rewrite take_app_length, firstn_all.
Qed.

(** A comm with white space at either end can never be killed: the
    current comm is trimmed before the comparison, the captured one is
    not. *)
Lemma untrimmed_comm_refused allowed pid expected ps ps' r :
  strings.TrimSpace expected <> expected ->
  KillProcess allowed pid expected ps ps' <> Ok r.
Proof.
  intros Hne E. apply KillProcess_spec in E as (_ & (p & _ & Hp) & _).
  apply Hne. rewrite <- Hp. apply strings.TrimSpace_idem.
Qed.

(** ** Examples *)

#[local] Existing Instance eventjson.utc_codec.

Lemma Evaluate_ends_witness :
  ends verdictjson.decode_verdict net_down sample_client 0 4 (Evaluate verdictjson.decode_verdict net_down sample_client sample_event 0).
Proof. apply (Evaluate_ends verdictjson.decode_verdict net_down sample_client sample_event 0). vm_compute. congruence. Defined.

(** Every request times out after the default five seconds. *)
Lemma Evaluate_time_bound_witness :
  let r := Evaluate verdictjson.decode_verdict net_down sample_client sample_event 0 in
  ev_waits r = backoff_at <$> seq 0 (ev_requests r - 0 - 1) /\
  total ((fun _ => 5000000000) <$> seq 0 (ev_requests r - 0)) + total (ev_waits r) <= 21400 * millisecond.
Proof.
  apply (Evaluate_time_bound verdictjson.decode_verdict net_down sample_client sample_event 0 (fun _ => 5000000000));
    [by vm_compute|by vm_compute|intros _; by split; vm_compute].
Defined.

Example waits_of_four_attempts :
  ev_waits (Evaluate verdictjson.decode_verdict net_down sample_client sample_event 0) =
    [200 * millisecond; 400 * millisecond; 800 * millisecond].
Proof. vm_compute. reflexivity. Qed.

(** [bash] executed [/tmp/x], which is now called [x]. *)
Lemma masquerading_kill_refused_witness :
  KillProcess (fun _ => true) 4242 (bs "bash") {[ 4242 := mkProc (bs "x") 7 ]} ∅ =
    Err (ErrCommMismatch (bs "x")).
Proof.
  apply (masquerading_kill_refused (fun _ => true) 4242 (bs "x") (bs "bash") (mkProc (bs "x") 7)
    {[ 4242 := mkProc (bs "x") 7 ]} ∅); [reflexivity|reflexivity|lia|reflexivity|reflexivity].
Defined.

Lemma untrimmed_comm_refused_witness :
  let ps := {[ 4242 := mkProc (bs "tail ") 7 ]} in
  KillProcess (fun _ => true) 4242 (bs "tail ") ps ps <> Ok ∅.
Proof.
  apply (untrimmed_comm_refused (fun _ => true) 4242 (bs "tail ")). vm_compute. congruence.
Defined.

(** [x] executed a program called [ x]. *)
Example leading_space_killed :
  triage.isMasquerading (bs " x") (bs "x") = Ok true /\
  KillProcess (fun _ => true) 4242 (bs "x") {[ 4242 := mkProc (bs " x") 7 ]} {[ 4242 := mkProc (bs " x") 7 ]} = Ok ∅.
Proof. by split; vm_compute. Qed.
