(* ===== verification/ThreatHunter.v ===== *)
(** * The threat hunter service ([hunter/{models,mitre,llm_engine,app}.py])

    The Python service that turns an event into a verdict: the closed
    technique list, the validation of the model's answer and the server-side
    limits on a kill.  The Anthropic client and pydantic are not part of the
    repository: the model's answer and the outcome of the field constraints
    are parameters.  Strings are the UTF-8 of Python's strings, floats are
    binary64. *)
From Stdlib Require Import ZArith Lia Floats.SpecFloat.
From Stdlib Require Import Strings.Byte Strings.String.
From stdpp Require Import base list.
From S2P Require Import Prelude Json GoIO Hunter VerdictJson.
#[local] Open Scope Z_scope.

Module threathunter.

(** ** Python's exceptions *)

Inductive exn : Type :=
  | APIError
  | FileNotFoundError
  | ProcessLookupError
  | PermissionError
  | UnicodeDecodeError
  | OverflowError
  | ValueError
  | OtherError.

#[export] Instance exn_eq_decision : EqDecision exn.
Proof. solve_decision. Defined.

(** A computation that returns or raises. *)
Inductive py (A : Type) : Type :=
  | Ret (a : A)
  | Raise (e : exn).
Arguments Ret {A} a.
Arguments Raise {A} e.

(** ** [models.py] *)

Inductive Severity : Type := BENIGN | LOW | MEDIUM | HIGH | CRITICAL.
Inductive Action : Type := IGNORE | MONITOR | ALERT | KILL.

#[export] Instance Severity_eq_decision : EqDecision Severity.
Proof. solve_decision. Defined.
#[export] Instance Action_eq_decision : EqDecision Action.
Proof. solve_decision. Defined.

(** The enumerations' string values. *)
Definition severity_value (s : Severity) : gostring :=
  match s with
  | BENIGN => bs "benign" | LOW => bs "low" | MEDIUM => bs "medium" | HIGH => bs "high"
  | CRITICAL => bs "critical"
  end.

Definition action_value (a : Action) : gostring :=
  match a with
  | IGNORE => bs "ignore" | MONITOR => bs "monitor" | ALERT => bs "alert" | KILL => bs "kill"
  end.

Record ExecEvent := mkExecEvent {
  timestamp : gostring;
  pid : Z;
  tid : Z;
  uid : Z;
  gid : Z;
  comm : gostring;
  filename : gostring;
  args : list gostring;
  argc : Z;
  truncated : bool;
  command_line : gostring
}.

Record Verdict := mkVerdict {
  severity : Severity;
  action : Action;
  mitre_technique : gostring;
  mitre_tactic : gostring;
  confidence : spec_float;
  rationale : gostring
}.

Definition set_technique (t : gostring) (v : Verdict) : Verdict :=
  mkVerdict (severity v) (action v) t (mitre_tactic v) (confidence v) (rationale v).
Definition set_action (a : Action) (v : Verdict) : Verdict :=
  mkVerdict (severity v) a (mitre_technique v) (mitre_tactic v) (confidence v) (rationale v).
Definition set_confidence (c : spec_float) (v : Verdict) : Verdict :=
  mkVerdict (severity v) (action v) (mitre_technique v) (mitre_tactic v) c (rationale v).

Definition float_zero : spec_float := S754_zero false.
Definition float_one : spec_float := S754_finite false 4503599627370496 (-52).

(** The built-ins: the first of two arguments neither of which is
    smaller (greater). *)
Definition py_min (a b : spec_float) : spec_float := if SFltb b a then b else a.
Definition py_max (a b : spec_float) : spec_float := if SFltb a b then b else a.

Definition clamp_confidence (v : spec_float) : spec_float := py_max float_zero (py_min float_one v).

(** ** [mitre.py] *)

Definition TECHNIQUES : list (gostring * gostring) :=
  [(bs "T1059", bs "Command and Scripting Interpreter");
   (bs "T1059.004", bs "Command and Scripting Interpreter: Unix Shell");
   (bs "T1059.006", bs "Command and Scripting Interpreter: Python");
   (bs "T1071.001", bs "Application Layer Protocol: Web Protocols (C2 egress)");
   (bs "T1105", bs "Ingress Tool Transfer");
   (bs "T1222.002", bs "File and Directory Permissions Modification: Linux and Mac File Permissions");
   (bs "T1564.001", bs "Hide Artifacts: Hidden Files and Directories");
   (bs "T1036", bs "Masquerading");
   (bs "T1036.005", bs "Masquerading: Match Legitimate Name or Location");
   (bs "T1053.003", bs "Scheduled Task/Job: Cron");
   (bs "T1548.001", bs "Abuse Elevation Control Mechanism: Setuid and Setgid");
   (bs "T1090", bs "Proxy");
   (bs "T1046", bs "Network Service Discovery")].

Definition TACTICS_BY_TECHNIQUE : list (gostring * gostring) :=
  [(bs "T1059", bs "Execution");
   (bs "T1059.004", bs "Execution");
   (bs "T1059.006", bs "Execution");
   (bs "T1071.001", bs "Command and Control");
   (bs "T1105", bs "Command and Control");
   (bs "T1222.002", bs "Defense Evasion");
   (bs "T1564.001", bs "Defense Evasion");
   (bs "T1036", bs "Defense Evasion");
   (bs "T1036.005", bs "Defense Evasion");
   (bs "T1053.003", bs "Persistence");
   (bs "T1548.001", bs "Privilege Escalation");
   (bs "T1090", bs "Command and Control");
   (bs "T1046", bs "Discovery")].

Definition NONE_TECHNIQUE : gostring := bs "NONE".

Definition is_known_technique (t : gostring) : bool :=
  bool_decide (t = NONE_TECHNIQUE) || bool_decide (t ∈ TECHNIQUES.*1).

(** ** [llm_engine.py] *)

Record Settings := mkSettings {
  model : gostring;
  kill_confidence_floor : spec_float;
  max_tokens : Z
}.

(** The defaults of [config.py]; 0.85 is the nearest binary64. *)
Definition default_settings : Settings :=
  mkSettings (bs "claude-sonnet-5") (S754_finite false 7656119366529843 (-53)) 1024.

(** A block of the model's message. *)
Inductive block : Type :=
  | ToolUse (name : gostring) (input : json.value)
  | OtherBlock.

Definition tool_name : gostring := bs "emit_threat_verdict".

Definition fallback_verdict (reason : gostring) : Verdict :=
  mkVerdict MEDIUM ALERT NONE_TECHNIQUE (bs "N/A") float_zero
    (bs "Automated fallback verdict: " ++ reason).

Section engine.
Context (settings : Settings).
(** pydantic's validation of the declared fields, before the validator of
    [models.py] runs. *)
Context (validate_fields : json.value -> option Verdict).
(** The model: a message, or an exception with its text. *)
Context (call_model : ExecEvent -> list block + exn * gostring).

Definition model_validate (raw : json.value) : option Verdict :=
  v ← validate_fields raw; Some (set_confidence (clamp_confidence (confidence v)) v).

Definition known_technique (v : Verdict) : Verdict :=
  if is_known_technique (mitre_technique v) then v else set_technique NONE_TECHNIQUE v.

(** The authority boundary. *)
Definition limit_kill (v : Verdict) : Verdict :=
  if bool_decide (action v = KILL) &&
     (bool_decide (severity v <> CRITICAL) || SFltb (confidence v) (kill_confidence_floor settings))
  then set_action ALERT v else v.

Definition parse_tool_input (raw : json.value) : Verdict :=
  match model_validate raw with
  | None => fallback_verdict (bs "verdict failed local schema validation")
  | Some v => limit_kill (known_technique v)
  end.

(** The first block that is the forced tool's. *)
Fixpoint tool_input (content : list block) : option json.value :=
  match content with
  | [] => None
  | ToolUse name input :: bs' => if decide (name = tool_name) then Some input else tool_input bs'
  | OtherBlock :: bs' => tool_input bs'
  end.

Definition evaluate (event : ExecEvent) : py Verdict :=
  match call_model event with
  | inr (APIError, text) => Ret (fallback_verdict (bs "LLM unavailable: " ++ text))
  | inr (e, _) => Raise e
  | inl content =>
      match tool_input content with
      | Some raw => Ret (parse_tool_input raw)
      | None => Ret (fallback_verdict (bs "model returned no structured verdict"))
      end
  end.

(** ** [app.py] *)

Inductive http : Type :=
  | Http200 (v : Verdict)
  | Http500.

(** [POST /v1/evaluate]; [kill_pid] is the responder and [W] what it acts
    on. *)
Definition app_evaluate {W : Type} (kill_pid : Z -> gostring -> W -> py bool * W)
    (event : ExecEvent) (w : W) : http * W :=
  match evaluate event with
  | Raise _ => (Http500, w)
  | Ret v =>
      if decide (action v = KILL) then
        let '(r, w) := kill_pid (pid event) (comm event) w in
        (match r with Ret _ => Http200 v | Raise _ => Http500 end, w)
      else (Http200 v, w)
  end.

(** ** Floats *)

(** A clamped value is a number between 0 and 1. *)
Lemma clamp_range v :
  SFleb float_zero (clamp_confidence v) = true /\ SFleb (clamp_confidence v) float_one = true.
Proof.
  unfold clamp_confidence. set (x := py_min float_one v).
  assert (x = float_one \/ (x = v /\ SFltb v float_one = true)) as [->|[-> Hlt]].
  { unfold x, py_min. destruct (SFltb v float_one); auto. }
  - by vm_compute.
  - unfold py_max. destruct (SFltb float_zero v) eqn:Hz.
    + unfold SFleb, SFltb in *. destruct (SFcompare v float_one) as [[]|]; try done.
      destruct (SFcompare float_zero v) as [[]|]; done.
    + by vm_compute.
Qed.

Lemma clamp_nan : clamp_confidence S754_nan = float_one.
Proof. by vm_compute. Qed.

(** Every listed technique has a tactic. *)
Lemma techniques_have_tactics : TECHNIQUES.*1 = TACTICS_BY_TECHNIQUE.*1.
Proof. reflexivity. Qed.

(** ** What a verdict can be *)

Definition safe_verdict (v : Verdict) : Prop :=
  is_known_technique (mitre_technique v) = true /\
  SFleb float_zero (confidence v) = true /\ SFleb (confidence v) float_one = true /\
  (action v = KILL ->
     severity v = CRITICAL /\ SFltb (confidence v) (kill_confidence_floor settings) = false).

Lemma fallback_safe reason : safe_verdict (fallback_verdict reason).
Proof. by split_and!. Qed.

Lemma known_technique_known v : is_known_technique (mitre_technique (known_technique v)) = true.
Proof. unfold known_technique. by destruct (is_known_technique (mitre_technique v)) eqn:E. Qed.

Lemma known_technique_rest v :
  severity (known_technique v) = severity v /\ action (known_technique v) = action v /\
  confidence (known_technique v) = confidence v.
Proof. unfold known_technique. by destruct (is_known_technique _). Qed.

Lemma limit_kill_rest v :
  severity (limit_kill v) = severity v /\ mitre_technique (limit_kill v) = mitre_technique v /\
  confidence (limit_kill v) = confidence v /\ mitre_tactic (limit_kill v) = mitre_tactic v.
Proof. unfold limit_kill. by destruct (_ && _). Qed.

Lemma limit_kill_action v :
  action (limit_kill v) = KILL <->
  action v = KILL /\ severity v = CRITICAL /\ SFltb (confidence v) (kill_confidence_floor settings) = false.
Proof.
  unfold limit_kill. destruct (bool_decide_reflect (action v = KILL)) as [Ha|Ha]; cbn [andb]; [|by split; [|intros [? _]]].
  destruct (bool_decide_reflect (severity v <> CRITICAL)) as [Hs|Hs]; cbn [orb set_action action].
  { split; [done|]. by intros (_ & ? & _). }
  destruct (SFltb _ _); cbn [set_action action]; [by split; [|intros (_ & _ & ?)]|].
  split; [|done]. intros _. split_and!; [done| |done]. by destruct (decide (severity v = CRITICAL)).
Qed.

Lemma parse_tool_input_safe raw : safe_verdict (parse_tool_input raw).
Proof.
  unfold parse_tool_input. destruct (model_validate raw) as [v|] eqn:E; [|apply fallback_safe].
  unfold model_validate in E. apply bind_Some in E as (w & _ & [= <-]).
  set (v := set_confidence _ w). destruct (known_technique_rest v) as (Es & Ea & Ec).
  destruct (limit_kill_rest (known_technique v)) as (Es' & Et' & Ec' & _).
  destruct (clamp_range (confidence w)) as [H0 H1]. unfold safe_verdict.
  rewrite Et', known_technique_known, Ec', Ec, Es'. split; [done|]. split; [exact H0|]. split; [exact H1|].
  intros (_ & Hs & Hf)%limit_kill_action. split; [exact Hs|]. by rewrite Ec in Hf.
Qed.

(** The answer the engine got: the input of the first block of the forced
    tool, as validated. *)
Definition answered (event : ExecEvent) (w : Verdict) : Prop :=
  exists content raw, call_model event = inl content /\ tool_input content = Some raw /\
    validate_fields raw = Some w.

(** Every way the engine can end. *)
Lemma evaluate_cases event :
  match evaluate event with
  | Raise e => e <> APIError /\ exists text, call_model event = inr (e, text)
  | Ret v =>
      safe_verdict v /\
      ((exists reason, v = fallback_verdict reason /\ forall w, ~ answered event w) \/
       exists w, answered event w /\
         severity v = severity w /\ rationale v = rationale w /\ mitre_tactic v = mitre_tactic w /\
         confidence v = clamp_confidence (confidence w) /\
         mitre_technique v = (if is_known_technique (mitre_technique w) then mitre_technique w else NONE_TECHNIQUE) /\
         (action v = action w \/ action w = KILL /\ action v = ALERT) /\
         (action v = KILL <-> action w = KILL /\ severity w = CRITICAL /\
            SFltb (clamp_confidence (confidence w)) (kill_confidence_floor settings) = false))
  end.
Proof.
  unfold evaluate, answered. destruct (call_model event) as [content|[e text]] eqn:Ec; cycle 1.
  { destruct e; try (split; [done|by eexists]).
    split; [apply fallback_safe|left]. eexists. split; [done|]. by intros w (? & ? & ? & _). }
  destruct (tool_input content) as [raw|] eqn:Er; cycle 1.
  { split; [apply fallback_safe|left]. eexists. split; [done|].
    intros w (content' & raw & [= <-] & Hr & _). congruence. }
  split; [apply parse_tool_input_safe|].
  unfold parse_tool_input, model_validate. destruct (validate_fields raw) as [w|] eqn:Ew; cycle 1.
  { left. eexists. split; [done|]. intros w (content' & raw' & [= <-] & Hr & Hw). congruence. }
  right. exists w. split; [by exists content, raw|]. cbn [mbind option_bind].
  set (v := set_confidence _ w). destruct (known_technique_rest v) as (Es & Ea & Efc).
  destruct (limit_kill_rest (known_technique v)) as (Es' & Et' & Ec' & Etac).
  rewrite Es', Et', Ec', Etac, Es, Efc. split; [done|].
  assert (rationale (limit_kill (known_technique v)) = rationale w /\
    mitre_tactic (known_technique v) = mitre_tactic w) as [-> ->].
  { unfold limit_kill, known_technique. destruct (is_known_technique _), (_ && _); done. }
  split; [done|]. split; [done|]. split; [done|]. split.
  { unfold known_technique. by destruct (is_known_technique _) eqn:Ek; cbn [set_technique mitre_technique]; rewrite ?Ek. }
  split.
  - unfold limit_kill. destruct (bool_decide_reflect (action (known_technique v) = KILL)) as [Hk|Hk].
    + cbn [andb]. destruct (_ || _); [right|left; done]. split; [by rewrite Ea in Hk|done].
    + left. exact Ea.
  - rewrite limit_kill_action, Ea, Es, Efc. done.
Qed.

Lemma engine_authority event v :
  evaluate event = Ret v ->
  (exists reason, v = fallback_verdict reason) \/
  exists w, answered event w /\ severity v = severity w /\
    confidence v = clamp_confidence (confidence w) /\
    (action v = KILL <-> action w = KILL /\ severity w = CRITICAL /\
       SFltb (clamp_confidence (confidence w)) (kill_confidence_floor settings) = false).
Proof.
  intros E. pose proof (evaluate_cases event) as He. rewrite E in He.
  destruct He as (_ & [(reason & -> & _)|(w & Hw & Es & _ & _ & Ec & _ & _ & Hk)]); [left; by eexists|].
  right. exists w. by split_and!.
Qed.

(** C10: the authority boundary of the service.  For every event and every
    behaviour of the model, a verdict the engine returns has a technique of
    the closed list, a confidence that is a number between 0 and 1, and says
    "kill" only if the model's own answer said so with severity critical
    and a confidence not below the configured floor.  Without a valid answer
    the verdict is exactly the medium alert; with one it is the model's,
    with at most the technique replaced by NONE and a kill turned into an
    alert.  An exception escapes only if the model's client raised one that
    is not an [APIError]. *)
Theorem verdict_authority event :
  match evaluate event with
  | Raise e => e <> APIError /\ exists text, call_model event = inr (e, text)
  | Ret v =>
      safe_verdict v /\
      ((exists reason, v = fallback_verdict reason /\ forall w, ~ answered event w) \/
       exists w, answered event w /\
         severity v = severity w /\ rationale v = rationale w /\ mitre_tactic v = mitre_tactic w /\
         confidence v = clamp_confidence (confidence w) /\
         mitre_technique v = (if is_known_technique (mitre_technique w) then mitre_technique w else NONE_TECHNIQUE) /\
         (action v = action w \/ action w = KILL /\ action v = ALERT) /\
         (action v = KILL <-> action w = KILL /\ severity w = CRITICAL /\
            SFltb (clamp_confidence (confidence w)) (kill_confidence_floor settings) = false))
  end.
Proof. apply evaluate_cases. Qed.

(** A confidence that is not a number counts as certainty.  The
    validator that should keep it in range turns NaN into 1, so a critical
    kill with such a confidence passes every floor up to 1. *)
Lemma nan_confidence_is_certain raw w :
  validate_fields raw = Some w -> action w = KILL -> severity w = CRITICAL -> confidence w = S754_nan ->
  SFltb float_one (kill_confidence_floor settings) = false ->
  action (parse_tool_input raw) = KILL /\ confidence (parse_tool_input raw) = float_one.
Proof.
  intros Hv Ha Hs Hc Hf. unfold parse_tool_input, model_validate. rewrite Hv. cbn [mbind option_bind].
  rewrite Hc, clamp_nan. destruct (known_technique_rest (set_confidence float_one w)) as (Es & Ea & Ec).
  split.
  - apply limit_kill_action. by rewrite Es, Ea, Ec.
  - destruct (limit_kill_rest (known_technique (set_confidence float_one w))) as (_ & _ & -> & _). exact Ec.
Qed.

End engine.

(** With the default floor of 0.85. *)
Lemma nan_confidence_is_certain_witness :
  let w := mkVerdict CRITICAL KILL (bs "T1059") (bs "Execution") S754_nan [] in
  let v := parse_tool_input default_settings (fun _ => Some w) json.JNull in
  action v = KILL /\ confidence v = float_one.
Proof.
  apply (nan_confidence_is_certain default_settings
    (fun _ => Some (mkVerdict CRITICAL KILL (bs "T1059") (bs "Execution") S754_nan [])) json.JNull
    (mkVerdict CRITICAL KILL (bs "T1059") (bs "Execution") S754_nan [])); [done..|by vm_compute].
Defined.

End threathunter.
