(* ===== verification/Prompts.v ===== *)
(** * What the threat hunter asks ([hunter/llm_engine.py], [hunter/mitre.py])

    The system prompt with the reference list of techniques, the tool's
    schema, the user prompt made of an event, and the request they form.
    The Anthropic client is a parameter. *)
From Stdlib Require Import ZArith Lia Floats.SpecFloat.
From Stdlib Require Import Strings.Byte Strings.String.
From stdpp Require Import base list sets.
From S2P Require Import Prelude GoTime Json JsonFacts GoIO AppendLog GoLog PyJson ThreatHunter.
Import json pyjson threathunter.
#[local] Open Scope Z_scope.

Module prompts.

(** ** [mitre.py] *)

(** A line separator between the items: [str.join] on a newline. *)
Fixpoint join_lines (ls : list gostring) : gostring :=
  match ls with
  | [] => []
  | [l] => l
  | l :: ls' => l ++ newline :: join_lines ls'
  end.

Definition reference_line (t : gostring * gostring) : gostring := bs "- " ++ t.1 ++ bs ": " ++ t.2.

Definition prompt_reference_block : gostring :=
  join_lines ((reference_line <$> TECHNIQUES) ++
    [bs "- " ++ NONE_TECHNIQUE ++ bs ": no corresponding technique -- benign activity"]).

(** ** [llm_engine.py] *)

Definition system_prompt : gostring :=
  join_lines
    [bs "You are the automated threat-hunting brain of a Linux eBPF endpoint-detection pipeline. You " ++
     bs "receive one process-execution event, captured at the sys_enter_execve syscall boundary, and " ++
     bs "must classify it.";
     [];
     bs "Ground your classification in this MITRE ATT&CK (Enterprise) technique set. Prefer one of " ++
     bs "these IDs, or '" ++
     NONE_TECHNIQUE ++
     bs "' if the activity is benign:";
     prompt_reference_block;
     [];
     bs "Guidance:";
     bs "- Most process execution on a normal Linux host is benign: package managers, editors, shell " ++
     bs "built-ins, CI runners, ordinary admin work. Default to severity=benign/low and " ++
     bs "action=monitor or ignore unless the evidence is specific.";
     bs "- Weigh the full argument list, not just the binary name. An interpreter running a short " ++
     bs "inline script that opens a raw socket, or a chmod that flips +x on a file immediately after " ++
     bs "it was written into a world-writable temp directory, are much stronger signals than a binary" ++
     bs " name in isolation.";
     bs "- Reserve action='kill' for severity='critical' cases where you have high confidence (>0.85)" ++
     bs " this is active, ongoing exploitation -- e.g. a shell spawned with its stdin/stdout wired to" ++
     bs " a network socket (a classic reverse shell pattern), or execution from a hidden path " ++
     bs "immediately following a permission change that made it executable. A human reviews every " ++
     bs "'alert' action; only bypass that review for genuinely unambiguous cases.";
     bs "- Be calibrated: do not report confidence above 0.85 unless the argument list gives you " ++
     bs "specific, unambiguous evidence, not just a suspicious binary name.";
     bs "- Call emit_threat_verdict exactly once, with your final answer.";
     []].

(** The tool the model is made to call. *)
Definition severities : list Severity := [BENIGN; LOW; MEDIUM; HIGH; CRITICAL].
Definition actions : list Action := [IGNORE; MONITOR; ALERT; KILL].

Definition str (s : string) : value := py_str (bs s).
Definition string_type : value := JObj [(bs "type", str "string")].

Definition required_fields : list gostring :=
  [bs "severity"; bs "action"; bs "mitre_technique"; bs "mitre_tactic"; bs "confidence"; bs "rationale"].

Definition verdict_properties : list (gostring * value) :=
  [(bs "severity", JObj [(bs "type", str "string"); (bs "enum", JArr (py_str <$> (severity_value <$> severities)))]);
   (bs "action",
     JObj [(bs "type", str "string"); (bs "enum", JArr (py_str <$> (action_value <$> actions)));
           (bs "description", py_str
             (bs "'kill' only for severity='critical' with high confidence this is " ++
              bs "active, ongoing exploitation -- not a plausible-but-unconfirmed " ++
              bs "administrative action."))]);
   (bs "mitre_technique",
     JObj [(bs "type", str "string");
           (bs "description", str "A technique ID from the reference list in the system prompt, or 'NONE'.")]);
   (bs "mitre_tactic", string_type);
   (bs "confidence", JObj [(bs "type", str "number"); (bs "minimum", py_int 0); (bs "maximum", py_int 1)]);
   (bs "rationale",
     JObj [(bs "type", str "string"); (bs "description", str "One or two sentences, analyst-readable.")])].

Definition VERDICT_TOOL : value :=
  JObj [(bs "name", py_str tool_name);
        (bs "description", py_str
          (bs "Report the final security assessment of a single Linux " ++
           bs "process-execution event. Call this exactly once, as your final action."));
        (bs "input_schema",
          JObj [(bs "type", str "object"); (bs "properties", JObj verdict_properties);
                (bs "required", JArr (py_str <$> required_fields))])].

Definition event_dict (event : ExecEvent) : list (gostring * value) :=
  [(bs "pid", py_int (pid event)); (bs "uid", py_int (uid event)); (bs "comm", py_str (comm event));
   (bs "filename", py_str (filename event)); (bs "args", JArr (py_str <$> args event));
   (bs "command_line", py_str (command_line event)); (bs "truncated", JBool (truncated event))].

Definition user_prompt (event : ExecEvent) : gostring := dumps 0 (JObj (event_dict event)).

(** [client.messages.create]'s arguments. *)
Record Request := mkRequest {
  request_model : gostring;
  request_max_tokens : Z;
  system : gostring;
  tools : list value;
  tool_choice : value;
  messages : list (gostring * gostring)
}.

Section call.
Context (settings : Settings).
Context (create : Request -> list block + exn * gostring).

Definition call_model (event : ExecEvent) : list block + exn * gostring :=
  create (mkRequest (model settings) (max_tokens settings) system_prompt [VERDICT_TOOL]
    (JObj [(bs "type", str "tool"); (bs "name", py_str tool_name)]) [(bs "user", user_prompt event)]).

End call.

(** ** Reading the prompt *)

Lemma event_dict_pyvalue event : pyvalue (JObj (event_dict event)).
Proof.
  apply py_dict. repeat (apply Forall_cons; split; [split; [by vm_compute|]|]); [..|apply Forall_nil; done];
    cbn [snd]; try (by constructor).
  apply py_list, Forall_fmap, Forall_true. intros s. apply py_string.
Qed.

(** The part of an event the prompt is about. *)
Definition described (event : ExecEvent) :=
  (pid event, uid event, comm event, filename event, args event, command_line event, truncated event).

(** Python's strings have no invalid UTF-8. *)
Definition valid_strings (event : ExecEvent) : Prop :=
  Forall (fun s => to_valid s = s) (comm event :: filename event :: command_line event :: args event).

Lemma user_prompt_reads event t : delimited t -> next_value (user_prompt event ++ t) = Some (JObj (event_dict event), t).
Proof. apply next_value_denotes, dumps_denotes, event_dict_pyvalue. Qed.

Lemma args_inj l l' :
  Forall (fun s => to_valid s = s) l -> Forall (fun s => to_valid s = s) l' ->
  py_str <$> l = py_str <$> l' -> l = l'.
Proof.
  intros Hl. revert l'. induction Hl as [|s l Hs _ IH]; intros [|s' l'] Hl' E; try done.
  apply Forall_cons in Hl' as [Hs' Hl']. rewrite !fmap_cons in E. injection E as _ E1 E2.
  rewrite Hs, Hs' in E1. subst s'. f_equal. by apply IH.
Qed.

Lemma event_dict_inj event event' :
  valid_strings event -> valid_strings event' -> event_dict event = event_dict event' -> described event = described event'.
Proof.
  unfold valid_strings, event_dict, described. rewrite !Forall_cons. intros (H1 & H2 & H3 & H4) (H1' & H2' & H3' & H4') E.
  injection E as Ep Eu _ Ec _ Ef Ea _ El Et.
  rewrite H1, H1' in Ec. rewrite H2, H2' in Ef. rewrite H3, H3' in El.
  apply (args_inj _ _ H4 H4') in Ea. rewrite (py_int_inj (pid event) (pid event')), (py_int_inj (uid event) (uid event')).
  - congruence.
  - unfold py_int. by rewrite Eu.
  - unfold py_int. by rewrite Ep.
Qed.

(** The user prompt says exactly what the event says, whatever strings
    the process chose.  It is printable ASCII and line feeds; read as JSON
    it is one object, nothing after it, with the seven fields of the event;
    and two events have the same prompt only if they agree on all seven. *)
Lemma user_prompt_faithful event event' :
  valid_strings event -> valid_strings event' ->
  next_value (user_prompt event) = Some (JObj (event_dict event), []) /\
  Forall plain_text (user_prompt event) /\
  (user_prompt event = user_prompt event' <-> described event = described event').
Proof.
  intros Hv Hv'. pose proof (user_prompt_reads event [] I) as E. rewrite app_nil_r in E.
  pose proof (user_prompt_reads event' [] I) as E'. rewrite app_nil_r in E'.
  split; [done|]. split; [apply dumps_plain, event_dict_pyvalue|]. split.
  - intros Eq. rewrite Eq, E' in E. apply event_dict_inj; [done..|].
    exact (f_equal (fun r => match r with Some (JObj ms, _) => ms | _ => [] end) (eq_sym E)).
  - unfold described. intros [= ? ? ? ? ? ? ?]. unfold user_prompt, event_dict. by f_equal; congruence.
Qed.

(** ** The reference list *)

Fixpoint split_lines (acc s : gostring) : list gostring :=
  match s with
  | [] => [acc]
  | c :: s' => if decide (c = newline) then acc :: split_lines [] s' else split_lines (acc ++ [c]) s'
  end.

(** The identifier a line of the list is for. *)
Fixpoint before_colon (s : gostring) : gostring :=
  match s with [] => [] | c :: s' => if decide (c = colon) then [] else c :: before_colon s' end.

Definition listed_ids (block : gostring) : list gostring := (fun l => before_colon (drop 2 l)) <$> split_lines [] block.

Lemma reference_block_ids : listed_ids prompt_reference_block = TECHNIQUES.*1 ++ [NONE_TECHNIQUE].
Proof. by vm_compute. Qed.

(** The model is shown exactly the identifiers the service accepts of
    it. *)
Lemma reference_block_is_known t : is_known_technique t = true <-> t ∈ listed_ids prompt_reference_block.
Proof.
  rewrite reference_block_ids, elem_of_app, list_elem_of_singleton. unfold is_known_technique.
  rewrite orb_true_iff, !bool_decide_eq_true. tauto.
Qed.

(** The list is part of the system prompt. *)
Lemma system_prompt_has_the_list : prompt_reference_block `prefix_of` drop 341 system_prompt.
Proof. by exists (drop (length prompt_reference_block) (drop 341 system_prompt)); vm_compute. Qed.

(** So whatever the model does, the technique of a verdict is one the model
    was shown. *)
Lemma verdict_technique_listed settings validate create event v :
  evaluate settings validate (call_model settings create) event = Ret v ->
  mitre_technique v ∈ listed_ids prompt_reference_block.
Proof.
  intros E. pose proof (evaluate_cases settings validate (call_model settings create) event) as H.
  rewrite E in H. apply reference_block_is_known. apply H.
Qed.

(** The schema asks for the values the validation takes. *)
Lemma tool_enumerations :
  (forall s, severity_value s ∈ severity_value <$> severities) /\ (forall a, action_value a ∈ action_value <$> actions).
Proof. split; [intros []|intros []]; apply (bool_decide_unpack _); by vm_compute. Qed.



(** An event whose command line tries to leave its string. *)
Definition sample_exec : ExecEvent :=
  mkExecEvent [] 4242 4242 1000 1000 (bs "bash") (bs "/tmp/x") [bs "x"; quote :: bs ", 1]}" ++ [newline]] 2 false
    (bs "/tmp/x " ++ quote :: bs ", 1]}" ++ [newline; xc3; xa9]).

Lemma user_prompt_faithful_witness :
  next_value (user_prompt sample_exec) = Some (JObj (event_dict sample_exec), []) /\
  user_prompt sample_exec =
    bs "{" ++ [newline] ++
    bs "  " ++ quoted (bs "pid") ++ bs ": 4242," ++ [newline] ++
    bs "  " ++ quoted (bs "uid") ++ bs ": 1000," ++ [newline] ++
    bs "  " ++ quoted (bs "comm") ++ bs ": " ++ quoted (bs "bash") ++ bs "," ++ [newline] ++
    bs "  " ++ quoted (bs "filename") ++ bs ": " ++ quoted (bs "/tmp/x") ++ bs "," ++ [newline] ++
    bs "  " ++ quoted (bs "args") ++ bs ": [" ++ [newline] ++
    bs "    " ++ quoted (bs "x") ++ bs "," ++ [newline] ++
    bs "    " ++ quoted (bs "\" ++ [quote] ++ bs ", 1]}\n") ++ [newline] ++ bs "  ]," ++ [newline] ++
    bs "  " ++ quoted (bs "command_line") ++ bs ": " ++
      quoted (bs "/tmp/x \" ++ [quote] ++ bs ", 1]}\n\u00e9") ++ bs "," ++ [newline] ++
    bs "  " ++ quoted (bs "truncated") ++ bs ": false" ++ [newline] ++ bs "}".
Proof.
  split; [|by vm_compute]. apply (user_prompt_faithful sample_exec sample_exec).
  all: repeat (apply Forall_cons; split; [by vm_compute|]); by apply Forall_nil.
Defined.

End prompts.
