(* ===== verification/EndToEnd.v ===== *)
(** * From the kernel to the model

    The sensor, the record it submits, the broker's decoder and JSON, the
    service's prompt, composed: what the language model is told of an
    [execve] is what the kernel saw of it.  FastAPI's reading of the request
    is a parameter with its documented behaviour. *)
From Stdlib Require Import ZArith Lia Floats.SpecFloat.
From Stdlib Require Import Strings.Byte Strings.String.
From stdpp Require Import base list gmap.
From S2P Require Import Prelude GoStrings Events Wire Decoding Sensor SensorFacts GoTime Json JsonFacts GoIO AppendLog EventJson.
From S2P Require Import PyJson ThreatHunter Prompts.
Import json pyjson sensor.
#[local] Open Scope Z_scope.

Module endtoend.

(** ** Between the broker and the service *)

(** The event as the service's model holds it: the text of its time stamp,
    its strings without invalid UTF-8. *)
Definition exec_event (t : gostring) (ev : events.Event) : threathunter.ExecEvent :=
  threathunter.mkExecEvent t (events.PID ev) (events.TID ev) (events.UID ev) (events.GID ev)
    (to_valid (events.Comm ev)) (to_valid (events.Filename ev)) (to_valid <$> events.Args ev) (events.Argc ev)
    (events.Truncated ev) (to_valid (events.CommandLine ev)).

(** A body that is one JSON object with the declared fields is read as
    them. *)
Definition reads (parse_request : list byte -> option threathunter.ExecEvent) : Prop :=
  forall b t ev, eventjson.typed ev -> next_value b = Some (JObj (eventjson.event_members t ev), []) ->
    parse_request b = Some (exec_event t ev).

(** ** The composition *)

Lemma marshalled_request parse zone ev b :
  reads parse -> eventjson.marshal_event zone ev = Some b -> exists t, parse b = Some (exec_event t ev).
Proof.
  intros Hreads (t & Ht & Hty & ->)%eventjson.marshal_event_Some. exists t. apply Hreads; [done|].
  pose proof (next_value_print (JObj (eventjson.event_members t ev)) []) as E. rewrite app_nil_r in E.
  apply E; [by eapply eventjson.event_printable|done].
Qed.

(** What is said of an event, field by field: its strings without invalid
    UTF-8. *)
Definition told_of (repair : gostring -> gostring) (ev : events.Event) : list (gostring * value) :=
  [(bs "pid", py_int (events.PID ev)); (bs "uid", py_int (events.UID ev));
   (bs "comm", py_str (repair (events.Comm ev))); (bs "filename", py_str (repair (events.Filename ev)));
   (bs "args", JArr (py_str <$> (repair <$> events.Args ev)));
   (bs "command_line", py_str (repair (events.CommandLine ev))); (bs "truncated", JBool (events.Truncated ev))].

Definition told : events.Event -> list (gostring * value) := told_of to_valid.

(** All the strings of an event are UTF-8. *)
Definition clean_strings (ev : events.Event) : Prop :=
  Forall (fun s => to_valid s = s) (events.Comm ev :: events.Filename ev :: events.CommandLine ev :: events.Args ev).

Lemma told_clean ev : clean_strings ev -> told ev = told_of id ev.
Proof.
  intros [Hc [Hf [Hl Ha]%Forall_cons]%Forall_cons]%Forall_cons. unfold told, told_of, id. rewrite Hc, Hf, Hl.
  do 4 f_equal. f_equal. f_equal. f_equal. f_equal. induction Ha as [|s l E _ IH]; [done|]. rewrite !fmap_cons. by rewrite E, IH.
Qed.

(** C11: the model is told what the kernel saw.  For every [execve] the
    sensor submits a record of, the broker's request for the decoded event
    is read by the service, and the prompt made of it is one JSON object
    with the process and user ids, the comm, the file name, the arguments,
    the command line and the truncation flag as the helpers reported them,
    but for bytes that are not UTF-8, each of which is replaced by U+FFFD;
    when all the strings are UTF-8 they arrive as they are.  Nothing a
    process puts into those strings adds to the object, removes from it or
    follows it. *)
Theorem kernel_to_model parse zone boot h extra :
  helpers_ok h -> reserve h = true -> reads parse -> Z.abs zone < 1440 -> 0 <= boot < 2 ^ 63 ->
  exists record ev body event,
    try_sys_enter_execve h = Some record /\ events.Decode boot (wire.to_bytes record ++ extra) = Ok ev /\
    ev = observed boot h /\
    eventjson.marshal_event zone ev = Some body /\ parse body = Some event /\
    next_value (prompts.user_prompt event) = Some (JObj (told (observed boot h)), []) /\
    (clean_strings (observed boot h) -> told (observed boot h) = told_of id (observed boot h)) /\
    Forall plain_text (prompts.user_prompt event).
Proof.
  intros Hh Hr Hreads Hz Hb. destruct (submitted_decodes boot h extra Hh Hr) as (e & Es & _ & _ & Ed).
  destruct (eventjson.decoded_marshalable zone boot _ _ Hz Hb Ed) as [b Em].
  destruct (marshalled_request parse zone _ b Hreads Em) as [t Ep].
  exists e, (observed boot h), b, (exec_event t (observed boot h)). split_and!; try done.
  - pose proof (prompts.user_prompt_reads (exec_event t (observed boot h)) [] I) as E. by rewrite app_nil_r in E.
  - apply told_clean.
  - apply dumps_plain, prompts.event_dict_pyvalue.
Qed.

(** ** A reader *)

Definition int_of (v : value) : option Z := match v with JNum lit => parse_uint 64 lit | _ => None end.
Definition str_of (v : value) : option gostring := match v with JStr _ s => Some s | _ => None end.
Definition bool_of (v : value) : option bool := match v with JBool b => Some b | _ => None end.
Definition strs_of (v : value) : option (list gostring) := match v with JArr vs => mapM str_of vs | _ => None end.

(** A reader of the declared fields, given in order. *)
Definition sample_reader (b : list byte) : option threathunter.ExecEvent :=
  match next_value b with
  | Some (JObj [(_, ts); (_, p); (_, ti); (_, u); (_, g); (_, c); (_, f); (_, a); (_, n); (_, tr); (_, cl)], []) =>
      ts ← str_of ts; p ← int_of p; ti ← int_of ti; u ← int_of u; g ← int_of g; c ← str_of c; f ← str_of f;
      a ← strs_of a; n ← int_of n; tr ← bool_of tr; cl ← str_of cl;
      Some (threathunter.mkExecEvent ts p ti u g c f a n tr cl)
  | _ => None
  end.

Lemma strs_of_strings l : strs_of (JArr (eventjson.json_string <$> l)) = Some (to_valid <$> l).
Proof. cbn [strs_of]. induction l as [|s l IH]; [done|]. rewrite !fmap_cons. cbn [mapM]. by rewrite IH. Qed.

Lemma int_of_uint w z : is_u w z -> w <= 64 -> int_of (eventjson.json_uint z) = Some z.
Proof.
  intros Hz Hw. apply parse_uint_decimal; [|done]. unfold is_u in Hz. split; [lia|].
  eapply Z.lt_le_trans; [apply Hz|]. apply Z.pow_le_mono_r; lia.
Qed.

Lemma sample_reader_reads : reads sample_reader.
Proof.
  intros b t ev (H1 & H2 & H3 & H4 & H5) E. unfold sample_reader. rewrite E. unfold eventjson.event_members.
  rewrite (int_of_uint 32 _ H1), (int_of_uint 32 _ H2), (int_of_uint 32 _ H3), (int_of_uint 32 _ H4),
    (int_of_uint 8 _ H5), strs_of_strings by done. reflexivity.
Qed.

Lemma kernel_to_model_witness :
  (exists record ev body event,
    try_sys_enter_execve (sample_helpers 4096) = Some record /\
    events.Decode 5 (wire.to_bytes record ++ []) = Ok ev /\ ev = observed 5 (sample_helpers 4096) /\
    eventjson.marshal_event 0 ev = Some body /\ sample_reader body = Some event /\
    next_value (prompts.user_prompt event) = Some (JObj (told (observed 5 (sample_helpers 4096))), []) /\
    (clean_strings (observed 5 (sample_helpers 4096)) ->
       told (observed 5 (sample_helpers 4096)) = told_of id (observed 5 (sample_helpers 4096))) /\
    Forall plain_text (prompts.user_prompt event)) /\
  told (observed 5 (sample_helpers 4096)) =
    [(bs "pid", py_int 77); (bs "uid", py_int 1000); (bs "comm", py_str (bs "bash")); (bs "filename", py_str (bs "/bin/cat"));
     (bs "args", JArr [py_str (bs "cat"); py_str (bs "a")]); (bs "command_line", py_str (bs "/bin/cat cat a"));
     (bs "truncated", JBool false)].
Proof.
  split; [|by vm_compute].
  apply (kernel_to_model sample_reader 0 5 (sample_helpers 4096) []);
    [apply user_helpers_ok|done|apply sample_reader_reads|done|done].
Defined.

End endtoend.
