(* ===== verification/Responder.v ===== *)
(** * The service's responder ([hunter/responder.py], [scripts/kill_pid.sh])

    [kill_pid] and its privileged fallback, over the process table at each
    moment they look at it: when the comm file is opened, when it is read,
    when the signal is sent, and at the three looks of the shell script.
    [/proc/<pid>/comm] holds the comm and a newline, as in [Hunter]. *)
From Stdlib Require Import ZArith Lia.
From Stdlib Require Import Strings.Byte Strings.String.
From stdpp Require Import base list gmap.
From S2P Require Import Prelude GoStrings GoTime Json JsonFacts GoIO AppendLog Hunter HunterFacts ThreatHunter.
#[local] Open Scope Z_scope.
#[local] Open Scope go_scope.

Module responder.
Import threathunter.

(** ** Reading a text file in Python *)

(** UTF-8, strictly: a byte that is not part of a character raises. *)
Fixpoint valid_utf8 (gs : list json.segment) : bool :=
  match gs with
  | [] => true
  | json.Rune _ :: gs' => valid_utf8 gs'
  | json.Invalid :: _ => false
  end.

Definition decode_text (b : list byte) : py gostring :=
  if valid_utf8 (json.segments b) then Ret b else Raise UnicodeDecodeError.

(** Text mode: CR and CR LF become LF. *)
Fixpoint universal_newlines (s : gostring) : gostring :=
  match s with
  | [] => []
  | x0d :: s1 =>
      match s1 with
      | x0a :: s2 => x0a :: universal_newlines s2
      | _ => x0a :: universal_newlines s1
      end
  | c :: s1 => c :: universal_newlines s1
  end.

Lemma valid_utf8_app a b :
  valid_utf8 (json.segments a) = true -> valid_utf8 (json.segments (a ++ b)) = valid_utf8 (json.segments b).
Proof.
  induction a as [|r a Hr IH|c a Hc IH] using segments_ind; [done| |].
  - rewrite <- app_assoc, !segments_rune by done. exact IH.
  - by rewrite Hc.
Qed.

(** What is not a character does not become one before an ASCII
    character. *)
Lemma invalid_utf8_app a c b :
  json.ascii c = true -> valid_utf8 (json.segments a) = false -> valid_utf8 (json.segments (a ++ c :: b)) = false.
Proof.
  intros Hc. induction a as [|r a Hr IH|x a Hx _] using segments_ind; [done| |].
  - rewrite <- app_assoc, !segments_rune by done. exact IH.
  - intros _. enough (stray x (a ++ c :: b)) as E by (cbn [app]; by rewrite E).
    unfold stray in *.
    assert (json.cont c = false /\ json.between 160 191 c = false /\ json.between 128 159 c = false /\
      json.between 144 191 c = false /\ json.between 128 143 c = false) as (E1 & E2 & E3 & E4 & E5)
      by (destruct c; done).
    destruct a as [|d [|e [|f a]]]; cbn [app json.segments] in *; (destruct (json.ascii x); [done|]);
      unfold json.utf8_2, json.utf8_3, json.utf8_4 in *; rewrite ?E1, ?E2, ?E3, ?E4, ?E5, ?andb_false_r in *;
      cbn [orb andb] in *; rewrite ?andb_false_r in *; repeat case_match; done.
Qed.

(** [str.strip]: Go's white space and the four separators U+001C to
    U+001F. *)
Definition py_space (c : byte) : bool :=
  strings.space1 c || match c with x1c | x1d | x1e | x1f => true | _ => false end.

Fixpoint trim_front (sp2 : byte -> byte -> bool) (sp3 : byte -> byte -> byte -> bool) (s : gostring) : gostring :=
  match s with
  | [] => []
  | c :: s1 =>
      if py_space c then trim_front sp2 sp3 s1
      else
        match s1 with
        | [] => s
        | d :: s2 =>
            if sp2 c d then trim_front sp2 sp3 s2
            else match s2 with
                 | [] => s
                 | e :: s3 => if sp3 c d e then trim_front sp2 sp3 s3 else s
                 end
        end
  end.

Definition strip (s : gostring) : gostring :=
  rev (trim_front strings.rspace2 strings.rspace3 (rev (trim_front strings.space2 strings.space3 s))).

(** ** The processes, look by look *)

(** The tables [kill_pid] and then the script meet. *)
Record looks := mkLooks {
  at_open : hunter.procs;
  at_read : hunter.procs;
  at_kill : hunter.procs;
  at_script_test : hunter.procs;
  at_script_read : hunter.procs;
  at_script_kill : hunter.procs
}.

Definition unchanged (ps : hunter.procs) : looks := mkLooks ps ps ps ps ps ps.

(** [open(f"/proc/{pid}/comm").read().strip()] *)
Definition current_comm (pid : Z) (l : looks) : py gostring :=
  match at_open l !! pid with
  | None => Raise FileNotFoundError
  | Some _ =>
      match hunter.read_comm (at_read l) pid with
      | None => Raise ProcessLookupError
      | Some b =>
          match decode_text b with
          | Ret s => Ret (strip (universal_newlines s))
          | Raise e => Raise e
          end
      end
  end.

Section responder.
(** Which pids the service may signal itself, and which the script run as
    root may. *)
Context (allowed root_allowed : Z -> bool).

(** ** [kill_pid.sh] *)

Definition numeric (s : gostring) : bool := bool_decide (s <> []) && forallb json.is_digit s.

(** [tr -d '\n'], the command substitution having no more newlines to
    strip. *)
Definition without_newlines (b : list byte) : gostring := filter (fun c => c <> newline) b.

(** What a script leaves: its exit status, what it has written, and the
    processes. *)
Record finished := mkFinished {
  returncode : Z;
  stdout : list byte;
  stderr : list byte;
  procs_after : hunter.procs
}.

Definition line (s : gostring) : list byte := s ++ [newline].

(** What [tr] and [kill] write when they fail; the shell then ends with
    status 1. *)
Context (tr_says kill_says : list byte).

(** For the [pid] argument [text] standing for [pid]. *)
Definition kill_script (text : gostring) (pid : Z) (expected_comm : gostring) (l : looks) : finished :=
  let ps := at_script_kill l in
  if negb (numeric text) then mkFinished 2 [] (line (bs "error: pid must be numeric, got: " ++ text)) ps
  else if pid <=? 1 then
    mkFinished 3 [] (line (bs "error: refusing to touch pid " ++ text ++ bs " (init/invalid)")) ps
  else
    match hunter.read_comm (at_script_test l) pid with
    | None => mkFinished 0 (line (bs "info: pid " ++ text ++ bs " already exited, nothing to do")) [] ps
    | Some _ =>
        match hunter.read_comm (at_script_read l) pid with
        | None => mkFinished 1 [] tr_says ps
        | Some b =>
            let current_comm := without_newlines b in
            if bool_decide (current_comm <> expected_comm) then
              mkFinished 4 [] (line (bs "error: comm mismatch for pid " ++ text ++ bs " (expected '" ++ expected_comm ++
                bs "', found '" ++ current_comm ++ bs "') -- possible PID reuse, refusing to kill")) ps
            else match hunter.sigkill root_allowed ps pid with
                 | Ok ps => mkFinished 0 (line (bs "killed pid " ++ text ++ bs " (comm=" ++ current_comm ++ bs ")")) [] ps
                 | _ => mkFinished 1 [] kill_says ps
                 end
        end
    end.

(** ** [_kill_via_script] *)

(** What [subprocess.run] does with sudo: runs the script, is refused with
    some status and message, is not installed, times out with the script's
    work done ([ran]) or not, or cannot be executed. *)
Inductive sudo : Type :=
  | SudoRuns
  | SudoRefuses (returncode : Z) (stderr : list byte)
  | SudoMissing
  | SudoTimesOut (ran : bool)
  | SudoNotExecutable.

(** [text=True]: both outputs are decoded when the command has ended. *)
Definition readable (f : finished) : bool :=
  valid_utf8 (json.segments (stdout f)) && valid_utf8 (json.segments (stderr f)).

(** No argument of a command can hold a NUL. *)
Definition passable (s : gostring) : bool := forallb (fun c => negb (bool_decide (c = x00))) s.

(** The answer once the command has ended. *)
Definition answer (f : finished) : py bool * hunter.procs :=
  (if readable f then Ret (returncode f =? 0) else Raise UnicodeDecodeError, procs_after f).

Definition kill_via_script (su : sudo) (text : gostring) (pid : Z) (expected_comm : gostring) (l : looks)
    : py bool * hunter.procs :=
  if negb (passable expected_comm) then (Raise ValueError, at_script_kill l)
  else
    match su with
    | SudoRuns => answer (kill_script text pid expected_comm l)
    | SudoRefuses rc err => answer (mkFinished rc [] err (at_script_kill l))
    | SudoMissing => (Ret false, at_script_kill l)
    | SudoTimesOut ran =>
        (Ret false, if ran then procs_after (kill_script text pid expected_comm l) else at_script_kill l)
    | SudoNotExecutable => (Raise PermissionError, at_script_kill l)
    end.

(** ** [kill_pid] *)

(** [str(pid)] *)
Definition pid_text (pid : Z) : gostring :=
  if pid <? 0 then dash :: GoTime.decimal (- pid) else GoTime.decimal pid.

(** [os.kill] takes a C [int]. *)
Definition is_c_int (pid : Z) : bool := (- 2 ^ 31 <=? pid) && (pid <? 2 ^ 31).

Definition kill_pid (su : sudo) (pid : Z) (expected_comm : gostring) (l : looks)
    : py bool * hunter.procs :=
  match current_comm pid l with
  | Raise FileNotFoundError => (Ret false, at_kill l)
  | Raise e => (Raise e, at_kill l)
  | Ret current =>
      if bool_decide (current <> expected_comm) then (Ret false, at_kill l)
      else if negb (is_c_int pid) then (Raise OverflowError, at_kill l)
      else
        match at_kill l !! pid with
        | None => (Ret false, at_kill l)
        | Some _ =>
            if allowed pid then (Ret true, delete pid (at_kill l))
            else kill_via_script su (pid_text pid) pid expected_comm l
        end
  end.

(** ** What [kill_pid] can do *)

(** Nothing of its own doing; the death of the process whose comm it has
    just read; or, through the script, of one whose comm the script has
    read. *)
Inductive killed (pid : Z) (expected : gostring) (l : looks) : hunter.procs -> Prop :=
  | k_nothing : killed pid expected l (at_kill l)
  | k_script_nothing : killed pid expected l (at_script_kill l)
  | k_direct : current_comm pid l = Ret expected -> allowed pid = true -> is_Some (at_kill l !! pid) ->
      killed pid expected l (delete pid (at_kill l))
  | k_script b : 1 < pid -> allowed pid = false -> root_allowed pid = true ->
      current_comm pid l = Ret expected ->
      hunter.read_comm (at_script_read l) pid = Some b -> without_newlines b = expected ->
      is_Some (at_script_kill l !! pid) -> killed pid expected l (delete pid (at_script_kill l)).

Lemma kill_script_killed text pid expected l :
  allowed pid = false -> current_comm pid l = Ret expected ->
  killed pid expected l (procs_after (kill_script text pid expected l)).
Proof.
  intros Ha Hc. unfold kill_script. destruct (negb _); [constructor|].
  destruct (Z.leb_spec pid 1); [constructor|].
  destruct (hunter.read_comm (at_script_test l) pid); [|constructor].
  destruct (hunter.read_comm (at_script_read l) pid) as [b|] eqn:Hb; [|constructor].
  case_bool_decide as Hne; [constructor|]. unfold hunter.sigkill.
  destruct (at_script_kill l !! pid) as [q|] eqn:Hq; [|constructor].
  destruct (root_allowed pid) eqn:Hr; [|constructor].
  eapply k_script; [lia|done|done|done|exact Hb| |by eexists].
  by destruct (decide (without_newlines b = expected)).
Qed.

Lemma pid_text_numeric pid : 0 <= pid < 2 ^ 64 -> numeric (pid_text pid) = true.
Proof.
  intros Hp. unfold numeric, pid_text. destruct (Z.ltb_spec pid 0); [lia|].
  apply andb_true_iff. split.
  - apply bool_decide_eq_true. unfold decimal. intros E. apply (f_equal length) in E.
    rewrite length_digits in E. destruct (width_pos pid) as [w Hw]. rewrite Hw in E. done.
  - apply forallb_forall. intros c Hc%list_elem_of_In. pose proof (decimal_digits pid) as Hd.
    eapply Forall_forall in Hd; [|exact Hc]. done.
Qed.

Lemma ascii_valid s : Forall (fun c => json.ascii c = true) s -> valid_utf8 (json.segments s) = true.
Proof.
  induction 1 as [|c s Hc _ IH]; [done|]. change (c :: s) with ([c] ++ s). rewrite valid_utf8_app; [done|].
  cbn [json.segments]. by rewrite Hc.
Qed.

Lemma pid_text_valid pid : valid_utf8 (json.segments (pid_text pid)) = true.
Proof.
  apply ascii_valid. assert (forall z, Forall (fun c => json.ascii c = true) (decimal z)) as Hd.
  { intros z. eapply Forall_impl; [apply decimal_digits|]. intros c Hc%between_spec. apply ascii_lead. lia. }
  unfold pid_text. destruct (pid <? 0); [by constructor|done].
Qed.

(** A finished script that has killed has written text, so its answer is
    True. *)
Lemma script_that_kills text pid expected l :
  valid_utf8 (json.segments text) = true -> valid_utf8 (json.segments expected) = true ->
  procs_after (kill_script text pid expected l) = at_script_kill l \/
  readable (kill_script text pid expected l) = true.
Proof.
  intros Ht He. unfold kill_script. destruct (negb _); [by left|]. destruct (pid <=? 1); [by left|].
  destruct (hunter.read_comm (at_script_test l) pid); [|by left].
  destruct (hunter.read_comm (at_script_read l) pid) as [b|]; [|by left].
  case_bool_decide as Hne; [by left|]. destruct (hunter.sigkill _ _ _); [|by left..]. right.
  assert (without_newlines b = expected) as -> by by destruct (decide (without_newlines b = expected)).
  unfold readable, line. cbn [stdout stderr]. rewrite andb_true_r, <- !app_assoc.
  rewrite !valid_utf8_app by done. done.
Qed.

(** Raised by [_kill_via_script]. *)
Definition script_raises (su : sudo) (pid : Z) (expected : gostring) (l : looks) (e : exn) : Prop :=
  passable expected = false /\ e = ValueError \/
  passable expected = true /\
    (su = SudoNotExecutable /\ e = PermissionError \/
     su = SudoRuns /\ readable (kill_script (pid_text pid) pid expected l) = false /\ e = UnicodeDecodeError \/
     (exists rc err, su = SudoRefuses rc err /\ valid_utf8 (json.segments err) = false) /\ e = UnicodeDecodeError).

Lemma kill_via_script_raises su pid expected l e :
  (kill_via_script su (pid_text pid) pid expected l).1 = Raise e <-> script_raises su pid expected l e.
Proof.
  unfold kill_via_script, script_raises, answer. destruct (passable expected); cbn [negb].
  - destruct su as [|rc err| |ran|]; cbn [fst].
    + destruct (readable _); naive_solver.
    + unfold readable. cbn [stdout stderr json.segments valid_utf8 andb].
      destruct (valid_utf8 (json.segments err)) eqn:Ev; naive_solver congruence.
    + naive_solver.
    + naive_solver.
    + naive_solver.
  - naive_solver.
Qed.

Lemma kill_via_script_killed su pid expected l :
  allowed pid = false -> current_comm pid l = Ret expected ->
  killed pid expected l (kill_via_script su (pid_text pid) pid expected l).2.
Proof.
  intros Ha Ec. pose proof (kill_script_killed (pid_text pid) pid expected l Ha Ec) as Hk.
  unfold kill_via_script, answer. destruct (negb _); [constructor|].
  destruct su as [|rc err| |[]|]; cbn [snd procs_after]; first [exact Hk | constructor].
Qed.

Lemma raise_without_kill su pid expected l e :
  valid_utf8 (json.segments expected) = true ->
  (kill_via_script su (pid_text pid) pid expected l).1 = Raise e ->
  (kill_via_script su (pid_text pid) pid expected l).2 = at_script_kill l.
Proof.
  intros Hv. unfold kill_via_script, answer. destruct (negb _); [done|].
  destruct su as [|rc err| |ran|]; cbn [fst snd procs_after]; try done.
  destruct (script_that_kills (pid_text pid) pid expected l (pid_text_valid pid) Hv) as [->| ->]; done.
Qed.


(** [kill_pid] up to the script. *)
Lemma kill_pid_by_script su pid expected l :
  - 2 ^ 31 <= pid < 2 ^ 31 -> current_comm pid l = Ret expected -> is_Some (at_kill l !! pid) ->
  allowed pid = false -> kill_pid su pid expected l = kill_via_script su (pid_text pid) pid expected l.
Proof.
  intros Hp Hc [q Hq] Ha. unfold kill_pid. rewrite Hc, bool_decide_false by tauto.
  unfold is_c_int. rewrite (proj2 (Z.leb_le _ _)), (proj2 (Z.ltb_lt _ _)) by lia. cbn [andb negb]. by rewrite Hq, Ha.
Qed.

(** The script's status 0 does not mean that anything died.  If the
    service may not signal the process itself and the process exits before
    the script tests its comm file, the script exits 0 without a kill and
    [kill_pid] returns True. *)
Lemma exited_process_reported_killed pid expected l :
  1 < pid < 2 ^ 31 -> current_comm pid l = Ret expected -> is_Some (at_kill l !! pid) ->
  allowed pid = false -> passable expected = true -> at_script_test l !! pid = None ->
  kill_pid SudoRuns pid expected l = (Ret true, at_script_kill l).
Proof.
  intros Hp Hc Hq Ha Hpass Ht. rewrite kill_pid_by_script by (done || lia). unfold kill_via_script, kill_script.
  rewrite Hpass, pid_text_numeric by lia. cbn [negb]. destruct (Z.leb_spec pid 1); [lia|].
  unfold hunter.read_comm. rewrite Ht. cbn [fmap option_fmap option_map]. unfold answer, readable, line.
  cbn [stdout stderr returncode procs_after]. rewrite andb_true_r, <- !app_assoc.
  by rewrite !valid_utf8_app by (done || apply pid_text_valid).
Qed.

(** A process that has become another one, with a comm that is not UTF-8,
    when the script looks: the script refuses and says so, and what it says
    cannot be read. *)
Lemma script_message_raises pid expected l b :
  1 < pid < 2 ^ 31 -> current_comm pid l = Ret expected -> is_Some (at_kill l !! pid) ->
  allowed pid = false -> passable expected = true -> valid_utf8 (json.segments expected) = true ->
  is_Some (at_script_test l !! pid) -> hunter.read_comm (at_script_read l) pid = Some b ->
  valid_utf8 (json.segments (without_newlines b)) = false ->
  kill_pid SudoRuns pid expected l = (Raise UnicodeDecodeError, at_script_kill l).
Proof.
  intros Hp Hc Hq Ha Hpass Hv [q Ht] Hb Hnv. rewrite kill_pid_by_script by (done || lia).
  unfold kill_via_script, kill_script.
  rewrite Hpass, pid_text_numeric by lia. cbn [negb]. destruct (Z.leb_spec pid 1); [lia|].
  rewrite Hb. unfold hunter.read_comm at 1. rewrite Ht. cbn [fmap option_fmap option_map].
  rewrite bool_decide_true by congruence. unfold answer, readable, line. cbn [stdout stderr returncode procs_after].
  rewrite <- !app_assoc. rewrite !valid_utf8_app by (done || apply pid_text_valid).
  change (bs "') -- possible PID reuse, refusing to kill") with (x27 :: bs ") -- possible PID reuse, refusing to kill").
  by rewrite <- app_comm_cons, invalid_utf8_app.
Qed.

(** ** Beside the broker's responder *)

(** A comm file both read alike: UTF-8 without the bytes that only Python
    treats as white space or rewrites. *)
Definition plain (c : byte) : bool :=
  match c with x0d | x1c | x1d | x1e | x1f => false | _ => true end.

Definition plain_text (b : list byte) : Prop :=
  valid_utf8 (json.segments b) = true /\ forallb plain b = true.

Lemma plain_newlines s : forallb plain s = true -> universal_newlines s = s.
Proof.
  induction s as [|c s IH]; [done|]. cbn [forallb]. intros [Hc Hs]%andb_true_iff.
  destruct c; try done; cbn [universal_newlines]; by rewrite IH.
Qed.

Lemma plain_space c : plain c = true -> py_space c = strings.space1 c.
Proof. by destruct c. Qed.

(** Both trims drop the same bytes, and drop bytes only. *)
Lemma trim_plain sp2 sp3 s :
  forallb plain s = true ->
  trim_front sp2 sp3 s = strings.trim_with sp2 sp3 s /\
  forallb plain (strings.trim_with sp2 sp3 s) = true.
Proof.
  remember (length s) as n eqn:Hn. revert s Hn. induction (lt_wf n) as [n _ IH]. intros s -> Hs.
  assert (forall t, (length t < length s)%nat -> forallb plain t = true ->
    trim_front sp2 sp3 t = strings.trim_with sp2 sp3 t /\
    forallb plain (strings.trim_with sp2 sp3 t) = true) as IH' by eauto.
  clear IH. destruct s as [|c s1]; [done|]. pose proof Hs as Hall. cbn [forallb] in Hs.
  apply andb_true_iff in Hs as [Hc Hs1]. cbn [trim_front strings.trim_with]. rewrite plain_space by done.
  destruct (strings.space1 c); [apply IH'; [simpl; lia|done]|].
  destruct s1 as [|d s2]; [done|]. cbn [forallb] in Hs1. apply andb_true_iff in Hs1 as [Hd Hs2].
  destruct (sp2 c d); [apply IH'; [simpl; lia|done]|].
  destruct s2 as [|e s3]; [done|]. cbn [forallb] in Hs2. apply andb_true_iff in Hs2 as [He Hs3].
  destruct (sp3 c d e); [apply IH'; [simpl; lia|done]|done].
Qed.

Lemma plain_rev s : forallb plain s = true -> forallb plain (rev s) = true.
Proof. rewrite !forallb_forall. intros Hs c Hc%in_rev. by apply Hs. Qed.

Lemma strip_plain s : forallb plain s = true -> strip s = strings.TrimSpace s.
Proof.
  intros Hs. unfold strip, strings.TrimSpace, strings.TrimRightSpace, strings.TrimLeftSpace.
  destruct (trim_plain strings.space2 strings.space3 s Hs) as [-> Hl]. f_equal.
  by apply trim_plain, plain_rev.
Qed.

(** C34: two responders with the privilege to signal agree.  For a pid above
    1 that is a C int, a comm file that both languages read alike and a
    service that may signal the process itself, [kill_pid] kills exactly
    when the broker's [KillProcess] does, the same process, and returns True
    exactly when that succeeds.  (Without the privilege [KillProcess] fails
    where [kill_pid] turns to the script.) *)
Theorem responders_agree su pid expected ps ps' s1 s2 s3 :
  1 < pid < 2 ^ 31 -> allowed pid = true ->
  (forall b, hunter.read_comm ps pid = Some b -> plain_text b) ->
  kill_pid su pid expected (mkLooks ps ps ps' s1 s2 s3) =
    match hunter.KillProcess allowed pid expected ps ps' with
    | Ok killed => (Ret true, killed)
    | _ => (Ret false, ps')
    end.
Proof.
  intros Hp Ha Hpl. unfold kill_pid, hunter.KillProcess, current_comm. cbn [at_open at_read at_kill].
  destruct (Z.leb_spec pid 1); [lia|].
  destruct (ps !! pid) as [q|] eqn:Hq; cycle 1.
  { unfold hunter.read_comm. by rewrite Hq. }
  assert (hunter.read_comm ps pid = Some (hunter.p_comm q ++ [newline])) as Hb
    by (unfold hunter.read_comm; by rewrite Hq).
  rewrite Hb. destruct (Hpl _ Hb) as [Hv Hf]. unfold decode_text. rewrite Hv.
  rewrite plain_newlines, strip_plain by done.
  case_bool_decide; [done|]. unfold is_c_int.
  rewrite (proj2 (Z.leb_le _ _)), (proj2 (Z.ltb_lt _ _)) by lia. cbn [andb negb].
  unfold hunter.sigkill. destruct (ps' !! pid); [|done]. by rewrite Ha.
Qed.

(** No guard for pid 1.  Asked to kill the init process under its own
    comm, the broker's responder refuses; the service's does it. *)
Lemma init_is_not_refused su q comm l :
  at_open l !! 1 = Some q -> at_read l = at_open l -> is_Some (at_kill l !! 1) ->
  plain_text (hunter.p_comm q ++ [newline]) -> allowed 1 = true ->
  strings.TrimSpace (hunter.p_comm q ++ [newline]) = comm ->
  kill_pid su 1 comm l = (Ret true, delete 1 (at_kill l)) /\
  hunter.KillProcess allowed 1 comm (at_read l) (at_kill l) = Err hunter.ErrRefused.
Proof.
  intros Ho Er [q' Hk] [Hv Hf] Ha <-. split; [|done].
  unfold kill_pid, current_comm. rewrite Er, Ho. unfold hunter.read_comm. rewrite Ho. cbn [fmap option_fmap option_map].
  unfold decode_text. rewrite Hv, plain_newlines, strip_plain by done.
  rewrite bool_decide_false by tauto. cbn [is_c_int negb]. rewrite Hk, Ha. done.
Qed.

(** A comm that is not UTF-8 raises. *)
Lemma undecodable_comm_raises su pid expected l b :
  is_Some (at_open l !! pid) -> hunter.read_comm (at_read l) pid = Some b ->
  valid_utf8 (json.segments b) = false ->
  kill_pid su pid expected l = (Raise UnicodeDecodeError, at_kill l).
Proof.
  intros [q Hq] Hb Hv. unfold kill_pid, current_comm. rewrite Hq, Hb. unfold decode_text. by rewrite Hv.
Qed.

End responder.
(** ** Examples *)

#[local] Abbreviation bash_procs := ({[ 4242 := hunter.mkProc (bs "bash") 7 ]} : hunter.procs).

Lemma exited_process_reported_killed_witness :
  kill_pid (fun _ => false) (fun _ => true) [] [] SudoRuns 4242 (bs "bash")
    (mkLooks bash_procs bash_procs bash_procs ∅ ∅ ∅) = (Ret true, ∅).
Proof.
  apply (exited_process_reported_killed (fun _ => false) (fun _ => true) [] [] 4242 (bs "bash")
    (mkLooks bash_procs bash_procs bash_procs ∅ ∅ ∅)); [lia|by vm_compute|by eexists|done|done|done].
Defined.

Lemma responders_agree_witness :
  kill_pid (fun _ => true) (fun _ => true) [] [] SudoMissing 4242 (bs "bash") (unchanged bash_procs) =
    (Ret true, delete 4242 bash_procs).
Proof.
  unfold unchanged. rewrite (responders_agree (fun _ => true) (fun _ => true) [] [] SudoMissing 4242 (bs "bash") bash_procs bash_procs
    bash_procs bash_procs bash_procs); [by vm_compute|lia|done|].
  intros b Hb. assert (b = bs "bash" ++ [newline]) as -> by (vm_compute in Hb; by simplify_eq). by split; vm_compute.
Defined.

Definition init_procs : hunter.procs := {[ 1 := hunter.mkProc (bs "systemd") 0 ]}.

Lemma init_is_not_refused_witness :
  kill_pid (fun _ => true) (fun _ => true) [] [] SudoMissing 1 (bs "systemd") (unchanged init_procs) =
    (Ret true, delete 1 init_procs) /\
  hunter.KillProcess (fun _ => true) 1 (bs "systemd") init_procs init_procs = Err hunter.ErrRefused.
Proof.
  apply (init_is_not_refused (fun _ => true) (fun _ => true) [] [] SudoMissing (hunter.mkProc (bs "systemd") 0)
    (bs "systemd") (unchanged init_procs)); [done|done|by eexists|by split; vm_compute|done|by vm_compute].
Defined.

(** The pid now belongs to a process called 0xff. *)
Definition strange_procs : hunter.procs := {[ 4242 := hunter.mkProc [xff] 9 ]}.

Lemma script_message_raises_witness :
  kill_pid (fun _ => false) (fun _ => true) [] [] SudoRuns 4242 (bs "bash")
    (mkLooks bash_procs bash_procs bash_procs strange_procs strange_procs strange_procs) =
  (Raise UnicodeDecodeError, strange_procs).
Proof.
  apply (script_message_raises (fun _ => false) (fun _ => true) [] [] 4242 (bs "bash")
    (mkLooks bash_procs bash_procs bash_procs strange_procs strange_procs strange_procs) [xff; newline]);
    [lia|by vm_compute|by eexists|done|done|by vm_compute|by eexists|by vm_compute|by vm_compute].
Defined.

End responder.
