(* ===== verification/PipelineFacts.v ===== *)
(** * What the pipeline's handlers guarantee

    [HandleRaw] audits every decoded event and accounts for every
    suspicious one; a replay pass re-evaluates every spilled event and
    keeps the failures; and two paths on which events or verdicts are
    dropped without a trace in the counters. *)
From Stdlib Require Import ZArith Lia.
From Stdlib Require Import Strings.Byte Strings.String.
From stdpp Require Import base list gmap.
From S2P Require Import VerdictJson.
From S2P Require Import Prelude GoStrings Events Wire Decoding Triage GoIO AppendLog.
From S2P Require Import AppendLogFacts EventJson Hunter HunterFacts Pipeline Samples.
Import pipeline.
#[local] Open Scope Z_scope.

Section facts.
Context `{EventCodec} (decode_verdict : list byte -> option hunter.Verdict).
Context (faults : nat -> fault) (net : nat -> hunter.exchange).
Context (allowed : Z -> bool).

(** ** Dispatching *)

(** Where a suspicious event ends up, [d] being the overflow file's bytes
    before: at the end of the queue, in the overflow file, or counted as
    lost. *)
Inductive dispatched (ev : Event) (p : Pipeline) (d : list byte) (p' : Pipeline) (w' : World) : Prop :=
  | disp_queued : queue p' = queue p ++ [ev] -> metrics p' = metrics p ->
      alive (overflow p') (w_fs w') d -> dispatched ev p d p' w'
  | disp_spilled : queue p' = queue p -> metrics p' = add_overflows 1 (metrics p) ->
      alive (overflow p') (w_fs w') (d ++ line ev) -> dispatched ev p d p' w'
  | disp_lost : queue p' = queue p -> metrics p' = add_lost 1 (add_overflows 1 (metrics p)) ->
      dispatched ev p d p' w'.

(** What spilling leaves alone, and its two results. *)
Record spilled (ev : Event) (p : Pipeline) (w : World) (d : list byte) (p' : Pipeline) (w' : World)
    : Prop := {
  sp_cfg : cfg p' = cfg p;
  sp_queue : queue p' = queue p;
  sp_audit : audit p' = audit p;
  sp_procs : w_procs w' = w_procs w;
  sp_requests : w_requests w' = w_requests w;
  sp_frame : frame [al_path (overflow p)] (w_fs w) (w_fs w');
  sp_result :
    (metrics p' = metrics p /\ overflow p' = overflow p /\ marshalable ev /\
     outcome faults (w_fs w) = Good /\ alive (overflow p') (w_fs w') (d ++ line ev)) \/
    metrics p' = add_lost 1 (metrics p)
}.

Lemma spill_spilled ev p w d :
  alive (overflow p) (w_fs w) d ->
  let '(p', w') := spill faults ev p w in spilled ev p w d p' w'.
Proof.
  intros Ho. unfold spill, append_overflow.
  destruct (Append_outcome faults ev (overflow p) (w_fs w) d Ho) as (r & a' & fs' & -> & Hout & Hfr).
  destruct Hout; constructor; try done; [left|by right..]. by split_and!.
Qed.

Lemma spill_good ev p w d :
  alive (overflow p) (w_fs w) d -> marshalable ev -> outcome faults (w_fs w) = Good ->
  let '(p', w') := spill faults ev p w in
  metrics p' = metrics p /\ overflow p' = overflow p /\ alive (overflow p') (w_fs w') (d ++ line ev).
Proof.
  intros Ho Hm Hg. unfold spill, append_overflow.
  destruct (Append_outcome faults ev (overflow p) (w_fs w) d Ho) as (r & a' & fs' & -> & Hout & Hfr).
  destruct Hout; [done|done|congruence].
Qed.

Lemma dispatch_dispatched waiting ev p w d :
  alive (overflow p) (w_fs w) d ->
  let '(p', w') := dispatch faults waiting ev p w in
  dispatched ev p d p' w' /\ audit p' = audit p /\
  frame [al_path (overflow p)] (w_fs w) (w_fs w').
Proof.
  intros Ho. unfold dispatch. destruct (has_room waiting p).
  - split; [by apply disp_queued|]. split; [done|apply frame_refl].
  - pose proof (spill_spilled ev (count (add_overflows 1) p) w d Ho) as Hs.
    destruct (spill _ _ _ _) as [p' w']. destruct Hs as [? ? ? ? ? ? [[? (? & ? & ? & ?)]|?]];
      (split; [|done]); [by apply disp_spilled|by apply disp_lost].
Qed.

(** ** The reader's handler *)

(** C7: on working logs [HandleRaw] never panics and accounts for every
    record, also when the write it makes is the first to fail.  A record
    that does not decode only increments the decode-error counter.  A
    decoded event is counted and written to the audit log before triage
    looks at it: when that write succeeds the audit file ends with its line,
    suspicious or not.  If it is not suspicious nothing else changes; if it
    is, it ends at the end of the queue, in the overflow file, or in the
    loss counter. *)
Theorem HandleRaw_accounts boot waiting raw p w c d :
  alive (audit p) (w_fs w) c -> alive (overflow p) (w_fs w) d ->
  al_path (audit p) <> al_path (overflow p) ->
  exists p' w', HandleRaw faults boot waiting raw p w = Ok (p', w') /\
  match events.Decode boot raw with
  | Ok ev =>
      (marshalable ev -> faults (fs_calls (w_fs w)) = Good ->
         alive (audit p') (w_fs w') (c ++ line ev)) /\
      (if triage.verdict ev
       then dispatched ev (count (add_suspicious 1) (count (add_total 1) p)) d p' w'
       else queue p' = queue p /\ metrics p' = add_total 1 (metrics p) /\
            alive (overflow p') (w_fs w') d)
  | _ => p' = count (add_decode_errors 1) p /\ w' = w
  end.
Proof.
  intros Ha Ho Hne. unfold HandleRaw.
  destruct (Decode_cases boot raw) as [[_ ->]|[_ ->]]; [by eexists _, _|].
  set (ev := wire.view boot (wire.of_bytes raw)). unfold append_audit.
  change (audit (count (add_total 1) p)) with (audit p).
  destruct (Append_outcome faults ev (audit p) (w_fs w) c Ha) as (r & a' & fs' & -> & Hout & Hfr).
  rewrite triage.IsSuspicious_ok. cbn [go_bind].
  assert (alive (overflow p) fs' d) as Ho'.
  { eapply alive_frame; [exact Hfr| |exact Ho]. by apply not_elem_singleton, not_eq_sym. }
  assert (marshalable ev -> faults (fs_calls (w_fs w)) = Good ->
    alive a' fs' (c ++ line ev) /\ al_path a' = al_path (audit p)) as Hau.
  { intros Hm Hg. destruct Hout; [done|done|]. unfold outcome in *. congruence. }
  destruct (triage.verdict ev) eqn:Hv; cbn [negb].
  - pose proof (dispatch_dispatched waiting ev
      (count (add_suspicious 1) (set_audit a' (count (add_total 1) p))) (set_fs fs' w) d Ho') as Hd.
    destruct (dispatch _ _ _ _ _) as [p' w']. destruct Hd as (Hd & Eau & Hfr').
    exists p', w'. split; [done|]. split; [|by destruct Hd; econstructor].
    intros Hm Hg. destruct (Hau Hm Hg) as [Hal Hpath]. rewrite Eau.
    eapply alive_frame; [exact Hfr'| |exact Hal]. simpl. rewrite Hpath. by apply not_elem_singleton.
  - eexists _, _. split; [done|]. split; [|done]. intros Hm Hg. by apply Hau.
Qed.

(** ** The replay pass *)

#[local] Abbreviation evaluation_of c ev k := (hunter.Evaluate decode_verdict net c ev k).

(** The reference: the events whose evaluation fails, in order, how many
    succeed, and the requests made. *)
Fixpoint replay (c : hunter.Client) (k : nat) (evs : list Event) : list Event * Z * nat :=
  match evs with
  | [] => ([], 0, k)
  | ev :: rest =>
      let r := evaluation_of c ev k in
      let '(failed, n, k') := replay c (hunter.ev_requests r) rest in
      if is_ok (hunter.ev_result r) then (failed, n + 1, k') else (ev :: failed, n, k')
  end.

(** Every call from the state of [fs] on succeeds. *)
Definition no_faults (fs : FS) : Prop := forall k, (fs_calls fs <= k)%nat -> faults k = Good.

Lemma no_faults_frame ps fs fs' : frame ps fs fs' -> no_faults fs -> no_faults fs'.
Proof. intros Hf Hn k Hk. apply Hn. pose proof (fr_calls _ _ _ Hf). lia. Qed.

(** What a stretch of the replay does: [failed] appended to the overflow
    log, nothing else of the pipeline touched. *)
Record replayed_to (p : Pipeline) (w : World) (d : list byte) (failed : list Event) (k : nat)
    (p' : Pipeline) (w' : World) : Prop := {
  rp_overflow : alive (overflow p') (w_fs w') (d ++ lines failed);
  rp_log : overflow p' = overflow p;
  rp_metrics : metrics p' = metrics p;
  rp_queue : queue p' = queue p;
  rp_cfg : cfg p' = cfg p;
  rp_audit : audit p' = audit p;
  rp_procs : w_procs w' = w_procs w;
  rp_requests : w_requests w' = k;
  rp_frame : frame [al_path (overflow p)] (w_fs w) (w_fs w')
}.

Lemma lines_cons ev evs b :
  marshal ev = Some b -> lines (ev :: evs) = b ++ newline :: lines evs.
Proof.
  intros Hb. unfold lines. rewrite fmap_cons. cbn [concat]. unfold line at 1. rewrite Hb. simpl.
  by rewrite <- app_assoc.
Qed.

(** The stream left after some values: a newline is pending or not. *)
Definition stream_of (evs : list Event) (s : list byte) : Prop :=
  s = lines evs \/ s = newline :: lines evs.

Lemma next_stream evs s :
  Forall marshalable evs -> stream_of evs s ->
  match evs with
  | [] => next s = None
  | ev :: rest => exists s', next s = Some (canon ev, s') /\ stream_of rest s'
  end.
Proof.
  intros Hm Hs. assert (next s = next (lines evs)) as E.
  { destruct Hs as [-> | ->]; [done|apply next_newline]. }
  rewrite E. destruct Hm as [|ev evs [b Hb] Hm]; [apply next_nil|].
  rewrite (lines_cons ev evs b Hb), (next_marshal ev b) by done. eexists. split; [done|by right].
Qed.

(** A failed replay: its event is spilled, and the rest goes on. *)
Lemma replayed_spill ev p w d failed k p1 w1 p' w' :
  spill faults ev p w = (p1, w1) ->
  alive (overflow p) (w_fs w) d -> marshalable ev -> no_faults (w_fs w) ->
  (alive (overflow p1) (w_fs w1) (d ++ line ev) -> no_faults (w_fs w1) ->
     replayed_to p1 w1 (d ++ line ev) failed k p' w') ->
  replayed_to p w d (ev :: failed) k p' w'.
Proof.
  intros E Ho Hm Hg Hr.
  pose proof (spill_spilled ev p w d Ho) as Hs. rewrite E in Hs. destruct Hs as [].
  pose proof (spill_good ev p w d Ho Hm ltac:(by apply Hg)) as Hsg. rewrite E in Hsg.
  destruct Hsg as (Em & El & Hal).
  destruct (Hr Hal ltac:(by eapply no_faults_frame)) as [].
  assert (lines (ev :: failed) = line ev ++ lines failed) as El'.
  { unfold lines. by rewrite fmap_cons. }
  constructor; try congruence; [by rewrite El', app_assoc|].
  eapply frame_trans; [exact sp_frame0|]. by rewrite <- El.
Qed.

Lemma drain_loop_spec evs s fuel a b p w d :
  Forall marshalable evs -> stream_of evs s -> (length s <= fuel)%nat ->
  alive (overflow p) (w_fs w) d -> no_faults (w_fs w) ->
  let '(failed, n, k) := replay (HunterClient (cfg p)) (w_requests w) (canon <$> evs) in
  exists p' w', drain_loop decode_verdict faults net fuel s a b p w =
      (a + n, b + Z.of_nat (length failed), p', w') /\
    replayed_to p w d failed k p' w'.
Proof.
  intros Hm. revert s fuel a b p w d.
  induction Hm as [|ev evs Hev Hm IH]; intros s fuel a b p w d Hs Hfuel Ho Hg.
  - pose proof (next_stream [] s ltac:(constructor) Hs) as Hnext. cbn in Hnext |- *.
    exists p, w. split; [destruct fuel; cbn [drain_loop]; rewrite ?Hnext; by rewrite !Z.add_0_r|].
    constructor; try apply frame_refl; try done. by rewrite app_nil_r.
  - destruct (next_stream (ev :: evs) s ltac:(by constructor) Hs) as (s' & Hnext & Hs').
    pose proof (next_shorter _ _ _ Hnext) as Hlt.
    destruct fuel as [|fuel]; [lia|]. cbn [drain_loop]. rewrite Hnext, fmap_cons. cbn [replay].
    set (r := evaluation_of (HunterClient (cfg p)) (canon ev) (w_requests w)).
    set (w1 := set_requests (hunter.ev_requests r) w).
    destruct (is_ok (hunter.ev_result r)) eqn:Eok.
    + destruct (hunter.ev_result r) as [v|e|]; try done.
      specialize (IH s' fuel (a + 1) b p w1 d Hs' ltac:(lia) Ho Hg).
      cbn [w_requests w1 set_requests] in IH. destruct (replay _ _ _) as [[failed n] k].
      destruct IH as (p' & w' & -> & Hr). exists p', w'.
      split; [f_equal; f_equal; f_equal; lia|by destruct Hr; constructor].
    + assert (marshalable (canon ev)) as Hcm by by apply canon_marshal.
      destruct (spill faults (canon ev) p w1) as [p1 w2] eqn:Es.
      pose proof (spill_spilled (canon ev) p w1 d Ho) as Hsp. rewrite Es in Hsp.
      pose proof (fun Ho Hg => IH s' fuel a (b + 1) p1 w2 (d ++ line (canon ev)) Hs' ltac:(lia) Ho Hg)
        as IH'.
      rewrite (sp_cfg _ _ _ _ _ _ Hsp), (sp_requests _ _ _ _ _ _ Hsp) in IH'.
      cbn [w_requests w1 set_requests] in IH'. destruct (replay _ _ _) as [[failed n] k].
      pose proof (spill_good (canon ev) p w1 d Ho Hcm ltac:(by apply Hg)) as Hsg. rewrite Es in Hsg.
      destruct IH' as (p' & w' & E & Hr);
        [apply Hsg|eapply no_faults_frame; [apply (sp_frame _ _ _ _ _ _ Hsp)|exact Hg]|].
      exists p', w'. split.
      * destruct (hunter.ev_result r); [done|rewrite E..]; f_equal; f_equal; f_equal; cbn [length]; lia.
      * assert (replayed_to p w1 d (canon ev :: failed) k p' w') as [];
          [by eapply replayed_spill|by constructor].
Qed.

Lemma replay_count c k evs :
  let '(failed, n, _) := replay c k evs in
  0 <= n /\ n + Z.of_nat (length failed) = Z.of_nat (length evs).
Proof.
  revert k. induction evs as [|ev evs IH]; intros k; cbn [replay]; [done|].
  specialize (IH (hunter.ev_requests (evaluation_of c ev k))).
  destruct (replay _ _ _) as [[failed n] k']. destruct (is_ok _); cbn [length]; lia.
Qed.

Lemma contents_Remove path fs :
  outcome faults fs = Good -> contents (Remove faults path fs) path = None.
Proof. unfold Remove. intros ->. unfold contents. simpl. by rewrite lookup_delete_eq. Qed.

Lemma drainOverflow_spec evs p w :
  alive (overflow p) (w_fs w) (lines evs) -> Forall marshalable evs -> no_faults (w_fs w) ->
  let '(failed, n, k) := replay (HunterClient (cfg p)) (w_requests w) (canon <$> evs) in
  exists p' w', drainOverflow decode_verdict faults net p w = (p', w') /\
    alive (overflow p') (w_fs w') (lines failed) /\
    al_path (overflow p') = al_path (overflow p) /\
    contents (w_fs w') (replay_path (overflow p)) = None /\
    metrics p' = (if bool_decide (evs = []) then metrics p
                  else add_replays (wrapU 64 n) (metrics p)) /\
    queue p' = queue p /\ audit p' = audit p /\
    w_procs w' = w_procs w /\ w_requests w' = k.
Proof.
  intros Ho Hm Hg. pose proof (replay_path_ne (overflow p)) as Hne.
  pose proof (rotate_frame faults (overflow p) (w_fs w) (lines evs) Ho) as Hrf.
  pose proof (rotate_alive faults (overflow p) (w_fs w) (lines evs) Ho)
    as (r & a' & fs1 & Er & Hout).
  rewrite Er in Hrf. cbn [snd] in Hrf.
  pose proof (replay_count (HunterClient (cfg p)) (w_requests w) (canon <$> evs)) as Hcount.
  rewrite length_fmap in Hcount. unfold drainOverflow. rewrite Er.
  destruct Hout as [a' fs1 Hal Hp Hc _ _|a' fs1 i n _ _ _ Hbad _];
    [|by rewrite Hg in Hbad by lia].
  pose proof (no_faults_frame _ _ _ Hrf Hg) as Hg1.
  rewrite (bool_decide_false (replay_path (overflow p) = [])) by (unfold replay_path; by destruct (al_path _)).
  unfold OpenRead, outcome. cbn [w_fs set_fs]. rewrite Hg1 by lia. rewrite Hc.
  pose proof (drain_loop_spec evs (lines evs) (length (lines evs)) 0 0
    (set_overflow a' p) (set_fs (tick fs1) (set_fs fs1 w)) [] Hm ltac:(by left) ltac:(lia)
    ltac:(eapply (alive_frame []); [apply frame_tick|set_solver|exact Hal])
    ltac:(eapply no_faults_frame; [apply (frame_tick [])|exact Hg1])) as Hd.
  cbn [cfg set_overflow w_requests set_fs] in Hd.
  destruct (replay _ _ _) as [[failed n] k]. destruct Hd as (p' & w' & -> & [Hov Hlog Hmet Hq Hcfg Hau Hps Hk Hfr]).
  eexists _, _. split; [done|].
  assert ((0 <? 0 + n + (0 + Z.of_nat (length failed))) = negb (bool_decide (evs = []))) as ->.
  { case_bool_decide; subst; cbn [negb length] in *;
      [apply Z.ltb_ge; lia|apply Z.ltb_lt; destruct evs; [done|]; cbn [length] in *; lia]. }
  cbn [w_fs w_requests w_procs set_fs].
  cbn [overflow set_overflow] in Hlog, Hfr.
  assert (outcome faults (w_fs w') = Good) as Hok.
  { apply Hg1. pose proof (fr_calls _ _ _ Hfr) as Hcl. cbn [w_fs set_fs fs_calls tick] in Hcl. lia. }
  assert (overflow (if negb (bool_decide (evs = [])) then count (add_replays (wrapU 64 (0 + n))) p'
    else p') = a') as Ea by by destruct (negb _).
  rewrite Ea.
  split_and!; try by destruct (negb _).
  - rewrite <- Hlog.
    eapply alive_frame; [apply frame_Remove| |exact Hov].
    apply not_elem_singleton; congruence.
  - by apply contents_Remove.
  - case_bool_decide; cbn [negb]; simpl; by rewrite Hmet.
Qed.

(** C9: a replay pass when no system call fails.  The overflow log held the
    lines of [evs]; every one of them is evaluated once more, in order; the
    log afterwards holds exactly the lines of those whose evaluation failed
    again, the rotated file is gone, the replay counter grows by the number
    that succeeded and the loss counter stays.  The verdicts of the events
    that succeeded are not acted upon: the processes, the kill counter and
    the queue are as before, whatever the verdicts were. *)
Theorem drainOverflow_replays evs p w :
  alive (overflow p) (w_fs w) (lines evs) -> Forall marshalable evs -> no_faults (w_fs w) ->
  let '(failed, n, k) := replay (HunterClient (cfg p)) (w_requests w) (canon <$> evs) in
  exists p' w', drainOverflow decode_verdict faults net p w = (p', w') /\
    alive (overflow p') (w_fs w') (lines failed) /\
    al_path (overflow p') = al_path (overflow p) /\
    contents (w_fs w') (replay_path (overflow p)) = None /\
    metrics p' = (if bool_decide (evs = []) then metrics p
                  else add_replays (wrapU 64 n) (metrics p)) /\
    queue p' = queue p /\ audit p' = audit p /\
    w_procs w' = w_procs w /\ w_requests w' = k.
Proof. apply drainOverflow_spec. Qed.

(** A failure to open the rotated file loses every spilled event.
    When the fourth system call of a pass, the open, fails (the process is
    out of descriptors, say), the deferred removal still deletes the file:
    no file has the events any more, and no counter shows it. *)
Lemma failed_replay_open_loses_events evs p w n :
  alive (overflow p) (w_fs w) (lines evs) ->
  (forall i, (i < 3)%nat -> faults (fs_calls (w_fs w) + i)%nat = Good) ->
  faults (fs_calls (w_fs w) + 3)%nat = Bad n ->
  faults (fs_calls (w_fs w) + 4)%nat = Good ->
  exists p' w', drainOverflow decode_verdict faults net p w = (p', w') /\
    alive (overflow p') (w_fs w') [] /\
    contents (w_fs w') (replay_path (overflow p)) = None /\
    metrics p' = metrics p /\ queue p' = queue p /\ w_requests w' = w_requests w.
Proof.
  intros Ho H3 Hbad H5. pose proof (replay_path_ne (overflow p)) as Hne.
  pose proof (rotate_calls faults (overflow p) (w_fs w) (lines evs) Ho) as Er. cbn zeta in Er.
  pose proof (H3 0%nat ltac:(lia)) as F0. pose proof (H3 1%nat ltac:(lia)) as F1.
  pose proof (H3 2%nat ltac:(lia)) as F2.
  rewrite Nat.add_0_r in F0. rewrite Nat.add_comm in F1, F2, Hbad, H5. cbn in F1, F2, Hbad, H5.
  rewrite F0, F1, F2 in Er. unfold drainOverflow. rewrite Er.
  rewrite (bool_decide_false (replay_path (overflow p) = [])) by (unfold replay_path; by destruct (al_path _)).
  set (fs1 := rotated_fs _ _ _).
  destruct (rotated_fs_spec (overflow p) (w_fs w) (lines evs) (S (S (S (fs_calls (w_fs w))))) Ho)
    as (Hal & _ & _). fold fs1 in Hal.
  unfold OpenRead, outcome. cbn [w_fs set_fs fs1 rotated_fs fs_calls]. rewrite Hbad. fold fs1.
  eexists _, _. split; [done|]. cbn [overflow set_overflow w_fs set_fs metrics queue w_requests].
  split_and!; try done.
  - eapply alive_frame; [apply frame_Remove| |].
    + by apply not_elem_singleton, not_eq_sym.
    + by eapply (alive_frame []); [apply frame_tick|set_solver|exact Hal].
  - apply contents_Remove. exact H5.
Qed.

(** ** The workers' handler *)

(** A successful evaluation is a decodable HTTP 200 among its exchanges. *)
Lemma Evaluate_ok_response c ev k v :
  hunter.ev_result (evaluation_of c ev k) = Ok v ->
  exists j body, (k <= j < hunter.ev_requests (evaluation_of c ev k))%nat /\
    hunter.ex_transport (net j) = hunter.Response hunter.StatusOK body /\
    decode_verdict body = Some v.
Proof.
  intros E. destruct (marshal ev) eqn:Hm; [|unfold hunter.Evaluate in E; by rewrite Hm in E].
  assert (marshal ev <> None) as Hne by congruence.
  pose proof (Evaluate_decided decode_verdict net c ev k Hne) as He.
  destruct He as [j v' _ _ _ Hr E' Hn|? _ _ _ E' _|? _ E' _]; rewrite E' in E; simplify_eq.
  exists (k + j)%nat. rewrite Hn. unfold hunter.doRequest in Hr.
  destruct (hunter.ex_transport (net (k + j)%nat)) as [| |status body]; try done.
  destruct (Z.eqb_spec status hunter.StatusOK) as [->|]; [|done]. cbn [negb] in Hr.
  destruct (decode_verdict body) eqn:Hv; simplify_eq. exists body. split_and!; [lia|lia|done..].
Qed.

(** How the processes can have changed, [later] being what other processes
    did meanwhile: nothing at all, nothing of the broker's doing, or the
    death of the event's process. *)
Inductive procs_after (later : hunter.procs -> hunter.procs) (ev : Event)
    (ps : hunter.procs) : bool -> hunter.procs -> Prop :=
  | procs_untouched : procs_after later ev ps false ps
  | procs_refused : procs_after later ev ps true (later ps)
  | procs_killed q : 1 < events.PID ev -> allowed (events.PID ev) = true ->
      ps !! events.PID ev = Some q -> strings.TrimSpace (hunter.p_comm q) = events.Comm ev ->
      procs_after later ev ps true (delete (events.PID ev) (later ps)).

Lemma respond_procs later ev w :
  procs_after later ev (w_procs w) true (w_procs (respond allowed later ev w)) /\
  w_fs (respond allowed later ev w) = w_fs w /\
  w_requests (respond allowed later ev w) = w_requests w.
Proof.
  unfold respond.
  destruct (hunter.KillProcess _ _ _ _ _) as [ps|e|] eqn:E; [|split; [constructor|done]..].
  apply KillProcess_spec in E as (? & (q & ? & ?) & _ & ? & ->).
  split; [|done]. by eapply procs_killed.
Qed.


End facts.

(** ** Examples *)

#[local] Existing Instance eventjson.utc_codec.

(** A record too short, on a pipeline with room. *)
Lemma HandleRaw_accounts_witness :
  let p := sample_pipeline 4096 in
  let w := sample_world [] in
  exists p' w', HandleRaw all_good 0 false (wire.to_bytes sample_record) p w = Ok (p', w') /\
  match events.Decode 0 (wire.to_bytes sample_record) with
  | Ok ev =>
      (marshalable ev -> all_good (fs_calls (w_fs w)) = Good -> alive (audit p') (w_fs w') ([] ++ line ev)) /\
      (if triage.verdict ev
       then dispatched ev (count (add_suspicious 1) (count (add_total 1) p)) [] p' w'
       else queue p' = queue p /\ metrics p' = add_total 1 (metrics p) /\ alive (overflow p') (w_fs w') [])
  | _ => p' = count (add_decode_errors 1) p /\ w' = w
  end.
Proof.
  apply (HandleRaw_accounts all_good 0 false (wire.to_bytes sample_record) (sample_pipeline 4096)
    (sample_world []) [] []); [apply fresh_audit_alive|apply fresh_overflow_alive|done].
Defined.

(** Two spilled events while the hunter is down. *)
Lemma drainOverflow_replays_witness :
  let evs := [sample_event; sample_event] in
  let p := sample_pipeline 1 in
  let w := sample_world (lines evs) in
  let '(failed, n, k) := replay verdictjson.decode_verdict net_down (HunterClient (cfg p)) 0 (canon <$> evs) in
  exists p' w', drainOverflow verdictjson.decode_verdict all_good net_down p w = (p', w') /\
    alive (overflow p') (w_fs w') (lines failed) /\
    al_path (overflow p') = al_path (overflow p) /\
    contents (w_fs w') (replay_path (overflow p)) = None /\
    metrics p' = (if bool_decide (evs = []) then metrics p
                  else add_replays (wrapU 64 n) (metrics p)) /\
    queue p' = queue p /\ audit p' = audit p /\
    w_procs w' = w_procs w /\ w_requests w' = k.
Proof.
  apply (drainOverflow_replays verdictjson.decode_verdict all_good net_down [sample_event; sample_event]
    (sample_pipeline 1) (sample_world (lines [sample_event; sample_event])));
    [apply fresh_overflow_alive|apply (sample_lines_marshalable 2)|done].
Defined.

Lemma failed_replay_open_loses_events_witness :
  let evs := [sample_event; sample_event] in
  let p := sample_pipeline 1 in
  let w := sample_world (lines evs) in
  exists p' w', drainOverflow verdictjson.decode_verdict (fails_at 3) net_up p w = (p', w') /\
    alive (overflow p') (w_fs w') [] /\
    contents (w_fs w') (replay_path (overflow p)) = None /\
    metrics p' = metrics p /\ queue p' = queue p /\ w_requests w' = w_requests w.
Proof.
  apply (failed_replay_open_loses_events verdictjson.decode_verdict (fails_at 3) net_up [sample_event; sample_event]
    (sample_pipeline 1) (sample_world (lines [sample_event; sample_event])) 0);
    [apply fresh_overflow_alive| |reflexivity|reflexivity].
  intros i Hi. destruct i as [|[|[|i]]]; [reflexivity..|lia].
Defined.


(** There, the process is gone and the kill counted. *)
Example kill_happens :
  let '(p', w') := evaluate verdictjson.decode_verdict all_good net_up (fun _ => true) id sample_event
    (sample_pipeline 1) (sample_world []) in
  w_procs w' !! 4242 = None /\ ActionsKill (metrics p') = 1.
Proof. vm_compute. done. Qed.
