(* ===== verification/KillAuthority.v ===== *)
(** * Who can have a process killed

    The broker's worker, its HTTP client and verdict decoder, and the
    threat hunter service at the other end of the connection, composed: a
    signal is sent only if the model itself answered a critical kill with a
    confidence the service's floor admits, although the broker looks at the
    action alone.  And what a process can do about it.  FastAPI's rendering
    of a verdict is a parameter with its documented behaviour. *)
From Stdlib Require Import ZArith Lia Floats.SpecFloat.
From Stdlib Require Import Strings.Byte Strings.String.
From stdpp Require Import base list gmap.
From S2P Require Import Prelude GoStrings GoTime Json JsonFacts Events GoIO AppendLog AppendLogFacts EventJson.
From S2P Require Import Hunter HunterFacts VerdictJson Pipeline PipelineFacts Samples ThreatHunter Responder.
#[local] Open Scope Z_scope.
Import threathunter.

Module killauthority.

(** ** Between the service and the broker *)

Section rendering.
Context (render : Verdict -> list byte).

(** The response body is a JSON object with the model's fields, in order,
    enumerations by their values. *)
Definition renders : Prop := forall v, exists s1 s2 s3 s4 s5 lit,
  json.next_value (render v) =
    Some (json.JObj
      [(bs "severity", json.JStr s1 (severity_value (severity v)));
       (bs "action", json.JStr s2 (action_value (action v)));
       (bs "mitre_technique", json.JStr s3 (json.to_valid (mitre_technique v)));
       (bs "mitre_tactic", json.JStr s4 (json.to_valid (mitre_tactic v)));
       (bs "confidence", json.JNum lit);
       (bs "rationale", json.JStr s5 (json.to_valid (rationale v)))], []).

Context (Hrender : renders).

(** The broker decodes what the service says. *)
Lemma rendered_decodes v x :
  verdictjson.decode_verdict (render v) = Some x ->
  hunter.Severity x = severity_value (severity v) /\ hunter.Action x = action_value (action v).
Proof.
  destruct (Hrender v) as (s1 & s2 & s3 & s4 & s5 & lit & E).
  unfold verdictjson.decode_verdict. rewrite E. cbn [mbind option_bind].
  unfold verdictjson.verdict_of_value.
  set (sev := severity_value (severity v)). set (act := action_value (action v)).
  set (tech := json.to_valid (mitre_technique v)). set (tac := json.to_valid (mitre_tactic v)).
  set (rat := json.to_valid (rationale v)).
  change (verdictjson.set_members verdictjson.zero_verdict _) with
    (x' ← (c ← verdictjson.parse_float lit; Some (hunter.mkVerdict sev act tech tac c []));
     verdictjson.set_members x' [(bs "rationale", json.JStr s5 rat)]).
  destruct (verdictjson.parse_float lit) as [c|]; [|done]. cbn [mbind option_bind].
  change (verdictjson.set_members (hunter.mkVerdict sev act tech tac c []) [(bs "rationale", json.JStr s5 rat)]) with
    (Some (hunter.mkVerdict sev act tech tac c rat)).
  by intros [= <-].
Qed.

Lemma action_value_kill a : action_value a = hunter.ActionKill -> a = KILL.
Proof. by destruct a. Qed.

(** ** The service as the broker's network *)

Section composition.
Context `{EventCodec} (settings : Settings) (validate_fields : json.value -> option Verdict).
(** FastAPI's reading of a request body. *)
Context (parse_request : list byte -> option ExecEvent).

(** The request the broker sends for [ev], as the service reads it. *)
Definition requested (ev : Event) (event : ExecEvent) : Prop :=
  exists b, marshal ev = Some b /\ parse_request b = Some event.

(** What the model does when the service receives request [k]. *)
Context (call_model : nat -> ExecEvent -> list block + exn * gostring).

(** A response of status 200 to request [k], made for [ev], is the service's
    answer, whatever its responder does; anything else can be anybody's. *)
Definition served (ev : Event) (k : nat) (t : hunter.transport) : Prop :=
  match t with
  | hunter.Response status body =>
      status = hunter.StatusOK ->
      exists W (kill_pid : Z -> gostring -> W -> py bool * W) event w w' v,
        requested ev event /\
        app_evaluate settings validate_fields (call_model k) kill_pid event w = (Http200 v, w') /\
        body = render v
  | _ => True
  end.

(** The model's own answer to [event], given for request [k], authorises the
    kill in [v]. *)
Definition authorised (k : nat) (event : ExecEvent) (v : Verdict) : Prop :=
  exists answer,
    answered validate_fields (call_model k) event answer /\
    action answer = KILL /\ severity answer = CRITICAL /\
    SFltb (clamp_confidence (confidence answer)) (kill_confidence_floor settings) = false /\
    action v = KILL /\ severity v = CRITICAL /\
    confidence v = clamp_confidence (confidence answer).

Lemma engine_kill_authorised k event v :
  evaluate settings validate_fields (call_model k) event = Ret v -> action v = KILL -> authorised k event v.
Proof.
  intros He Hk. pose proof (engine_authority settings validate_fields (call_model k) event v He) as Hv.
  destruct Hv as [[reason ->]|(w & Hw & Es & Ec & Hkill)]; [done|].
  apply Hkill in Hk as Hk'. destruct Hk' as (Ha & Hs & Hf).
  exists w. split_and!; try done. by rewrite Es.
Qed.

Lemma served_kill_authorised ev k t body x :
  served ev k t -> t = hunter.Response hunter.StatusOK body ->
  verdictjson.decode_verdict body = Some x -> hunter.Action x = hunter.ActionKill ->
  exists event v, requested ev event /\ authorised k event v /\ hunter.Severity x = hunter.SeverityCritical.
Proof.
  intros Hs -> Hd Ha. destruct (Hs eq_refl) as (W & kp & event & w & w' & v & Hreq & Happ & ->).
  destruct (rendered_decodes v x Hd) as [Hsev Hact]. rewrite Hact in Ha. apply action_value_kill in Ha.
  unfold app_evaluate in Happ. destruct (evaluate settings validate_fields (call_model k) event) as [v'|e] eqn:Ev; [|done].
  assert (v' = v) as ->.
  { destruct (decide (action v' = KILL)); [destruct (kp _ _ _) as [[?|?] ?]|]; by simplify_eq. }
  exists event, v. pose proof (engine_kill_authorised k event v Ev Ha) as Hau.
  split; [exact Hreq|]. split; [exact Hau|].
  destruct Hau as (? & _ & _ & _ & _ & _ & Hcrit & _). by rewrite Hsev, Hcrit.
Qed.

Context (faults : nat -> fault) (net : nat -> hunter.exchange) (allowed : Z -> bool).

(** C3: no kill without authority.  When every HTTP 200 the broker receives
    for an event comes from the service, a worker's evaluation of an event changes the
    process table only by killing that event's process, whose pid is above
    1 and whose comm is still the event's, and only if the model, called by
    the service for a request of this very evaluation, answered with a kill
    of severity critical and a confidence that clears the service's
    floor. *)
Theorem no_kill_without_authority ev p w :
  (forall k, served ev k (hunter.ex_transport (net k))) ->
  let '(p', w') := pipeline.evaluate verdictjson.decode_verdict faults net allowed id ev p w in
  pipeline.w_procs w' <> pipeline.w_procs w ->
  (exists k event v, (pipeline.w_requests w <= k < pipeline.w_requests w')%nat /\
     requested ev event /\ authorised k event v) /\
  1 < events.PID ev /\ allowed (events.PID ev) = true /\
  (exists q, pipeline.w_procs w !! events.PID ev = Some q /\
     strings.TrimSpace (hunter.p_comm q) = events.Comm ev) /\
  pipeline.w_procs w' = delete (events.PID ev) (pipeline.w_procs w).
Proof.
  intros Hserved. unfold pipeline.evaluate.
  destruct (hunter.ev_result _) as [x|e|] eqn:Er.
  2-3: destruct (pipeline.spill _ _ _ _) as [p' w'] eqn:Es; intros Hne; exfalso; apply Hne;
    revert Es; unfold pipeline.spill, pipeline.append_overflow; destruct (Append _ _ _ _) as [[[?|?|] ?] ?];
    by intros [= _ <-].
  apply (Evaluate_ok_response _ _ _ _ _ _) in Er as (j & body & Hin & Hj & Hd).
  case_bool_decide as Hk; [done|]. intros Hne.
  destruct (decide (hunter.Action x = hunter.ActionKill)) as [Ha|]; [|done].
  destruct (served_kill_authorised ev j _ body x (Hserved j) Hj Hd Ha) as (event & v & Hreq & Hau & _).
  split.
  { exists j, event, v. split; [|done]. unfold pipeline.respond. destruct (hunter.KillProcess _ _ _ _ _); exact Hin. }
  revert Hne. unfold pipeline.respond.
  destruct (hunter.KillProcess _ _ _ _ _) as [ps|e|] eqn:Ek; [|done..].
  apply KillProcess_spec in Ek as (? & ? & _ & ? & ->). intros _. by split_and!.
Qed.

(** ** A process that cannot be killed *)

(** The broker's end of an answer; [text] is the body of an error. *)
Definition transported (r : http) (text : list byte) : hunter.transport :=
  match r with
  | Http200 v => hunter.Response hunter.StatusOK (render v)
  | Http500 => hunter.Response 500 text
  end.

(** The service's answer to request [k] when its engine says "kill" and its
    responder meets a comm that is not UTF-8. *)
Definition undecodable (k : nat) (t : hunter.transport) : Prop :=
  exists root tr_says kill_says su event l b v text,
    evaluate settings validate_fields (call_model k) event = Ret v /\ action v = KILL /\
    is_Some (responder.at_open l !! pid event) /\
    hunter.read_comm (responder.at_read l) (pid event) = Some b /\
    responder.valid_utf8 (json.segments b) = false /\
    t = transported (app_evaluate settings validate_fields (call_model k)
          (fun pid comm l =>
             let '(r, ps) := responder.kill_pid allowed root tr_says kill_says su pid comm l in (r, responder.unchanged ps))
          event l).1 text.

Lemma undecodable_fails k t : undecodable k t -> exists text, t = hunter.Response 500 text.
Proof.
  intros (root & tr_says & kill_says & su & event & l & b & v & text & Ev & Ha & Ho & Hb & Hv & ->). exists text.
  unfold app_evaluate. rewrite Ev, decide_True by done.
  by rewrite (responder.undecodable_comm_raises allowed root tr_says kill_says su _ _ _ b Ho Hb Hv).
Qed.

(** C39: a process escapes both responders by giving itself a comm that is
    not UTF-8.  When the service shares the host's processes, its responder
    raises on every kill verdict, the request fails with a status 500, and
    so no evaluation of the event ever succeeds: the broker kills nothing,
    counts an error and spills the event, to be evaluated again. *)
Theorem undecodable_comm_escapes ev p w d :
  (forall k, undecodable k (hunter.ex_transport (net k))) ->
  alive (pipeline.overflow p) (pipeline.w_fs w) (lines d) ->
  marshalable ev -> outcome faults (pipeline.w_fs w) = Good ->
  let '(p', w') := pipeline.evaluate verdictjson.decode_verdict faults net allowed id ev p w in
  pipeline.w_procs w' = pipeline.w_procs w /\
  alive (pipeline.overflow p') (pipeline.w_fs w') (lines (d ++ [ev])) /\
  pipeline.metrics p' = pipeline.add_hunter_errors 1 (pipeline.metrics p).
Proof.
  intros Hnet Hal Hm Hgood. unfold pipeline.evaluate.
  destruct (hunter.ev_result _) as [x|e|] eqn:Er.
  { apply (Evaluate_ok_response _ _ _ _ _ _) in Er as (j & body & _ & Hj & _).
    destruct (undecodable_fails _ _ (Hnet j)) as [text E]. by rewrite E in Hj. }
  all: unfold pipeline.spill, pipeline.append_overflow;
    destruct (Append_outcome faults ev _ _ _ Hal) as (r & a & fs & E & Ho & _);
    cbn [pipeline.overflow pipeline.count pipeline.w_fs pipeline.set_requests] in *; rewrite E;
    destruct Ho as [fs' _ _ Ha|?|n k a' fs' _ Hbad]; [|done|congruence];
    split_and!; [done|by rewrite lines_snoc|done].
Qed.

End composition.
End rendering.
(** ** A service *)

#[local] Existing Instance eventjson.utc_codec.

Definition sample_render (v : Verdict) : list byte :=
  json.print (json.JObj
    [(bs "severity", eventjson.json_string (severity_value (severity v)));
     (bs "action", eventjson.json_string (action_value (action v)));
     (bs "mitre_technique", eventjson.json_string (mitre_technique v));
     (bs "mitre_tactic", eventjson.json_string (mitre_tactic v));
     (bs "confidence", json.JNum (decimal 1));
     (bs "rationale", eventjson.json_string (rationale v))]).

Lemma sample_renders : renders sample_render.
Proof.
  intros v. do 6 eexists. unfold sample_render, eventjson.json_string.
  rewrite <- (app_nil_r (json.print _)). rewrite next_value_print; [|constructor|done].
  - assert (json.to_valid (severity_value (severity v)) = severity_value (severity v)) as ->
      by by destruct (severity v).
    assert (json.to_valid (action_value (action v)) = action_value (action v)) as -> by by destruct (action v).
    reflexivity.
  - repeat (constructor; [split; [reflexivity|by constructor]|]). constructor.
Qed.

(** A model that is certain about every event. *)
Definition sample_answer : Verdict :=
  mkVerdict CRITICAL KILL (bs "T1059.004") (bs "Execution") float_one (bs "reverse shell").
Definition sample_settings : Settings := default_settings.
Definition sample_validate : json.value -> option Verdict := fun _ => Some sample_answer.
Definition sample_model : ExecEvent -> list block + exn * gostring :=
  fun _ => inl [OtherBlock; ToolUse tool_name json.JNull].
Definition sample_request : ExecEvent :=
  mkExecEvent (bs "2023-11-14T22:13:20.123456Z") 4242 4242 1000 1000 (bs "bash") (bs "/tmp/x")
    [bs "/tmp/x"; bs "-c"] 2 false (bs "/tmp/x /tmp/x -c").

(** A reader of request bodies. *)
Definition sample_parse (b : list byte) : option ExecEvent :=
  '(ev, _) ← next b; t ← format_time 0 (events.Timestamp ev);
  Some (mkExecEvent t (events.PID ev) (events.TID ev) (events.UID ev) (events.GID ev) (events.Comm ev)
    (events.Filename ev) (events.Args ev) (events.Argc ev) (events.Truncated ev) (events.CommandLine ev)).

Definition net_service : nat -> hunter.exchange :=
  fun _ => hunter.mkExchange false (hunter.Response 200 (sample_render sample_answer)).

Lemma net_service_served k :
  served sample_render sample_settings sample_validate sample_parse (fun _ => sample_model) sample_event k (hunter.ex_transport (net_service k)).
Proof.
  intros _. exists unit, (fun _ _ u => (Ret true, u)), sample_request, tt, tt, sample_answer.
  split; [exists (default [] (marshal sample_event)); by split; vm_compute|]. split; [by vm_compute|done].
Qed.

Definition evaluated_by_service : pipeline.Pipeline * pipeline.World :=
  pipeline.evaluate verdictjson.decode_verdict all_good net_service (fun _ => true) id sample_event
    (sample_pipeline 4096) (sample_world []).

Lemma sample_process_dies :
  pipeline.w_procs evaluated_by_service.2 <> pipeline.w_procs (sample_world []).
Proof. intros E. apply (f_equal (lookup 4242)) in E. by vm_compute in E. Qed.

Lemma no_kill_without_authority_witness :
  (exists k event v, (0 <= k < pipeline.w_requests evaluated_by_service.2)%nat /\
     requested sample_parse sample_event event /\
     authorised sample_settings sample_validate (fun _ => sample_model) k event v) /\
  pipeline.w_procs evaluated_by_service.2 = delete 4242 (pipeline.w_procs (sample_world [])).
Proof.
  pose proof sample_process_dies as Hne.
  pose proof (no_kill_without_authority sample_render sample_renders sample_settings sample_validate sample_parse
    (fun _ => sample_model) all_good net_service (fun _ => true) sample_event (sample_pipeline 4096) (sample_world []) net_service_served) as Hk.
  unfold evaluated_by_service in *. destruct (pipeline.evaluate _ _ _ _ _ _ _ _) as [p' w'].
  destruct (Hk Hne) as (Hau & _ & _ & _ & Hd). split; [exact Hau|exact Hd].
Defined.

(** The event's process has renamed itself to the byte 255. *)
Definition renamed_procs : hunter.procs := {[ 4242 := hunter.mkProc [xff] 7 ]}.

Definition net_failing : nat -> hunter.exchange :=
  fun _ => hunter.mkExchange false (hunter.Response 500 (bs "internal error")).

Lemma undecodable_comm_escapes_witness :
  let '(p', w') := pipeline.evaluate verdictjson.decode_verdict all_good net_failing (fun _ => true) id sample_event
    (sample_pipeline 4096) (sample_world []) in
  pipeline.w_procs w' = pipeline.w_procs (sample_world []) /\
  alive (pipeline.overflow p') (pipeline.w_fs w') (lines [sample_event]) /\
  pipeline.metrics p' = pipeline.add_hunter_errors 1 pipeline.zero_metrics.
Proof.
  apply (undecodable_comm_escapes sample_render sample_settings sample_validate (fun _ => sample_model) all_good net_failing (fun _ => true)
    sample_event (sample_pipeline 4096) (sample_world []) []); [|apply fresh_overflow_alive|apply sample_marshalable|done].
  intros k. exists (fun _ => true), [], [], responder.SudoMissing, sample_request,
    (responder.unchanged renamed_procs), [xff; newline], sample_answer, (bs "internal error").
  split; [by vm_compute|]. split; [done|]. split; [by eexists|]. split; [by vm_compute|]. by split; vm_compute.
Defined.

End killauthority.
