(* ===== verification/Ingest.v ===== *)
(** * The ring buffer reader and the broker's start
    ([broker/internal/ingest/ringbuf_reader.go], [broker/main.go])

    [cilium/ebpf] is not part of the repository: whether its calls succeed
    is the parameter [ebpf], and what [Open] and [Close] do with the kernel
    objects is the sequence of calls they make.  [Run] is a loop over what
    the ring buffer delivers. *)
From Stdlib Require Import ZArith Lia.
From Stdlib Require Import Strings.Byte Strings.String.
From stdpp Require Import base list gmap.
From S2P Require Import Prelude Events GoIO AppendLog Hunter Pipeline.
#[local] Open Scope Z_scope.

Module ingest.

(** ** Opening and closing *)

(** The calls into [cilium/ebpf]. *)
Inductive call : Type :=
  | LoadPinnedMap
  | NewReader
  | MapClose
  | ReaderClose.

#[export] Instance call_eq_decision : EqDecision call.
Proof. solve_decision. Defined.

Inductive error : Type :=
  | ErrLoad
  | ErrAttach
  | ErrReaderClose
  | ErrMapClose.

(** Which calls succeed. *)
Abbreviation ebpf := (call -> bool).

(** A map and a ring buffer reader attached to it. *)
Inductive Reader : Type := mkReader.

Definition Open (lib : ebpf) : go_result error Reader * list call :=
  if negb (lib LoadPinnedMap) then (Err ErrLoad, [LoadPinnedMap])
  else if negb (lib NewReader) then (Err ErrAttach, [LoadPinnedMap; NewReader; MapClose])
  else (Ok mkReader, [LoadPinnedMap; NewReader]).

Definition Close (lib : ebpf) (r : Reader) : go_result error unit * list call :=
  let err := if lib ReaderClose then None else Some ErrReaderClose in
  let err := if negb (lib MapClose) && bool_decide (err = None) then Some ErrMapClose else err in
  (match err with None => Ok tt | Some e => Err e end, [ReaderClose; MapClose]).

(** What the calls leave open: references to the map and to the reader. *)
Fixpoint held (lib : ebpf) (cs : list call) : Z * Z :=
  match cs with
  | [] => (0, 0)
  | c :: cs' =>
      let '(m, r) := held lib cs' in
      match c with
      | LoadPinnedMap => (if lib LoadPinnedMap then m + 1 else m, r)
      | NewReader => (m, if lib NewReader then r + 1 else r)
      | MapClose => (m - 1, r)
      | ReaderClose => (m, r - 1)
      end
  end.

(** ** The read loop *)

(** One return of [Reader.Read], with what [ctx.Err()] says right after a
    failure. *)
Inductive delivery : Type :=
  | Sample (raw : list byte)
  | ReadError (cancelled : bool).

(** [Run] with a handler on a state: [Ok] with the state when it returned,
    [Err] with the state when it is still waiting for the next delivery,
    [Panic] when the handler panicked. *)
Fixpoint Run {S : Type} (handle : list byte -> S -> go_result Empty_set S)
    (ds : list delivery) (s : S) : go_result S S :=
  match ds with
  | [] => Err s
  | Sample raw :: ds' =>
      match handle raw s with
      | Ok s' => Run handle ds' s'
      | _ => Panic
      end
  | ReadError true :: _ => Ok s
  | ReadError false :: ds' => Run handle ds' s
  end.

(** The records delivered before the loop returns. *)
Fixpoint samples (ds : list delivery) : list (list byte) :=
  match ds with
  | [] => []
  | Sample raw :: ds' => raw :: samples ds'
  | ReadError true :: _ => []
  | ReadError false :: ds' => samples ds'
  end.

(** ** [openWithRetry] and what [main] does with its result *)

Definition retry_wait : Z := 2 * pipeline.second.

(** The loop: [left] attempts, the [i]-th attempt meeting the library
    [libs i]; the waits so far are the sleeps it makes. *)
Fixpoint open_loop (libs : nat -> ebpf) (left i : nat) (last : option error)
    : go_result error (option Reader) * list Z :=
  match left with
  | O => (match last with None => Ok None | Some e => Err e end, [])
  | S left' =>
      match (Open (libs i)).1 with
      | Ok r => (Ok (Some r), [])
      | Err e =>
          let '(res, waits) := open_loop libs left' (S i) (Some e) in (res, retry_wait :: waits)
      | Panic => (Panic, [])
      end
  end.

Definition openWithRetry (libs : nat -> ebpf) (attempts : Z)
    : go_result error (option Reader) * list Z :=
  open_loop libs (Z.to_nat attempts) 0 None.

(** [main] from there: a fatal exit, or [reader.Run], which dereferences
    the reader. *)
Definition start_reading (res : go_result error (option Reader)) : go_result error Reader :=
  match res with
  | Ok (Some r) => Ok r
  | Ok None => Panic
  | Err e => Err e
  | Panic => Panic
  end.

(** ** The reader and the pipeline *)

(** [reader.Run(ctx, pl.HandleRaw)]. *)
Definition run_pipeline `{EventCodec} (faults : nat -> fault) (boot : Z) (ds : list delivery)
    (p : pipeline.Pipeline) (w : pipeline.World)
    : go_result (pipeline.Pipeline * pipeline.World) (pipeline.Pipeline * pipeline.World) :=
  Run (fun raw '(p, w) => pipeline.HandleRaw faults boot false raw p w) ds (p, w).

End ingest.
