(* ===== verification/IngestFacts.v ===== *)
(** * What the reader guarantees

    No kernel object leaks, every record delivered before the shutdown is
    handled once and counted, in order; and what an empty retry budget does
    to the start. *)
From Stdlib Require Import ZArith Lia.
From Stdlib Require Import Strings.Byte Strings.String.
From stdpp Require Import base list gmap.
From S2P Require Import Prelude Events Wire Decoding Triage GoIO AppendLog EventJson Hunter Pipeline.
From S2P Require Import Samples AppendLogFacts PipelineFacts Ingest.
Import ingest.
#[local] Open Scope Z_scope.

(** Whatever calls into the library fail, [Open] leaves nothing open
    when it returns an error, and [Close] after a successful [Open] releases
    both the reader and the map, also when releasing the first fails, and
    reports an error exactly when one of them failed. *)
Lemma reader_leaks_nothing lib lib' :
  match Open lib with
  | (Ok r, cs) =>
      let '(res, cs') := Close lib' r in
      held lib (cs ++ cs') = (0, 0) /\ (res = Ok tt <-> lib' ReaderClose = true /\ lib' MapClose = true)
  | (_, cs) => held lib cs = (0, 0)
  end.
Proof.
  unfold Open. destruct (lib LoadPinnedMap) eqn:E1; cbn [negb]; [|cbn; by rewrite E1].
  destruct (lib NewReader) eqn:E2; cbn [negb]; [|cbn; by rewrite E1, E2].
  unfold Close. cbn [app held]. rewrite E1, E2. split; [done|].
  destruct (lib' ReaderClose), (lib' MapClose); cbn; naive_solver.
Qed.

Lemma Open_no_panic lib : (Open lib).1 <> Panic.
Proof. unfold Open. destruct (lib LoadPinnedMap); [|done]. by destruct (lib NewReader). Qed.

Definition fails (lib : ebpf) : Prop := exists e, (Open lib).1 = Err e.

(** How [openWithRetry] ends, from attempt [i] on with [left] to go. *)
Inductive opened (libs : nat -> ebpf) (i left : nat) (last : option error)
    : go_result error (option Reader) -> list Z -> Prop :=
  | opened_at j r : (j < left)%nat -> (forall k, (k < j)%nat -> fails (libs (i + k)%nat)) ->
      (Open (libs (i + j)%nat)).1 = Ok r ->
      opened libs i left last (Ok (Some r)) (replicate j retry_wait)
  | opened_never e : (forall k, (k < left)%nat -> fails (libs (i + k)%nat)) ->
      left <> 0%nat \/ last = Some e ->
      opened libs i left last (Err e) (replicate left retry_wait)
  | opened_untried : left = 0%nat -> last = None -> opened libs i left last (Ok None) [].

Lemma open_loop_opened libs left i last :
  let '(res, waits) := open_loop libs left i last in opened libs i left last res waits.
Proof.
  revert i last. induction left as [|left IH]; intros i last; cbn [open_loop].
  { destruct last as [e|]; [|by apply opened_untried].
    apply (opened_never libs i 0 (Some e) e); [lia|by right]. }
  destruct ((Open (libs i)).1) as [r|e|] eqn:E.
  - apply (opened_at libs i (S left) last 0 r); [lia|lia|by rewrite Nat.add_0_r].
  - specialize (IH (S i) (Some e)). destruct (open_loop libs left (S i) (Some e)) as [res waits].
    assert (forall n, (forall k, (k < n)%nat -> fails (libs (S i + k)%nat)) ->
      forall k, (k < S n)%nat -> fails (libs (i + k)%nat)) as Hshift.
    { intros n Hn [|k] Hk; [rewrite Nat.add_0_r; by exists e|].
      rewrite Nat.add_succ_r. apply Hn. lia. }
    destruct IH as [j r Hj Hf Ho|e' Hf _|_ ?]; [| |done].
    + apply (opened_at libs i (S left) last (S j) r); [lia|by apply Hshift|by rewrite Nat.add_succ_r].
    + apply (opened_never libs i (S left) last e'); [by apply Hshift|by left].
  - by destruct (Open_no_panic (libs i)).
Qed.

(** [openWithRetry] returns the reader of the first attempt that
    succeeds, after two seconds of waiting for each failed one before it; if
    all the attempts it is given fail, it returns an error after that many
    waits. *)
Lemma openWithRetry_outcome libs attempts :
  0 < attempts ->
  let '(res, waits) := openWithRetry libs attempts in
  opened libs 0 (Z.to_nat attempts) None res waits /\ res <> Ok None /\ start_reading res <> Panic.
Proof.
  intros Ha. unfold openWithRetry. pose proof (open_loop_opened libs (Z.to_nat attempts) 0 None) as Ho.
  destruct (open_loop _ _ _ _) as [res waits]. split; [done|].
  destruct Ho; [done|done|lia].
Qed.

(** With no attempts at all ([-open-retries 0], or a negative number)
    [openWithRetry] reports neither a reader nor an error, and the broker
    goes on to read from the missing reader and panics. *)
Lemma no_retries_panics libs attempts :
  attempts <= 0 -> start_reading (openWithRetry libs attempts).1 = Panic.
Proof. intros Ha. unfold openWithRetry. by replace (Z.to_nat attempts) with 0%nat by lia. Qed.

(** ** The read loop *)

(** Whether a failing read found the context cancelled. *)
Definition ends_reading (d : delivery) : bool :=
  match d with ReadError c => c | Sample _ => false end.

(** The loop is a fold over the records delivered before the shutdown. *)
Lemma Run_fold {S} (handle : list byte -> S -> go_result Empty_set S) (f : S -> list byte -> S) ds s :
  (forall raw s, handle raw s = Ok (f s raw)) ->
  Run handle ds s = (if existsb ends_reading ds then Ok else Err) (fold_left f (samples ds) s).
Proof.
  intros Hh. revert s. induction ds as [|d ds IH]; intros s; cbn [Run samples existsb]; [done|].
  destruct d as [raw|[]]; cbn [ends_reading orb fold_left]; [|done|apply IH].
  by rewrite Hh, IH.
Qed.

Section facts.
Context `{EventCodec} (faults : nat -> fault).

(** The handler as a function on the state. *)
Definition handled (boot : Z) (s : pipeline.Pipeline * pipeline.World) (raw : list byte) :=
  match pipeline.HandleRaw faults boot false raw s.1 s.2 with Ok s' => s' | _ => s end.

(** One record is one increment of one of the two counters. *)
Lemma handle_counts boot raw p w :
  exists p' w', pipeline.HandleRaw faults boot false raw p w = Ok (p', w') /\
  let m := pipeline.metrics p in
  let m' := pipeline.metrics p' in
  if is_ok (events.Decode boot raw)
  then pipeline.EventsTotal m' = wrapU 64 (pipeline.EventsTotal m + 1) /\
       pipeline.DecodeErrors m' = pipeline.DecodeErrors m
  else pipeline.DecodeErrors m' = wrapU 64 (pipeline.DecodeErrors m + 1) /\
       pipeline.EventsTotal m' = pipeline.EventsTotal m.
Proof.
  unfold pipeline.HandleRaw.
  destruct (Decode_cases boot raw) as [[_ ->]|[_ ->]]; [by eexists _, _|].
  set (ev := wire.view boot (wire.of_bytes raw)). unfold pipeline.append_audit.
  destruct (Append _ _ _ _) as [[r a] fs]. rewrite triage.IsSuspicious_ok. cbn [go_bind].
  destruct (triage.verdict ev); cbn [negb is_ok]; [|by eexists _, _].
  unfold pipeline.dispatch. destruct (pipeline.has_room _ _); [by eexists _, _|].
  unfold pipeline.spill, pipeline.append_overflow.
  destruct (Append _ _ _ _) as [[[u|e|] a'] fs']; by eexists _, _.
Qed.

Lemma handled_counts boot raws s :
  let good := filter (fun raw => is_ok (events.Decode boot raw)) raws in
  let m := pipeline.metrics s.1 in
  let m' := pipeline.metrics (fold_left (handled boot) raws s).1 in
  pipeline.EventsTotal m' mod 2 ^ 64 = (pipeline.EventsTotal m + Z.of_nat (length good)) mod 2 ^ 64 /\
  pipeline.DecodeErrors m' mod 2 ^ 64 =
    (pipeline.DecodeErrors m + Z.of_nat (length raws - length good)) mod 2 ^ 64.
Proof.
  revert s. induction raws as [|raw raws IH]; intros [p w]; cbn zeta; cbn [fold_left].
  { by rewrite !Z.add_0_r. }
  assert (exists p' w', handled boot (p, w) raw = (p', w') /\
    pipeline.HandleRaw faults boot false raw p w = Ok (p', w')) as (p' & w' & Eh & Eh').
  { destruct (handle_counts boot raw p w) as (p' & w' & E & _). exists p', w'. split; [|done].
    unfold handled. cbn [fst snd]. by rewrite E. }
  rewrite Eh. destruct (handle_counts boot raw p w) as (p'' & w'' & E & Hm). rewrite Eh' in E.
  injection E as <- <-. cbn zeta in Hm.
  destruct (IH (p', w')) as [IH1 IH2]. cbn [fst] in *. rewrite IH1, IH2. clear IH IH1 IH2.
  pose proof (length_filter (fun raw => is_ok (events.Decode boot raw)) raws) as Hle.
  rewrite filter_cons. unfold wrapU in Hm.
  case_decide as Hd; destruct (is_ok (events.Decode boot raw)); try done;
    destruct Hm as [Hm1 Hm2]; rewrite Hm1, Hm2; cbn [length]; rewrite ?Zplus_mod_idemp_l;
    split; f_equal; lia.
Qed.

(** C26: every record the ring buffer delivers before the shutdown is handled
    exactly once, in order, and shows in exactly one of two counters; read
    errors without a shutdown are skipped; the loop returns if and only if
    a read fails after the context was cancelled, and it never panics. *)
Theorem Run_handles_every_record boot ds p w :
  let s' := fold_left (handled boot) (samples ds) (p, w) in
  run_pipeline faults boot ds p w = (if existsb ends_reading ds then Ok s' else Err s') /\
  let good := length (filter (fun raw => is_ok (events.Decode boot raw)) (samples ds)) in
  pipeline.EventsTotal (pipeline.metrics s'.1) mod 2 ^ 64 =
    (pipeline.EventsTotal (pipeline.metrics p) + Z.of_nat good) mod 2 ^ 64 /\
  pipeline.DecodeErrors (pipeline.metrics s'.1) mod 2 ^ 64 =
    (pipeline.DecodeErrors (pipeline.metrics p) + Z.of_nat (length (samples ds) - good)) mod 2 ^ 64.
Proof.
  cbn zeta. split; [|apply (handled_counts boot (samples ds) (p, w))].
  unfold run_pipeline. rewrite (Run_fold _ (handled boot)); [by destruct (existsb _ _)|].
  intros raw [p1 w1]. unfold handled. cbn [fst snd].
  by destruct (handle_counts boot raw p1 w1) as (p' & w' & -> & _).
Qed.

End facts.

(** ** Examples *)

(** The sensor pins its map while the broker waits for the second time. *)
Definition late_sensor : nat -> ebpf := fun i _ => (2 <=? i)%nat.

Lemma openWithRetry_outcome_witness :
  let '(res, waits) := openWithRetry late_sensor 10 in
  opened late_sensor 0 10 None res waits /\ res <> Ok None /\ start_reading res <> Panic.
Proof. apply (openWithRetry_outcome late_sensor 10). lia. Defined.

Example late_sensor_waits :
  openWithRetry late_sensor 10 = (Ok (Some mkReader), [2000000000; 2000000000]).
Proof. by vm_compute. Qed.

Lemma no_retries_panics_witness : start_reading (openWithRetry late_sensor 0).1 = Panic.
Proof. apply (no_retries_panics late_sensor 0). lia. Defined.
