(* ===== verification/Broker.v ===== *)
(** * The broker as a concurrent program
    ([broker/main.go], [pipeline.go]: [Start], [worker], [replayLoop],
    [drainOverflow], [Close]; [ingest/ringbuf_reader.go]: [Run])

    The reader, the workers and the replay loop as threads over the shared
    pipeline.  A step is what a thread does between two points at which the
    others can see it: an operation on the queue, one call on a log (both
    take the log's mutex), one evaluation, one signal.  Increments of
    counters ride along with the step they accompany.  Every evaluation has
    a network of its own, so its outcome is arbitrary.

    The ledger records history the program does not keep: which suspicious
    events were accepted and what became of them.  No step depends on it. *)
From Stdlib Require Import ZArith Lia.
From Stdlib Require Import Strings.Byte Strings.String.
From stdpp Require Import base list gmap.
From S2P Require Import Prelude Events Triage GoIO AppendLog Hunter Pipeline.
Import pipeline.
#[local] Open Scope Z_scope.

Module broker.

(** ** Threads *)

(** The reader: between two records; holding a suspicious event; having
    found the queue full; stopped. *)
Inductive reader : Type :=
  | RIdle
  | RSend (ev : Event)
  | RSpill (ev : Event)
  | RDone.

(** A worker: waiting; evaluating; about to kill; about to spill; stopped. *)
Inductive worker : Type :=
  | WIdle
  | WEval (ev : Event)
  | WKill (ev : Event)
  | WSpill (ev : Event)
  | WDone.

(** The replay loop: waiting for the ticker; about to open the rotated
    file; with the rest of its bytes, the events they are the lines of and
    the locals [replayed] and [respilled]; about to spill one; about to
    remove the file; stopped. *)
Inductive replayer : Type :=
  | PIdle
  | POpen (rotated : gostring) (batch : list Event)
  | PDrain (rotated : gostring) (s : list byte) (batch : list Event) (replayed respilled : Z)
  | PSpill (ev : Event) (rotated : gostring) (s : list byte) (batch : list Event)
      (replayed respilled : Z)
  | PRemove (rotated : gostring)
  | PDone.

(** What became of the suspicious events accepted so far: evaluated, lost
    (and counted in [EventsLost]), dropped without being counted, or
    written to the overflow file and not rotated since. *)
Record ledger := mkLedger {
  accepted : list Event;
  evaluated : list Event;
  lost : list Event;
  dropped : list Event;
  pending : list Event
}.

Record state := mkState {
  s_pipe : Pipeline;
  s_world : World;
  s_reader : reader;
  s_workers : list worker;
  s_replayer : replayer;
  s_cancelled : bool;
  s_ledger : ledger
}.

Definition accept (ev : Event) (g : ledger) : ledger :=
  mkLedger (accepted g ++ [ev]) (evaluated g) (lost g) (dropped g) (pending g).
Definition settle (ev : Event) (g : ledger) : ledger :=
  mkLedger (accepted g) (evaluated g ++ [ev]) (lost g) (dropped g) (pending g).
Definition drop_all (evs : list Event) (g : ledger) : ledger :=
  mkLedger (accepted g) (evaluated g) (lost g) (dropped g ++ evs) (pending g).
Definition set_pending (evs : list Event) (g : ledger) : ledger :=
  mkLedger (accepted g) (evaluated g) (lost g) (dropped g) evs.

Definition with_reader (r : reader) (p : Pipeline) (w : World) (g : ledger) (s : state) : state :=
  mkState p w r (s_workers s) (s_replayer s) (s_cancelled s) g.
Definition with_worker (i : nat) (k : worker) (p : Pipeline) (w : World) (g : ledger) (s : state) : state :=
  mkState p w (s_reader s) (<[i := k]> (s_workers s)) (s_replayer s) (s_cancelled s) g.
Definition with_replayer (r : replayer) (p : Pipeline) (w : World) (g : ledger) (s : state) : state :=
  mkState p w (s_reader s) (s_workers s) r (s_cancelled s) g.

Section machine.
Context `{EventCodec} (decode_verdict : list byte -> option hunter.Verdict).
Context (faults : nat -> fault) (allowed : Z -> bool).

(** An event spilled: to the file, or lost. *)
Definition spilled_ledger (ev : Event) (p : Pipeline) (w : World) (g : ledger) : ledger :=
  if is_ok (append_overflow faults ev p w).1.1
  then set_pending (pending g ++ [ev]) g
  else mkLedger (accepted g) (evaluated g) (lost g ++ [ev]) (dropped g) (pending g).

(** One evaluation over the network [net]. *)
Definition evaluation (net : nat -> hunter.exchange) (ev : Event) (s : state)
    : go_result hunter.error hunter.Verdict * World :=
  let r := hunter.Evaluate decode_verdict net (HunterClient (cfg (s_pipe s))) ev
             (w_requests (s_world s)) in
  (hunter.ev_result r, set_requests (hunter.ev_requests r) (s_world s)).

(** ** The reader's steps *)

(** Decoding, auditing and triage of one record: nothing here is shared. *)
Definition audited (ev : Event) (s : state) : Pipeline * World :=
  let '(_, p, w) := append_audit faults ev (count (add_total 1) (s_pipe s)) (s_world s) in (p, w).

Inductive reader_step (boot : Z) (s : state) : state -> Prop :=
  | r_malformed raw e : s_reader s = RIdle -> events.Decode boot raw = Err e ->
      reader_step boot s
        (with_reader RIdle (count (add_decode_errors 1) (s_pipe s)) (s_world s) (s_ledger s) s)
  | r_benign raw ev p w : s_reader s = RIdle -> events.Decode boot raw = Ok ev ->
      triage.IsSuspicious ev = Ok false -> audited ev s = (p, w) ->
      reader_step boot s (with_reader RIdle p w (s_ledger s) s)
  | r_suspicious raw ev p w : s_reader s = RIdle -> events.Decode boot raw = Ok ev ->
      triage.IsSuspicious ev = Ok true -> audited ev s = (p, w) ->
      reader_step boot s
        (with_reader (RSend ev) (count (add_suspicious 1) p) w (accept ev (s_ledger s)) s)
  | r_send ev : s_reader s = RSend ev ->
      Z.of_nat (length (queue (s_pipe s))) < QueueSize (cfg (s_pipe s)) ->
      reader_step boot s
        (with_reader RIdle (set_queue (queue (s_pipe s) ++ [ev]) (s_pipe s)) (s_world s) (s_ledger s) s)
  | r_handoff ev i : s_reader s = RSend ev -> queue (s_pipe s) = [] ->
      s_workers s !! i = Some WIdle ->
      reader_step boot s
        (with_reader RIdle (s_pipe s) (s_world s) (s_ledger s)
           (with_worker i (WEval ev) (s_pipe s) (s_world s) (s_ledger s) s))
  | r_full ev : s_reader s = RSend ev ->
      QueueSize (cfg (s_pipe s)) <= Z.of_nat (length (queue (s_pipe s))) ->
      reader_step boot s
        (with_reader (RSpill ev) (count (add_overflows 1) (s_pipe s)) (s_world s) (s_ledger s) s)
  | r_spill ev p w : s_reader s = RSpill ev -> spill faults ev (s_pipe s) (s_world s) = (p, w) ->
      reader_step boot s
        (with_reader RIdle p w (spilled_ledger ev (s_pipe s) (s_world s) (s_ledger s)) s)
  | r_stop : s_reader s = RIdle -> s_cancelled s = true ->
      reader_step boot s (with_reader RDone (s_pipe s) (s_world s) (s_ledger s) s).

(** ** A worker's steps *)

Inductive worker_step (i : nat) (s : state) : state -> Prop :=
  | w_receive ev q : s_workers s !! i = Some WIdle -> queue (s_pipe s) = ev :: q ->
      worker_step i s (with_worker i (WEval ev) (set_queue q (s_pipe s)) (s_world s) (s_ledger s) s)
  | w_verdict net ev v w : s_workers s !! i = Some (WEval ev) ->
      evaluation net ev s = (Ok v, w) -> hunter.Action v <> hunter.ActionKill ->
      worker_step i s (with_worker i WIdle (s_pipe s) w (settle ev (s_ledger s)) s)
  | w_condemn net ev v w : s_workers s !! i = Some (WEval ev) ->
      evaluation net ev s = (Ok v, w) -> hunter.Action v = hunter.ActionKill ->
      worker_step i s
        (with_worker i (WKill ev) (count (add_kills 1) (s_pipe s)) w (settle ev (s_ledger s)) s)
  | w_kill later ev : s_workers s !! i = Some (WKill ev) ->
      worker_step i s
        (with_worker i WIdle (s_pipe s) (respond allowed later ev (s_world s)) (s_ledger s) s)
  | w_error net ev e w : s_workers s !! i = Some (WEval ev) ->
      evaluation net ev s = (Err e, w) ->
      worker_step i s
        (with_worker i (WSpill ev) (count (add_hunter_errors 1) (s_pipe s)) w (s_ledger s) s)
  | w_spill ev p w : s_workers s !! i = Some (WSpill ev) ->
      spill faults ev (s_pipe s) (s_world s) = (p, w) ->
      worker_step i s
        (with_worker i WIdle p w (spilled_ledger ev (s_pipe s) (s_world s) (s_ledger s)) s)
  | w_stop : s_workers s !! i = Some WIdle -> s_cancelled s = true ->
      worker_step i s (with_worker i WDone (s_pipe s) (s_world s) (s_ledger s) s).

(** ** The replay loop's steps *)

Inductive replayer_step (s : state) : state -> Prop :=
  | p_rotated path a fs : s_replayer s = PIdle ->
      rotate faults (overflow (s_pipe s)) (w_fs (s_world s)) = (Ok path, a, fs) -> path <> [] ->
      replayer_step s
        (with_replayer (POpen path (pending (s_ledger s))) (set_overflow a (s_pipe s))
           (set_fs fs (s_world s)) (set_pending [] (s_ledger s)) s)
  | p_nothing a fs : s_replayer s = PIdle ->
      rotate faults (overflow (s_pipe s)) (w_fs (s_world s)) = (Ok [], a, fs) ->
      replayer_step s
        (with_replayer PIdle (set_overflow a (s_pipe s)) (set_fs fs (s_world s)) (s_ledger s) s)
  | p_failed e a fs : s_replayer s = PIdle ->
      rotate faults (overflow (s_pipe s)) (w_fs (s_world s)) = (Err e, a, fs) ->
      replayer_step s
        (with_replayer PIdle (set_overflow a (s_pipe s)) (set_fs fs (s_world s)) (s_ledger s) s)
  | p_open path batch bytes fs : s_replayer s = POpen path batch ->
      OpenRead faults path (w_fs (s_world s)) = (Ok bytes, fs) ->
      replayer_step s
        (with_replayer (PDrain path bytes batch 0 0) (s_pipe s) (set_fs fs (s_world s)) (s_ledger s) s)
  | p_unopened path batch e fs : s_replayer s = POpen path batch ->
      OpenRead faults path (w_fs (s_world s)) = (Err e, fs) ->
      replayer_step s
        (with_replayer (PRemove path) (s_pipe s) (set_fs fs (s_world s))
           (drop_all batch (s_ledger s)) s)
  | p_replayed path bytes batch a b net ev rest v w :
      s_replayer s = PDrain path bytes batch a b -> next bytes = Some (ev, rest) ->
      evaluation net ev s = (Ok v, w) ->
      replayer_step s
        (with_replayer (PDrain path rest (drop 1 batch) (a + 1) b) (s_pipe s) w
           (settle ev (s_ledger s)) s)
  | p_error path bytes batch a b net ev rest e w :
      s_replayer s = PDrain path bytes batch a b -> next bytes = Some (ev, rest) ->
      evaluation net ev s = (Err e, w) ->
      replayer_step s
        (with_replayer (PSpill ev path rest (drop 1 batch) a (b + 1)) (s_pipe s) w (s_ledger s) s)
  | p_spill ev path bytes batch a b p w : s_replayer s = PSpill ev path bytes batch a b ->
      spill faults ev (s_pipe s) (s_world s) = (p, w) ->
      replayer_step s
        (with_replayer (PDrain path bytes batch a b) p w
           (spilled_ledger ev (s_pipe s) (s_world s) (s_ledger s)) s)
  | p_end path bytes batch a b : s_replayer s = PDrain path bytes batch a b -> next bytes = None ->
      replayer_step s
        (with_replayer (PRemove path)
           (if 0 <? a + b then count (add_replays (wrapU 64 a)) (s_pipe s) else s_pipe s)
           (s_world s) (drop_all batch (s_ledger s)) s)
  | p_remove path : s_replayer s = PRemove path ->
      replayer_step s
        (with_replayer PIdle (s_pipe s)
           (set_fs (Remove faults path (w_fs (s_world s))) (s_world s)) (s_ledger s) s)
  | p_stop : s_replayer s = PIdle -> s_cancelled s = true ->
      replayer_step s (with_replayer PDone (s_pipe s) (s_world s) (s_ledger s) s).

(** ** Everything else *)

(** SIGINT or SIGTERM; processes come and go; [Close], once every thread
    has stopped. *)
Definition stopped (s : state) : Prop :=
  s_reader s = RDone /\ Forall (fun k => k = WDone) (s_workers s) /\ s_replayer s = PDone.

Inductive step (boot : Z) (s : state) : state -> Prop :=
  | step_reader s' : reader_step boot s s' -> step boot s s'
  | step_worker i s' : worker_step i s s' -> step boot s s'
  | step_replayer s' : replayer_step s s' -> step boot s s'
  | step_signal :
      step boot s (mkState (s_pipe s) (s_world s) (s_reader s) (s_workers s) (s_replayer s) true
        (s_ledger s))
  | step_processes ps :
      step boot s (mkState (s_pipe s) (set_procs ps (s_world s)) (s_reader s) (s_workers s)
        (s_replayer s) (s_cancelled s) (s_ledger s)).

(** After [New] and [Start]: [restored] are the events whose lines the
    overflow file already held. *)
Definition initial (p : Pipeline) (w : World) (restored : list Event) : state :=
  mkState p w RIdle (replicate (Z.to_nat (Workers (cfg p))) WIdle) PIdle false
    (mkLedger [] [] [] [] restored).

Inductive reachable (boot : Z) (s0 : state) : state -> Prop :=
  | reach_init : reachable boot s0 s0
  | reach_step s s' : reachable boot s0 s -> step boot s s' -> reachable boot s0 s'.

End machine.

End broker.
