(* ===== verification/BrokerFacts.v ===== *)
(** * No suspicious event vanishes

    Invariants of the concurrent broker over every interleaving and every
    pattern of failing system calls and evaluations: each accepted
    suspicious event is in exactly one place, losses are counted, the queue
    is bounded, the reader is never blocked; and what the shutdown leaves
    behind. *)
From Stdlib Require Import ZArith Lia.
From Stdlib Require Import Strings.Byte Strings.String.
From stdpp Require Import base list gmap.
From S2P Require Import VerdictJson.
From S2P Require Import Prelude GoStrings Events Wire Decoding Triage GoIO AppendLog.
From S2P Require Import AppendLogFacts EventJson Hunter HunterFacts Pipeline PipelineFacts.
From S2P Require Import Samples Broker.
Import pipeline broker.
#[local] Existing Instance events.Event_eq_decision.
#[local] Open Scope Z_scope.

Section facts.
Context `{EventCodec} (decode_verdict : list byte -> option hunter.Verdict).
Context (faults : nat -> fault) (allowed : Z -> bool).

(** ** Counting events *)

(** How often [e] occurs in [l], up to what the log's coding changes. *)
Fixpoint tally (e : Event) (l : list Event) : nat :=
  match l with
  | [] => 0
  | x :: l' => (if decide (canon x = e) then 1 else 0) + tally e l'
  end.

Lemma tally_app e l m : tally e (l ++ m) = (tally e l + tally e m)%nat.
Proof. induction l as [|x l IH]; simpl; [done|]. rewrite IH. lia. Qed.

Lemma tally_canon e x l : tally e (canon x :: l) = tally e (x :: l).
Proof. simpl. by rewrite canon_idem. Qed.

Definition reader_holds (r : reader) : list Event :=
  match r with RSend ev | RSpill ev => [ev] | _ => [] end.

Definition worker_holds (k : worker) : list Event :=
  match k with WEval ev | WSpill ev => [ev] | _ => [] end.

Definition replayer_holds (r : replayer) : list Event :=
  match r with
  | POpen _ batch => batch
  | PDrain _ _ batch _ _ => batch
  | PSpill ev _ _ batch _ _ => ev :: batch
  | _ => []
  end.

Definition workers_hold (ks : list worker) : list Event := concat (worker_holds <$> ks).

Lemma tally_workers e ks i k k' :
  ks !! i = Some k ->
  (tally e (workers_hold (<[i := k']> ks)) + tally e (worker_holds k) =
   tally e (workers_hold ks) + tally e (worker_holds k'))%nat.
Proof.
  intros Hk. rewrite (insert_take_drop ks i k') by (by eapply lookup_lt_Some).
  rewrite <- (take_drop_middle ks i k Hk) at 3. unfold workers_hold.
  rewrite !fmap_app, !fmap_cons, !concat_app. cbn [concat]. rewrite !tally_app. lia.
Qed.

(** ** The invariant *)

(** The overflow log works and holds the lines of [pend], or it is dead and
    they are still on disk: under its path or, if a rotation got that far,
    under the replay path. *)
Definition log_ok (idle : bool) (a : appendLog) (fs : FS) (pend : list Event) : Prop :=
  alive a fs (lines pend) \/
  (dead a /\ ((exists tail, contents fs (al_path a) = Some (lines pend ++ tail)) \/
              (idle = true /\ contents fs (replay_path a) = Some (lines pend)))).

Definition audit_ok (a : appendLog) (fs : FS) : Prop := (exists c, alive a fs c) \/ dead a.

Definition is_idle (r : replayer) : bool :=
  match r with PIdle | PDone => true | _ => false end.

(** The replay loop's file and place in it. *)
Definition replay_ok (path : gostring) (r : replayer) (fs : FS) : Prop :=
  match r with
  | POpen f batch => f = path /\ contents fs path = Some (lines batch) /\ Forall marshalable batch
  | PDrain f s batch _ _ => f = path /\ stream_of batch s /\ Forall marshalable batch
  | PSpill _ f s batch _ _ => f = path /\ stream_of batch s /\ Forall marshalable batch
  | PRemove f => f = path
  | _ => True
  end.

(** Every event, restored from disk at the start or accepted since, is in
    exactly one place. *)
Definition balanced (restored : list Event) (s : state) : Prop := forall e,
  let g := s_ledger s in
  tally e (restored ++ accepted g) =
    (tally e (queue (s_pipe s)) + tally e (reader_holds (s_reader s)) +
     tally e (workers_hold (s_workers s)) + tally e (replayer_holds (s_replayer s)) +
     tally e (pending g) + tally e (evaluated g) + tally e (lost g) + tally e (dropped g))%nat.

Definition counted (s : state) : Prop :=
  EventsLost (metrics (s_pipe s)) = wrapU 64 (Z.of_nat (length (lost (s_ledger s)))) /\
  SuspiciousTotal (metrics (s_pipe s)) = wrapU 64 (Z.of_nat (length (accepted (s_ledger s)))).

Definition bounded (s : state) : Prop :=
  Z.of_nat (length (queue (s_pipe s))) <= Z.max 0 (QueueSize (cfg (s_pipe s))).

(** The two logs have three distinct files. *)
Definition apart (p : Pipeline) : Prop :=
  al_path (audit p) <> al_path (overflow p) /\ al_path (audit p) <> replay_path (overflow p).

Record inv (ofile : gostring) (restored : list Event) (s : state) : Prop := {
  i_path : al_path (overflow (s_pipe s)) = ofile;
  i_apart : apart (s_pipe s);
  i_wf : fs_wf (w_fs (s_world s));
  i_log : log_ok (is_idle (s_replayer s)) (overflow (s_pipe s)) (w_fs (s_world s))
    (pending (s_ledger s));
  i_audit : audit_ok (audit (s_pipe s)) (w_fs (s_world s));
  i_pending : Forall marshalable (pending (s_ledger s));
  i_replay : replay_ok (replay_path (overflow (s_pipe s))) (s_replayer s) (w_fs (s_world s));
  i_balanced : balanced restored s;
  i_counted : counted s;
  i_bounded : bounded s;
  i_dropped : dropped (s_ledger s) = [] \/ exists k n, faults k = Bad n
}.

(** ** Preservation by file operations *)

Lemma log_ok_frame ps idle a fs fs' pend :
  frame ps fs fs' -> al_path a ∉ ps -> replay_path a ∉ ps -> log_ok idle a fs pend ->
  log_ok idle a fs' pend.
Proof.
  intros Hf Hp Hr [Ha|[Hd Hs]]; [left; by eapply alive_frame|right; split; [done|]].
  destruct Hf as [_ _ Hc _]. destruct Hs as [[t Ht]|[Hi Ht]]; [left; exists t|right; split; [done|]];
    by rewrite Hc.
Qed.

Lemma audit_ok_frame ps a fs fs' :
  frame ps fs fs' -> al_path a ∉ ps -> audit_ok a fs -> audit_ok a fs'.
Proof. intros Hf Hp [[c Hc]|Hd]; [left; exists c; by eapply alive_frame|by right]. Qed.

Lemma replay_ok_frame ps path r fs fs' :
  frame ps fs fs' -> path ∉ ps -> replay_ok path r fs -> replay_ok path r fs'.
Proof.
  intros Hf Hp. destruct r; try done. simpl. intros (-> & Hc & Hm). split; [done|].
  split; [|done]. by rewrite (fr_contents _ _ _ Hf).
Qed.

Lemma frame_wf ps fs fs' : frame ps fs fs' -> fs_wf fs -> fs_wf fs'.
Proof. intros []. done. Qed.

(** Appending to the audit log, dead or alive. *)
Lemma append_audit_frame ev p w :
  audit_ok (audit p) (w_fs w) ->
  exists r a fs, append_audit faults ev p w = (r, set_audit a p, set_fs fs w) /\
    al_path a = al_path (audit p) /\ frame [al_path (audit p)] (w_fs w) fs /\ audit_ok a fs.
Proof.
  intros [[c Hc]|Hd]; unfold append_audit.
  - destruct (Append_outcome faults ev (audit p) (w_fs w) c Hc) as (r & a & fs & -> & Ho & Hf).
    exists r, a, fs. split; [done|].
    destruct Ho as [fs' _ _ Ha|?|n k a' fs' _ _ Hd Hp _ _ _]; split_and!; try done;
      [left; by eexists|left; by eexists|by right].
  - destruct (Append_dead faults ev (audit p) (w_fs w) Hd) as (e & a & -> & Hd' & Hp).
    exists (Err e), a, (w_fs w). split_and!; [done|done|apply frame_refl|by right].
Qed.

(** Spilling, dead or alive. *)
Record spill_effect (idle : bool) (ev : Event) (p : Pipeline) (w : World) (g : ledger)
    (p' : Pipeline) (w' : World) (g' : ledger) : Prop := {
  se_cfg : cfg p' = cfg p;
  se_queue : queue p' = queue p;
  se_audit : audit p' = audit p;
  se_path : al_path (overflow p') = al_path (overflow p);
  se_frame : frame [al_path (overflow p)] (w_fs w) (w_fs w');
  se_log : log_ok idle (overflow p') (w_fs w') (pending g');
  se_pending : Forall marshalable (pending g) -> Forall marshalable (pending g');
  se_accepted : accepted g' = accepted g;
  se_evaluated : evaluated g' = evaluated g;
  se_dropped : dropped g' = dropped g;
  se_balance e : (tally e (pending g') + tally e (lost g') =
    tally e (pending g) + tally e (lost g) + tally e [ev])%nat;
  se_metrics : (lost g' = lost g /\ metrics p' = metrics p) \/
    (lost g' = lost g ++ [ev] /\ metrics p' = add_lost 1 (metrics p))
}.

Lemma spill_effects idle ev p w g p' w' :
  log_ok idle (overflow p) (w_fs w) (pending g) ->
  spill faults ev p w = (p', w') ->
  spill_effect idle ev p w g p' w' (spilled_ledger faults ev p w g).
Proof.
  unfold spill, spilled_ledger, append_overflow. intros [Ha|[Hd Hs]].
  - destruct (Append_outcome faults ev (overflow p) (w_fs w) _ Ha) as (r & a & fs & -> & Ho & Hf).
    destruct Ho as [fs' Hm _ Ha'|Hm|n k a' fs' Hm _ Hd Hp _ Hc Hwf]; cbn [is_ok fst];
      intros [= <- <-]; constructor; try done; cbn [pending lost set_pending].
    + left. cbn [overflow set_overflow w_fs set_fs]. by rewrite lines_snoc.
    + intros Hall. apply Forall_app. split; [done|by constructor].
    + intros e. rewrite tally_app. lia.
    + by left.
    + by left.
    + intros e. rewrite tally_app. lia.
    + by right.
    + right. split; [done|]. left. cbn [overflow set_overflow count w_fs set_fs]. rewrite Hp. by eexists.
    + intros e. rewrite tally_app. lia.
    + by right.
  - destruct (Append_dead faults ev (overflow p) (w_fs w) Hd) as (e & a & -> & Hd' & Hp).
    cbn [is_ok fst]. intros [= <- <-]. constructor; try done; cbn [pending lost set_pending].
    + right. split; [done|]. cbn [overflow set_overflow count w_fs set_fs].
      unfold replay_path. rewrite Hp. exact Hs.
    + intros x. rewrite tally_app. lia.
    + by right.
Qed.

(** ** Preservation by the threads *)

Lemma wrapU_succ n : wrapU 64 (wrapU 64 (Z.of_nat n) + 1) = wrapU 64 (Z.of_nat (n + 1)).
Proof. unfold wrapU. rewrite Zplus_mod_idemp_l. f_equal. lia. Qed.

Lemma evaluation_world net ev s r w :
  evaluation decode_verdict net ev s = (r, w) ->
  w_fs w = w_fs (s_world s).
Proof. unfold evaluation. by intros [= _ <-]. Qed.

Lemma respond_fs later ev w : w_fs (respond allowed later ev w) = w_fs w.
Proof. unfold respond. by destruct (hunter.KillProcess _ _ _ _ _). Qed.

(** The state after a spill, whichever thread does it; [before] and
    [after] are the events in the threads' hands. *)
Lemma spill_inv ofile restored s p' w' ev rd ks rp :
  inv ofile restored s -> spill faults ev (s_pipe s) (s_world s) = (p', w') ->
  is_idle rp = is_idle (s_replayer s) ->
  (forall fs, replay_ok (replay_path (overflow (s_pipe s))) (s_replayer s) fs ->
     replay_ok (replay_path (overflow (s_pipe s))) rp fs) ->
  (forall e, tally e (reader_holds rd) + tally e (workers_hold ks) + tally e (replayer_holds rp) +
     tally e [ev] = tally e (reader_holds (s_reader s)) + tally e (workers_hold (s_workers s)) +
     tally e (replayer_holds (s_replayer s)))%nat ->
  inv ofile restored (mkState p' w' rd ks rp (s_cancelled s)
    (spilled_ledger faults ev (s_pipe s) (s_world s) (s_ledger s))).
Proof.
  intros [Hpt [Hap1 Hap2] Hwf Hlog Haud Hpend Hrep Hbal [Hl Hs] Hq Hdr] Hsp Hidle Hrp Hholds.
  pose proof (spill_effects _ ev _ _ _ p' w' Hlog Hsp) as []. pose proof (replay_path_ne (overflow (s_pipe s))) as Hne.
  assert (replay_path (overflow p') = replay_path (overflow (s_pipe s))) as Erp
    by (unfold replay_path; by rewrite se_path0).
  constructor; cbn [s_pipe s_world s_ledger s_replayer s_workers s_reader].
  - by rewrite se_path0.
  - unfold apart. by rewrite se_audit0, Erp, se_path0.
  - by eapply frame_wf.
  - by rewrite Hidle.
  - rewrite se_audit0. eapply audit_ok_frame; [done|by apply not_elem_singleton|done].
  - by apply se_pending0.
  - rewrite Erp. apply Hrp. eapply replay_ok_frame; [done|by apply not_elem_singleton|done].
  - intros e. specialize (Hbal e). specialize (Hholds e). specialize (se_balance0 e). cbn zeta in *.
    cbn [s_pipe s_ledger s_reader s_workers s_replayer].
    rewrite se_queue0, se_accepted0, se_evaluated0, se_dropped0. lia.
  - unfold counted. cbn [s_pipe s_ledger]. rewrite se_accepted0.
    destruct se_metrics0 as [[-> ->]|[-> ->]]; [done|].
    rewrite length_app. cbn [length]. rewrite <- wrapU_succ. cbn [EventsLost SuspiciousTotal add_lost].
    by rewrite Hl.
  - unfold bounded. cbn [s_pipe]. by rewrite se_queue0, se_cfg0.
  - by rewrite se_dropped0.
Qed.

(** A step that leaves both logs, the files and what is on disk alone. *)
Lemma quiet_inv ofile restored s p w rd ks rp c g :
  inv ofile restored s ->
  overflow p = overflow (s_pipe s) -> audit p = audit (s_pipe s) -> cfg p = cfg (s_pipe s) ->
  w_fs w = w_fs (s_world s) ->
  rp = s_replayer s ->
  pending g = pending (s_ledger s) -> lost g = lost (s_ledger s) ->
  dropped g = dropped (s_ledger s) -> accepted g = accepted (s_ledger s) ->
  EventsLost (metrics p) = EventsLost (metrics (s_pipe s)) ->
  SuspiciousTotal (metrics p) = SuspiciousTotal (metrics (s_pipe s)) ->
  Z.of_nat (length (queue p)) <= Z.max 0 (QueueSize (cfg (s_pipe s))) ->
  (forall e, tally e (queue p) + tally e (reader_holds rd) + tally e (workers_hold ks) +
     tally e (evaluated g) = tally e (queue (s_pipe s)) + tally e (reader_holds (s_reader s)) +
     tally e (workers_hold (s_workers s)) + tally e (evaluated (s_ledger s)))%nat ->
  inv ofile restored (mkState p w rd ks rp c g).
Proof.
  intros [Hpt Hap Hwf Hlog Haud Hpend Hrep Hbal [Hl Hs] Hq Hdr] Eo Ea Ec Ef -> Ep El Ed Eacc Em1 Em2 Hq' Hholds.
  constructor; cbn [s_pipe s_world s_ledger s_replayer s_workers s_reader];
    unfold apart, counted, bounded in *; cbn [s_pipe s_ledger];
    rewrite ?Eo, ?Ea, ?Ef, ?Ep, ?El, ?Ed, ?Ec, ?Eacc, ?Em1, ?Em2; try done.
  intros e. specialize (Hbal e). specialize (Hholds e). cbn zeta in *. cbn [s_pipe s_ledger s_reader s_workers s_replayer].
  rewrite Ep, El, Ed, Eacc. lia.
Qed.

(** The audit write keeps the invariant. *)
Lemma audit_inv ofile restored s ev p w :
  inv ofile restored s -> audited faults ev s = (p, w) ->
  inv ofile restored (mkState p w (s_reader s) (s_workers s) (s_replayer s) (s_cancelled s) (s_ledger s)) /\
  metrics p = add_total 1 (metrics (s_pipe s)) /\ queue p = queue (s_pipe s) /\
  cfg p = cfg (s_pipe s).
Proof.
  intros [Hpt [Hap1 Hap2] Hwf Hlog Haud Hpend Hrep Hbal [Hl Hs] Hq Hdr]. unfold audited.
  destruct (append_audit_frame ev (count (add_total 1) (s_pipe s)) (s_world s) Haud)
    as (r & a & fs & -> & Hp & Hf & Haud').
  intros [= <- <-]. split; [|done].
  cbn [audit overflow count set_audit] in *.
  constructor; cbn [s_pipe s_world s_ledger s_replayer s_workers s_reader audit overflow count
    set_audit w_fs set_fs]; try done.
  - unfold apart. cbn [audit overflow count set_audit]. by rewrite Hp.
  - by eapply frame_wf.
  - eapply log_ok_frame; [done| | |done]; apply not_elem_singleton; congruence.
  - eapply replay_ok_frame; [done| |done]. apply not_elem_singleton; congruence.
Qed.

Lemma reader_inv boot ofile restored s s' : inv ofile restored s -> reader_step faults boot s s' -> inv ofile restored s'.
Proof.
  intros Hi Hstep. destruct Hstep as [raw e Hr _|raw ev p w Hr _ _ Ea|raw ev p w Hr _ _ Ea|
    ev Hr Hlen|ev i Hr Hq Hw|ev Hr Hlen|ev p w Hr Hsp|Hr Hc].
  - unfold with_reader. eapply quiet_inv; try done; [apply Hi|].
    intros e0. cbn [queue count]. rewrite Hr. cbn [reader_holds tally]. lia.
  - destruct (audit_inv ofile restored s ev p w Hi Ea) as (Hi' & _ & _ & _).
    unfold with_reader. rewrite Hr in Hi'. exact Hi'.
  - destruct (audit_inv ofile restored s ev p w Hi Ea) as (Hi' & Em & Eq & Ec).
    destruct Hi' as [Hpt Hap Hwf Hlog Haud Hpend Hrep Hbal [Hl Hs] Hq Hdr].
    unfold with_reader. constructor; try done.
    + intros e. specialize (Hbal e). cbn zeta in *.
      cbn [s_pipe s_ledger s_reader s_workers s_replayer queue count accept accepted evaluated lost dropped
        pending reader_holds] in *.
      rewrite Hr in Hbal. cbn [reader_holds] in Hbal.
      rewrite app_assoc, tally_app. cbn [tally] in *. lia.
    + unfold counted. cbn [s_pipe s_ledger accept accepted lost count metrics EventsLost SuspiciousTotal
        add_suspicious] in *.
      split; [done|]. rewrite Hs, length_app. cbn [length]. apply wrapU_succ.
  - unfold with_reader. eapply quiet_inv; try done.
    + cbn [queue set_queue]. rewrite length_app. cbn [length]. lia.
    + intros e. cbn [queue set_queue reader_holds]. rewrite Hr, tally_app. cbn [reader_holds tally]. lia.
  - unfold with_reader, with_worker. cbn [s_workers s_replayer s_cancelled].
    eapply quiet_inv; try done; [apply Hi|].
    intros e. cbn [reader_holds]. rewrite Hr. cbn [reader_holds tally].
    pose proof (tally_workers e _ _ _ (WEval ev) Hw) as Ht. cbn [worker_holds tally] in *. lia.
  - unfold with_reader. eapply quiet_inv; try done; [apply Hi|].
    intros e0. cbn [queue count]. by rewrite Hr.
  - unfold with_reader. eapply spill_inv; try done.
    intros e. rewrite Hr. cbn [reader_holds tally]. lia.
  - unfold with_reader. eapply quiet_inv; try done; [apply Hi|].
    intros e0. by rewrite Hr.
Qed.

Lemma worker_inv ofile restored i s s' :
  inv ofile restored s -> worker_step decode_verdict faults allowed i s s' -> inv ofile restored s'.
Proof.
  intros Hi Hstep.
  assert (Z.of_nat (length (queue (s_pipe s))) <= Z.max 0 (QueueSize (cfg (s_pipe s)))) as Hb by apply Hi.
  destruct Hstep as [ev q Hw Hq|net ev v w Hw He _|net ev v w Hw He _|later ev Hw|net ev e w Hw He|
    ev p w Hw Hsp|Hw Hc]; unfold with_worker;
    pose proof (fun x k => tally_workers x _ _ _ k Hw) as Ht.
  - eapply quiet_inv; try done.
    + cbn [queue set_queue]. rewrite Hq in Hb. cbn [length] in Hb. lia.
    + intros e. specialize (Ht e (WEval ev)). cbn [queue set_queue worker_holds tally] in *.
      rewrite Hq. cbn [tally]. lia.
  - eapply quiet_inv; try done; [by eapply evaluation_world|].
    intros e. specialize (Ht e WIdle). cbn [worker_holds evaluated settle tally] in *.
    rewrite tally_app. cbn [tally]. lia.
  - eapply quiet_inv; try done; [by eapply evaluation_world|].
    intros e. specialize (Ht e (WKill ev)). cbn [worker_holds evaluated settle tally queue count] in *.
    rewrite tally_app. cbn [tally]. lia.
  - eapply quiet_inv; try done; [apply respond_fs|].
    intros e. specialize (Ht e WIdle). cbn [worker_holds tally] in *. lia.
  - eapply quiet_inv; try done; [by eapply evaluation_world|].
    intros x. specialize (Ht x (WSpill ev)). cbn [worker_holds tally queue count] in *. lia.
  - eapply spill_inv; try done.
    intros e. specialize (Ht e WIdle). cbn [worker_holds tally] in *. lia.
  - eapply quiet_inv; try done.
    intros e. specialize (Ht e WDone). cbn [worker_holds tally] in *. lia.
Qed.

(** A step of the replay loop between two file operations. *)
Lemma turn_inv ofile restored s p w rp g :
  inv ofile restored s ->
  overflow p = overflow (s_pipe s) -> audit p = audit (s_pipe s) -> cfg p = cfg (s_pipe s) ->
  queue p = queue (s_pipe s) ->
  EventsLost (metrics p) = EventsLost (metrics (s_pipe s)) ->
  SuspiciousTotal (metrics p) = SuspiciousTotal (metrics (s_pipe s)) ->
  frame [] (w_fs (s_world s)) (w_fs w) ->
  is_idle rp = is_idle (s_replayer s) ->
  replay_ok (replay_path (overflow (s_pipe s))) rp (w_fs w) ->
  pending g = pending (s_ledger s) -> lost g = lost (s_ledger s) -> accepted g = accepted (s_ledger s) ->
  (dropped g = dropped (s_ledger s) \/ exists k n, faults k = Bad n) ->
  (forall e, tally e (replayer_holds rp) + tally e (evaluated g) + tally e (dropped g) =
     tally e (replayer_holds (s_replayer s)) + tally e (evaluated (s_ledger s)) +
     tally e (dropped (s_ledger s)))%nat ->
  inv ofile restored (mkState p w (s_reader s) (s_workers s) rp (s_cancelled s) g).
Proof.
  intros [Hpt Hap Hwf Hlog Haud Hpend Hrep Hbal [Hl Hs] Hq Hdr] Eo Ea Ec Eq Em1 Em2 Hf Hidle Hrp Ep El Eacc Hd Hholds.
  constructor; cbn [s_pipe s_world s_ledger s_replayer s_workers s_reader];
    unfold apart, counted, bounded in *; cbn [s_pipe s_ledger];
    rewrite ?Eo, ?Ea, ?Ep, ?El, ?Ec, ?Eacc, ?Em1, ?Em2, ?Eq, ?Hidle; try done.
  - by eapply frame_wf.
  - eapply log_ok_frame; [done|apply not_elem_of_nil..|done].
  - eapply audit_ok_frame; [done|apply not_elem_of_nil|done].
  - intros e. specialize (Hbal e). specialize (Hholds e). cbn zeta in *.
    cbn [s_pipe s_ledger s_reader s_workers s_replayer]. rewrite Eq, Ep, El, Eacc. lia.
  - destruct Hd as [->|?]; [done|by right].
Qed.

(** Rotation: the pending events become the batch, or stay where they are. *)
Lemma rotate_inv ofile restored s r a fs rp g :
  inv ofile restored s -> s_replayer s = PIdle ->
  rotate faults (overflow (s_pipe s)) (w_fs (s_world s)) = (r, a, fs) ->
  (r = Ok (replay_path (overflow (s_pipe s))) /\
   rp = POpen (replay_path (overflow (s_pipe s))) (pending (s_ledger s)) /\
   g = set_pending [] (s_ledger s)) \/
  ((exists e, r = Err e) /\ rp = PIdle /\ g = s_ledger s) ->
  inv ofile restored (mkState (set_overflow a (s_pipe s)) (set_fs fs (s_world s)) (s_reader s) (s_workers s)
    rp (s_cancelled s) g).
Proof.
  intros [Hpt [Hap1 Hap2] Hwf Hlog Haud Hpend Hrep Hbal [Hl Hs] Hq Hdr] Hidle Er Hcase.
  rewrite Hidle in Hlog.
  assert (al_path a = al_path (overflow (s_pipe s)) /\
    frame [al_path (overflow (s_pipe s)); replay_path (overflow (s_pipe s))] (w_fs (s_world s)) fs /\
    log_ok (is_idle rp) a fs (pending g) /\
    replay_ok (replay_path (overflow (s_pipe s))) rp fs) as (Hpath & Hf & Hlog' & Hrp).
  { destruct Hlog as [Ha|[Hd Hs']].
    - pose proof (rotate_frame faults _ _ _ Ha) as Hf. rewrite Er in Hf. cbn [snd] in Hf.
      destruct (rotate_alive faults _ _ _ Ha) as (r' & a' & fs' & Er' & Ho). rewrite Er in Er'.
      simplify_eq. destruct Ho as [a' fs' Ha' Hp Hc _ _|a' fs' k n Hd Hp Hk _ Hc].
      + destruct Hcase as [(_ & -> & ->)|([e He] & _)]; [|done].
        split_and!; try done. by left.
      + destruct Hcase as [(He & _)|(_ & -> & ->)]; [done|]. split_and!; try done.
        right. split; [done|]. unfold replay_path. rewrite Hp. case_bool_decide.
        * left. exists []. by rewrite app_nil_r.
        * right. split; [done|]. apply Hc.
    - destruct (rotate_dead faults _ (w_fs (s_world s)) Hd) as (e & a' & Er' & Hd' & Hp).
      rewrite Er in Er'. simplify_eq. destruct Hcase as [(He & _)|(_ & -> & ->)]; [done|].
      split_and!; try done; try apply frame_refl. right. split; [done|].
      unfold replay_path. rewrite Hp. exact Hs'. }
  assert (replay_path a = replay_path (overflow (s_pipe s))) as Erp by (unfold replay_path; by rewrite Hpath).
  assert (al_path (audit (s_pipe s)) ∉ [al_path (overflow (s_pipe s)); replay_path (overflow (s_pipe s))])
    as Hnot by by (apply not_elem_of_cons; split; [|apply not_elem_singleton]).
  constructor; cbn [s_pipe s_world s_ledger s_replayer s_workers s_reader overflow audit set_overflow w_fs set_fs];
    try done.
  - by rewrite Hpath.
  - unfold apart. cbn [overflow audit set_overflow]. by rewrite Erp, Hpath.
  - by eapply frame_wf.
  - by eapply audit_ok_frame.
  - destruct Hcase as [(_ & _ & ->)|(_ & _ & ->)]; [constructor|done].
  - by rewrite Erp.
  - intros e. specialize (Hbal e). cbn zeta in *.
    cbn [s_pipe s_ledger s_reader s_workers s_replayer queue set_overflow]. rewrite Hidle in Hbal.
    destruct Hcase as [(_ & -> & ->)|(_ & -> & ->)]; [|done].
    cbn [replayer_holds pending accepted evaluated lost dropped set_pending tally] in *. lia.
  - by destruct Hcase as [(_ & _ & ->)|(_ & _ & ->)].
  - by destruct Hcase as [(_ & _ & ->)|(_ & _ & ->)].
Qed.

(** A rotation that succeeds returns the replay path. *)
Lemma rotate_path ofile restored s path a fs :
  inv ofile restored s -> rotate faults (overflow (s_pipe s)) (w_fs (s_world s)) = (Ok path, a, fs) ->
  path = replay_path (overflow (s_pipe s)).
Proof.
  intros Hi Er. destruct (i_log _ _ _ Hi) as [Ha|[Hd _]].
  - destruct (rotate_alive faults _ _ _ Ha) as (r' & a' & fs' & Er' & Ho). rewrite Er in Er'.
    simplify_eq. by inversion Ho.
  - destruct (rotate_dead faults _ (w_fs (s_world s)) Hd) as (e & a' & Er' & _ & _). congruence.
Qed.

Lemma OpenRead_frame path fs r fs' : OpenRead faults path fs = (r, fs') -> frame [] fs fs'.
Proof.
  unfold OpenRead. destruct (outcome faults fs); [destruct (contents fs path)|];
    intros [= _ <-]; apply frame_tick.
Qed.

(** What a decode says about the batch being replayed. *)
Lemma next_batch batch bytes ev rest :
  Forall marshalable batch -> stream_of batch bytes -> next bytes = Some (ev, rest) ->
  exists x batch', batch = x :: batch' /\ ev = canon x /\ stream_of batch' rest /\
    marshalable x /\ Forall marshalable batch'.
Proof.
  intros Hm Hs Hn. pose proof (next_stream batch bytes Hm Hs) as Hns.
  destruct Hm as [|x batch Hx Hm]; [congruence|]. destruct Hns as (s1 & Hns & Hs1).
  rewrite Hn in Hns. simplify_eq. by exists x, batch.
Qed.

Lemma next_batch_end batch bytes :
  Forall marshalable batch -> stream_of batch bytes -> next bytes = None -> batch = [].
Proof.
  intros Hm Hs Hn. pose proof (next_stream batch bytes Hm Hs) as Hns.
  destruct Hm as [|x batch Hx Hm]; [done|]. destruct Hns as (? & ? & _). congruence.
Qed.

(** An evaluation of the next event of the batch: it is evaluated, or in
    the replay loop's hands. *)
Lemma replay_turn_inv ofile restored s path bytes batch a b net ev rest r w rp g :
  inv ofile restored s -> s_replayer s = PDrain path bytes batch a b -> next bytes = Some (ev, rest) ->
  evaluation decode_verdict net ev s = (r, w) ->
  (rp = PDrain path rest (drop 1 batch) (a + 1) b /\ g = settle ev (s_ledger s)) \/
  (rp = PSpill ev path rest (drop 1 batch) a (b + 1) /\ g = s_ledger s) ->
  inv ofile restored (mkState (s_pipe s) w (s_reader s) (s_workers s) rp (s_cancelled s) g).
Proof.
  intros Hi Hr Hn He Hcase. pose proof (i_replay _ _ _ Hi) as Hrep. rewrite Hr in Hrep.
  destruct Hrep as (-> & Hs & Hm).
  destruct (next_batch _ _ _ _ Hm Hs Hn) as (x & batch' & -> & -> & Hs' & _ & Hm').
  pose proof (frame_refl [] (w_fs (s_world s))) as Hf.
  rewrite <- (evaluation_world _ _ _ _ _ He) in Hf at 2.
  destruct Hcase as [[-> ->]|[-> ->]]; (eapply turn_inv; try done; [by rewrite Hr|by left|]); intros e;
    rewrite Hr; cbn [replayer_holds evaluated settle dropped]; change (drop 1 (x :: batch')) with batch'.
  - rewrite tally_app, tally_canon. cbn [tally]. lia.
  - by rewrite tally_canon.
Qed.

Lemma remove_inv ofile restored s path :
  inv ofile restored s -> s_replayer s = PRemove path ->
  inv ofile restored (mkState (s_pipe s) (set_fs (Remove faults path (w_fs (s_world s))) (s_world s))
    (s_reader s) (s_workers s) PIdle (s_cancelled s) (s_ledger s)).
Proof.
  intros [Hpt [Hap1 Hap2] Hwf Hlog Haud Hpend Hrep Hbal [Hl Hs] Hq Hdr] Hr.
  rewrite Hr in Hrep. simpl in Hrep. subst path.
  pose proof (frame_Remove faults (replay_path (overflow (s_pipe s))) (w_fs (s_world s))) as Hf.
  assert (al_path (overflow (s_pipe s)) ∉ [replay_path (overflow (s_pipe s))]) as Hne
    by apply not_elem_singleton, not_eq_sym, replay_path_ne.
  constructor; cbn [s_pipe s_world s_ledger s_replayer s_workers s_reader w_fs set_fs is_idle]; try done.
  - by eapply frame_wf.
  - rewrite Hr in Hlog. destruct Hlog as [Ha|[Hd [[t Ht]|[? _]]]]; [by left; eapply alive_frame| |done].
    right. split; [done|]. left. exists t. by rewrite (fr_contents _ _ _ Hf).
  - eapply audit_ok_frame; [done|by apply not_elem_singleton|done].
  - intros e. specialize (Hbal e). rewrite Hr in Hbal. done.
Qed.

Lemma replayer_inv ofile restored s s' :
  inv ofile restored s -> replayer_step decode_verdict faults s s' -> inv ofile restored s'.
Proof.
  intros Hi Hstep. pose proof (i_replay _ _ _ Hi) as Hrep.
  destruct Hstep as [path a fs Hr Er Hne|a fs Hr Er|e a fs Hr Er|path batch bytes fs Hr Eo|
    path batch e fs Hr Eo|path bytes batch a b net ev rest v w Hr Hn He|
    path bytes batch a b net ev rest e w Hr Hn He|ev path bytes batch a b p w Hr Hsp|
    path bytes batch a b Hr Hn|path Hr|Hr Hc]; unfold with_replayer; rewrite Hr in Hrep.
  - pose proof (rotate_path _ _ _ _ _ _ Hi Er) as ->. eapply rotate_inv; eauto 10.
  - pose proof (rotate_path _ _ _ _ _ _ Hi Er) as Hp. unfold replay_path in Hp.
    by destruct (al_path (overflow (s_pipe s))).
  - eapply rotate_inv; eauto 10.
  - destruct Hrep as (-> & Hc & Hm). pose proof (OpenRead_frame _ _ _ _ Eo) as Hf.
    assert (bytes = lines batch) as ->.
    { unfold OpenRead in Eo. rewrite Hc in Eo. destruct (outcome _ _); by simplify_eq. }
    eapply turn_inv; try done; [by rewrite Hr|split_and!; [done|by left|done]|by left|by rewrite Hr].
  - destruct Hrep as (-> & Hc & Hm). pose proof (OpenRead_frame _ _ _ _ Eo) as Hf.
    assert (exists n, faults (fs_calls (w_fs (s_world s))) = Bad n) as [n Hn].
    { unfold OpenRead, outcome in Eo. rewrite Hc in Eo.
      destruct (faults (fs_calls (w_fs (s_world s)))); [done|by eexists]. }
    eapply turn_inv; try done; [by rewrite Hr|right; by eexists _, _|].
    intros e0. rewrite Hr. cbn [replayer_holds dropped evaluated drop_all tally]. rewrite tally_app. lia.
  - eapply replay_turn_inv; eauto.
  - eapply replay_turn_inv; eauto.
  - eapply spill_inv; try done; rewrite ?Hr; try done.
    intros e. cbn [replayer_holds tally]. lia.
  - destruct Hrep as (-> & Hs & Hm). pose proof (next_batch_end _ _ Hm Hs Hn) as ->.
    eapply turn_inv; try done; try (by destruct (0 <? a + b)); try (by rewrite Hr).
    + left. cbn [drop_all dropped]. apply app_nil_r.
    + intros e. rewrite Hr. cbn [replayer_holds drop_all dropped evaluated]. by rewrite app_nil_r.
  - by apply remove_inv.
  - eapply turn_inv; try done; try (by rewrite Hr). by left.
Qed.

Lemma step_inv boot ofile restored s s' :
  inv ofile restored s -> step decode_verdict faults allowed boot s s' -> inv ofile restored s'.
Proof.
  intros Hi [s1 Hs|i s1 Hs|s1 Hs| |ps]; [by eapply reader_inv|by eapply worker_inv|by eapply replayer_inv|..].
  - eapply quiet_inv; try done. apply Hi.
  - eapply quiet_inv; try done. apply Hi.
Qed.

(** ** The start *)

(** What the events say about a configuration: its files are apart, and the
    overflow file, if there is one, holds the lines of [restored]. *)
Record startable (c : Config) (fs : FS) (restored : list Event) : Prop := {
  st_wf : fs_wf fs;
  st_audit : AuditPath c <> OverflowPath c;
  st_replay : AuditPath c <> OverflowPath c ++ bs ".replay";
  st_overflow : default [] (contents fs (OverflowPath c)) = lines restored;
  st_restored : Forall marshalable restored
}.

Lemma New_initial c fs restored p fs' n ps :
  startable c fs restored -> New faults c fs = (Ok p, fs') ->
  inv (OverflowPath c) restored (initial p (mkWorld fs' n ps) restored).
Proof.
  intros [Hwf Ha Hr Ho Hm]. unfold New.
  set (c' := if ReplayEvery c <=? 0 then _ else c).
  assert (AuditPath c' = AuditPath c /\ OverflowPath c' = OverflowPath c /\ QueueSize c' = QueueSize c)
    as (-> & -> & ->) by (subst c'; by destruct (ReplayEvery c <=? 0)).
  destruct (newAppendLog faults (AuditPath c) fs) as [[au|e|] fs1] eqn:E1; [|done..].
  destruct (newAppendLog faults (OverflowPath c) fs1) as [[ov|e|] fs2] eqn:E2;
    [|destruct (AppendLog.Close faults au fs2) as [[? ?] ?]; done|done].
  destruct (QueueSize c <? 0); [done|]. intros [= <- <-].
  destruct (newAppendLog_alive faults _ _ _ _ Hwf E1) as (Ha1 & Hp1 & Hf1).
  pose proof (frame_wf _ _ _ Hf1 Hwf) as Hwf1.
  destruct (newAppendLog_alive faults _ _ _ _ Hwf1 E2) as (Ha2 & Hp2 & Hf2).
  unfold initial. constructor; cbn [s_pipe s_world s_ledger s_replayer s_workers s_reader overflow audit
    w_fs pending]; try done.
  - unfold apart, replay_path. cbn [overflow audit]. by rewrite Hp1, Hp2.
  - by eapply frame_wf.
  - left. rewrite (fr_contents _ _ _ Hf1), Ho in Ha2; [done|]. by apply not_elem_singleton, not_eq_sym.
  - left. eexists. eapply alive_frame; [exact Hf2| |exact Ha1]. rewrite Hp1. by apply not_elem_singleton.
  - intros e. cbn [s_pipe s_ledger s_reader s_workers s_replayer queue reader_holds replayer_holds
      accepted evaluated lost dropped pending]. rewrite app_nil_r.
    assert (tally e (workers_hold (replicate (Z.to_nat (Workers (cfg (mkPipeline c' [] zero_metrics au ov)))) WIdle))
      = 0%nat) as ->.
    { generalize (Z.to_nat (Workers (cfg (mkPipeline c' [] zero_metrics au ov)))). intros k.
      unfold workers_hold. induction k as [|k IH]; [done|]. cbn [replicate]. rewrite fmap_cons. done. }
    cbn [tally]. lia.
  - unfold bounded. cbn [s_pipe queue cfg length]. lia.
  - by left.
Qed.

Lemma reachable_inv boot c fs restored p fs' n ps s :
  startable c fs restored -> New faults c fs = (Ok p, fs') ->
  reachable decode_verdict faults allowed boot (initial p (mkWorld fs' n ps) restored) s ->
  inv (OverflowPath c) restored s.
Proof.
  intros Hst Hnew Hr. induction Hr as [|s s' _ IH Hs]; [by eapply New_initial|by eapply step_inv].
Qed.

(** ** No suspicious event vanishes *)

(** C1: conservation.  In every state the running broker can reach,
    whatever the interleaving, the evaluations and the failing system calls,
    every suspicious event accepted since the start or found in the overflow
    file is in exactly one place: the queue, the hands of a thread, the
    overflow file, or among those evaluated, lost or dropped.  The lost are
    exactly those counted in [EventsLost], the accepted those counted in
    [SuspiciousTotal], and none is dropped without being counted unless a
    system call failed. *)
Theorem suspicious_events_conserved boot c fs restored p fs' n ps s :
  startable c fs restored -> New faults c fs = (Ok p, fs') ->
  reachable decode_verdict faults allowed boot (initial p (mkWorld fs' n ps) restored) s ->
  balanced restored s /\ counted s /\
  (dropped (s_ledger s) = [] \/ exists k n, faults k = Bad n).
Proof. intros H1 H2 H3. by destruct (reachable_inv _ _ _ _ _ _ _ _ _ H1 H2 H3). Qed.

(** What is spilled is on disk.  In every reachable state the events
    spilled and not yet rotated away are in the overflow file, line by line
    and in order, and the log works; or the log is dead, and they are still
    at the start of the overflow file or, if the rotation that killed it
    got that far, in the replay file. *)
Lemma spilled_events_on_disk boot c fs restored p fs' n ps s :
  startable c fs restored -> New faults c fs = (Ok p, fs') ->
  reachable decode_verdict faults allowed boot (initial p (mkWorld fs' n ps) restored) s ->
  log_ok (is_idle (s_replayer s)) (overflow (s_pipe s)) (w_fs (s_world s)) (pending (s_ledger s)).
Proof. intros H1 H2 H3. by destruct (reachable_inv _ _ _ _ _ _ _ _ _ H1 H2 H3). Qed.

(** The queue never holds more than [QueueSize] events. *)
Lemma queue_bounded boot c fs restored p fs' n ps s :
  startable c fs restored -> New faults c fs = (Ok p, fs') ->
  reachable decode_verdict faults allowed boot (initial p (mkWorld fs' n ps) restored) s ->
  bounded s.
Proof. intros H1 H2 H3. by destruct (reachable_inv _ _ _ _ _ _ _ _ _ H1 H2 H3). Qed.

(** ** Without failures, nothing is lost *)

Lemma alive_not_dead a fs c : alive a fs c -> ~ dead a.
Proof. intros [Hc Hw _ _ _ _] [Hd|Hd]; [by rewrite Hw in Hd|congruence]. Qed.

(** Every event in the threads' hands has a JSON form, the log works, and
    nothing was lost or dropped. *)
Record sound (s : state) : Prop := {
  so_log : ~ dead (overflow (s_pipe s));
  so_queue : Forall marshalable (queue (s_pipe s));
  so_reader : Forall marshalable (reader_holds (s_reader s));
  so_workers : Forall (fun k => Forall marshalable (worker_holds k)) (s_workers s);
  so_replayer : Forall marshalable (replayer_holds (s_replayer s));
  so_lost : lost (s_ledger s) = [];
  so_dropped : dropped (s_ledger s) = []
}.

Section no_failures.
Context (all_well : forall k, faults k = Good).

Lemma spill_sound ofile restored s ev p w :
  inv ofile restored s -> sound s -> marshalable ev -> spill faults ev (s_pipe s) (s_world s) = (p, w) ->
  overflow p = overflow (s_pipe s) /\ queue p = queue (s_pipe s) /\
  spilled_ledger faults ev (s_pipe s) (s_world s) (s_ledger s) =
    set_pending (pending (s_ledger s) ++ [ev]) (s_ledger s).
Proof.
  intros Hi Hs Hm. destruct (i_log _ _ _ Hi) as [Ha|[Hd _]]; [|by destruct (so_log _ Hs)].
  unfold spill, spilled_ledger, append_overflow.
  destruct (Append_outcome faults ev _ _ _ Ha) as (r & a & fs & -> & Ho & _).
  destruct Ho as [fs' _ _ _|Hnm|n k a' fs' _ Hbad _ _ _ _ _]; [|done|].
  - by intros [= <- <-].
  - unfold outcome in Hbad. by rewrite all_well in Hbad.
Qed.

Lemma rotate_sound ofile restored s r a fs :
  inv ofile restored s -> sound s ->
  rotate faults (overflow (s_pipe s)) (w_fs (s_world s)) = (r, a, fs) -> ~ dead a /\ is_ok r.
Proof.
  intros Hi Hs Er. destruct (i_log _ _ _ Hi) as [Ha|[Hd _]]; [|by destruct (so_log _ Hs)].
  destruct (rotate_alive faults _ _ _ Ha) as (r' & a' & fs' & Er' & Ho). rewrite Er in Er'.
  simplify_eq. destruct Ho as [a' fs' Ha' _ _ _ _|a' fs' k n _ _ _ Hbad _]; [|by rewrite all_well in Hbad].
  split; [by eapply alive_not_dead|done].
Qed.

(** A worker changes hands. *)
Lemma workers_sound i k ks :
  Forall (fun k => Forall marshalable (worker_holds k)) ks -> Forall marshalable (worker_holds k) ->
  Forall (fun k => Forall marshalable (worker_holds k)) (<[i := k]> ks).
Proof. intros Hks Hk. by apply Forall_insert. Qed.

Lemma worker_sound i k s :
  sound s -> s_workers s !! i = Some k -> Forall marshalable (worker_holds k).
Proof. intros Hs Hk. eapply Forall_lookup_1 in Hk; [|apply Hs]. exact Hk. Qed.

Lemma reader_sound boot ofile restored s s' :
  (forall raw ev, events.Decode boot raw = Ok ev -> marshalable ev) ->
  inv ofile restored s -> sound s -> reader_step faults boot s s' -> sound s'.
Proof.
  intros Hdec Hi Hs Hstep. destruct Hstep as [raw e Hr _|raw ev p w Hr Hd _ Ea|raw ev p w Hr Hd _ Ea|
    ev Hr Hlen|ev i Hr Hq Hw|ev Hr Hlen|ev p w Hr Hsp|Hr Hc].
  2-3: assert (overflow p = overflow (s_pipe s) /\ queue p = queue (s_pipe s)) as [Eo Eq]
    by (unfold audited, append_audit in Ea; destruct (Append _ _ _ _) as [[? ?] ?]; by injection Ea as <- <-).
  all: assert (Forall marshalable (reader_holds (s_reader s))) as Hh by apply Hs.
  all: try rewrite Hr in Hh; cbn [reader_holds] in Hh.
  - by destruct Hs; constructor.
  - destruct Hs. constructor; try done; cbn [with_reader s_pipe]; by rewrite ?Eo, ?Eq.
  - destruct Hs. constructor; try done; cbn [with_reader s_pipe s_reader overflow queue count]; rewrite ?Eo, ?Eq;
      [done..|]. constructor; [by eapply Hdec|done].
  - destruct Hs. constructor; try done. cbn [with_reader s_pipe queue set_queue]. by apply Forall_app.
  - destruct Hs. constructor; try done. by apply workers_sound.
  - by destruct Hs; constructor.
  - inversion Hh; subst. destruct (spill_sound _ _ _ _ _ _ Hi Hs ltac:(done) Hsp) as (Eo & Eq & Eg).
    destruct Hs. constructor; cbn [with_reader s_pipe s_ledger]; rewrite ?Eo, ?Eq, ?Eg; try done.
  - by destruct Hs; constructor.
Qed.

Lemma worker_step_sound ofile restored i s s' :
  inv ofile restored s -> sound s -> worker_step decode_verdict faults allowed i s s' -> sound s'.
Proof.
  intros Hi Hs Hstep. destruct Hstep as [ev q Hw Hq|net ev v w Hw He _|net ev v w Hw He _|later ev Hw|
    net ev e w Hw He|ev p w Hw Hsp|Hw Hc]; pose proof (worker_sound _ _ _ Hs Hw) as Hh; cbn [worker_holds] in Hh.
  - assert (Forall marshalable (ev :: q)) as Hall by (rewrite <- Hq; apply Hs).
    apply Forall_cons in Hall as [Hm Hall].
    destruct Hs. constructor; try done. apply workers_sound; [done|]. by constructor.
  - destruct Hs. constructor; try done. by apply workers_sound.
  - destruct Hs. constructor; try done. by apply workers_sound.
  - destruct Hs. constructor; try done. by apply workers_sound.
  - destruct Hs. constructor; try done. by apply workers_sound.
  - inversion Hh; subst. destruct (spill_sound _ _ _ _ _ _ Hi Hs ltac:(done) Hsp) as (Eo & Eq & Eg).
    destruct Hs. constructor; cbn [with_worker s_pipe s_ledger s_workers]; rewrite ?Eo, ?Eq, ?Eg; try done.
    by apply workers_sound.
  - destruct Hs. constructor; try done. by apply workers_sound.
Qed.

Lemma replayer_sound ofile restored s s' :
  inv ofile restored s -> sound s -> replayer_step decode_verdict faults s s' -> sound s'.
Proof.
  intros Hi Hs Hstep. pose proof (i_replay _ _ _ Hi) as Hrep. pose proof (so_replayer _ Hs) as Hh.
  destruct Hstep as [path a fs Hr Er Hne|a fs Hr Er|e a fs Hr Er|path batch bytes fs Hr Eo|
    path batch e fs Hr Eo|path bytes batch a b net ev rest v w Hr Hn He|
    path bytes batch a b net ev rest e w Hr Hn He|ev path bytes batch a b p w Hr Hsp|
    path bytes batch a b Hr Hn|path Hr|Hr Hc]; rewrite Hr in Hrep, Hh; cbn [replayer_holds] in Hh.
  - destruct (rotate_sound _ _ _ _ _ _ Hi Hs Er). pose proof (i_pending _ _ _ Hi).
    destruct Hs. by constructor.
  - destruct (rotate_sound _ _ _ _ _ _ Hi Hs Er). destruct Hs. by constructor.
  - destruct (rotate_sound _ _ _ _ _ _ Hi Hs Er). destruct Hs. by constructor.
  - destruct Hs. by constructor.
  - destruct Hrep as (-> & Hc & _). unfold OpenRead, outcome in Eo. by rewrite all_well, Hc in Eo.
  - destruct Hs. constructor; try done. by apply Forall_drop.
  - destruct Hrep as (-> & Hst & Hm).
    destruct (next_batch _ _ _ _ Hm Hst Hn) as (x & batch' & -> & -> & _ & Hx & Hm').
    destruct Hs. constructor; try done.
    cbn [with_replayer s_replayer replayer_holds]. constructor; [by apply canon_marshal|done].
  - inversion Hh; subst. destruct (spill_sound _ _ _ _ _ _ Hi Hs ltac:(done) Hsp) as (Eo & Eq & Eg).
    destruct Hs. constructor; cbn [with_replayer s_pipe s_ledger]; rewrite ?Eo, ?Eq, ?Eg; try done.
  - destruct Hrep as (-> & Hst & Hm). pose proof (next_batch_end _ _ Hm Hst Hn) as ->.
    destruct Hs. constructor; try done; cbn [with_replayer s_pipe s_ledger drop_all dropped];
      [by destruct (0 <? a + b)..|by rewrite app_nil_r].
  - destruct Hs. by constructor.
  - destruct Hs. by constructor.
Qed.

Lemma initial_sound c fs restored p fs' n ps :
  startable c fs restored -> New faults c fs = (Ok p, fs') ->
  sound (initial p (mkWorld fs' n ps) restored).
Proof.
  intros Hst Hnew. pose proof (New_initial c fs restored p fs' n ps Hst Hnew) as Hi.
  assert (queue p = [] /\ ~ dead (overflow p)) as [Hq Hd].
  { unfold New in Hnew. destruct (newAppendLog _ _ _) as [[au|e|] fs1] eqn:E1; [|done..].
    destruct (newAppendLog faults _ fs1) as [[ov|e|] fs2] eqn:E2;
      [|destruct (AppendLog.Close faults au fs2) as [[? ?] ?]; done|done].
    destruct (_ <? 0); [done|]. injection Hnew as <- <-. split; [done|]. cbn [overflow].
    pose proof (st_wf _ _ _ Hst) as Hwf.
    destruct (newAppendLog_alive faults _ _ _ _ Hwf E1) as (_ & _ & Hf1).
    destruct (newAppendLog_alive faults _ _ _ _ (frame_wf _ _ _ Hf1 Hwf) E2) as (Ha2 & _ & _).
    by eapply alive_not_dead. }
  constructor; try done; unfold initial; cbn [s_pipe s_workers]; [by rewrite Hq|].
  by apply Forall_replicate.
Qed.

Lemma step_sound boot ofile restored s s' :
  (forall raw ev, events.Decode boot raw = Ok ev -> marshalable ev) ->
  inv ofile restored s -> sound s -> step decode_verdict faults allowed boot s s' -> sound s'.
Proof.
  intros Hdec Hi Hs [s1 Hst1|i s1 Hst1|s1 Hst1| |ps1];
    [by eapply reader_sound|by eapply worker_step_sound|by eapply replayer_sound|by destruct Hs; constructor..].
Qed.

Lemma reachable_sound boot c fs restored p fs' n ps s :
  (forall raw ev, events.Decode boot raw = Ok ev -> marshalable ev) ->
  startable c fs restored -> New faults c fs = (Ok p, fs') ->
  reachable decode_verdict faults allowed boot (initial p (mkWorld fs' n ps) restored) s ->
  inv (OverflowPath c) restored s /\ sound s.
Proof.
  intros Hdec Hst Hnew Hr. induction Hr as [|s s' _ [Hi Hs] Hstep];
    [split; [by eapply New_initial|by eapply initial_sound]|].
  split; [by eapply step_inv|by eapply step_sound].
Qed.

(** C6: without failures nothing is lost.  If no system call fails and
    every event the decoder can produce has a JSON form, then in every
    reachable state, however often evaluations failed and the queue was
    full, no event is lost or dropped: [EventsLost] is 0, and each accepted
    event is queued, in a thread's hands, on disk or evaluated. *)
Theorem nothing_lost_without_failures boot c fs restored p fs' n ps s :
  (forall raw ev, events.Decode boot raw = Ok ev -> marshalable ev) ->
  startable c fs restored -> New faults c fs = (Ok p, fs') ->
  reachable decode_verdict faults allowed boot (initial p (mkWorld fs' n ps) restored) s ->
  lost (s_ledger s) = [] /\ dropped (s_ledger s) = [] /\ EventsLost (metrics (s_pipe s)) = 0.
Proof.
  intros Hdec Hst Hnew Hr. destruct (reachable_sound _ _ _ _ _ _ _ _ _ Hdec Hst Hnew Hr) as [Hi Hs].
  pose proof (so_lost _ Hs) as El. split; [done|]. split; [apply Hs|].
  destruct (i_counted _ _ _ Hi) as [-> _]. by rewrite El.
Qed.

End no_failures.

End facts.

(** ** Examples *)

#[local] Existing Instance eventjson.utc_codec.

Lemma sample_startable : startable sample_config empty_fs [].
Proof. by constructor. Qed.

(** The state after the reader accepted one suspicious event. *)
Definition accepted_event : Event := wire.view sample_boot sample_record.

Definition after_audit : Pipeline * World :=
  audited all_good accepted_event (initial started started_world []).

Definition sample_state : state :=
  with_reader (RSend accepted_event) (count (add_suspicious 1) after_audit.1) after_audit.2
    (accept accepted_event (s_ledger (initial started started_world []))) (initial started started_world []).

#[local] Abbreviation sample_reachable :=
  (reachable verdictjson.decode_verdict all_good (fun _ => true) sample_boot (initial started started_world [])).

Lemma sample_state_reachable : sample_reachable sample_state.
Proof.
  eapply reach_step; [apply reach_init|]. apply step_reader.
  apply (r_suspicious all_good sample_boot _ (wire.to_bytes sample_record) accepted_event);
    [done|by vm_compute|by vm_compute|]. unfold after_audit. by destruct (audited _ _ _).
Qed.

Lemma suspicious_events_conserved_witness :
  balanced [] sample_state /\ counted sample_state /\
  (dropped (s_ledger sample_state) = [] \/ exists k n, all_good k = Bad n).
Proof.
  apply (suspicious_events_conserved verdictjson.decode_verdict all_good (fun _ => true) sample_boot sample_config
    empty_fs [] started started_fs 0 sample_procs sample_state);
    [apply sample_startable|apply started_ok|apply sample_state_reachable].
Defined.

Lemma spilled_events_on_disk_witness :
  log_ok true (overflow (s_pipe sample_state)) (w_fs (s_world sample_state)) [].
Proof.
  apply (spilled_events_on_disk verdictjson.decode_verdict all_good (fun _ => true) sample_boot sample_config
    empty_fs [] started started_fs 0 sample_procs sample_state);
    [apply sample_startable|apply started_ok|apply sample_state_reachable].
Defined.

Lemma queue_bounded_witness : bounded sample_state.
Proof.
  apply (queue_bounded verdictjson.decode_verdict all_good (fun _ => true) sample_boot sample_config
    empty_fs [] started started_fs 0 sample_procs sample_state);
    [apply sample_startable|apply started_ok|apply sample_state_reachable].
Defined.

Lemma nothing_lost_without_failures_witness :
  lost (s_ledger sample_state) = [] /\ dropped (s_ledger sample_state) = [] /\
  EventsLost (metrics (s_pipe sample_state)) = 0.
Proof.
  apply (nothing_lost_without_failures verdictjson.decode_verdict all_good (fun _ => true) (fun _ => eq_refl)
    sample_boot sample_config empty_fs [] started started_fs 0 sample_procs sample_state);
    [|apply sample_startable|apply started_ok|apply sample_state_reachable].
  intros raw ev. apply eventjson.decoded_marshalable; [done|unfold sample_boot; lia].
Defined.
