(* ===== verification/Accounting.v ===== *)
(** * What the broker promises about suspicious events

    An account of the suspicious events: those outstanding, delivered to
    the hunter, reported as lost, and gone without a report; and the two
    counters a client of [/metrics] sees.  It says nothing of threads,
    queues and files.  The running broker implements it: each of its steps
    changes nothing in the account or is exactly one entry, in which the
    event concerned moves from one place to another and the counters move
    with it. *)
From Stdlib Require Import ZArith Lia.
From Stdlib Require Import Strings.Byte Strings.String.
From stdpp Require Import base list gmap relations.
From S2P Require Import VerdictJson.
From S2P Require Import Prelude GoStrings Events Wire Decoding Triage GoIO AppendLog.
From S2P Require Import AppendLogFacts EventJson Hunter HunterFacts Pipeline PipelineFacts.
From S2P Require Import Samples Broker BrokerFacts.
Import pipeline broker.
#[local] Open Scope Z_scope.

Section accounts.
Context `{EventCodec}.

(** ** Lists of events up to order and coding *)

Definition same_events (l m : list Event) : Prop := forall e, tally e l = tally e m.

#[local] Infix "≈" := same_events (at level 70).

#[export] Instance same_events_equivalence : Equivalence same_events.
Proof.
  split; [by intros l e|by intros l m Hlm e|]. intros l m k H1 H2 e. by rewrite H1.
Qed.

#[export] Instance same_events_app : Proper (same_events ==> same_events ==> same_events) app.
Proof. intros l l' Hl m m' Hm e. by rewrite !tally_app, Hl, Hm. Qed.

#[export] Instance same_events_cons x : Proper (same_events ==> same_events) (cons x).
Proof. intros l m Hlm e. cbn [tally]. by rewrite Hlm. Qed.

Lemma same_events_comm l m : l ++ m ≈ m ++ l.
Proof. intros e. rewrite !tally_app. lia. Qed.

(** ** The account *)

Record account := mkAccount {
  outstanding : list Event;
  delivered : list Event;
  reported : list Event;
  gone : list Event;
  suspicious_counter : Z;
  lost_counter : Z
}.

Record account_equiv (a b : account) : Prop := {
  ae_outstanding : outstanding a ≈ outstanding b;
  ae_delivered : delivered a ≈ delivered b;
  ae_reported : reported a ≈ reported b;
  ae_gone : gone a ≈ gone b;
  ae_suspicious : suspicious_counter a = suspicious_counter b;
  ae_lost : lost_counter a = lost_counter b
}.

#[export] Instance account_equiv_equivalence : Equivalence account_equiv.
Proof.
  split.
  - by intros a.
  - intros a b []. by split; symmetry.
  - intros a b c [] []. split; by etransitivity.
Qed.

(** The entries, [failing] telling whether system calls can fail. *)
Inductive entry (failing : Prop) (a b : account) : Prop :=
  | en_accept e : account_equiv b
      (mkAccount (e :: outstanding a) (delivered a) (reported a) (gone a)
         (wrapU 64 (suspicious_counter a + 1)) (lost_counter a)) -> entry failing a b
  | en_deliver e rest : outstanding a ≈ e :: rest -> account_equiv b
      (mkAccount rest (e :: delivered a) (reported a) (gone a) (suspicious_counter a) (lost_counter a)) ->
      entry failing a b
  | en_report e rest : outstanding a ≈ e :: rest -> account_equiv b
      (mkAccount rest (delivered a) (e :: reported a) (gone a) (suspicious_counter a)
         (wrapU 64 (lost_counter a + 1))) -> entry failing a b
  | en_vanish evs rest : failing -> outstanding a ≈ evs ++ rest -> account_equiv b
      (mkAccount rest (delivered a) (reported a) (evs ++ gone a) (suspicious_counter a) (lost_counter a)) ->
      entry failing a b.

Definition opening (restored : list Event) : account := mkAccount restored [] [] [] 0 0.

Definition moves (failing : Prop) (a b : account) : Prop := account_equiv a b \/ entry failing a b.

(** ** The broker's account *)

(** Everything under way, wherever it is. *)
Definition underway (s : state) : list Event :=
  queue (s_pipe s) ++ reader_holds (s_reader s) ++ workers_hold (s_workers s) ++
  replayer_holds (s_replayer s) ++ pending (s_ledger s).

Definition account_of (s : state) : account :=
  mkAccount (underway s) (evaluated (s_ledger s)) (lost (s_ledger s)) (dropped (s_ledger s))
    (SuspiciousTotal (metrics (s_pipe s))) (EventsLost (metrics (s_pipe s))).

Lemma tally_underway restored s e : balanced restored s ->
  (tally e (underway s) + tally e (evaluated (s_ledger s)) + tally e (lost (s_ledger s)) +
   tally e (dropped (s_ledger s)) = tally e restored + tally e (accepted (s_ledger s)))%nat.
Proof.
  intros Hb. specialize (Hb e). cbn zeta in Hb. rewrite tally_app in Hb. unfold underway.
  rewrite !tally_app. lia.
Qed.

(** What a step writes into the ledger. *)
Inductive noted (g g' : ledger) : Prop :=
  | n_nothing : accepted g' = accepted g -> evaluated g' = evaluated g -> lost g' = lost g ->
      dropped g' = dropped g -> noted g g'
  | n_accepted e : accepted g' = accepted g ++ [e] -> evaluated g' = evaluated g -> lost g' = lost g ->
      dropped g' = dropped g -> noted g g'
  | n_evaluated e : accepted g' = accepted g -> evaluated g' = evaluated g ++ [e] -> lost g' = lost g ->
      dropped g' = dropped g -> noted g g'
  | n_lost e : accepted g' = accepted g -> evaluated g' = evaluated g -> lost g' = lost g ++ [e] ->
      dropped g' = dropped g -> noted g g'
  | n_dropped evs : accepted g' = accepted g -> evaluated g' = evaluated g -> lost g' = lost g ->
      dropped g' = dropped g ++ evs -> noted g g'.

Context (decode_verdict : list byte -> option hunter.Verdict).
Context (faults : nat -> fault) (allowed : Z -> bool).

Lemma spilled_noted ev p w g : noted g (spilled_ledger faults ev p w g).
Proof. unfold spilled_ledger. destruct (is_ok _); [by apply n_nothing|by eapply n_lost]. Qed.

Lemma step_noted boot s s' :
  step decode_verdict faults allowed boot s s' -> noted (s_ledger s) (s_ledger s').
Proof.
  intros [s1 Hs|i s1 Hs|s1 Hs| |ps]; [destruct Hs|destruct Hs|destruct Hs| |];
    cbn [with_reader with_worker with_replayer s_ledger]; try apply spilled_noted;
    first [by apply n_nothing|by eapply n_accepted|by eapply n_evaluated|by eapply n_dropped].
Qed.

Definition can_fail : Prop := exists k n, faults k = Bad n.

Lemma counters_move {A} (l : list A) x : wrapU 64 (Z.of_nat (length (l ++ [x]))) = wrapU 64 (wrapU 64 (Z.of_nat (length l)) + 1).
Proof. rewrite length_app. cbn [length]. by rewrite wrapU_succ. Qed.

Lemma same_snoc l x : l ++ [x] ≈ x :: l.
Proof. apply (same_events_comm l [x]). Qed.

(** The balances before and after, for one event. *)
Ltac balance Hb Hb' :=
  let x := fresh in
  intros x; specialize (Hb x); specialize (Hb' x); cbn [account_of outstanding tally];
  rewrite ?tally_app in *; cbn [tally] in *; lia.

(** One step of the broker, one entry at most. *)
Lemma step_moves ofile restored boot s s' :
  inv faults ofile restored s -> step decode_verdict faults allowed boot s s' ->
  moves can_fail (account_of s) (account_of s').
Proof.
  intros Hi Hstep. pose proof (step_inv _ _ _ _ _ _ _ _ Hi Hstep) as Hi'.
  pose proof (fun e => tally_underway restored s e (i_balanced _ _ _ _ Hi)) as Hb.
  pose proof (fun e => tally_underway restored s' e (i_balanced _ _ _ _ Hi')) as Hb'.
  destruct (i_counted _ _ _ _ Hi) as [Hl Hs], (i_counted _ _ _ _ Hi') as [Hl' Hs'].
  destruct (step_noted _ _ _ Hstep) as [Ea Ee El Ed|e Ea Ee El Ed|e Ea Ee El Ed|e Ea Ee El Ed|evs Ea Ee El Ed];
    rewrite ?Ea in Hs'; rewrite ?El in Hl';
    setoid_rewrite Ea in Hb'; setoid_rewrite Ee in Hb'; setoid_rewrite El in Hb'; setoid_rewrite Ed in Hb'.
  - left. split; cbn; rewrite ?Ee, ?El, ?Ed, ?Hl, ?Hs, ?Hl', ?Hs'; try done.
    balance Hb Hb'.
  - right. apply (en_accept _ _ _ e). split; cbn; rewrite ?Ee, ?El, ?Ed, ?Hl, ?Hs, ?Hl', ?Hs'; try done.
    + balance Hb Hb'.
    + apply counters_move.
  - right. apply (en_deliver _ _ _ e (underway s')).
    + balance Hb Hb'.
    + split; cbn; rewrite ?Ee, ?El, ?Ed, ?Hl, ?Hs, ?Hl', ?Hs'; try done. apply same_snoc.
  - right. apply (en_report _ _ _ e (underway s')).
    + balance Hb Hb'.
    + split; cbn; rewrite ?Ee, ?El, ?Ed, ?Hl, ?Hs, ?Hl', ?Hs'; try done; [apply same_snoc|apply counters_move].
  - destruct (i_dropped _ _ _ _ Hi') as [E|Hf].
    + rewrite E in Ed. symmetry in Ed. apply app_eq_nil in Ed as [Ed ->].
      left. split; cbn; rewrite ?Ee, ?El, ?Ed, ?E, ?Hl, ?Hs, ?Hl', ?Hs'; try done.
      balance Hb Hb'.
    + right. apply (en_vanish _ _ _ evs (underway s')); [done| |].
      * balance Hb Hb'.
      * split; cbn; rewrite ?Ee, ?El, ?Ed, ?Hl, ?Hs, ?Hl', ?Hs'; try done. apply same_events_comm.
Qed.

Lemma opening_account c fs restored p fs' n ps :
  startable c fs restored -> New faults c fs = (Ok p, fs') ->
  account_equiv (opening restored) (account_of (initial p (mkWorld fs' n ps) restored)).
Proof.
  intros Hst Hnew. pose proof (New_initial faults c fs restored p fs' n ps Hst Hnew) as Hi.
  destruct (i_counted _ _ _ _ Hi) as [Hl Hs]. split; cbn; rewrite ?Hl, ?Hs; try done.
  intros e. pose proof (tally_underway _ _ e (i_balanced _ _ _ _ Hi)) as Hb. cbn in Hb. unfold opening. cbn. lia.
Qed.

(** C5: the broker implements the account.  Every execution of the running
    broker, whatever the interleaving, the failing system calls and the
    hunter, is an execution of the account, opened with the events found on
    disk: each of its steps leaves the account as it is or makes one entry.
    An event is delivered or reported lost only when it was outstanding,
    and is outstanding no more; [SuspiciousTotal] counts the acceptances
    and [EventsLost] the reports, one by one; and events vanish unreported
    only if system calls can fail. *)
Theorem broker_implements_account boot c fs restored p fs' n ps s s' :
  startable c fs restored -> New faults c fs = (Ok p, fs') ->
  reachable decode_verdict faults allowed boot (initial p (mkWorld fs' n ps) restored) s ->
  rtc (moves can_fail) (opening restored) (account_of s) /\
  (step decode_verdict faults allowed boot s s' -> moves can_fail (account_of s) (account_of s')).
Proof.
  intros Hst Hnew Hr. split.
  - induction Hr as [|s1 s2 Hr1 IH Hstep].
    + apply rtc_once. left. by eapply opening_account.
    + eapply rtc_r; [exact IH|]. eapply step_moves; [|exact Hstep]. by eapply reachable_inv.
  - apply (step_moves (OverflowPath c) restored). by eapply reachable_inv.
Qed.

End accounts.

(** ** Example *)

#[local] Existing Instance eventjson.utc_codec.

(** A suspicious event is accepted: one entry, and the counter with it. *)
Lemma broker_implements_account_witness :
  rtc (moves (can_fail all_good)) (opening []) (account_of sample_state) /\
  moves (can_fail all_good) (account_of sample_state)
    (account_of (with_reader RIdle (set_queue [accepted_event] (s_pipe sample_state)) (s_world sample_state)
       (s_ledger sample_state) sample_state)).
Proof.
  destruct (broker_implements_account verdictjson.decode_verdict all_good (fun _ => true) sample_boot sample_config
    empty_fs [] started started_fs 0 sample_procs sample_state
    (with_reader RIdle (set_queue [accepted_event] (s_pipe sample_state)) (s_world sample_state)
       (s_ledger sample_state) sample_state)) as [Hr Hs];
    [apply sample_startable|apply started_ok|apply sample_state_reachable|].
  split; [exact Hr|]. apply Hs, step_reader.
  apply (r_send all_good sample_boot sample_state accepted_event); [done|by vm_compute].
Defined.
