(* ===== verification/Observability.v ===== *)
(** * The observability endpoint
    ([broker/main.go], [serveObservability]; [pipeline/metrics.go])

    The two HTTP handlers as functions from the pipeline to a response, the
    counters as typed values, and what a client that decodes the published
    JSON learns about the broker's state.  The server itself, its
    connections and the cleaning of request paths belong to [net/http]. *)
From Stdlib Require Import ZArith Lia.
From Stdlib Require Import Strings.Byte Strings.String.
From stdpp Require Import base list gmap sorting.
From S2P Require Import VerdictJson.
From S2P Require Import Prelude GoStrings GoTime Json JsonFacts Events Wire Decoding Triage GoIO AppendLog.
From S2P Require Import AppendLogFacts EventJson Hunter HunterFacts Pipeline PipelineFacts.
From S2P Require Import Samples Broker BrokerFacts.
Import pipeline broker.
#[local] Open Scope Z_scope.

Module observability.
Import json.

(** ** The handlers *)

Record response := mkResponse {
  status : Z;
  headers : list (gostring * gostring);
  body : list byte
}.

(** [encoding/json] writes a map's members in the order of their keys. *)
Fixpoint key_le (a b : gostring) : bool :=
  match a, b with
  | [], _ => true
  | _ :: _, [] => false
  | c :: a', d :: b' =>
      if byte_val c <? byte_val d then true
      else if byte_val d <? byte_val c then false else key_le a' b'
  end.

Fixpoint insert_key (kv : gostring * Z) (ms : list (gostring * Z)) : list (gostring * Z) :=
  match ms with
  | [] => [kv]
  | m :: ms' => if key_le kv.1 m.1 then kv :: ms else m :: insert_key kv ms'
  end.

Definition sort_keys (ms : list (gostring * Z)) : list (gostring * Z) := foldr insert_key [] ms.

Definition json_map (ms : list (gostring * Z)) : value :=
  JObj ((fun '(k, z) => (k, eventjson.json_uint z)) <$> sort_keys ms).

Definition MetricsHandler (p : Pipeline) : response :=
  mkResponse 200 [(bs "Content-Type", bs "application/json")]
    (print (json_map ((fun '(k, z) => (bs k, z)) <$> metrics_map p)) ++ [newline]).

Definition healthz : response := mkResponse 200 [] (bs "ok").

Definition not_found : response :=
  mkResponse 404 [(bs "Content-Type", bs "text/plain; charset=utf-8")] (bs "404 page not found" ++ [newline]).

(** The mux: two exact patterns; [path] is clean. *)
Definition serve (path : gostring) (p : Pipeline) : response :=
  if decide (path = bs "/healthz") then healthz
  else if decide (path = bs "/metrics") then MetricsHandler p
  else not_found.

(** ** Counters are 64-bit *)

Definition typed_metrics (m : Metrics) : Prop :=
  is_u 64 (EventsTotal m) /\ is_u 64 (SuspiciousTotal m) /\ is_u 64 (QueueOverflows m) /\
  is_u 64 (HunterErrors m) /\ is_u 64 (EventsLost m) /\ is_u 64 (ActionsKill m) /\
  is_u 64 (DecodeErrors m) /\ is_u 64 (OverflowReplays m).

Lemma wrapU_typed z : is_u 64 (wrapU 64 z).
Proof. unfold is_u, wrapU. apply Z.mod_pos_bound. lia. Qed.

Lemma zero_typed : typed_metrics zero_metrics.
Proof. by repeat split. Qed.

(** Any increment of any counter. *)
Ltac typed_add :=
  intros (? & ? & ? & ? & ? & ? & ? & ?); unfold typed_metrics; simpl;
  repeat (split; [first [done | apply wrapU_typed]|]); first [done | apply wrapU_typed].

Lemma add_total_typed n m : typed_metrics m -> typed_metrics (add_total n m).
Proof. typed_add. Qed.
Lemma add_suspicious_typed n m : typed_metrics m -> typed_metrics (add_suspicious n m).
Proof. typed_add. Qed.
Lemma add_overflows_typed n m : typed_metrics m -> typed_metrics (add_overflows n m).
Proof. typed_add. Qed.
Lemma add_hunter_errors_typed n m : typed_metrics m -> typed_metrics (add_hunter_errors n m).
Proof. typed_add. Qed.
Lemma add_lost_typed n m : typed_metrics m -> typed_metrics (add_lost n m).
Proof. typed_add. Qed.
Lemma add_kills_typed n m : typed_metrics m -> typed_metrics (add_kills n m).
Proof. typed_add. Qed.
Lemma add_decode_errors_typed n m : typed_metrics m -> typed_metrics (add_decode_errors n m).
Proof. typed_add. Qed.
Lemma add_replays_typed n m : typed_metrics m -> typed_metrics (add_replays n m).
Proof. typed_add. Qed.

Create HintDb typed_metrics.
#[local] Hint Resolve add_total_typed add_suspicious_typed add_overflows_typed add_hunter_errors_typed
  add_lost_typed add_kills_typed add_decode_errors_typed add_replays_typed : typed_metrics.

Section reachable.
Context `{EventCodec} (decode_verdict : list byte -> option hunter.Verdict).
Context (faults : nat -> fault) (allowed : Z -> bool).

Lemma spill_typed ev p w p' w' :
  spill faults ev p w = (p', w') -> typed_metrics (metrics p) -> typed_metrics (metrics p') /\ cfg p' = cfg p.
Proof.
  unfold spill, append_overflow. destruct (Append _ _ _ _) as [[r a] fs].
  destruct r; intros [= <- _] Hm; (split; [|done]); cbn [metrics set_overflow count]; auto with typed_metrics.
Qed.

Lemma audited_typed ev s p w :
  audited faults ev s = (p, w) -> typed_metrics (metrics (s_pipe s)) ->
  typed_metrics (metrics p) /\ cfg p = cfg (s_pipe s).
Proof.
  unfold audited, append_audit. destruct (Append _ _ _ _) as [[r a] fs].
  intros [= <- _] Hm. split; [|done]. cbn [metrics set_audit count]. auto with typed_metrics.
Qed.

(** What a step does not change the type of. *)
Definition well_typed (c : Config) (s : state) : Prop :=
  typed_metrics (metrics (s_pipe s)) /\ cfg (s_pipe s) = c /\
  length (s_workers s) = Z.to_nat (Workers c).

Lemma step_typed boot c s s' :
  well_typed c s -> step decode_verdict faults allowed boot s s' -> well_typed c s'.
Proof.
  intros (Hm & Hc & Hw). unfold well_typed.
  intros [s1 Hs|j s1 Hs|s1 Hs| |ps]; [destruct Hs|destruct Hs|destruct Hs| |];
    cbn [with_reader with_worker with_replayer s_pipe s_workers metrics count set_queue set_overflow cfg];
    rewrite ?length_insert; try (by split_and!; auto with typed_metrics).
  all: try (edestruct spill_typed as [? ->]; [by eauto|exact Hm|by auto]).
  all: try (edestruct audited_typed as [? ->]; [by eauto|exact Hm|by auto with typed_metrics]).
  destruct (0 <? a + b); cbn [metrics count cfg]; by split_and!; auto with typed_metrics.
Qed.

Lemma New_cfg c fs p fs' :
  New faults c fs = (Ok p, fs') ->
  metrics p = zero_metrics /\ queue p = [] /\ Workers (cfg p) = Workers c /\
  QueueSize (cfg p) = QueueSize c /\ 0 <= QueueSize c /\ 0 < ReplayEvery (cfg p).
Proof.
  unfold New. set (c' := if ReplayEvery c <=? 0 then _ else c).
  assert (Workers c' = Workers c /\ QueueSize c' = QueueSize c /\ 0 < ReplayEvery c') as (Ew & Eq & Hr).
  { subst c'. destruct (Z.leb_spec (ReplayEvery c) 0); [by split_and!|]. split_and!; [done|done|lia]. }
  destruct (newAppendLog _ _ _) as [[au|e|] fs1]; [|done..].
  destruct (newAppendLog faults _ fs1) as [[ov|e|] fs2];
    [|destruct (AppendLog.Close faults au fs2) as [[? ?] ?]; done|done].
  destruct (Z.ltb_spec (QueueSize c') 0); [done|]. intros [= <- <-]. cbn [metrics queue cfg].
  split_and!; try done. lia.
Qed.

Lemma reachable_typed boot c fs p fs' n ps restored s :
  New faults c fs = (Ok p, fs') ->
  reachable decode_verdict faults allowed boot (initial p (mkWorld fs' n ps) restored) s ->
  well_typed (cfg p) s.
Proof.
  intros Hnew Hr. induction Hr as [|s s' _ IH Hs]; [|by eapply step_typed].
  destruct (New_cfg _ _ _ _ Hnew) as (Hm & _). unfold well_typed, initial. cbn [s_pipe s_workers].
  rewrite Hm. split; [apply zero_typed|]. split; [done|apply length_replicate].
Qed.

(** C27: the state's types.  In every reachable state the eight counters
    are 64-bit unsigned integers, the queue holds at most [QueueSize]
    events, there are exactly [Workers] workers, the configuration is the
    one the broker started with and its replay period is positive (zero
    would panic the ticker). *)
Theorem reachable_well_typed boot c fs restored p fs' n ps s :
  startable c fs restored -> New faults c fs = (Ok p, fs') ->
  reachable decode_verdict faults allowed boot (initial p (mkWorld fs' n ps) restored) s ->
  typed_metrics (metrics (s_pipe s)) /\
  Z.of_nat (length (queue (s_pipe s))) <= QueueSize c /\
  length (s_workers s) = Z.to_nat (Workers c) /\
  cfg (s_pipe s) = cfg p /\ 0 < ReplayEvery (cfg (s_pipe s)).
Proof.
  intros Hst Hnew Hr. destruct (reachable_typed _ _ _ _ _ _ _ _ _ Hnew Hr) as (Hm & Hc & Hw).
  pose proof (i_bounded _ _ _ _ (reachable_inv _ _ _ _ _ _ _ _ _ _ _ _ Hst Hnew Hr)) as Hb.
  destruct (New_cfg _ _ _ _ Hnew) as (_ & _ & Ew & Eq & Hq & Hre).
  unfold bounded in Hb. rewrite Hc in *. rewrite Ew in Hw. split_and!; try done. lia.
Qed.

(** ** What a client reads *)

(** The number published under a key. *)
Fixpoint reading (k : string) (ms : list (list byte * value)) : option Z :=
  match ms with
  | [] => None
  | (k', v) :: ms' =>
      if decide (k' = bs k) then match v with JNum lit => parse_uint 64 lit | _ => None end
      else reading k ms'
  end.

(** The members in the order they are sent. *)
Definition sorted_metrics (p : Pipeline) : list (gostring * Z) :=
  [(bs "actions_kill", ActionsKill (metrics p));
   (bs "decode_errors", DecodeErrors (metrics p));
   (bs "events_lost", EventsLost (metrics p));
   (bs "events_total", EventsTotal (metrics p));
   (bs "hunter_errors", HunterErrors (metrics p));
   (bs "overflow_replays", OverflowReplays (metrics p));
   (bs "queue_capacity", wrapU 64 (QueueSize (cfg p)));
   (bs "queue_depth", wrapU 64 (Z.of_nat (length (queue p))));
   (bs "queue_overflows", QueueOverflows (metrics p));
   (bs "suspicious_total", SuspiciousTotal (metrics p))].

Lemma sort_metrics p : sort_keys ((fun '(k, z) => (bs k, z)) <$> metrics_map p) = sorted_metrics p.
Proof. reflexivity. Qed.

Definition metrics_members (p : Pipeline) : list (list byte * value) :=
  (fun '(k, z) => (k, eventjson.json_uint z)) <$> sorted_metrics p.

Lemma metrics_body_reads p :
  typed_metrics (metrics p) ->
  next_value (body (MetricsHandler p)) = Some (JObj (metrics_members p), [newline]).
Proof.
  intros (H1 & H2 & H3 & H4 & H5 & H6 & H7 & H8). unfold MetricsHandler, json_map. cbn [body].
  rewrite sort_metrics. apply next_value_print; [|unfold delimited, newline; set_solver].
  pose proof (wrapU_typed (QueueSize (cfg p))). pose proof (wrapU_typed (Z.of_nat (length (queue p)))).
  constructor. unfold sorted_metrics. cbn [fmap list_fmap].
  repeat (constructor; [split; [reflexivity|by constructor]|]). constructor.
Qed.

Lemma reading_member k z ms : is_u 64 z -> reading k ((bs k, eventjson.json_uint z) :: ms) = Some z.
Proof. intros Hz. cbn [reading]. rewrite decide_True by done. by apply parse_uint_decimal. Qed.

Lemma reading_next k k' v ms : bs k' <> bs k -> reading k ((bs k', v) :: ms) = reading k ms.
Proof. intros Hne. cbn [reading]. by rewrite decide_False. Qed.

(** C28: the metrics tell the truth.  In every reachable state the body
    served under /metrics is one JSON object that reads back as the
    broker's state: its "events_lost" is the number of suspicious events
    lost, its "suspicious_total" the number accepted (both modulo 2^64),
    "queue_depth" the length of the queue and "queue_capacity" its bound,
    and the other counters are what the pipeline counted. *)
Theorem metrics_tell_the_truth boot c fs restored p fs' n ps s :
  startable c fs restored -> New faults c fs = (Ok p, fs') -> QueueSize c < 2 ^ 63 ->
  reachable decode_verdict faults allowed boot (initial p (mkWorld fs' n ps) restored) s ->
  let m := metrics (s_pipe s) in
  exists ms, next_value (body (serve (bs "/metrics") (s_pipe s))) = Some (JObj ms, [newline]) /\
    reading "events_lost" ms = Some (wrapU 64 (Z.of_nat (length (lost (s_ledger s))))) /\
    reading "suspicious_total" ms = Some (wrapU 64 (Z.of_nat (length (accepted (s_ledger s))))) /\
    reading "queue_depth" ms = Some (Z.of_nat (length (queue (s_pipe s)))) /\
    reading "queue_capacity" ms = Some (QueueSize c) /\
    reading "events_total" ms = Some (EventsTotal m) /\ reading "decode_errors" ms = Some (DecodeErrors m) /\
    reading "queue_overflows" ms = Some (QueueOverflows m) /\ reading "hunter_errors" ms = Some (HunterErrors m) /\
    reading "actions_kill" ms = Some (ActionsKill m) /\ reading "overflow_replays" ms = Some (OverflowReplays m).
Proof.
  intros Hst Hnew Hsz Hr. cbn zeta.
  destruct (reachable_typed _ _ _ _ _ _ _ _ _ Hnew Hr) as (Hm & Hc & _).
  pose proof (reachable_inv _ _ _ _ _ _ _ _ _ _ _ _ Hst Hnew Hr) as Hi.
  destruct (New_cfg _ _ _ _ Hnew) as (_ & _ & _ & Eq & Hq & _).
  pose proof (i_bounded _ _ _ _ Hi) as Hb. unfold bounded in Hb. rewrite Hc, Eq in Hb.
  destruct (i_counted _ _ _ _ Hi) as [El Es].
  exists (metrics_members (s_pipe s)). split; [by apply metrics_body_reads|].
  rewrite <- El, <- Es.
  assert (wrapU 64 (Z.of_nat (length (queue (s_pipe s)))) = Z.of_nat (length (queue (s_pipe s)))) as Ed
    by (unfold wrapU; apply Z.mod_small; lia).
  assert (wrapU 64 (QueueSize (cfg (s_pipe s))) = QueueSize c) as Ec
    by (rewrite Hc, Eq; unfold wrapU; apply Z.mod_small; lia).
  assert (is_u 64 (Z.of_nat (length (queue (s_pipe s))))) by (unfold is_u; lia).
  assert (is_u 64 (QueueSize c)) by (unfold is_u; lia).
  destruct Hm as (? & ? & ? & ? & ? & ? & ? & ?).
  unfold metrics_members, sorted_metrics. rewrite Ed, Ec. cbn [fmap list_fmap].
  split_and!; repeat first [by apply reading_member | rewrite reading_next by done].
Qed.

End reachable.

(** ** Examples *)

#[local] Existing Instance eventjson.utc_codec.

Lemma reachable_well_typed_witness :
  typed_metrics (metrics (s_pipe sample_state)) /\
  Z.of_nat (length (queue (s_pipe sample_state))) <= 4096 /\
  length (s_workers sample_state) = 8%nat /\
  cfg (s_pipe sample_state) = cfg started /\ 0 < ReplayEvery (cfg (s_pipe sample_state)).
Proof.
  apply (reachable_well_typed verdictjson.decode_verdict all_good (fun _ => true) sample_boot sample_config
    empty_fs [] started started_fs 0 sample_procs sample_state);
    [apply sample_startable|apply started_ok|apply sample_state_reachable].
Defined.

Lemma metrics_tell_the_truth_witness :
  exists ms, next_value (body (serve (bs "/metrics") (s_pipe sample_state))) = Some (JObj ms, [newline]) /\
    reading "events_lost" ms = Some 0 /\ reading "suspicious_total" ms = Some 1.
Proof.
  destruct (metrics_tell_the_truth verdictjson.decode_verdict all_good (fun _ => true) sample_boot sample_config
    empty_fs [] started started_fs 0 sample_procs sample_state) as (ms & H1 & H2 & H3 & _);
    [apply sample_startable|apply started_ok|by vm_compute|apply sample_state_reachable|].
  exists ms. split; [exact H1|]. split; [rewrite H2; by vm_compute|rewrite H3; by vm_compute].
Defined.

(** The text of a broker that has just started. *)
Example metrics_text :
  body (MetricsHandler started) =
    bs "{" ++ commas ((fun k => quoted (bs k) ++ bs (if decide (k = "queue_capacity"%string) then ":4096" else ":0")) <$>
      ["actions_kill"; "decode_errors"; "events_lost"; "events_total"; "hunter_errors"; "overflow_replays";
       "queue_capacity"; "queue_depth"; "queue_overflows"; "suspicious_total"]%string) ++ bs "}" ++ [newline].
Proof. by vm_compute. Qed.

End observability.
