(* ===== verification/Main.v ===== *)
(** * The broker's main program ([broker/main.go])

    The flags and their defaults, and [main] as a program around the
    threads of [Broker]: it starts the workers and the replay loop, retries
    the opening of the pinned map, reads until it is told to stop, waits for
    the threads and closes the logs.  How the command
    line becomes the flags is [Flags]'s matter.  A fatal error exits without
    closing anything. *)
From Stdlib Require Import ZArith Lia.
From Stdlib Require Import Strings.Byte Strings.String.
From stdpp Require Import base list gmap.
From S2P Require Import VerdictJson.
From S2P Require Import Prelude GoStrings Events Wire Decoding Triage GoIO AppendLog.
From S2P Require Import AppendLogFacts EventJson Hunter HunterFacts Pipeline PipelineFacts.
From S2P Require Import Samples Ingest IngestFacts Broker BrokerFacts.
Import pipeline broker.
#[local] Open Scope Z_scope.

Module brokermain.

(** ** Flags *)

Record Flags := mkFlags {
  map_path : gostring;
  hunter_url : gostring;
  hunter_timeout : Z;
  hunter_retries : Z;
  workers : Z;
  queue_size : Z;
  overflow_path : gostring;
  audit_path : gostring;
  replay_every : Z;
  metrics_addr : gostring;
  open_retries : Z
}.

Definition default_flags : Flags :=
  mkFlags (bs "/sys/fs/bpf/cyber_patrol/EVENTS") (bs "http://localhost:8000") (5 * second) 3 8 4096
    (bs "/var/lib/cyber-patrol/overflow.jsonl") (bs "/var/lib/cyber-patrol/audit.jsonl") (30 * second)
    (bs ":9090") 10.

Definition config_of (fl : Flags) : Config :=
  mkConfig (hunter.New (hunter_url fl) (hunter_timeout fl) (hunter_retries fl)) (queue_size fl) (workers fl)
    (overflow_path fl) (audit_path fl) (replay_every fl).

(** ** [main] *)

(** Where [main] is: in the [i]-th turn of [openWithRetry] with the last
    error, in [reader.Run], in [pl.Close], or out. *)
Inductive phase : Type :=
  | Opening (i : nat) (last : option ingest.error)
  | Online
  | Draining
  | Exited (code : Z)
  | Crashed.

Record mstate := mkMain {
  m_phase : phase;
  m_broker : state
}.

(** The whole program: before [pipeline.New], out because it failed or
    panicked, or past it. *)
Inductive program_state : Type :=
  | Starting (w : World)
  | Aborted (code : Z) (w : World)
  | NewPanicked (w : World)
  | Running (m : mstate).

Section program.
Context `{EventCodec} (decode_verdict : list byte -> option hunter.Verdict).
Context (faults : nat -> fault) (allowed : Z -> bool).
Context (boot : Z) (fl : Flags) (libs : nat -> ingest.ebpf).

(** The state after [pl.Close()]. *)
Definition closed (s : state) : state :=
  let '(_, p, w) := Close faults (s_pipe s) (s_world s) in
  mkState p w (s_reader s) (s_workers s) (s_replayer s) (s_cancelled s) (s_ledger s).

(** A step of anything but the reader. *)
Inductive background (s : state) : state -> Prop :=
  | bg_worker i s' : worker_step decode_verdict faults allowed i s s' -> background s s'
  | bg_replayer s' : replayer_step decode_verdict faults s s' -> background s s'
  | bg_signal : background s (mkState (s_pipe s) (s_world s) (s_reader s) (s_workers s) (s_replayer s) true
        (s_ledger s))
  | bg_processes ps : background s (mkState (s_pipe s) (set_procs ps (s_world s)) (s_reader s) (s_workers s)
        (s_replayer s) (s_cancelled s) (s_ledger s)).

Definition live (ph : phase) : Prop :=
  match ph with Opening _ _ | Online | Draining => True | _ => False end.

Inductive main_step : mstate -> mstate -> Prop :=
  | ms_background ph s s' : live ph -> background s s' -> main_step (mkMain ph s) (mkMain ph s')
  | ms_open_fails i last e s : (i < Z.to_nat (open_retries fl))%nat -> (ingest.Open (libs i)).1 = Err e ->
      main_step (mkMain (Opening i last) s) (mkMain (Opening (S i) (Some e)) s)
  | ms_opened i last r s : (i < Z.to_nat (open_retries fl))%nat -> (ingest.Open (libs i)).1 = Ok r ->
      main_step (mkMain (Opening i last) s) (mkMain Online s)
  | ms_fatal i e s : (Z.to_nat (open_retries fl) <= i)%nat ->
      main_step (mkMain (Opening i (Some e)) s) (mkMain (Exited 1) s)
  | ms_nil_reader i s : (Z.to_nat (open_retries fl) <= i)%nat ->
      main_step (mkMain (Opening i None) s) (mkMain Crashed s)
  | ms_reader s s' : reader_step faults boot s s' -> main_step (mkMain Online s) (mkMain Online s')
  | ms_reader_done s : s_reader s = RDone -> main_step (mkMain Online s) (mkMain Draining s)
  | ms_close s : stopped s -> main_step (mkMain Draining s) (mkMain (Exited 0) (closed s)).

(** After [pipeline.New] and [pl.Start]. *)
Definition main_started (p : Pipeline) (w : World) (restored : list Event) : mstate :=
  mkMain (Opening 0 None) (initial p w restored).

(** From the parsed flags on.  [restored] are the events the overflow file
    holds, as for [initial]. *)
Inductive program_step (restored : list Event) : program_state -> program_state -> Prop :=
  | prog_processes w ps : program_step restored (Starting w) (Starting (set_procs ps w))
  | prog_new p fs w : New faults (config_of fl) (w_fs w) = (Ok p, fs) ->
      program_step restored (Starting w) (Running (main_started p (set_fs fs w) restored))
  | prog_new_fails e fs w : New faults (config_of fl) (w_fs w) = (Err e, fs) ->
      program_step restored (Starting w) (Aborted 1 (set_fs fs w))
  | prog_new_panics fs w : New faults (config_of fl) (w_fs w) = (Panic, fs) ->
      program_step restored (Starting w) (NewPanicked (set_fs fs w))
  | prog_main m m' : main_step m m' -> program_step restored (Running m) (Running m').

Definition main_initial (w : World) : program_state := Starting w.

Inductive main_reachable (restored : list Event) (m0 : program_state) : program_state -> Prop :=
  | mr_init : main_reachable restored m0 m0
  | mr_step m m' : main_reachable restored m0 m -> program_step restored m m' -> main_reachable restored m0 m'.

(** ** What [main] lets happen *)

(** Nothing has been read yet. *)
Record untouched (s : state) : Prop := {
  un_reader : s_reader s = RIdle;
  un_accepted : accepted (s_ledger s) = [];
  un_queue : queue (s_pipe s) = [];
  un_workers : Forall (fun k => k = WIdle \/ k = WDone) (s_workers s);
  un_counters : EventsTotal (metrics (s_pipe s)) = 0 /\ DecodeErrors (metrics (s_pipe s)) = 0
}.

Definition all_fail (n : nat) : Prop := forall j, (j < n)%nat -> fails (libs j).

(** What each phase says about the broker's state [s], the last before any
    closing of the logs. *)
Definition phase_ok (ph : phase) (b s : state) : Prop :=
  match ph with
  | Opening i last => b = s /\ untouched s /\ (i <= Z.to_nat (open_retries fl))%nat /\ all_fail i /\
      (last = None <-> i = 0%nat)
  | Online => b = s /\ exists j, (j < Z.to_nat (open_retries fl))%nat /\ all_fail j /\ ~ fails (libs j)
  | Draining => b = s /\ s_reader s = RDone
  | Exited code => code = 0 /\ stopped s /\ b = closed s \/
      code = 1 /\ b = s /\ untouched s /\ 0 < open_retries fl /\ all_fail (Z.to_nat (open_retries fl))
  | Crashed => b = s /\ untouched s /\ open_retries fl <= 0
  end.

Lemma background_step s s' : background s s' -> step decode_verdict faults allowed boot s s'.
Proof. intros []; [by eapply step_worker|by apply step_replayer|apply step_signal|apply step_processes]. Qed.

Lemma background_reader s s' : background s s' -> s_reader s' = s_reader s.
Proof. by intros [i s1 []|s1 []| |ps]. Qed.

Lemma spill_totals ev p w p' w' :
  spill faults ev p w = (p', w') ->
  EventsTotal (metrics p') = EventsTotal (metrics p) /\ DecodeErrors (metrics p') = DecodeErrors (metrics p) /\
  queue p' = queue p.
Proof.
  unfold spill, append_overflow. destruct (Append _ _ _ _) as [[r a] fs]. by destruct r; intros [= <- _].
Qed.

Lemma spilled_accepts ev p w g : accepted (spilled_ledger faults ev p w g) = accepted g.
Proof. unfold spilled_ledger. by destruct (is_ok _). Qed.

Lemma idle_insert i ks :
  Forall (fun k => k = WIdle \/ k = WDone) ks -> Forall (fun k => k = WIdle \/ k = WDone) (<[i := WDone]> ks).
Proof. intros Hks. apply Forall_insert; auto. Qed.

Lemma background_untouched s s' : untouched s -> background s s' -> untouched s'.
Proof.
  intros [Hr Ha Hq Hw [Ht Hd]] [i s1 Hs|s1 Hs| |ps]; [| |by constructor|by constructor].
  - destruct Hs as [ev q Hk E|net ev v w Hk|net ev v w Hk|later ev Hk|net ev e w Hk|ev p w Hk|Hk Hc];
      try congruence;
      try (eapply Forall_lookup_1 in Hw; [|exact Hk]; by destruct Hw).
    constructor; try done. by apply idle_insert.
  - destruct Hs as [| | | | | | |ev path bytes batch a b p w Hp Hsp|path bytes batch a b Hp Hn| |]; try by constructor.
    + destruct (spill_totals _ _ _ _ _ Hsp) as (E1 & E2 & E3).
      constructor; try done; cbn [with_replayer s_ledger s_pipe]; rewrite ?spilled_accepts, ?E1, ?E2, ?E3; done.
    + constructor; try done; cbn [with_replayer s_pipe]; by destruct (0 <? a + b).
Qed.

Lemma open_ok_not_fails i r : (ingest.Open (libs i)).1 = Ok r -> ~ fails (libs i).
Proof. intros E [e E']. congruence. Qed.

Lemma all_fail_succ i e : all_fail i -> (ingest.Open (libs i)).1 = Err e -> all_fail (S i).
Proof.
  intros Hi He j Hj. destruct (decide (j = i)) as [->|]; [by exists e|]. apply Hi. lia.
Qed.

Lemma main_step_ok s0 ph b m' s :
  reachable decode_verdict faults allowed boot s0 s -> phase_ok ph b s -> main_step (mkMain ph b) m' ->
  exists s', reachable decode_verdict faults allowed boot s0 s' /\ phase_ok (m_phase m') (m_broker m') s'.
Proof.
  intros Hreach Hok Hstep. inversion Hstep as [ph' b0 b' Hl Hb|i last e b0 Hi He|i last r b0 Hi Ho|
    i e b0 Hi|i b0 Hi|b0 b' Hr|b0 Hr|b0 Hst]; subst; cbn [m_phase m_broker].
  - assert (b = s) as -> by (destruct ph; try done; by destruct Hok).
    exists b'. split; [eapply reach_step; [done|by apply background_step]|].
    destruct ph as [i last| | |code|]; try done; cbn [phase_ok] in *.
    + destruct Hok as (_ & Hu & Hrest). split; [done|]. split; [by eapply background_untouched|done].
    + destruct Hok as (_ & Hj). by split.
    + destruct Hok as (_ & Hd). split; [done|]. by rewrite (background_reader _ _ Hb).
  - destruct Hok as (-> & Hu & _ & Hall & _). exists s. split; [done|]. cbn [phase_ok].
    split_and!; [done|done|lia|by eapply all_fail_succ|done].
  - destruct Hok as (-> & _ & _ & Hall & _). exists s. split; [done|]. split; [done|].
    exists i. split_and!; [done|done|by eapply open_ok_not_fails].
  - destruct Hok as (-> & Hu & Hle & Hall & Hlast). exists s. split; [done|]. right.
    assert (i = Z.to_nat (open_retries fl)) as -> by lia.
    split_and!; try done. destruct (Z_lt_le_dec 0 (open_retries fl)); [done|].
    assert (Some e = None) as [=] by (apply Hlast; lia).
  - destruct Hok as (-> & Hu & Hle & Hall & Hlast). exists s. split; [done|]. cbn [phase_ok].
    split_and!; try done. pose proof (proj1 Hlast eq_refl). lia.
  - destruct Hok as (-> & Hj). exists b'. split; [eapply reach_step; [done|by apply step_reader]|by split].
  - destruct Hok as (-> & Hj). exists s. by split.
  - destruct Hok as (-> & Hd). exists s. split; [done|]. by left.
Qed.

Lemma initial_untouched c fs p fs' w restored :
  New faults c fs = (Ok p, fs') -> untouched (initial p w restored).
Proof.
  unfold New. set (c' := if ReplayEvery c <=? 0 then _ else c).
  destruct (newAppendLog _ _ _) as [[au|e|] fs1]; [|done..].
  destruct (newAppendLog faults _ fs1) as [[ov|e|] fs2];
    [|destruct (AppendLog.Close faults au fs2) as [[? ?] ?]; done|done].
  destruct (_ <? 0); [done|]. intros [= <- <-]. constructor; try done.
  unfold initial. cbn [s_workers]. apply Forall_replicate. by left.
Qed.

(** [New] fails only when a system call does, and panics only on a negative
    queue size. *)
Lemma newAppendLog_fails path fs e fs' :
  newAppendLog faults path fs = (Err e, fs') -> exists k n, faults k = Bad n.
Proof.
  unfold newAppendLog, MkdirAll, OpenAppend, outcome. destruct (bool_decide _).
  - destruct (faults (fs_calls fs)) as [|n] eqn:E; [|by eauto]. cbn [fst snd].
    destruct (faults (fs_calls (tick fs))) as [|n] eqn:E'; [|by eauto]. by destruct (fs_names _ !! path).
  - destruct (faults (fs_calls fs)) as [|n] eqn:E; [|by eauto]. by destruct (fs_names _ !! path).
Qed.

Lemma newAppendLog_no_panic path fs fs' : newAppendLog faults path fs <> (Panic, fs').
Proof.
  unfold newAppendLog, MkdirAll, OpenAppend. destruct (bool_decide _); [destruct (outcome _ fs); [|done]|];
    (destruct (outcome _ _); [|done]); by destruct (fs_names _ !! path).
Qed.

Lemma New_fails c fs e fs' : New faults c fs = (Err e, fs') -> exists k n, faults k = Bad n.
Proof.
  unfold New. set (c' := if ReplayEvery c <=? 0 then _ else c).
  destruct (newAppendLog faults (AuditPath c') fs) as [[au|e1|] fs1] eqn:E1; [|intros _; by eapply newAppendLog_fails|done].
  destruct (newAppendLog faults (OverflowPath c') fs1) as [[ov|e2|] fs2] eqn:E2;
    [|intros _; by eapply newAppendLog_fails|done]. by destruct (_ <? 0).
Qed.

Lemma New_panics c fs fs' : New faults c fs = (Panic, fs') -> QueueSize c < 0.
Proof.
  unfold New. set (c' := if ReplayEvery c <=? 0 then _ else c).
  assert (QueueSize c' = QueueSize c) as Eq by (subst c'; by destruct (_ <=? 0)).
  destruct (newAppendLog faults (AuditPath c') fs) as [[au|e1|] fs1] eqn:E1; [|done|by apply newAppendLog_no_panic in E1].
  destruct (newAppendLog faults (OverflowPath c') fs1) as [[ov|e2|] fs2] eqn:E2;
    [|by destruct (AppendLog.Close faults au fs2) as [[? ?] ?]|by apply newAppendLog_no_panic in E2].
  destruct (Z.ltb_spec (QueueSize c') 0); [lia|done].
Qed.

(** What each state says of the program started in the world [w0]. *)
Definition program_ok (restored : list Event) (w0 : World) (m : program_state) : Prop :=
  let new := New faults (config_of fl) (w_fs w0) in
  match m with
  | Starting w => w_fs w = w_fs w0
  | Aborted code w => code = 1 /\ (exists e, new = (Err e, w_fs w)) /\ exists k n, faults k = Bad n
  | NewPanicked w => new = (Panic, w_fs w) /\ queue_size fl < 0
  | Running m => exists p w, new = (Ok p, w_fs w) /\
      exists s, reachable decode_verdict faults allowed boot (initial p w restored) s /\
        phase_ok (m_phase m) (m_broker m) s
  end.

(** C12: the main program runs the broker.  Started on any flags in any
    world, however its threads interleave, [main] is at every moment before
    [pipeline.New]; or out with status 1 because [New] failed, which takes
    a failing system call; or down because [New] panicked on a negative
    queue size; or, once [New] has succeeded, at a state of the concurrent
    broker reachable from its start, so that what holds of those holds of
    the program.  Then, until the map has been opened nothing is read,
    queued or evaluated off the queue; it goes online after some attempt
    has succeeded and all before have failed; it exits with status 1 only
    when all its attempts have failed, with nothing read; with status 0
    only when every thread has stopped, after closing the logs of that
    state; and it crashes only when it was told to make no attempt. *)
Theorem main_runs_the_broker w0 restored m :
  main_reachable restored (main_initial w0) m -> program_ok restored w0 m.
Proof.
  intros Hr. induction Hr as [|m m' _ IH Hstep]; [done|].
  destruct Hstep as [w ps|p fs w E|e fs w E|fs w E|m m' Hstep]; cbn [program_ok] in *; try rewrite IH in E.
  - done.
  - exists p, (set_fs fs w). split; [done|]. exists (initial p (set_fs fs w) restored). split; [apply reach_init|].
    cbn [main_started m_phase m_broker phase_ok].
    split_and!; [done|by eapply initial_untouched|lia|by intros j Hj; lia|done].
  - split; [done|]. split; [by exists e|by eapply New_fails].
  - split; [done|]. by apply New_panics in E.
  - destruct IH as (p & w & E & s & Hs & Hok). exists p, w. split; [done|]. destruct m as [ph b]. by eapply main_step_ok.
Qed.

End program.

(** ** The defaults *)

#[local] Existing Instance eventjson.utc_codec.

Example defaults : config_of default_flags = sample_config.
Proof. reflexivity. Qed.

(** The sensor has pinned its map already: one attempt, and online. *)
Lemma main_runs_the_broker_witness :
  program_ok verdictjson.decode_verdict all_good (fun _ => true) sample_boot default_flags (fun _ _ => true) []
    (mkWorld empty_fs 0 sample_procs) (Running (mkMain Online (initial started started_world []))).
Proof.
  apply (main_runs_the_broker verdictjson.decode_verdict all_good (fun _ => true) sample_boot default_flags
    (fun _ _ => true) (mkWorld empty_fs 0 sample_procs) []).
  eapply mr_step; [eapply mr_step; [apply mr_init|]|].
  - apply prog_new. apply started_ok.
  - apply prog_main. by apply (ms_opened _ _ _ _ _ _ 0 None ingest.mkReader); [vm_compute; lia|].
Defined.

(** The disk is full at the start: status 1, without an attempt to open the
    map. *)
Example start_fails :
  program_step verdictjson.decode_verdict (fun _ => Bad 0) (fun _ => true) sample_boot default_flags (fun _ _ => true) []
    (main_initial (mkWorld empty_fs 0 sample_procs)) (Aborted 1 (mkWorld (tick empty_fs) 0 sample_procs)).
Proof. by apply (prog_new_fails _ _ _ _ _ _ _ ErrSys (tick empty_fs)). Qed.

End brokermain.
