(* ===== verification/Loader.v ===== *)
(** * The sensor's loader ([sensor/cyber-patrol-loader], [sensor/xtask])

    The user-space half of the sensor: it raises the memlock limit, makes
    the pin directory, loads the eBPF object, which pins the ring buffer's
    map, attaches the program and waits for Ctrl-C.  The kernel, [aya],
    [clap] and [tokio] are an interface: operations on an abstract kernel
    state and the behaviour their documentation promises.  The build helper
    [xtask] follows: its arguments and the commands it runs. *)
From Stdlib Require Import ZArith Lia.
From Stdlib Require Import Strings.Byte Strings.String.
From stdpp Require Import base list gmap.
From S2P Require Import Prelude GoIO Main.
#[local] Open Scope Z_scope.

Module loader.

(** ** The interface *)

(** [ebpf] is the loaded object, [program] a handle on one of its programs;
    an operation that can fail says whether it succeeded. *)
Class Aya (kernel ebpf program : Type) := {
  setrlimit_memlock : kernel -> bool * kernel;
  create_dir_all : gostring -> kernel -> bool * kernel;
  load_object : gostring -> kernel -> option ebpf * kernel;
  logger_init : ebpf -> kernel -> bool * kernel;
  program_mut : ebpf -> gostring -> option program;
  is_tracepoint : program -> bool;
  program_load : ebpf -> program -> kernel -> bool * kernel;
  program_attach : ebpf -> program -> gostring -> gostring -> kernel -> bool * kernel;
  ctrl_c : kernel -> bool * kernel;
  drop_ebpf : ebpf -> kernel -> kernel;
  (** What can be observed: the map pinned at a path, and what is attached
      to a tracepoint. *)
  pin : kernel -> gostring -> option nat;
  attached : kernel -> gostring -> gostring -> Prop
}.

(** The map is declared by name with [RingBuf::pinned], so loading with a
    [map_pin_path] pins it there, or uses the map that is. *)
Definition EVENTS : gostring := bs "/EVENTS".

(** Nothing but removing the file takes a map's pin away, and an attached
    program stays attached until its object is dropped. *)
Class AyaLaws {K E P : Type} (A : Aya K E P) := {
  load_pins d k e k' : load_object d k = (Some e, k') -> is_Some (pin k' (d ++ EVENTS));
  load_reuses d k p m : pin k p = Some m -> pin (load_object d k).2 p = Some m;
  setrlimit_pins k : pin (setrlimit_memlock k).2 = pin k;
  create_dir_pins d k : pin (create_dir_all d k).2 = pin k;
  logger_pins e k : pin (logger_init e k).2 = pin k;
  program_load_pins e t k : pin (program_load e t k).2 = pin k;
  attach_pins e t c n k : pin (program_attach e t c n k).2 = pin k;
  ctrl_c_pins k : pin (ctrl_c k).2 = pin k;
  drop_pins e k : pin (drop_ebpf e k) = pin k;
  attach_attaches e t c n k k' : program_attach e t c n k = (true, k') -> attached k' c n
}.

(** ** Effects

    A computation on the kernel that returns or fails; [anyhow]'s errors
    are told apart by their context. *)

Inductive error : Type :=
  | PinDirectory (dir : gostring)
  | LoadObject
  | ProgramNotFound
  | NotATracepoint
  | LoadProgram
  | AttachTo (category name : gostring)
  | AwaitCtrlC.

Section loader.
Context {kernel ebpf program : Type} `{A : Aya kernel ebpf program}.

Definition M (X : Type) : Type := kernel -> (X + error) * kernel.

Definition ret {X} (x : X) : M X := fun k => (inl x, k).
Definition fail {X} (e : error) : M X := fun k => (inr e, k).
Definition bind {X Y} (m : M X) (f : X -> M Y) : M Y :=
  fun k => match m k with (inl x, k') => f x k' | (inr e, k') => (inr e, k') end.

#[local] Notation "x <- m ; f" := (bind m (fun x => f)) (at level 61, m at level 100, f at level 200, right associativity).

(** [?] with a context. *)
Definition checked (op : kernel -> bool * kernel) (e : error) : M unit :=
  fun k => let '(ok, k') := op k in (if ok then inl tt else inr e, k').
Definition loaded (op : kernel -> option ebpf * kernel) (e : error) : M ebpf :=
  fun k => let '(r, k') := op k in (match r with Some x => inl x | None => inr e end, k').
Definition found {X} (r : option X) (e : error) : M X := match r with Some x => ret x | None => fail e end.
(** A failure that is only logged. *)
Definition warned (op : kernel -> bool * kernel) : M unit := fun k => (inl tt, (op k).2).
(** The object is dropped when [main] leaves, however it does. *)
Definition dropping {X} (e : ebpf) (m : M X) : M X := fun k => let '(r, k') := m k in (r, drop_ebpf e k').

(** ** [main] *)

Record Args := mkArgs { category : gostring; tracepoint : gostring; pin_dir : gostring }.

Definition DEFAULT_PIN_DIR : gostring := bs "/sys/fs/bpf/cyber_patrol".
Definition default_args : Args := mkArgs (bs "syscalls") (bs "sys_enter_execve") DEFAULT_PIN_DIR.

Definition bump_memlock_rlimit : M unit := warned setrlimit_memlock.

(** Up to the point where the sensor runs. *)
Definition start (args : Args) (e : ebpf) : M unit :=
  _ <- warned (logger_init e);
  p <- found (program_mut e (bs "sys_enter_execve")) ProgramNotFound;
  _ <- found (if is_tracepoint p then Some tt else None) NotATracepoint;
  _ <- checked (program_load e p) LoadProgram;
  checked (program_attach e p (category args) (tracepoint args)) (AttachTo (category args) (tracepoint args)).

Definition prepare (args : Args) : M ebpf :=
  _ <- bump_memlock_rlimit;
  _ <- checked (create_dir_all (pin_dir args)) (PinDirectory (pin_dir args));
  loaded (load_object (pin_dir args)) LoadObject.

Definition main (args : Args) : M unit :=
  e <- prepare args;
  dropping e (_ <- start args e; checked ctrl_c AwaitCtrlC).

(** ** What stays pinned *)

Context `{!AyaLaws A}.

(** A computation that takes no pin away, and one that changes none. *)
Definition keeps {X} (m : M X) : Prop := forall k p x, pin k p = Some x -> pin (m k).2 p = Some x.
Definition pins_alone {X} (m : M X) : Prop := forall k, pin (m k).2 = pin k.

Lemma pins_alone_keeps {X} (m : M X) : pins_alone m -> keeps m.
Proof. intros H k p x E. by rewrite H. Qed.

Lemma bind_keeps {X Y} (m : M X) (f : X -> M Y) : keeps m -> (forall x, keeps (f x)) -> keeps (bind m f).
Proof.
  intros Hm Hf k p x E. unfold bind. specialize (Hm k p x E). destruct (m k) as [[y|e] k']; [by apply Hf|done].
Qed.

Lemma bind_pins_alone {X Y} (m : M X) (f : X -> M Y) : pins_alone m -> (forall x, pins_alone (f x)) -> pins_alone (bind m f).
Proof.
  intros Hm Hf k. unfold bind. specialize (Hm k). destruct (m k) as [[y|e] k']; [by rewrite Hf|done].
Qed.

Lemma found_pins_alone {X} (r : option X) e : pins_alone (found r e).
Proof. by destruct r. Qed.

Lemma checked_pins_alone op e : (forall k, pin (op k).2 = pin k) -> pins_alone (checked op e).
Proof. intros H k. unfold checked. specialize (H k). by destruct (op k). Qed.

Lemma warned_pins_alone op : (forall k, pin (op k).2 = pin k) -> pins_alone (warned op).
Proof. intros H k. apply H. Qed.

Lemma start_pins_alone args e : pins_alone (start args e).
Proof.
  repeat (apply bind_pins_alone; [|intros ?]); try apply found_pins_alone.
  - apply warned_pins_alone, logger_pins.
  - apply checked_pins_alone. intros. apply program_load_pins.
  - apply checked_pins_alone. intros. apply attach_pins.
Qed.

Lemma running_pins_alone args e : pins_alone (dropping e (_ <- start args e; checked ctrl_c AwaitCtrlC)).
Proof.
  intros k. unfold dropping. pose proof (bind_pins_alone (start args e) (fun _ => checked ctrl_c AwaitCtrlC)) as H.
  specialize (H (start_pins_alone args e) (fun _ => checked_pins_alone _ _ ctrl_c_pins) k).
  destruct (bind _ _ k) as [r k']. cbn [snd] in *. by rewrite drop_pins.
Qed.

Lemma prepare_keeps args : keeps (prepare args).
Proof.
  apply bind_keeps; [apply pins_alone_keeps, warned_pins_alone, setrlimit_pins|intros _].
  apply bind_keeps; [apply pins_alone_keeps, checked_pins_alone, create_dir_pins|intros _].
  intros k p x E. unfold loaded. pose proof (load_reuses (pin_dir args) k p x E) as H. by destruct (load_object _ k).
Qed.

Lemma prepare_pins args k e k' : prepare args k = (inl e, k') -> is_Some (pin k' (pin_dir args ++ EVENTS)).
Proof.
  unfold prepare, bind, bump_memlock_rlimit, warned, checked, loaded.
  destruct (create_dir_all _ _) as [[] k1]; [|done].
  destruct (load_object _ _) as [[e'|] k2] eqn:E; [|done]. intros [= -> ->]. by eapply load_pins.
Qed.

Lemma main_keeps args : keeps (main args).
Proof. apply bind_keeps; [apply prepare_keeps|]. intros e. apply pins_alone_keeps, running_pins_alone. Qed.

(** The failures from before the map is pinned. *)
Definition early (r : unit + error) : Prop := exists d, r = inr (PinDirectory d) \/ r = inr LoadObject.

Lemma prepare_early args k e k' : prepare args k = (inr e, k') -> early (inr e).
Proof.
  unfold prepare, bind, bump_memlock_rlimit, warned, checked, loaded.
  destruct (create_dir_all _ _) as [[] k1]; [|intros [= <- _]; by eexists; left].
  destruct (load_object _ _) as [[e'|] k2]; [done|]. intros [= <- _]. exists []. by right.
Qed.

Lemma main_pins args k : early (main args k).1 \/ is_Some (pin (main args k).2 (pin_dir args ++ EVENTS)).
Proof.
  unfold main, bind at 1 3. destruct (prepare args k) as [[e|e] k'] eqn:E; [right|left; by eapply prepare_early].
  rewrite (running_pins_alone args e k'). by eapply prepare_pins.
Qed.

(** When the loader has said that the sensor is attached it is, and the
    ring is where the broker looks for it. *)
Lemma start_attaches args e k k' : start args e k = (inl tt, k') -> attached k' (category args) (tracepoint args).
Proof.
  unfold start, bind, warned, found, checked, ret, fail. destruct (program_mut e _) as [p|]; [|done].
  destruct (is_tracepoint p); [|done]. destruct (program_load e p _) as [[] k1]; [|done].
  destruct (program_attach e p _ _ k1) as [[] k2] eqn:E; [|done]. intros [= <-]. by eapply attach_attaches.
Qed.

(** The loader gives the broker its ring.  Once [start] has returned the
    program is attached to the tracepoint and the map is pinned in the pin
    directory; however [main] ends after loading, the map is still pinned,
    and no pin that was there is lost or replaced, so that a restart goes on
    with the same map; [main] fails before that only because of the
    directory or the object.  With the defaults of both sides the pin is the
    file the broker opens. *)
Lemma loader_publishes_the_ring args k :
  (forall e k1 k2, prepare args k = (inl e, k1) -> start args e k1 = (inl tt, k2) ->
     attached k2 (category args) (tracepoint args) /\ is_Some (pin k2 (pin_dir args ++ EVENTS))) /\
  (early (main args k).1 \/ is_Some (pin (main args k).2 (pin_dir args ++ EVENTS))) /\
  (forall p m, pin k p = Some m -> pin (main args k).2 p = Some m) /\
  pin_dir default_args ++ EVENTS = brokermain.map_path brokermain.default_flags.
Proof.
  split_and!; [|apply main_pins|apply main_keeps|done]. intros e k1 k2 E1 E2. split; [by eapply start_attaches|].
  apply prepare_pins in E1. pose proof (start_pins_alone args e k1) as H. rewrite E2 in H. cbn [snd] in H. by rewrite H.
Qed.

End loader.

(** ** The calls [main] makes *)

Inductive call : Type :=
  | Setrlimit
  | CreateDirAll (dir : gostring)
  | LoadInto (pin_dir : gostring)
  | InitLogger
  | LoadTracepoint
  | Attach (category name : gostring)
  | AwaitSignal
  | DropObject.

#[export] Instance call_eq_decision : EqDecision call.
Proof. solve_decision. Defined.

Section calls.
(** Which calls are accepted, which programs the object has, and which of
    them are tracepoints. *)
Context (accepts : call -> bool) (declares tracepoint_program : gostring -> bool).

(** A kernel that only records what it is asked. *)
Definition asked (c : call) (t : list call) : bool * list call := (accepts c, t ++ [c]).

Definition recorder : Aya (list call) unit gostring := {|
  setrlimit_memlock := asked Setrlimit;
  create_dir_all d := asked (CreateDirAll d);
  load_object d t := (if accepts (LoadInto d) then Some tt else None, t ++ [LoadInto d]);
  logger_init _ := asked InitLogger;
  program_mut _ n := if declares n then Some n else None;
  is_tracepoint := tracepoint_program;
  program_load _ _ := asked LoadTracepoint;
  program_attach _ _ c n := asked (Attach c n);
  ctrl_c := asked AwaitSignal;
  drop_ebpf _ t := t ++ [DropObject];
  pin _ _ := None;
  attached _ _ _ := False
|}.

(** What has to be done, in order: a call or a look at the object, whether
    it succeeds, and the error it ends [main] with if it does not. *)
Record task := mkTask { t_call : option call; t_ok : bool; t_error : option error }.

Definition tasks (args : Args) : list task :=
  let name := bs "sys_enter_execve" in
  [mkTask (Some Setrlimit) (accepts Setrlimit) None;
   mkTask (Some (CreateDirAll (pin_dir args))) (accepts (CreateDirAll (pin_dir args))) (Some (PinDirectory (pin_dir args)));
   mkTask (Some (LoadInto (pin_dir args))) (accepts (LoadInto (pin_dir args))) (Some LoadObject);
   mkTask (Some InitLogger) (accepts InitLogger) None;
   mkTask None (declares name) (Some ProgramNotFound);
   mkTask None (tracepoint_program name) (Some NotATracepoint);
   mkTask (Some LoadTracepoint) (accepts LoadTracepoint) (Some LoadProgram);
   mkTask (Some (Attach (category args) (tracepoint args))) (accepts (Attach (category args) (tracepoint args)))
     (Some (AttachTo (category args) (tracepoint args)));
   mkTask (Some AwaitSignal) (accepts AwaitSignal) (Some AwaitCtrlC)].

(** Success, or a failure that is only logged. *)
Definition passed (t : task) : Prop := t_ok t = true \/ t_error t = None.

Definition calls_of (ts : list task) : list call := omap t_call ts.

Ltac all_passed := repeat (apply Forall_cons; split; [first [by left | by right]|]); apply Forall_nil_2.
Ltac fails_at i := right; exists i; eexists _, _; split_and!; try reflexivity; all_passed.

(** C22: what the loader does, however it ends.  Either every task whose
    failure is an error succeeds, all calls are made in the order written,
    and [main] returns after Ctrl-C; or one fails: then all before it have
    passed, the calls made are those up to it and no other, and its error
    is the result.  A refused limit or logger ends nothing; nothing is
    attached unless the object was loaded and the program verified; and the
    object is dropped, last, exactly if it was loaded. *)
Theorem loader_calls args :
  let '(r, trace) := main (A := recorder) args [] in
  (r = inl tt /\ Forall passed (tasks args) /\ trace = calls_of (tasks args) ++ [DropObject]) \/
  (exists i t e, tasks args !! i = Some t /\ t_ok t = false /\ t_error t = Some e /\
     r = inr e /\ Forall passed (take i (tasks args)) /\
     trace = calls_of (take (S i) (tasks args)) ++ (if (2 <? i)%nat then [DropObject] else [])).
Proof.
  unfold main, prepare, start, bump_memlock_rlimit, dropping, bind, warned, checked, loaded, found, tasks, calls_of.
  cbn [recorder setrlimit_memlock create_dir_all load_object logger_init program_mut is_tracepoint program_load
    program_attach ctrl_c drop_ebpf asked snd fst app].
  destruct (accepts (CreateDirAll (pin_dir args))); [|fails_at 1%nat].
  destruct (accepts (LoadInto (pin_dir args))); [|fails_at 2%nat].
  destruct (declares (bs "sys_enter_execve")); cbn [ret fail]; [|fails_at 4%nat].
  destruct (tracepoint_program (bs "sys_enter_execve")); cbn [ret fail]; [|fails_at 5%nat].
  destruct (accepts LoadTracepoint); [|fails_at 6%nat].
  destruct (accepts (Attach (category args) (tracepoint args))); [|fails_at 7%nat].
  destruct (accepts AwaitSignal); [|fails_at 8%nat].
  left. split_and!; [done|all_passed|done].
Qed.

End calls.

(** The logger is refused, which is only logged, and then the attachment. *)
Example refused_attachment :
  let accepts c := negb (bool_decide (c = InitLogger)) && negb (bool_decide (c = Attach (bs "syscalls") (bs "sys_enter_execve"))) in
  main (A := recorder accepts (fun _ => true) (fun _ => true)) default_args [] =
    (inr (AttachTo (bs "syscalls") (bs "sys_enter_execve")),
     [Setrlimit; CreateDirAll DEFAULT_PIN_DIR; LoadInto DEFAULT_PIN_DIR; InitLogger; LoadTracepoint;
      Attach (bs "syscalls") (bs "sys_enter_execve"); DropObject]).
Proof. by vm_compute. Qed.

(** ** A kernel *)

Record kernel := mkKernel { pins : gostring -> option nat; links : list (gostring * gostring); next_map : nat }.

(** Loading makes a new map unless one is pinned; the object is the list of
    its programs; attaching can be refused. *)
Definition load_pinned (d : gostring) (k : kernel) : option (list gostring) * kernel :=
  (Some [bs "sys_enter_execve"],
   mkKernel (fun p => if decide (p = d ++ EVENTS) then Some (default (next_map k) (pins k p)) else pins k p)
     (links k) (S (next_map k))).

#[export] Instance simple_kernel (refused : bool) : Aya kernel (list gostring) gostring := {|
  setrlimit_memlock k := (false, k);
  create_dir_all _ k := (true, k);
  load_object := load_pinned;
  logger_init _ k := (false, k);
  program_mut e n := if decide (n ∈ e) then Some n else None;
  is_tracepoint _ := true;
  program_load _ _ k := (true, k);
  program_attach _ _ c n k := if refused then (false, k) else (true, mkKernel (pins k) ((c, n) :: links k) (next_map k));
  ctrl_c k := (true, k);
  drop_ebpf _ k := mkKernel (pins k) [] (next_map k);
  pin := pins;
  attached k c n := (c, n) ∈ links k
|}.

#[export] Instance simple_kernel_laws refused : AyaLaws (simple_kernel refused).
Proof.
  split; try done; cbn.
  - intros d k e k' [= _ <-]. cbn. rewrite decide_True by done. by eexists.
  - intros d k p m E. cbn. case_decide; [by rewrite E|done].
  - by destruct refused.
  - intros e t c n k k'. destruct refused; [done|]. intros [= <-]. by left.
Qed.

Definition cold : kernel := mkKernel (fun _ => None) [] 0.

(** An attempt that is refused, then one that succeeds: the broker's file
    is the same map throughout. *)
Lemma loader_publishes_the_ring_witness :
  (main (A := simple_kernel true) default_args cold).1 = inr (AttachTo (bs "syscalls") (bs "sys_enter_execve")) /\
  let k := (main (A := simple_kernel true) default_args cold).2 in
  (main (A := simple_kernel false) default_args k).1 = inl tt /\
  pins k (brokermain.map_path brokermain.default_flags) = Some 0%nat /\
  pins (main (A := simple_kernel false) default_args k).2 (brokermain.map_path brokermain.default_flags) = Some 0%nat.
Proof.
  split; [by vm_compute|]. cbn zeta. split; [by vm_compute|]. split; [by vm_compute|].
  apply (loader_publishes_the_ring (A := simple_kernel false) default_args
    (main (A := simple_kernel true) default_args cold).2). by vm_compute.
Defined.

(** ** [xtask] *)

Inductive Cmd : Type :=
  | BuildEbpf (release : bool)
  | Run (extra_args : list gostring).

(** [Iterator::skip_while] *)
Fixpoint skip_while {X} (f : X -> bool) (l : list X) : list X :=
  match l with x :: l' => if f x then skip_while f l' else l | [] => [] end.

(** The arguments after the program's name; the error is the usage. *)
Definition parse_args (args : list gostring) : option Cmd :=
  match args with
  | c :: rest =>
      if decide (c = bs "build-ebpf") then Some (BuildEbpf (existsb (fun a => bool_decide (a = bs "--release")) rest))
      else if decide (c = bs "run") then
        Some (Run (drop 1 (skip_while (fun a => negb (bool_decide (a = bs "--"))) rest)))
      else None
  | [] => None
  end.

(** The command lines, in order; the next is run when the last succeeded. *)
Definition commands (c : Cmd) : list (list gostring) :=
  match c with
  | BuildEbpf release =>
      [[bs "cargo"; bs "+nightly"; bs "build"; bs "-p"; bs "cyber-patrol-ebpf"; bs "-Z"; bs "build-std=core";
        bs "--target"; bs "bpfel-unknown-none"] ++ (if release then [bs "--release"] else [])]
  | Run extra =>
      [[bs "cargo"; bs "build"; bs "--release"; bs "-p"; bs "cyber-patrol-loader"];
       [bs "sudo"; bs "-E"; bs "target/release/cyber-patrol-loader"] ++ extra]
  end.

(** The first failure ends the run: which command lines ran, and whether
    all succeeded. *)
Fixpoint run_checked (status : list gostring -> bool) (cs : list (list gostring)) : list (list gostring) * bool :=
  match cs with
  | [] => ([], true)
  | c :: cs' => if status c then let '(ran, ok) := run_checked status cs' in (c :: ran, ok) else ([c], false)
  end.

(** Everything after the first separator reaches the loader unchanged,
    further separators included. *)
Lemma run_passes_on before extra :
  Forall (fun a => a <> bs "--") before -> parse_args (bs "run" :: before ++ bs "--" :: extra) = Some (Run extra).
Proof.
  intros H. cbn [parse_args]. rewrite decide_False, decide_True by done. do 2 f_equal.
  induction H as [|a before Ha _ IH]; cbn [app skip_while]; [by rewrite bool_decide_true by done|].
  by rewrite bool_decide_false by done.
Qed.

(** The loader is started only if it was built. *)
Lemma run_needs_the_build status extra :
  status [bs "cargo"; bs "build"; bs "--release"; bs "-p"; bs "cyber-patrol-loader"] = false ->
  run_checked status (commands (Run extra)) =
    ([[bs "cargo"; bs "build"; bs "--release"; bs "-p"; bs "cyber-patrol-loader"]], false).
Proof. intros H. cbn [commands run_checked]. by rewrite H. Qed.

End loader.
