(* ===== verification/Flags.v ===== *)
(** * The broker's command line ([broker/main.go], lines 22 to 52)

    The eleven flags as the [flag] package parses them, and [main] up to
    the start of the pipeline: what a command line makes the broker do
    before it opens the ring buffer. *)
From Stdlib Require Import ZArith Lia Floats.SpecFloat.
From Stdlib Require Import Strings.Byte Strings.String.
From stdpp Require Import base list gmap.
From S2P Require Import Prelude GoStrings GoTime Json JsonFacts Events GoIO AppendLog EventJson Hunter VerdictJson Strconv.
From S2P Require Import Pipeline PipelineFacts Samples Broker BrokerFacts Main Loader.
Import brokermain strconv.
#[local] Open Scope Z_scope.

Module flags.

(** ** The flags *)

(** A flag with a value of its type. *)
Inductive setting : Type :=
  | MapPath (v : gostring)
  | HunterURL (v : gostring)
  | HunterTimeout (d : Z)
  | HunterRetries (n : Z)
  | NumWorkers (n : Z)
  | QueueDepth (n : Z)
  | OverflowFile (v : gostring)
  | AuditFile (v : gostring)
  | ReplayPeriod (d : Z)
  | MetricsAddr (v : gostring)
  | OpenRetries (n : Z).

(** What a setting assigns. *)
Definition apply (x : setting) (fl : Flags) : Flags :=
  let '(mkFlags mp hu ht hr wk qs ov au re ma opn) := fl in
  match x with
  | MapPath v => mkFlags v hu ht hr wk qs ov au re ma opn
  | HunterURL v => mkFlags mp v ht hr wk qs ov au re ma opn
  | HunterTimeout d => mkFlags mp hu d hr wk qs ov au re ma opn
  | HunterRetries n => mkFlags mp hu ht n wk qs ov au re ma opn
  | NumWorkers n => mkFlags mp hu ht hr n qs ov au re ma opn
  | QueueDepth n => mkFlags mp hu ht hr wk n ov au re ma opn
  | OverflowFile v => mkFlags mp hu ht hr wk qs v au re ma opn
  | AuditFile v => mkFlags mp hu ht hr wk qs ov v re ma opn
  | ReplayPeriod d => mkFlags mp hu ht hr wk qs ov au d ma opn
  | MetricsAddr v => mkFlags mp hu ht hr wk qs ov au re v opn
  | OpenRetries n => mkFlags mp hu ht hr wk qs ov au re ma n
  end.

(** The flag's value from its text; [None] if there is no such flag. *)
Definition Set_ (name value : gostring) : option (option setting) :=
  if decide (name = bs "map-path") then Some (Some (MapPath value))
  else if decide (name = bs "hunter-url") then Some (Some (HunterURL value))
  else if decide (name = bs "hunter-timeout") then Some (HunterTimeout <$> ParseDuration value)
  else if decide (name = bs "hunter-retries") then Some (HunterRetries <$> ParseInt value)
  else if decide (name = bs "workers") then Some (NumWorkers <$> ParseInt value)
  else if decide (name = bs "queue-size") then Some (QueueDepth <$> ParseInt value)
  else if decide (name = bs "overflow-path") then Some (Some (OverflowFile value))
  else if decide (name = bs "audit-path") then Some (Some (AuditFile value))
  else if decide (name = bs "replay-every") then Some (ReplayPeriod <$> ParseDuration value)
  else if decide (name = bs "metrics-addr") then Some (Some (MetricsAddr value))
  else if decide (name = bs "open-retries") then Some (OpenRetries <$> ParseInt value)
  else None.

(** ** [flag.Parse] *)

Definition equals : byte := x3d.

(** An argument: the first that is no flag, or the terminator, ends the
    flags. *)
Inductive token : Type :=
  | NonFlag
  | Terminator
  | BadSyntax
  | Named (name : gostring) (value : option gostring).

Fixpoint split_equals (s : gostring) : gostring * option gostring :=
  match s with
  | [] => ([], None)
  | c :: s' => if decide (c = equals) then ([], Some s') else let '(n, v) := split_equals s' in (c :: n, v)
  end.

Definition named (s : gostring) : token :=
  match s with
  | [] => BadSyntax
  | c :: _ =>
      if decide (c = dash \/ c = equals) then BadSyntax else let '(n, v) := split_equals s in Named n v
  end.

Definition read_token (s : gostring) : token :=
  match s with
  | c :: d :: s' =>
      if decide (c = dash) then
        if decide (d = dash) then match s' with [] => Terminator | _ => named s' end
        else named (d :: s')
      else NonFlag
  | _ => NonFlag
  end.

(** [ExitOnError]: status 2, or 0 after a request for help. *)
Inductive outcome : Type :=
  | Parsed (fl : Flags)
  | Exit (code : Z).

Definition unknown_exit (name : gostring) : Z := if decide (name = bs "help" \/ name = bs "h") then 0 else 2.

Fixpoint Parse (args : list gostring) (fl : Flags) : outcome :=
  match args with
  | [] => Parsed fl
  | s :: rest =>
      match read_token s with
      | NonFlag | Terminator => Parsed fl
      | BadSyntax => Exit 2
      | Named name (Some v) =>
          match Set_ name v with
          | None => Exit (unknown_exit name)
          | Some None => Exit 2
          | Some (Some x) => Parse rest (apply x fl)
          end
      | Named name None =>
          match rest with
          | v :: rest' =>
              match Set_ name v with
              | None => Exit (unknown_exit name)
              | Some None => Exit 2
              | Some (Some x) => Parse rest' (apply x fl)
              end
          | [] => Exit (match Set_ name [] with None => unknown_exit name | Some _ => 2 end)
          end
      end
  end.

(** ** [main] up to [pl.Start] *)

Inductive launched : Type :=
  | Ended (code : Z)
  | Panicked
  | Started (fl : Flags) (m : mstate).

(** [log.Fatalf] ends the process with status 1. *)
Definition launch (faults : nat -> fault) (args : list gostring) (fs : FS) (n : nat) (ps : hunter.procs)
    (restored : list events.Event) : launched * FS :=
  match Parse args default_flags with
  | Exit c => (Ended c, fs)
  | Parsed fl =>
      match pipeline.New faults (config_of fl) fs with
      | (Ok p, fs') => (Started fl (main_started p (pipeline.mkWorld fs' n ps) restored), fs')
      | (Err _, fs') => (Ended 1, fs')
      | (Panic, fs') => (Panicked, fs')
      end
  end.

(** ** Command lines that are accepted *)

Definition name_of (x : setting) : gostring :=
  match x with
  | MapPath _ => bs "map-path" | HunterURL _ => bs "hunter-url" | HunterTimeout _ => bs "hunter-timeout"
  | HunterRetries _ => bs "hunter-retries" | NumWorkers _ => bs "workers" | QueueDepth _ => bs "queue-size"
  | OverflowFile _ => bs "overflow-path" | AuditFile _ => bs "audit-path" | ReplayPeriod _ => bs "replay-every"
  | MetricsAddr _ => bs "metrics-addr" | OpenRetries _ => bs "open-retries"
  end.

Definition text_of (x : setting) : gostring :=
  match x with
  | MapPath v | HunterURL v | OverflowFile v | AuditFile v | MetricsAddr v => v
  | HunterRetries n | NumWorkers n | QueueDepth n | OpenRetries n => Itoa n
  | HunterTimeout d | ReplayPeriod d => nanoseconds d
  end.

(** The values of Go's [int] and [time.Duration]. *)
Definition in_range (x : setting) : Prop :=
  match x with
  | HunterRetries z | NumWorkers z | QueueDepth z | OpenRetries z | HunterTimeout z | ReplayPeriod z =>
      - 2 ^ 63 <= z < 2 ^ 63
  | _ => True
  end.

(** A flag can be written with one dash or two, its value behind an equals
    sign or as the next argument. *)
Record style := mkStyle { two_dashes : bool; joined : bool }.

Definition render (st : style) (x : setting) : list gostring :=
  let d := if two_dashes st then [dash; dash] else [dash] in
  if joined st then [d ++ name_of x ++ equals :: text_of x] else [d ++ name_of x; text_of x].

Definition ends_flags (rest : list gostring) : Prop :=
  match rest with [] => True | s :: _ => read_token s = NonFlag \/ read_token s = Terminator end.

Lemma Set_text x : in_range x -> Set_ (name_of x) (text_of x) = Some (Some x).
Proof.
  destruct x; intros Hx; cbn [name_of text_of in_range] in *; unfold Set_;
    repeat (rewrite decide_False by (by vm_compute)); rewrite decide_True by done;
    rewrite ?ParseInt_Itoa, ?ParseDuration_ns by done; done.
Qed.

Lemma split_equals_name n v : equals ∉ n -> split_equals (n ++ equals :: v) = (n, Some v) /\ split_equals n = (n, None).
Proof.
  induction n as [|c n IH]; intros Hn; [done|]. apply not_elem_of_cons in Hn as [Hc Hn].
  destruct (IH Hn) as [E1 E2]. cbn [app split_equals]. by rewrite !decide_False, E1, E2 by congruence.
Qed.

Lemma name_plain x : (equals ∉ name_of x) /\ exists c n, name_of x = c :: n /\ c <> dash /\ c <> equals.
Proof. destruct x; (split; [apply (bool_decide_unpack _); by vm_compute|by do 2 eexists]). Qed.

Lemma read_rendered st x :
  (joined st = true -> forall s rest, render st x = s :: rest -> rest = [] /\ read_token s = Named (name_of x) (Some (text_of x))) /\
  (joined st = false -> exists s, render st x = [s; text_of x] /\ read_token s = Named (name_of x) None).
Proof.
  destruct (name_plain x) as (Hp & c & n & En & Hd & He). destruct (split_equals_name (name_of x) (text_of x) Hp) as [E1 E2].
  assert (forall d v, (d = [dash] \/ d = [dash; dash]) -> (v = [] \/ exists t, v = equals :: t) ->
    read_token (d ++ name_of x ++ v) = let '(k, w) := split_equals (name_of x ++ v) in Named k w) as H.
  { intros d v Hd2 Hv. rewrite En. destruct Hd2 as [-> | ->]; cbn [app read_token named];
      rewrite ?decide_True by done; rewrite ?decide_False by tauto; done. }
  split; intros Hj; unfold render; rewrite Hj.
  - intros s rest [= <- <-]. split; [done|]. rewrite H; [by rewrite E1|destruct (two_dashes st); auto|by right; eexists].
  - eexists. split; [done|]. rewrite <- (app_nil_r (name_of x)) at 1.
    rewrite H; [by rewrite app_nil_r, E2|destruct (two_dashes st); auto|by left].
Qed.

(** One flag is read as it was written. *)
Lemma Parse_render st x rest fl : in_range x -> Parse (render st x ++ rest) fl = Parse rest (apply x fl).
Proof.
  intros Hx. pose proof (Set_text x Hx) as Hs. destruct (read_rendered st x) as [Hj Hn].
  destruct (joined st) eqn:E.
  - destruct (render st x) as [|s r] eqn:Er; [unfold render in Er; by rewrite E in Er|].
    destruct (Hj eq_refl s r eq_refl) as [-> Ht]. cbn [app Parse]. by rewrite Ht, Hs.
  - destruct (Hn eq_refl) as (s & -> & Ht). cbn [app Parse]. by rewrite Ht, Hs.
Qed.

(** Settings written one after the other. *)
Definition command_line (l : list (style * setting)) : list gostring := concat ((fun sx => render sx.1 sx.2) <$> l).

Lemma Parse_settings l rest fl :
  Forall (fun sx => in_range sx.2) l ->
  Parse (command_line l ++ rest) fl = Parse rest (foldl (fun fl sx => apply sx.2 fl) fl l).
Proof.
  intros Hl. revert fl. induction Hl as [|[st x] l Hx _ IH]; intros fl; [done|].
  unfold command_line. rewrite fmap_cons. cbn [concat foldl fst snd]. rewrite <- app_assoc, Parse_render by done. apply IH.
Qed.

Lemma Parse_ends rest fl : ends_flags rest -> Parse rest fl = Parsed fl.
Proof. destruct rest as [|s rest]; [done|]. cbn [Parse]. by intros [-> | ->]. Qed.

(** All flags of a configuration. *)
Definition settings_of (fl : Flags) : list setting :=
  [MapPath (map_path fl); HunterURL (hunter_url fl); HunterTimeout (hunter_timeout fl); HunterRetries (hunter_retries fl);
   NumWorkers (workers fl); QueueDepth (queue_size fl); OverflowFile (overflow_path fl); AuditFile (audit_path fl);
   ReplayPeriod (replay_every fl); MetricsAddr (metrics_addr fl); OpenRetries (open_retries fl)].

Lemma apply_all (l : list (style * setting)) fl fl0 : l.*2 = settings_of fl -> foldl (fun fl sx => apply sx.2 fl) fl0 l = fl.
Proof.
  intros E. transitivity (foldl (fun fl x => apply x fl) fl0 (l.*2)).
  - clear E. revert fl0. induction l as [|[st x] l IH]; intros fl0; [done|apply IH].
  - rewrite E. by destruct fl, fl0.
Qed.

(** C30: the broker runs with the settings it was given.  Flags written in
    any of the four styles, in any order and number, with any bytes in the
    strings and any values of Go's types in the numbers and durations, up
    to the end of the arguments, an argument that is no flag or the
    terminator, are parsed to exactly the settings applied in turn, the
    last for a flag winning; and naming all eleven gives any configuration
    whatever the defaults. *)
Theorem command_line_round_trip (l : list (style * setting)) tail fl0 :
  Forall (fun sx => in_range sx.2) l -> ends_flags tail ->
  Parse (command_line l ++ tail) fl0 = Parsed (foldl (fun fl sx => apply sx.2 fl) fl0 l) /\
  (forall fl, l.*2 = settings_of fl -> Parse (command_line l ++ tail) fl0 = Parsed fl).
Proof.
  intros Hl Ht. rewrite Parse_settings, Parse_ends by done. split; [done|].
  intros fl E. by rewrite (apply_all l fl).
Qed.

(** ** Command lines that are refused *)

(** The arguments from the first offending one on, and the status. *)
Inductive offending : list gostring -> Z -> Prop :=
  | off_syntax s tail : read_token s = BadSyntax -> offending (s :: tail) 2
  | off_unknown s name v tail : read_token s = Named name v -> (forall t, Set_ name t = None) ->
      offending (s :: tail) (unknown_exit name)
  | off_value s name v tail : read_token s = Named name (Some v) -> Set_ name v = Some None -> offending (s :: tail) 2
  | off_next_value s name v tail : read_token s = Named name None -> Set_ name v = Some None ->
      offending (s :: v :: tail) 2
  | off_missing s name : read_token s = Named name None -> is_Some (Set_ name []) -> offending [s] 2.

Lemma Parse_offending bad code fl : offending bad code -> Parse bad fl = Exit code.
Proof.
  intros [s tail Ht|s name v tail Ht Hu|s name v tail Ht Hs|s name v tail Ht Hs|s name Ht [x Hs]];
    cbn [Parse]; rewrite Ht; [done| |by rewrite Hs|by rewrite Hs|by rewrite Hs].
  destruct v as [v|]; [by rewrite Hu|]. destruct tail as [|v tail]; by rewrite Hu.
Qed.

(** Whether a name is a flag's does not depend on the value. *)
Lemma Set_known name v w : is_Some (Set_ name v) -> is_Some (Set_ name w).
Proof. unfold Set_. repeat (case_decide; [done|]). done. Qed.

(** Nothing else is refused. *)
Lemma Parse_exits args fl code :
  Parse args fl = Exit code -> exists pre bad, args = pre ++ bad /\ offending bad code.
Proof.
  remember (length args) as n eqn:Hn. revert args fl Hn. induction (lt_wf n) as [n _ IH]. intros args fl -> HP.
  destruct args as [|s tail]; [done|]. cbn [Parse] in HP. destruct (read_token s) as [| | |name [v|]] eqn:Ht; try done.
  - injection HP as <-. exists [], (s :: tail). split; [done|by apply off_syntax].
  - destruct (Set_ name v) as [[x|]|] eqn:Es.
    + destruct (IH (length tail)) with (args := tail) (fl := apply x fl) as (pre & bad & -> & Hb); [simpl; lia|done|done|].
      by exists (s :: pre), bad.
    + injection HP as <-. exists [], (s :: tail). split; [done|by eapply off_value].
    + injection HP as <-. exists [], (s :: tail). split; [done|]. eapply off_unknown; [done|].
      intros t. destruct (Set_ name t) eqn:E; [|done]. destruct (Set_known name t v) as [? ?]; [by eexists|congruence].
  - destruct tail as [|v tail].
    + injection HP as <-. exists [], [s]. split; [done|]. destruct (Set_ name []) eqn:Es; [by eapply off_missing; [|eexists]|].
      eapply off_unknown; [done|].
      intros t. destruct (Set_ name t) eqn:E; [|done]. destruct (Set_known name t []) as [? ?]; [by eexists|congruence].
    + destruct (Set_ name v) as [[x|]|] eqn:Es.
      * destruct (IH (length tail)) with (args := tail) (fl := apply x fl) as (pre & bad & -> & Hb); [simpl; lia|done|done|].
        by exists (s :: v :: pre), bad.
      * injection HP as <-. exists [], (s :: v :: tail). split; [done|by eapply off_next_value].
      * injection HP as <-. exists [], (s :: v :: tail). split; [done|]. eapply off_unknown; [done|].
        intros t. destruct (Set_ name t) eqn:E; [|done]. destruct (Set_known name t v) as [? ?]; [by eexists|congruence].
Qed.

(** C32: a command line the broker refuses leaves no trace.  After any
    good settings, an argument of bad syntax, an unknown flag, a value that
    is not of its type or a missing one ends the process with status 2 (a
    request for help with 0) before anything is opened, whatever follows;
    and [main] ends with another status than 1, or before the logs are
    opened, only for such an argument. *)
Theorem refused_command_line faults l bad code fs n ps restored :
  Forall (fun sx => in_range sx.2) l -> offending bad code ->
  launch faults (command_line l ++ bad) fs n ps restored = (Ended code, fs) /\ (code = 0 \/ code = 2) /\
  (forall args c fs', launch faults args fs n ps restored = (Ended c, fs') -> c <> 1 ->
     fs' = fs /\ exists pre bad, args = pre ++ bad /\ offending bad c).
Proof.
  intros Hl Hb. split; [|split].
  - unfold launch. by rewrite Parse_settings, (Parse_offending bad code).
  - destruct Hb; auto. unfold unknown_exit. destruct (decide _); auto.
  - intros args c fs' E Hc. unfold launch in E. destruct (Parse args default_flags) as [fl|d] eqn:EP.
    + destruct (pipeline.New _ _ _) as [[p|e|] fs1]; congruence.
    + injection E as -> <-. split; [done|]. by eapply Parse_exits.
Qed.

(** ** The command lines of the repository *)

Definition joined_flag (name : string) (v : gostring) : gostring := dash :: bs name ++ equals :: v.

(** [scripts/run_all.sh], with its log directory, and [docker-compose.yml];
    the [Makefile]'s is the first with the default directory. *)
Definition run_all_args (log_dir : gostring) : list gostring :=
  [joined_flag "map-path" (bs "/sys/fs/bpf/cyber_patrol/EVENTS"); joined_flag "hunter-url" (bs "http://localhost:8000");
   joined_flag "overflow-path" (log_dir ++ bs "/overflow.jsonl"); joined_flag "audit-path" (log_dir ++ bs "/audit.jsonl")].

Definition compose_args : list gostring :=
  [joined_flag "map-path" (bs "/sys/fs/bpf/cyber_patrol/EVENTS"); joined_flag "hunter-url" (bs "http://hunter:8000");
   joined_flag "overflow-path" (bs "/var/lib/cyber-patrol/overflow.jsonl");
   joined_flag "audit-path" (bs "/var/lib/cyber-patrol/audit.jsonl")].

(** They differ from the defaults in the directory and the hunter's host
    only, and all look for the map where the loader pins it. *)
Lemma deployed_command_lines log_dir :
  Parse (run_all_args (bs "/var/lib/cyber-patrol")) default_flags = Parsed default_flags /\
  Parse (run_all_args log_dir) default_flags =
    Parsed (apply (OverflowFile (log_dir ++ bs "/overflow.jsonl")) (apply (AuditFile (log_dir ++ bs "/audit.jsonl")) default_flags)) /\
  Parse compose_args default_flags = Parsed (apply (HunterURL (bs "http://hunter:8000")) default_flags) /\
  map_path default_flags = loader.pin_dir loader.default_args ++ loader.EVENTS.
Proof. split_and!; reflexivity. Qed.

(** A negative queue size is not refused: both logs are opened, then
    [make] panics. *)
Lemma negative_queue_panics fs n ps restored a o fs1 fs2 :
  let c := config_of (apply (QueueDepth (-1)) default_flags) in
  newAppendLog all_good (pipeline.AuditPath c) fs = (Ok a, fs1) ->
  newAppendLog all_good (pipeline.OverflowPath c) fs1 = (Ok o, fs2) ->
  launch all_good [bs "-queue-size=-1"] fs n ps restored = (Panicked, fs2).
Proof.
  intros c Ha Ho. unfold launch.
  assert (Parse [bs "-queue-size=-1"] default_flags = Parsed (apply (QueueDepth (-1)) default_flags)) as -> by reflexivity.
  fold c. unfold pipeline.New. assert ((pipeline.ReplayEvery c <=? 0) = false) as -> by done.
  cbn zeta. by rewrite Ha, Ho.
Qed.

(** ** Examples *)

Lemma command_line_round_trip_witness :
  Parse [bs "--workers"; bs "0x10"; bs "-hunter-timeout=1m30s"; bs "-audit-path"; bs "-x"; bs "--"; bs "-workers=1"] default_flags =
    Parsed (apply (NumWorkers 16) (apply (HunterTimeout 90000000000) (apply (AuditFile (bs "-x")) default_flags))) /\
  let l := (fun x => (mkStyle true false, x)) <$> settings_of default_flags in
  Parse (command_line l ++ [bs "now"]) (apply (NumWorkers (-1)) default_flags) = Parsed default_flags.
Proof.
  split; [by vm_compute|]. cbn zeta. apply command_line_round_trip; [|by left|done].
  repeat (constructor; [cbn; try done; lia|]). constructor.
Defined.

Lemma refused_command_line_witness :
  launch all_good (command_line [(mkStyle false true, NumWorkers 4)] ++ [bs "-queue-size"; bs "many"; bs "-workers=1"])
    empty_fs 0 ∅ [] = (Ended 2, empty_fs).
Proof.
  apply (refused_command_line all_good [(mkStyle false true, NumWorkers 4)] [bs "-queue-size"; bs "many"; bs "-workers=1"] 2).
  - repeat constructor; cbn; lia.
  - by apply (off_next_value _ (bs "queue-size")).
Defined.

End flags.
