(* ===== verification/Scripts.v ===== *)
(** * Bringing the stack up and down ([scripts/run_all.sh], [stop_all.sh])

    The two scripts as functions from what they find (the user, the
    executables, the mount points, the processes, the health probes) to the
    commands they run and the status they end with.  [pgrep], [curl],
    [mountpoint] and the builds are parameters. *)
From Stdlib Require Import ZArith Lia.
From Stdlib Require Import Strings.Byte Strings.String.
From stdpp Require Import base list gmap.
From S2P Require Import Prelude GoStrings Json Flags Loader Main.
#[local] Open Scope Z_scope.

Module scripts.

(** ** [stop_all.sh] *)

(** [pgrep -f] looks for the pattern anywhere in a command line; the three
    patterns have no special characters. *)
Fixpoint has_prefix (p s : gostring) : bool :=
  match p, s with
  | [], _ => true
  | c :: p', d :: s' => bool_decide (c = d) && has_prefix p' s'
  | _ :: _, [] => false
  end.

Fixpoint contains (p s : gostring) : bool :=
  has_prefix p s || match s with _ :: s' => contains p s' | [] => false end.

(** The processes with their command lines, without [pgrep] itself. *)
Abbreviation table := (gmap Z gostring).

Definition pgrep (pat : gostring) (procs : table) : list Z :=
  (map_to_list (filter (fun '(_, line) => contains pat line = true) procs)).*1.

Definition patterns : list gostring := [bs "cyber-patrol-loader"; bs "bin/broker"; bs "uvicorn"].

(** The pids given to each [kill]; [procs i] is the table when the [i]th
    pattern is looked for. *)
Fixpoint kills (procs : nat -> table) (i : nat) (pats : list gostring) : list (list Z) :=
  match pats with
  | [] => []
  | p :: pats' => match pgrep p (procs i) with [] => kills procs (S i) pats' | pids => pids :: kills procs (S i) pats' end
  end.

(** With the exit status. *)
Definition stop_all (root : bool) (procs : nat -> table) : list (list Z) * Z :=
  if negb root then ([], 1) else (kills procs 0 patterns, 0).

Lemma has_prefix_spec p s : has_prefix p s = true <-> exists t, s = p ++ t.
Proof.
  revert s. induction p as [|c p IH]; intros s; cbn [has_prefix]; [split; [by exists s|done]|].
  destruct s as [|d s]; [split; [done|by intros [? ?]]|].
  rewrite andb_true_iff, bool_decide_eq_true, IH. split.
  - intros [-> [t ->]]. by exists t.
  - intros [t [= -> ->]]. split; [done|by exists t].
Qed.

Lemma contains_spec p s : contains p s = true <-> exists a b, s = a ++ p ++ b.
Proof.
  induction s as [|d s IH]; cbn [contains]; rewrite orb_true_iff, has_prefix_spec.
  - split; [intros [[t E]|]; [by exists [], t|done]|]. intros (a & b & E). left.
    destruct a; [by exists b|done].
  - rewrite IH. split.
    + intros [[t E]|(a & b & ->)]; [by exists [], t|by exists (d :: a), b].
    + intros ([|x a] & b & E); [left; by exists b|right]. injection E as _ ->. by exists a, b.
Qed.

Lemma pgrep_spec pat procs pid :
  pid ∈ pgrep pat procs <-> exists a b, procs !! pid = Some (a ++ pat ++ b).
Proof.
  unfold pgrep. rewrite list_elem_of_fmap. split.
  - intros ([x line] & -> & Hin). apply elem_of_map_to_list, map_lookup_filter_Some in Hin as [Hl Hc].
    apply contains_spec in Hc as (a & b & ->). by exists a, b.
  - intros (a & b & Hl). exists (pid, a ++ pat ++ b). split; [done|].
    apply elem_of_map_to_list, map_lookup_filter_Some. split; [done|]. apply contains_spec. by exists a, b.
Qed.

(** A process is signalled exactly when one of the patterns occurs in its
    command line at that time: any process, whatever it runs. *)
Lemma stop_all_signals procs pid :
  (exists pids, pids ∈ (stop_all true procs).1 /\ pid ∈ pids) <->
  exists i pat a b, patterns !! i = Some pat /\ procs i !! pid = Some (a ++ pat ++ b).
Proof.
  change (stop_all true procs).1 with (kills procs 0 patterns).
  assert (forall pats k, (exists pids, pids ∈ kills procs k pats /\ pid ∈ pids) <->
    exists i pat, pats !! i = Some pat /\ pid ∈ pgrep pat (procs (k + i)%nat)) as H.
  { induction pats as [|p pats IH]; intros k; cbn [kills]; [setoid_rewrite elem_of_nil; naive_solver|].
    assert ((exists pids, pids ∈ match pgrep p (procs k) with [] => kills procs (S k) pats
                                 | pids => pids :: kills procs (S k) pats end /\ pid ∈ pids) <->
      pid ∈ pgrep p (procs k) \/ exists pids, pids ∈ kills procs (S k) pats /\ pid ∈ pids) as ->
      by (destruct (pgrep p (procs k)) as [|x l]; [by setoid_rewrite elem_of_nil; naive_solver|];
          setoid_rewrite (elem_of_cons (kills procs (S k) pats)); naive_solver).
    rewrite IH. split.
    - intros [H|(i & pat & Hi & H)]; [exists O, p; by rewrite Nat.add_0_r|].
      exists (S i), pat. by rewrite Nat.add_succ_r.
    - intros ([|i] & pat & Hi & H); [left|right].
      + injection Hi as ->. by rewrite Nat.add_0_r in H.
      + exists i, pat. by rewrite Nat.add_succ_r in H. }
  rewrite H. setoid_rewrite pgrep_spec. naive_solver.
Qed.

(** So a pager on the service's output is killed as well. *)
Lemma pager_is_killed : stop_all true (fun _ => {[4711 := bs "less /var/log/uvicorn.log"]}) = ([[4711]], 0).
Proof. by vm_compute. Qed.

(** ** [run_all.sh] *)

Inductive component : Type := SENSOR | BROKER | HUNTER.

#[export] Instance component_dec : EqDecision component.
Proof. solve_decision. Defined.

Inductive command : Type :=
  | Stop
  | Build (c : component)
  | Mount (path : gostring)
  | MakeDir (path : gostring)
  | Source
  | Start (c : component) (args : list gostring).

(** What the script reports at its end. *)
Inductive report : Type := Up | NotUp.

Section run_all.
(** Whether a component's executable is there, whether its build succeeds,
    what is mounted, whether there is a settings file, and the statuses of
    the hunter's and the broker's health endpoints at the [i]th probe. *)
Context (executable build : component -> bool) (mounted : gostring -> bool) (env_file : bool).
Context (probe : nat -> Z * Z) (log_dir : gostring).

(** The commands up to the first build that fails, and whether none did. *)
Fixpoint builds (cs : list component) : list command * bool :=
  match cs with
  | [] => ([], true)
  | c :: cs' =>
      if executable c then builds cs'
      else if build c then let '(l, ok) := builds cs' in (Build c :: l, ok)
      else ([Build c], false)
  end.

Definition ensure_mounted (path : gostring) : list command := if mounted path then [] else [Mount path].

Definition surfaces : list command :=
  MakeDir (bs "/sys/fs/bpf") :: ensure_mounted (bs "/sys/fs/bpf") ++ ensure_mounted (bs "/sys/kernel/tracing") ++
  [MakeDir (bs "/sys/fs/bpf/cyber_patrol"); MakeDir log_dir].

Definition starts : list command :=
  [Start SENSOR []; Start BROKER (flags.run_all_args log_dir);
   Start HUNTER [bs "app:app"; bs "--host"; bs "0.0.0.0"; bs "--port"; bs "8000"]].

(** At most [n] probes, from the [i]th on. *)
Fixpoint await_ready (n i : nat) : report :=
  match n with
  | O => NotUp
  | S n' => let '(h, b) := probe i in if (h =? 200) && (b =? 200) then Up else await_ready n' (S i)
  end.

(** The commands, the exit status, and the report if the end is reached. *)
Definition run_all (root : bool) : list command * Z * option report :=
  if negb root then ([], 1, None)
  else
    let '(l, ok) := builds [SENSOR; BROKER; HUNTER] in
    if negb ok then (Stop :: l, 1, None)
    else (Stop :: l ++ surfaces ++ (if env_file then [Source] else []) ++ starts, 0, Some (await_ready 20 0)).

Lemma builds_ok cs : (builds cs).2 = true <-> Forall (fun c => executable c = true \/ build c = true) cs.
Proof.
  induction cs as [|c cs IH]; [split; [constructor|done]|]. cbn [builds]. rewrite Forall_cons, <- IH.
  destruct (executable c) eqn:E; [naive_solver|]. destruct (build c) eqn:B; [|naive_solver].
  destruct (builds cs). naive_solver.
Qed.

Lemma builds_only c l : Start c l ∉ (builds [SENSOR; BROKER; HUNTER]).1.
Proof.
  cbn [builds]. destruct (executable SENSOR), (build SENSOR), (executable BROKER), (build BROKER),
    (executable HUNTER), (build HUNTER); cbn; set_solver.
Qed.

Lemma await_ready_up n i :
  await_ready n i = Up <-> exists j, (i <= j < i + n)%nat /\ probe j = (200, 200).
Proof.
  revert i. induction n as [|n IH]; intros i; cbn [await_ready]; [split; [done|intros (j & ? & _); lia]|].
  destruct (probe i) as [h b] eqn:E. destruct ((h =? 200) && (b =? 200)) eqn:Eq.
  - apply andb_true_iff in Eq as [->%Z.eqb_eq ->%Z.eqb_eq]. split; [|done]. intros _. exists i. split; [lia|done].
  - rewrite IH. split; intros (j & Hj & Ej); exists j; (split; [|done]); [lia|].
    assert (j <> i); [|lia]. intros ->. rewrite E in Ej. injection Ej as -> ->. by rewrite !Z.eqb_refl in Eq.
Qed.

(** Nothing is started unless every component is there or was built; then
    all three are, in order.  The report says whether one of twenty probes
    found both endpoints healthy, but the status is 0 either way, and by the
    time a build fails what ran before has been stopped. *)
Lemma run_all_outcome :
  let '(cmds, status, said) := run_all true in
  (head cmds = Some Stop) /\
  ((status = 0 /\ Forall (fun c => executable c = true \/ build c = true) [SENSOR; BROKER; HUNTER] /\
    (exists pre, cmds = pre ++ starts) /\
    (said = Some Up \/ said = Some NotUp) /\
    (said = Some Up <-> exists j, (j < 20)%nat /\ probe j = (200, 200))) \/
   (status = 1 /\ ~ Forall (fun c => executable c = true \/ build c = true) [SENSOR; BROKER; HUNTER] /\
    (forall c l, Start c l ∉ cmds) /\ said = None)).
Proof.
  unfold run_all. cbn [negb]. pose proof (builds_ok [SENSOR; BROKER; HUNTER]) as Hok.
  pose proof builds_only as Hno. destruct (builds _) as [l ok]. cbn [fst snd] in *. destruct ok; cbn [negb].
  - split; [done|]. left. split_and!; [done|by apply Hok| | |].
    + eexists. by rewrite !app_assoc, app_comm_cons.
    + destruct (await_ready 20 0); auto.
    + pose proof (await_ready_up 20 0) as Hr. split.
      * intros [= E]. apply Hr in E as (j & Hj & E). exists j. split; [lia|done].
      * intros (j & Hj & E). f_equal. apply Hr. exists j. split; [lia|done].
  - split; [done|]. right. split_and!; [done| | |done].
    + by intros ?%Hok.
    + intros c a. specialize (Hno c a). set_solver.
Qed.

(** The broker it starts looks where the loader it starts, without
    arguments, pins its map. *)
Lemma started_broker_finds_the_ring fl :
  flags.Parse (flags.run_all_args log_dir) brokermain.default_flags = flags.Parsed fl ->
  brokermain.map_path fl = loader.pin_dir loader.default_args ++ loader.EVENTS.
Proof. intros E. rewrite (proj1 (proj2 (flags.deployed_command_lines log_dir))) in E. by injection E as <-. Qed.

End run_all.

(** ** Example *)

(** A first start on a fresh host; the services are ready at the third
    probe. *)
Example first_start :
  let '(cmds, status, said) := run_all (fun _ => false) (fun _ => true) (fun p => bool_decide (p = bs "/sys/fs/bpf")) true
    (fun i => if (i <? 2)%nat then (0, 200) else (200, 200)) (bs "/tmp/logs") true in
  length cmds = 12%nat /\ status = 0 /\ said = Some Up.
Proof. by vm_compute. Qed.

End scripts.
