(* ===== verification/Panels.v ===== *)
(** * What the dashboard shows ([scripts/dashboard.py])

    The three panels, as the texts put into them: the health of the
    services, the broker's counters with the queue's bar, and the verdict
    stream.  The HTTP requests and the file system's answers are
    parameters, so are the texts beyond JSON that Python's reader takes,
    [str] and [int] on values that are no integers, and upper case beyond
    ASCII.  What [rich] draws is not modelled. *)
From Stdlib Require Import ZArith Lia Floats.SpecFloat.
From Stdlib Require Import Strings.Byte Strings.String.
From stdpp Require Import base list gmap.
From S2P Require Import Prelude GoStrings GoTime Json JsonFacts Events GoIO AppendLog EventJson Hunter GoLog PyJson VerdictJson BootTime.
From S2P Require Import Pipeline Samples Dashboard DashboardFacts ThreatHunter Broker BrokerFacts Observability Main Loader.
Import pipeline broker observability json verdictjson pyjson dashboard boottime.
#[local] Open Scope Z_scope.

Module panels.

(** ** Numbers *)

(** [a / b] on integers: the nearest float; [None] for an overflow. *)
Definition true_divide (a b : Z) : option spec_float :=
  let neg := xorb (a <? 0) (b <? 0) in
  let x :=
    match Z.abs a, Z.abs b with
    | Zpos p, Zpos q =>
        let '(m, e, l) := SFdiv_core_binary prec emax (Zpos p) 0 (Zpos q) 0 in binary_round_aux prec emax neg m e l
    | _, _ => S754_zero false
    end in
  match x with S754_infinity _ => None | _ => Some x end.

(** A float times [k], to the nearest integer, ties to even. *)
Definition scaled (k : Z) (x : spec_float) : Z :=
  match x with
  | S754_finite neg m e =>
      let a := if 0 <=? e then Zpos m * k * 2 ^ e else golog.div_pow2_even (Zpos m * k) (- e) in
      if neg : bool then - a else a
  | _ => 0
  end.

(** [round] and [format(x, ".1f")]. *)
Definition py_round (x : spec_float) : Z := scaled 1 x.
Definition fixed1 (x : spec_float) : gostring :=
  let t := Z.abs (scaled 10 x) in
  (match x with S754_finite true _ _ | S754_zero true => [dash] | _ => [] end) ++
  int_text (t / 10) ++ period :: digits 1 (t mod 10).

(** ** [queued_bar] *)

Definition full_block : Z := 9608.
Definition light_shade : Z := 9617.

Definition times (n : Z) (c : Z) : text := replicate (Z.to_nat n) c.

Definition float_lit (lit : string) : spec_float := default S754_nan (parse_float (bs lit)).

(** The text and its colour; [None] when Python raises. *)
Definition queued_bar (depth capacity : Z) : option (text * string) :=
  x ← true_divide depth (Z.max capacity 1);
  let frac := threathunter.py_min threathunter.float_one x in
  let width := 12 in
  let filled := py_round (SFmul prec emax frac (float_of width)) in
  let style := if SFltb frac (float_lit "0.7") then "green"%string
               else if SFltb frac (float_lit "0.9") then "yellow"%string else "red"%string in
  let percent := fixed1 (SFmul prec emax frac (float_of 100)) in
  Some (times filled full_block ++ times (width - filled) light_shade ++
        (byte_val <$> bs " " ++ int_text depth ++ bs "/" ++ int_text capacity ++ bs " (" ++ percent ++ bs "%)"), style).

(** ** 64-bit operands divide without overflow *)

Lemma digits2_size p : digits2_pos p = Pos.size p.
Proof. induction p as [p IH|p IH|]; cbn; by rewrite ?IH. Qed.

Lemma Zdigits2_bound m k : 0 <= m < 2 ^ k -> 0 <= k -> 0 <= Zdigits2 m <= k.
Proof.
  intros Hm Hk. destruct m as [|p|p]; cbn [Zdigits2]; [lia| |lia]. rewrite digits2_size. split; [lia|].
  assert (Zpos (Pos.size p) = Z.log2 (Zpos p) + 1) as -> by (destruct p; cbn; lia).
  pose proof (proj1 (Z.log2_lt_pow2 (Zpos p) k ltac:(lia)) (proj2 Hm)). lia.
Qed.

Lemma iter_shr_1 p r : 0 <= shr_m r -> 0 <= shr_m (SpecFloat.iter_pos shr_1 p r) <= shr_m r.
Proof.
  assert (forall r, 0 <= shr_m r -> 0 <= shr_m (shr_1 r) <= shr_m r) as H1.
  { intros [m rb sb]. destruct m as [|[]|]; cbn; lia. }
  revert r. induction p as [p IH|p IH|]; intros r Hr; cbn [SpecFloat.iter_pos]; [| |by apply H1].
  - pose proof (H1 r Hr). pose proof (IH (shr_1 r)). pose proof (IH (SpecFloat.iter_pos shr_1 p (shr_1 r))). lia.
  - pose proof (IH r Hr). pose proof (IH (SpecFloat.iter_pos shr_1 p r)). lia.
Qed.

Lemma shr_fexp_bound m e l k :
  0 <= m < 2 ^ k -> 0 <= k ->
  0 <= shr_m (shr_fexp prec emax m e l).1 <= m /\
  (shr_fexp prec emax m e l).2 <= Z.max e (Z.max (k + e - 53) (-1074)).
Proof.
  intros Hm Hk. pose proof (Zdigits2_bound m k Hm Hk) as Hd. unfold shr_fexp.
  assert (shr_m (shr_record_of_loc m l) = m) as Er by (by destruct l as [|[]]).
  unfold fexp, emin. change prec with 53. change emax with 1024.
  destruct (Z.max (Zdigits2 m + e - 53) (3 - 1024 - 53) - e) as [|p|p] eqn:En; cbn [shr fst snd]; rewrite ?Er; [lia| |lia].
  pose proof (iter_shr_1 p (shr_record_of_loc m l)). rewrite Er in *. lia.
Qed.

Lemma rounded_finite neg m e l :
  0 <= m < 2 ^ 200 -> e <= 0 ->
  exists x, binary_round_aux prec emax neg m e l = x /\ (x = S754_zero neg \/ exists m' e', x = S754_finite neg m' e').
Proof.
  intros Hm He. eexists. split; [done|]. unfold binary_round_aux.
  pose proof (shr_fexp_bound m e l 200 Hm ltac:(lia)) as [Hm1 He1].
  destruct (shr_fexp prec emax m e l) as [r1 e1]. cbn [fst snd] in *.
  set (m1 := round_nearest_even (shr_m r1) (loc_of_shr_record r1)).
  assert (0 <= m1 <= shr_m r1 + 1) as Hm2.
  { unfold m1, round_nearest_even. destruct (loc_of_shr_record r1) as [|[]]; [..|]; try lia. destruct (Z.even _); lia. }
  pose proof (shr_fexp_bound m1 e1 loc_Exact 201 ltac:(lia) ltac:(lia)) as [Hm3 He3].
  destruct (shr_fexp prec emax m1 e1 loc_Exact) as [r2 e2]. cbn [fst snd] in *.
  destruct (shr_m r2) as [|p|p]; [by left| |lia].
  rewrite (proj2 (Z.leb_le _ _)) by (change (emax - prec) with 971; lia). right. by eexists _, _.
Qed.

Lemma true_divide_finite a b : is_u 64 a -> is_u 64 b -> is_Some (true_divide a b).
Proof.
  unfold is_u. intros Ha Hb. unfold true_divide. rewrite !Z.abs_eq by lia.
  destruct a as [|p|]; [by eexists| |lia]. destruct b as [|q|]; [by eexists| |lia].
  unfold SFdiv_core_binary. pose proof (Zdigits2_bound (Zpos p) 64 ltac:(lia) ltac:(lia)) as Hp.
  pose proof (Zdigits2_bound (Zpos q) 64 ltac:(lia) ltac:(lia)) as Hq.
  unfold fexp, emin. change prec with 53. change emax with 1024.
  set (e := Z.min _ _). assert (-120 <= e <= 0) as He by lia. clearbody e. clear Hp Hq.
  set (m := match 0 - 0 - e with Z0 => Zpos p | Zpos _ => Z.shiftl (Zpos p) (0 - 0 - e) | Zneg _ => 0 end).
  assert (0 <= m < 2 ^ 200) as Hm.
  { assert (m = Zpos p * 2 ^ (- e)) as ->.
    { unfold m. destruct e as [|e|e]; [by rewrite Z.mul_1_r|lia|]. by apply (Z.shiftl_mul_pow2 (Zpos p) (Zpos e)). }
    pose proof (Z.pow_le_mono_r 2 (- e) 120 ltac:(lia) ltac:(lia)). pose proof (Z.pow_pos_nonneg 2 (- e)).
    change (2 ^ 200) with (2 ^ 64 * 2 ^ 16 * 2 ^ 120). nia. }
  clearbody m. pose proof (Z_div_mod m (Zpos q) ltac:(lia)) as Hdiv.
  destruct (Z.div_eucl m (Zpos q)) as [x r]. destruct Hdiv as [-> Hr].
  destruct (rounded_finite (xorb (Zpos p <? 0) (Zpos q <? 0)) x e (new_location (Zpos q) r)) as (y & Ey & Hy).
  - nia.
  - lia.
  - change (binary_round_aux prec emax) with (binary_round_aux 53 1024) in Ey. rewrite Ey.
    destruct Hy as [->|(m' & e' & ->)]; by eexists.
Qed.

Lemma queued_bar_drawn depth capacity : is_u 64 depth -> is_u 64 capacity -> is_Some (queued_bar depth capacity).
Proof.
  intros Hd Hc. unfold queued_bar.
  destruct (true_divide_finite depth (Z.max capacity 1)) as [x ->]; [done|unfold is_u in *; lia|]. by eexists.
Qed.

Section panels.
(** [os.path.exists], and [urlopen]: a response, or nothing when it
    raises, as it does on a status outside the 200s. *)
Context (path_exists : gostring -> bool) (urlopen : gostring -> option (Z * list byte)).
Context (str_of_other : value -> text) (int_of_other : value -> option Z) (upper_beyond_ascii : Z -> text).
Context (digit_beyond_ascii : Z -> bool) (loads_beyond_json : list byte -> option value).

Definition METRICS_URL : gostring := bs "http://localhost:9090/metrics".
Definition BROKER_HEALTH : gostring := bs "http://localhost:9090/healthz".
Definition HUNTER_HEALTH : gostring := bs "http://localhost:8000/healthz".
Definition SENSOR_MAP : gostring := bs "/sys/fs/bpf/cyber_patrol/EVENTS".

Definition valid_utf8 (s : list byte) : bool := bool_decide (to_valid s = s).

(** The whole text is one JSON value, or holds what Python reads beyond
    JSON ([NaN] and the infinities). *)
Definition json_text (s : list byte) : option value :=
  '(v, t) ← next_value s; match skip_ws t with [] => Some v | _ => None end.
Definition loads (s : list byte) : option value :=
  match json_text s with Some v => Some v | None => loads_beyond_json s end.

Definition fetch_json (url : gostring) : option value :=
  '(_, b) ← urlopen url; if valid_utf8 b then loads b else None.

Definition is_up (url : gostring) : bool :=
  match urlopen url with Some (status, _) => status =? 200 | None => false end.

(** ** [services_panel] *)

Definition services : list (text * bool) :=
  [(chars "sensor (eBPF)", path_exists SENSOR_MAP); (chars "broker (Go)", is_up BROKER_HEALTH);
   (chars "hunter (Claude)", is_up HUNTER_HEALTH)].

(** ** [metrics_panel] *)

(** [dict.get]: of several members of a name the last counts. *)
Fixpoint get (k : gostring) (default : value) (ms : list (gostring * value)) : value :=
  match ms with
  | [] => default
  | (k', v) :: ms' => get k (if decide (k' = k) then v else default) ms'
  end.

(** A literal that Python reads as an [int]. *)
Definition int_literal (lit : list byte) : bool := forallb (fun c => json.is_digit c || bool_decide (c = dash)) lit.

Definition py_str_of (v : value) : text :=
  match v with
  | JNum lit => if int_literal lit then byte_val <$> int_text (read_int lit) else str_of_other v
  | _ => str_of_other v
  end.

Definition py_int_of (v : value) : option Z :=
  match v with JNum lit => if int_literal lit then Some (read_int lit) else int_of_other v | _ => int_of_other v end.

Inductive panel : Type :=
  | Unreachable
  | Rows (rows : list (text * text))
  | Raises.

Definition shown_counters : list string :=
  ["events_total"; "suspicious_total"; "actions_kill"; "hunter_errors"; "decode_errors"; "events_lost";
   "overflow_replays"; "queue_overflows"]%string.

Definition metrics_rows (ms : list (gostring * value)) : option (list (text * text)) :=
  capacity ← py_int_of (get (bs "queue_capacity") (py_int 4096) ms);
  depth ← py_int_of (get (bs "queue_depth") (py_int 0) ms);
  '(bar, _) ← queued_bar depth capacity;
  Some (((fun k => (chars k, py_str_of (get (bs k) (py_int 0) ms))) <$> shown_counters) ++ [(chars "queue depth", bar)]).

Definition metrics_panel : panel :=
  match fetch_json METRICS_URL with
  | None | Some JNull => Unreachable
  | Some (JObj ms) => match metrics_rows ms with Some rows => Rows rows | None => Raises end
  | Some _ => Raises
  end.

(** ** [verdict_panel] *)

Definition ellipsis : Z := 8230.

Definition trimmed (s : text) (limit : nat) : text :=
  if (length s <=? limit)%nat then s else take (limit - 1) s ++ [ellipsis].

Definition py_upper (s : text) : text :=
  concat ((fun c => if c <? 128 then [if (97 <=? c) && (c <=? 122) then c - 32 else c] else upper_beyond_ascii c) <$> s).

Definition SEV_STYLE : list (string * string) :=
  [("benign", "green"); ("low", "green"); ("medium", "yellow"); ("high", "bright_magenta"); ("critical", "red")]%string.
Definition ACTION_STYLE : list (string * string) :=
  [("kill", "white on red"); ("alert", "yellow"); ("monitor", "bright_cyan"); ("ignore", "dim")]%string.

Fixpoint style_of (s : text) (styles : list (string * string)) : string :=
  match styles with
  | [] => "white"
  | (k, v) :: l => if decide (s = chars k) then v else style_of s l
  end.

(** A row's cells with the styles of severity and action. *)
Definition verdict_cells (row : list text) : option (list (text * option string)) :=
  match row with
  | [pid; comm; cmd; sev; act; tech; conf] =>
      Some [(pid, None); (comm, None); (py_upper sev, Some (style_of sev SEV_STYLE));
            (py_upper act, Some (style_of act ACTION_STYLE)); (tech, None); (conf, None); (trimmed cmd 42, None)]
  | _ => None
  end.

(** [None]: no verdicts yet. *)
Definition verdict_panel (log : option (list byte)) : option (list (list (text * option string))) :=
  match verdict_rows digit_beyond_ascii log with
  | [] => None
  | rows => Some (omap verdict_cells rows)
  end.

(** ** Counters *)

Lemma width_from_enough f f' z :
  0 <= z < 10 ^ Z.of_nat (S f) -> z < 10 ^ Z.of_nat (S f') -> width_from f z = width_from f' z.
Proof.
  revert f' z. induction f as [|f IH]; intros f' z Hz Hz'.
  - change (10 ^ Z.of_nat 1) with 10 in Hz. destruct f'; cbn [width_from]; [done|].
    by rewrite (proj2 (Z.ltb_lt _ _)) by lia.
  - destruct f' as [|f']; cbn [width_from].
    + change (10 ^ Z.of_nat 1) with 10 in Hz'. by rewrite (proj2 (Z.ltb_lt _ _)) by lia.
    + destruct (z <? 10); [done|]. f_equal.
      rewrite Nat2Z.inj_succ, Z.pow_succ_r in Hz, Hz' by lia.
      apply IH; [split; [apply Z.div_pos|apply Z.div_lt_upper_bound]; lia|apply Z.div_lt_upper_bound; lia].
Qed.

Lemma int_text_decimal z : is_u 64 z -> int_text z = decimal z.
Proof.
  intros Hz. unfold is_u in Hz. unfold int_text. rewrite (proj2 (Z.ltb_ge _ _)) by lia. cbn [app].
  pose proof (int_fuel_bound z) as Hb. rewrite Z.abs_eq in * by lia. unfold natural, decimal, width.
  rewrite (width_from_enough (int_fuel z) 20); [done|done|]. change (10 ^ Z.of_nat 21) with 1000000000000000000000. lia.
Qed.

Lemma int_literal_decimal z : int_literal (decimal z) = true.
Proof.
  apply forallb_forall. intros c Hc%list_elem_of_In. pose proof (decimal_digits z) as Hd. rewrite Forall_forall in Hd.
  by rewrite Hd.
Qed.

Lemma read_int_decimal z : is_u 64 z -> read_int (decimal z) = z.
Proof. intros Hz. rewrite <- int_text_decimal by done. apply read_int_text. Qed.

Lemma counter_shown z : is_u 64 z ->
  py_str_of (eventjson.json_uint z) = (byte_val <$> decimal z) /\ py_int_of (eventjson.json_uint z) = Some z.
Proof.
  intros Hz. unfold py_str_of, py_int_of, eventjson.json_uint. rewrite int_literal_decimal, read_int_decimal by done.
  by rewrite int_text_decimal.
Qed.

(** ** A metrics body *)

Lemma ascii_commas ts :
  Forall (Forall (fun c => ascii c = true)) ts -> Forall (fun c => ascii c = true) (commas ts).
Proof.
  induction 1 as [|t ts Ht Hts IH]; [constructor|]. destruct ts; [done|]. cbn [commas].
  apply Forall_app. split; [done|]. by constructor.
Qed.

Lemma ascii_member k z :
  forallb ascii (quoted (json.escape k)) = true -> Forall (fun c => ascii c = true) (quoted (json.escape k) ++ colon :: decimal z).
Proof.
  intros Hk. apply Forall_app. split; [|constructor; [done|apply decimal_ascii]].
  apply Forall_forall. intros c Hc%list_elem_of_In. by eapply forallb_forall in Hk.
Qed.

Lemma metrics_ascii p : Forall (fun c => ascii c = true) (body (MetricsHandler p)).
Proof.
  unfold MetricsHandler, json_map. cbn [body]. rewrite sort_metrics. cbn [print]. unfold sorted_metrics, eventjson.json_uint.
  cbn [fmap list_fmap print]. apply Forall_app. split; [|by constructor].
  constructor; [done|]. apply Forall_app. split; [|by constructor]. apply ascii_commas.
  repeat (constructor; [apply ascii_member; by vm_compute|]). constructor.
Qed.

Lemma loads_metrics p :
  typed_metrics (metrics p) -> loads (body (MetricsHandler p)) = Some (JObj (metrics_members p)).
Proof. intros Hm. unfold loads, json_text. by rewrite metrics_body_reads. Qed.

(** What is sent under a key. *)
Lemma sent_counters p d :
  ((fun k => get (bs k) d (metrics_members p)) <$> shown_counters) =
    ((fun z => eventjson.json_uint z) <$>
      [EventsTotal (metrics p); SuspiciousTotal (metrics p); ActionsKill (metrics p); HunterErrors (metrics p);
       DecodeErrors (metrics p); EventsLost (metrics p); OverflowReplays (metrics p); QueueOverflows (metrics p)]).
Proof. reflexivity. Qed.

Lemma sent_queue p d :
  get (bs "queue_capacity") d (metrics_members p) = eventjson.json_uint (wrapU 64 (QueueSize (cfg p))) /\
  get (bs "queue_depth") d (metrics_members p) = eventjson.json_uint (wrapU 64 (Z.of_nat (length (queue p)))).
Proof. split; reflexivity. Qed.

(** ** The metrics panel *)

Lemma rows_zip (d : value) ms l :
  ((fun k => (chars k, py_str_of (get (bs k) d ms))) <$> l) =
    zip (chars <$> l) (py_str_of <$> ((fun k => get (bs k) d ms) <$> l)).
Proof. induction l as [|k l IH]; [done|]. cbn [fmap list_fmap zip zip_with]. by f_equal. Qed.

(** A counter's text. *)
Definition shown_number (z : Z) : text := byte_val <$> decimal z.

Lemma metrics_rows_sent p bar colour :
  typed_metrics (metrics p) ->
  queued_bar (wrapU 64 (Z.of_nat (length (queue p)))) (wrapU 64 (QueueSize (cfg p))) = Some (bar, colour) ->
  metrics_rows (metrics_members p) = Some (
    zip (chars <$> shown_counters) (shown_number <$>
      [EventsTotal (metrics p); SuspiciousTotal (metrics p); ActionsKill (metrics p); HunterErrors (metrics p);
       DecodeErrors (metrics p); EventsLost (metrics p); OverflowReplays (metrics p); QueueOverflows (metrics p)]) ++
    [(chars "queue depth", bar)]).
Proof.
  intros (H1 & H2 & H3 & H4 & H5 & H6 & H7 & H8) Hbar. unfold metrics_rows.
  destruct (sent_queue p (py_int 4096)) as [-> _]. destruct (sent_queue p (py_int 0)) as [_ ->].
  rewrite (proj2 (counter_shown _ (wrapU_typed _))). cbn [mbind option_bind].
  rewrite (proj2 (counter_shown _ (wrapU_typed _))). cbn [mbind option_bind]. rewrite Hbar. cbn [mbind option_bind].
  rewrite rows_zip, sent_counters. do 3 f_equal. cbn [fmap list_fmap].
  by rewrite !(fun z Hz => proj1 (counter_shown z Hz)) by done.
Qed.

Section broker.
Context `{EventCodec} (decode_verdict : list byte -> option hunter.Verdict).
Context (faults : nat -> fault) (allowed : Z -> bool).

(** C31: the dashboard shows the broker's state.  In every reachable state,
    if the request for /metrics is answered as the broker answers it, the
    panel has one row per counter with the decimal of the broker's value
    (the lost and the suspicious events counted by the ledger, modulo
    2^64), and the queue's bar is drawn from its real length and bound
    without raising. *)
Theorem dashboard_shows_the_counters boot c fs restored p fs' n ps s :
  startable c fs restored -> New faults c fs = (Ok p, fs') -> QueueSize c < 2 ^ 63 ->
  reachable decode_verdict faults allowed boot (initial p (mkWorld fs' n ps) restored) s ->
  let r := serve (bs "/metrics") (s_pipe s) in
  urlopen METRICS_URL = Some (status r, body r) ->
  let m := metrics (s_pipe s) in
  exists bar colour, queued_bar (Z.of_nat (length (queue (s_pipe s)))) (QueueSize c) = Some (bar, colour) /\
    metrics_panel = Rows (
      zip (chars <$> shown_counters) (shown_number <$>
        [EventsTotal m; wrapU 64 (Z.of_nat (length (accepted (s_ledger s)))); ActionsKill m; HunterErrors m;
         DecodeErrors m; wrapU 64 (Z.of_nat (length (lost (s_ledger s)))); OverflowReplays m; QueueOverflows m]) ++
      [(chars "queue depth", bar)]).
Proof.
  intros Hst Hnew Hsz Hr. cbn zeta. intros Hu.
  destruct (reachable_typed _ _ _ _ _ _ _ _ _ _ _ _ Hnew Hr) as (Hm & Hc & _).
  pose proof (reachable_inv _ _ _ _ _ _ _ _ _ _ _ _ Hst Hnew Hr) as Hi.
  destruct (New_cfg _ _ _ _ _ Hnew) as (_ & _ & _ & Eq & Hq & _).
  pose proof (i_bounded _ _ _ _ Hi) as Hb. unfold bounded in Hb. rewrite Hc, Eq in Hb.
  destruct (i_counted _ _ _ _ Hi) as [El Es]. rewrite <- El, <- Es.
  assert (wrapU 64 (Z.of_nat (length (queue (s_pipe s)))) = Z.of_nat (length (queue (s_pipe s)))) as Ed
    by (unfold wrapU; apply Z.mod_small; lia).
  assert (wrapU 64 (QueueSize (cfg (s_pipe s))) = QueueSize c) as Ec
    by (rewrite Hc, Eq; unfold wrapU; apply Z.mod_small; lia).
  destruct (queued_bar_drawn (Z.of_nat (length (queue (s_pipe s)))) (QueueSize c)) as [[bar colour] Hbar];
    [unfold is_u; lia|unfold is_u; lia|].
  exists bar, colour. split; [done|]. unfold metrics_panel, fetch_json. rewrite Hu. cbn [mbind option_bind].
  change (serve (bs "/metrics") (s_pipe s)) with (MetricsHandler (s_pipe s)).
  unfold valid_utf8. rewrite bool_decide_true by (apply to_valid_ascii, metrics_ascii).
  rewrite loads_metrics by done. by rewrite (metrics_rows_sent _ bar colour) by (rewrite ?Ed, ?Ec; done).
Qed.

End broker.

End panels.

(** ** The sensor's light *)

Section sensor.
Context {kernel ebpf program : Type} {A : loader.Aya kernel ebpf program} `{!loader.AyaLaws A}.
Context (urlopen : gostring -> option (Z * list byte)).

(** Of the sensor the dashboard sees whether the map's file exists. *)
Definition shown_up (k : kernel) : bool :=
  match services (fun path => bool_decide (is_Some (loader.pin k path))) urlopen with
  | (_, up) :: _ => up
  | [] => false
  end.

(** The sensor's light never goes out.  However the loader ends after
    the object was loaded (attaching refused, Ctrl-C), with its program
    detached, the sensor is shown as UP; and once it is, no later run of
    the loader changes that. *)
Lemma stopped_sensor_shown_up c t k :
  let args := loader.mkArgs c t loader.DEFAULT_PIN_DIR in
  let '(r, k') := loader.main args k in
  (loader.early r \/ shown_up k' = true) /\
  (forall later, shown_up k' = true -> shown_up (loader.main later k').2 = true).
Proof.
  cbn zeta. set (args := loader.mkArgs c t loader.DEFAULT_PIN_DIR).
  pose proof (loader.main_pins args k) as Hp. destruct (loader.main args k) as [r k']. cbn [fst snd] in Hp.
  unfold shown_up, services. split.
  - destruct Hp as [Hp|Hp]; [by left|right]. by apply bool_decide_true.
  - intros later [m Hm]%bool_decide_eq_true. apply bool_decide_true. exists m. by apply loader.main_keeps.
Qed.

End sensor.

(** ** Examples *)

(** Half full, full, empty. *)
Example bars :
  queued_bar 2048 4096 = Some (replicate 6 full_block ++ replicate 6 light_shade ++ chars " 2048/4096 (50.0%)", "green"%string) /\
  queued_bar 4096 4096 = Some (replicate 12 full_block ++ chars " 4096/4096 (100.0%)", "red"%string) /\
  queued_bar 0 0 = Some (replicate 12 light_shade ++ chars " 0/0 (0.0%)", "green"%string) /\
  queued_bar 3000 4096 = Some (replicate 9 full_block ++ replicate 3 light_shade ++ chars " 3000/4096 (73.2%)", "yellow"%string).
Proof. split_and!; by vm_compute. Qed.

#[local] Existing Instance eventjson.utc_codec.

(** A server of one state. *)
Definition served (p : Pipeline) (url : gostring) : option (Z * list byte) :=
  if decide (url = METRICS_URL) then let r := serve (bs "/metrics") p in Some (status r, body r)
  else if decide (url = BROKER_HEALTH) then let r := serve (bs "/healthz") p in Some (status r, body r)
  else None.

Lemma dashboard_shows_the_counters_witness :
  exists bar colour, metrics_panel (served (s_pipe sample_state)) (fun _ => []) (fun _ => None) (fun _ => None) =
    Rows (zip (chars <$> shown_counters) (chars <$> ["1"; "1"; "0"; "0"; "0"; "0"; "0"; "0"]%string) ++
      [(chars "queue depth", bar)]) /\
    queued_bar 0 4096 = Some (bar, colour).
Proof.
  destruct (dashboard_shows_the_counters (served (s_pipe sample_state)) (fun _ => []) (fun _ => None) (fun _ => None)
    verdictjson.decode_verdict all_good (fun _ => true) sample_boot sample_config
    empty_fs [] started started_fs 0 sample_procs sample_state) as (bar & colour & Hbar & H);
    [apply sample_startable|apply started_ok|by vm_compute|apply sample_state_reachable|done|].
  exists bar, colour. split; [rewrite H; by vm_compute|exact Hbar].
Defined.

#[local] Existing Instance loader.simple_kernel_laws.

(** With the attachment refused nothing runs, and the light is on. *)
Lemma stopped_sensor_shown_up_witness :
  let '(r, k) := loader.main (A := loader.simple_kernel true) loader.default_args loader.cold in
  r = inr (loader.AttachTo (bs "syscalls") (bs "sys_enter_execve")) /\ loader.links k = [] /\
  shown_up (A := loader.simple_kernel true) (fun _ => None) k = true.
Proof.
  pose proof (stopped_sensor_shown_up (A := loader.simple_kernel true) (fun _ => None)
    (bs "syscalls") (bs "sys_enter_execve") loader.cold) as H.
  cbn zeta in H. change (loader.mkArgs _ _ _) with loader.default_args in H.
  destruct (loader.main (A := loader.simple_kernel true) loader.default_args loader.cold) as [r k] eqn:E.
  assert (r = inr (loader.AttachTo (bs "syscalls") (bs "sys_enter_execve")) /\ loader.links k = []) as [-> Hl]
    by (split; [apply (f_equal fst (eq_sym E))|exact (f_equal (fun x => loader.links x.2) (eq_sym E))]).
  split_and!; [done|done|]. destruct H as [[[d [H|H]]|H] _]; [discriminate H|discriminate H|exact H].
Defined.

End panels.
