(* ===== verification/Refinement.v ===== *)
(** * The handlers refine to steps of the machine

    Each handler of [pipeline.go], run by one thread without interruption,
    is a sequence of that thread's steps in the concurrent machine: the
    step relation allows everything the sequential functions do.  For the
    reader this also shows that it never waits for another thread. *)
From Stdlib Require Import ZArith Lia.
From Stdlib Require Import Strings.Byte Strings.String.
From stdpp Require Import base list gmap relations.
From S2P Require Import VerdictJson.
From S2P Require Import Prelude GoStrings Events Wire Decoding Triage GoIO AppendLog.
From S2P Require Import AppendLogFacts EventJson Hunter HunterFacts Pipeline PipelineFacts.
From S2P Require Import Samples Broker BrokerFacts.
Import pipeline broker.
#[local] Open Scope Z_scope.

Section refinement.
Context `{EventCodec} (decode_verdict : list byte -> option hunter.Verdict).
Context (faults : nat -> fault) (allowed : Z -> bool).

(** ** The reader *)

(** C13: [HandleRaw] is at most three steps of the reader, and the reader
    can take them in every state in which it waits for a record, whatever
    the other threads are doing, the hunter's availability included: the
    ring buffer reader is never blocked. *)
Theorem HandleRaw_refines boot raw s :
  s_reader s = RIdle ->
  exists p w g k, HandleRaw faults boot false raw (s_pipe s) (s_world s) = Ok (p, w) /\
    (k <= 3)%nat /\ nsteps (reader_step faults boot) k s (with_reader RIdle p w g s).
Proof.
  intros Hr. unfold HandleRaw.
  destruct (Decode_cases boot raw) as [[_ Hd]|[_ Hd]]; rewrite Hd.
  { eexists _, _, _, 1%nat. split; [done|]. split; [lia|]. apply nsteps_once.
    by eapply r_malformed. }
  set (ev := wire.view boot (wire.of_bytes raw)) in *.
  destruct (append_audit faults ev (count (add_total 1) (s_pipe s)) (s_world s)) as [[r p1] w1] eqn:Ea.
  assert (audited faults ev s = (p1, w1)) as Hau by (unfold audited; by rewrite Ea).
  rewrite triage.IsSuspicious_ok. cbn [go_bind]. pose proof (triage.IsSuspicious_ok ev) as Hs.
  destruct (triage.verdict ev); cbn [negb]; cycle 1.
  { eexists _, _, _, 1%nat. split; [done|]. split; [lia|]. apply nsteps_once. by eapply r_benign. }
  set (p2 := count (add_suspicious 1) p1). set (g := accept ev (s_ledger s)).
  assert (reader_step faults boot s (with_reader (RSend ev) p2 w1 g s)) as Hst by by eapply r_suspicious.
  unfold dispatch, has_room. rewrite andb_false_l, orb_false_r.
  destruct (Z.ltb_spec (Z.of_nat (length (queue p2))) (QueueSize (cfg p2))).
  - eexists _, _, g, 2%nat. split; [done|]. split; [lia|].
    eapply nsteps_l; [exact Hst|]. apply nsteps_once.
    by apply (r_send faults boot (with_reader (RSend ev) p2 w1 g s)).
  - destruct (spill faults ev (count (add_overflows 1) p2) w1) as [p3 w3] eqn:Esp.
    eexists _, _, _, 3%nat. split; [done|]. split; [lia|].
    eapply nsteps_l; [exact Hst|]. eapply nsteps_l; [by eapply r_full|]. apply nsteps_once.
    by eapply (r_spill faults boot
      (with_reader (RSpill ev) (count (add_overflows 1) p2) w1 g (with_reader (RSend ev) p2 w1 g s))).
Qed.

(** ** A worker *)

Lemma Evaluate_no_panic net c ev k : hunter.ev_result (hunter.Evaluate decode_verdict net c ev k) <> Panic.
Proof.
  unfold hunter.Evaluate. destruct (marshal ev) eqn:Hm; [|done].
  assert (marshal ev <> None) as Hne by congruence.
  pose proof (Evaluate_decided decode_verdict net c ev k Hne) as He.
  unfold hunter.Evaluate in He. rewrite Hm in He. by destruct He as [? ? _ _ _ _ -> _|? _ _ _ -> _|? _ -> _].
Qed.

Lemma with_worker_twice i k k' p w g p' w' g' s :
  with_worker i k' p' w' g' (with_worker i k p w g s) = with_worker i k' p' w' g' s.
Proof.
  unfold with_worker. cbn [s_reader s_workers s_replayer s_cancelled].
  by rewrite list_insert_insert_eq.
Qed.

(** [evaluate], for any network, is at most two steps of a worker that
    holds the event, after which the worker waits again. *)
Lemma evaluate_refines net later i ev s :
  s_workers s !! i = Some (WEval ev) ->
  exists g k, (1 <= k <= 2)%nat /\
    let '(p, w) := evaluate decode_verdict faults net allowed later ev (s_pipe s) (s_world s) in
    nsteps (worker_step decode_verdict faults allowed i) k s (with_worker i WIdle p w g s).
Proof.
  intros Hw. assert (i < length (s_workers s))%nat as Hi by by eapply lookup_lt_Some.
  unfold evaluate.
  destruct (evaluation decode_verdict net ev s) as [r w] eqn:Ee. pose proof Ee as Ee'.
  unfold evaluation in Ee'. injection Ee' as Er Ew. rewrite Er, Ew.
  destruct r as [v|e|].
  - case_bool_decide as Hk.
    + eexists _, 1%nat. split; [lia|]. apply nsteps_once. by eapply w_verdict.
    + eexists _, 2%nat. split; [lia|]. eapply nsteps_l; [by eapply w_condemn|]. apply nsteps_once.
      rewrite <- (with_worker_twice i (WKill ev) WIdle (count (add_kills 1) (s_pipe s)) w
        (settle ev (s_ledger s))).
      eapply (w_kill decode_verdict faults allowed i (with_worker i (WKill ev) _ _ _ s)).
      by apply list_lookup_insert_eq.
  - destruct (spill faults ev (count (add_hunter_errors 1) (s_pipe s)) w) as [p' w'] eqn:Esp.
    eexists _, 2%nat. split; [lia|]. eapply nsteps_l; [by eapply w_error|]. apply nsteps_once.
    rewrite <- (with_worker_twice i (WSpill ev) WIdle (count (add_hunter_errors 1) (s_pipe s)) w
      (s_ledger s)).
    eapply (w_spill decode_verdict faults allowed i (with_worker i (WSpill ev) _ _ _ s)); [|exact Esp].
    by apply list_lookup_insert_eq.
  - by destruct (Evaluate_no_panic net (HunterClient (cfg (s_pipe s))) ev (w_requests (s_world s))).
Qed.

(** ** The replay loop *)

Lemma rotate_no_panic a fs : (rotate faults a fs).1.1 <> Panic.
Proof.
  unfold rotate, log_flush, Flush.
  assert (forall x fs, (log_close faults x fs).1.1 <> Panic) as Hclose.
  { intros x fs'. unfold log_close, GoIO.Close. destruct (f_closed _); [done|].
    by destruct (outcome faults fs'). }
  assert (forall x fs, match log_close faults x fs with
    | (Err e, a, fs) => (Err e, a, fs)
    | (Panic, a, fs) => (Panic, a, fs)
    | (Ok _, a, fs) =>
          let '(r, fs) := Rename faults (al_path a) (replay_path a) fs in
          let rotated := match r with
                         | Ok _ => Ok (replay_path a)
                         | Err ErrNotExist => Ok []
                         | Err e => Err e
                         | Panic => Panic
                         end in
          match rotated with
          | Err e => (Err e, a, fs)
          | Panic => (Panic, a, fs)
          | Ok path =>
              match OpenAppend faults (al_path a) fs with
              | (Ok f, fs) => (Ok path, mkLog (al_path a) f (mkWriter [] None) None, fs)
              | (Err e, fs) => (Err e, a, fs)
              | (Panic, fs) => (Panic, a, fs)
              end
          end
    end.1.1 <> Panic) as Hrest.
  { intros x fs'. specialize (Hclose x fs'). destruct (log_close _ _ _) as [[[u|e|] x'] fs2]; try done.
    unfold Rename. destruct (outcome faults fs2); [destruct (fs_names fs2 !! _)|]; try done; cbn zeta;
      unfold OpenAppend; match goal with |- context [outcome faults ?f] => destruct (outcome faults f) end; try done;
      match goal with |- context [fs_names ?f !! ?q] => by destruct (fs_names f !! q) end. }
  destruct (w_err (al_w a)); [done|]. case_bool_decide; [apply Hrest|].
  destruct (Write _ _ _ _) as [[n [e|]] fs']; [done|apply Hrest].
Qed.

Lemma with_replayer_self s r :
  s_replayer s = r -> with_replayer r (s_pipe s) (s_world s) (s_ledger s) s = s.
Proof. destruct s. cbn. by intros <-. Qed.

(** The loop's turns: the events that fail go through [PSpill]. *)
Lemma drain_loop_steps net fuel path bytes batch a b s a' b' p' w' :
  s_replayer s = PDrain path bytes batch a b -> (length bytes <= fuel)%nat ->
  drain_loop decode_verdict faults net fuel bytes a b (s_pipe s) (s_world s) = (a', b', p', w') ->
  exists bytes' batch' g', next bytes' = None /\
    rtc (replayer_step decode_verdict faults) s
      (with_replayer (PDrain path bytes' batch' a' b') p' w' g' s).
Proof.
  revert bytes batch a b s. induction fuel as [|fuel IH]; intros bytes batch a b s Hr Hlen; cbn [drain_loop].
  { intros [= <- <- <- <-]. destruct bytes; [|simpl in Hlen; lia].
    exists [], batch, (s_ledger s). split; [apply next_nil|]. by rewrite with_replayer_self. }
  destruct (next bytes) as [[ev rest]|] eqn:Hn; cycle 1.
  { intros [= <- <- <- <-]. exists bytes, batch, (s_ledger s). split; [done|].
    by rewrite with_replayer_self. }
  pose proof (next_shorter _ _ _ Hn) as Hlt.
  destruct (evaluation decode_verdict net ev s) as [r w] eqn:Ee. pose proof Ee as Ee'.
  unfold evaluation in Ee'. injection Ee' as Er Ew. rewrite Er, Ew.
  destruct r as [v|e|].
  - intros Hd. set (g := settle ev (s_ledger s)).
    destruct (IH rest (drop 1 batch) (a + 1) b
      (with_replayer (PDrain path rest (drop 1 batch) (a + 1) b) (s_pipe s) w g s)
      eq_refl ltac:(lia) Hd) as (bytes' & batch' & g' & Hn' & Hs).
    exists bytes', batch', g'. split; [done|]. eapply rtc_l; [|exact Hs]. by eapply p_replayed.
  - destruct (spill faults ev (s_pipe s) w) as [p1 w1] eqn:Esp. intros Hd.
    set (s1 := with_replayer (PSpill ev path rest (drop 1 batch) a (b + 1)) (s_pipe s) w (s_ledger s) s).
    destruct (IH rest (drop 1 batch) a (b + 1)
      (with_replayer (PDrain path rest (drop 1 batch) a (b + 1)) p1 w1
        (spilled_ledger faults ev (s_pipe s1) (s_world s1) (s_ledger s1)) s1)
      eq_refl ltac:(lia) Hd) as (bytes' & batch' & g' & Hn' & Hs).
    exists bytes', batch', g'. split; [done|]. eapply rtc_l; [by eapply p_error|].
    eapply rtc_l; [|exact Hs]. by apply (p_spill decode_verdict faults s1 ev path rest).
  - by destruct (Evaluate_no_panic net (HunterClient (cfg (s_pipe s))) ev (w_requests (s_world s))).
Qed.

(** C25: a whole replay pass, for any network and any failures, is a
    sequence of steps of the replay loop that ends with it waiting for the
    next tick: the pass terminates, whatever the rotated file holds. *)
Theorem drainOverflow_refines net s :
  s_replayer s = PIdle ->
  exists g, let '(p, w) := drainOverflow decode_verdict faults net (s_pipe s) (s_world s) in
    rtc (replayer_step decode_verdict faults) s (with_replayer PIdle p w g s).
Proof.
  intros Hr. unfold drainOverflow.
  destruct (rotate faults (overflow (s_pipe s)) (w_fs (s_world s))) as [[r a] fs] eqn:Er.
  pose proof (rotate_no_panic (overflow (s_pipe s)) (w_fs (s_world s))) as Hnp. rewrite Er in Hnp.
  destruct r as [path|e|]; [|eexists; by eapply rtc_once, p_failed|done].
  case_bool_decide as Hp; [subst path; eexists; by eapply rtc_once, p_nothing|].
  set (s1 := with_replayer (POpen path (pending (s_ledger s))) (set_overflow a (s_pipe s))
    (set_fs fs (s_world s)) (set_pending [] (s_ledger s)) s).
  assert (replayer_step decode_verdict faults s s1) as H1 by by eapply p_rotated.
  destruct (OpenRead faults path (w_fs (set_fs fs (s_world s)))) as [r2 fs2] eqn:Eo.
  destruct r2 as [bytes|e|]; cycle 1.
  - set (s3 := with_replayer (PRemove path) (s_pipe s1) (set_fs fs2 (s_world s1))
      (drop_all (pending (s_ledger s)) (s_ledger s1)) s1).
    exists (s_ledger s3). eapply rtc_l; [exact H1|].
    eapply (rtc_l _ _ s3); [by eapply (p_unopened _ _ s1)|]. apply rtc_once.
    by apply (p_remove decode_verdict faults s3 path).
  - unfold OpenRead in Eo. destruct (outcome _ _); [destruct (contents _ _)|]; done.
  - set (s2 := with_replayer (PDrain path bytes (pending (s_ledger s)) 0 0) (s_pipe s1)
      (set_fs fs2 (s_world s1)) (s_ledger s1) s1).
    assert (replayer_step decode_verdict faults s1 s2) as H2 by by eapply p_open.
    destruct (drain_loop decode_verdict faults net (length bytes) bytes 0 0 (set_overflow a (s_pipe s))
      (set_fs fs2 (set_fs fs (s_world s)))) as [[[a' b'] p'] w'] eqn:Ed.
    destruct (drain_loop_steps net (length bytes) path bytes (pending (s_ledger s)) 0 0 s2 a' b' p' w'
      eq_refl ltac:(lia) Ed) as (bytes' & batch' & g' & Hn & Hs).
    set (s3 := with_replayer (PDrain path bytes' batch' a' b') p' w' g' s2) in *.
    set (s4 := with_replayer (PRemove path)
      (if 0 <? a' + b' then count (add_replays (wrapU 64 a')) p' else p') w' (drop_all batch' g') s3).
    exists (s_ledger s4). eapply rtc_l; [exact H1|]. eapply rtc_l; [exact H2|].
    etrans; [exact Hs|].
    eapply (rtc_l _ _ s4); [by apply (p_end decode_verdict faults s3 path bytes')|]. apply rtc_once.
    by apply (p_remove decode_verdict faults s4 path).
Qed.

End refinement.

(** ** Examples *)

#[local] Existing Instance eventjson.utc_codec.

Lemma HandleRaw_refines_witness :
  let s := initial started started_world [] in
  exists p w g k, HandleRaw all_good sample_boot false (wire.to_bytes sample_record) (s_pipe s) (s_world s) =
      Ok (p, w) /\
    (k <= 3)%nat /\ nsteps (reader_step all_good sample_boot) k s (with_reader RIdle p w g s).
Proof.
  apply (HandleRaw_refines all_good sample_boot (wire.to_bytes sample_record)
    (initial started started_world [])). reflexivity.
Defined.

(** The broker with one worker that just took the event. *)
Definition busy_state : state :=
  mkState started started_world RIdle [WEval sample_event] PIdle false (mkLedger [sample_event] [] [] [] []).

Lemma evaluate_refines_witness :
  exists g k, (1 <= k <= 2)%nat /\
    let '(p, w) := evaluate verdictjson.decode_verdict all_good net_up (fun _ => true) id sample_event
      (s_pipe busy_state) (s_world busy_state) in
    nsteps (worker_step verdictjson.decode_verdict all_good (fun _ => true) 0) k busy_state
      (with_worker 0 WIdle p w g busy_state).
Proof.
  apply (evaluate_refines verdictjson.decode_verdict all_good (fun _ => true) net_up id 0 sample_event busy_state).
  reflexivity.
Defined.

Lemma drainOverflow_refines_witness :
  exists g, let '(p, w) := drainOverflow verdictjson.decode_verdict all_good net_down
      (s_pipe busy_state) (s_world busy_state) in
    rtc (replayer_step verdictjson.decode_verdict all_good) busy_state (with_replayer PIdle p w g busy_state).
Proof. apply (drainOverflow_refines verdictjson.decode_verdict all_good net_down busy_state). reflexivity. Defined.
