(* ===== verification/Crash.v ===== *)
(** * Dying in the middle of a replay ([drainOverflow], [rotate], [New])

    A broker that is killed leaves its files and nothing else.  What the
    threads held is gone; what is on disk is what the next start finds.
    The file of a replay that was under way is still there, but nothing
    looks for it, and the next replay renames the overflow file onto it. *)
From Stdlib Require Import ZArith Lia.
From Stdlib Require Import Strings.Byte Strings.String.
From stdpp Require Import base list gmap.
From S2P Require Import VerdictJson.
From S2P Require Import Prelude GoStrings Events Wire Decoding Triage GoIO AppendLog.
From S2P Require Import AppendLogFacts EventJson Hunter HunterFacts Pipeline PipelineFacts.
From S2P Require Import Samples Broker BrokerFacts.
Import pipeline broker.
#[local] Open Scope Z_scope.

Section crash.
Context `{EventCodec} (decode_verdict : list byte -> option hunter.Verdict).
Context (faults : nat -> fault) (allowed : Z -> bool).

(** [New] touches the two log files, and starts with nothing counted. *)
Lemma New_frame c fs p fs' :
  fs_wf fs -> New faults c fs = (Ok p, fs') ->
  frame [AuditPath c; OverflowPath c] fs fs' /\ metrics p = zero_metrics /\
  HunterClient (cfg p) = HunterClient c /\ queue p = [] /\ ~ dead (overflow p).
Proof.
  intros Hwf. unfold New. set (c' := if ReplayEvery c <=? 0 then _ else c).
  assert (AuditPath c' = AuditPath c /\ OverflowPath c' = OverflowPath c /\ HunterClient c' = HunterClient c)
    as (-> & -> & <-) by (subst c'; by destruct (ReplayEvery c <=? 0)).
  destruct (newAppendLog faults (AuditPath c) fs) as [[au|e|] fs1] eqn:E1; [|done..].
  destruct (newAppendLog faults (OverflowPath c) fs1) as [[ov|e|] fs2] eqn:E2;
    [|destruct (AppendLog.Close faults au fs2) as [[? ?] ?]; done|done].
  destruct (_ <? 0); [done|]. intros [= <- <-].
  destruct (newAppendLog_alive faults _ _ _ _ Hwf E1) as (_ & _ & Hf1).
  destruct (newAppendLog_alive faults _ _ _ _ (frame_wf _ _ _ Hf1 Hwf) E2) as (Hal & _ & Hf2).
  split_and!; try done; [|by eapply alive_not_dead].
  eapply frame_trans; (eapply frame_weaken; [|done]); set_solver.
Qed.

(** Where the log is alive, a replay that has begun leaves it so. *)
Lemma no_faults_alive idle a fs pend :
  log_ok idle a fs pend -> ~ dead a -> alive a fs (lines pend).
Proof. by intros [Ha|[Hd _]] Hn. Qed.

(** C36: a crash during a replay loses the batch.  Take a broker killed
    when it has rotated [batch] away and not yet evaluated it, and started
    again on the files it left.  The batch is still complete on disk, under
    the replay path; but the restarted broker's first replay pass, with
    every call succeeding, removes it: the file is gone, the overflow log
    holds only what failed again of the events spilled after the rotation,
    nothing is queued and nothing is counted as lost. *)
Theorem crash_mid_replay_loses boot c fs restored p fs' n ps s path batch net p2 fs2 n2 ps2 :
  startable c fs restored -> New faults c fs = (Ok p, fs') ->
  reachable decode_verdict faults allowed boot (initial p (mkWorld fs' n ps) restored) s ->
  s_replayer s = POpen path batch -> ~ dead (overflow (s_pipe s)) ->
  New faults c (w_fs (s_world s)) = (Ok p2, fs2) -> no_faults faults fs2 ->
  contents fs2 path = Some (lines batch) /\
  exists p3 w3, drainOverflow decode_verdict faults net p2 (mkWorld fs2 n2 ps2) = (p3, w3) /\
    contents (w_fs w3) path = None /\
    (let '(failed, _, _) := replay decode_verdict net (HunterClient c) n2
                              (canon <$> pending (s_ledger s)) in
     alive (overflow p3) (w_fs w3) (lines failed)) /\
    queue p3 = [] /\ EventsLost (metrics p3) = 0.
Proof.
  intros Hst Hnew Hr Hrep Hnd Hnew2 Hg.
  destruct (reachable_inv _ _ _ _ _ _ _ _ _ _ _ _ Hst Hnew Hr) as [Ep _ Hwf Hlog _ Hpend Hrp _ _ _ _].
  pose proof (no_faults_alive _ _ _ _ Hlog Hnd) as Hal.
  rewrite Hrep in Hrp. destruct Hrp as (-> & Hbatch & _).
  assert (startable c (w_fs (s_world s)) (pending (s_ledger s))) as Hst2.
  { destruct Hst. constructor; try done. rewrite <- Ep. by rewrite (alive_contents _ _ _ Hal). }
  destruct (New_initial faults c _ _ p2 fs2 n2 ps2 Hst2 Hnew2) as [Ep2 _ _ Hlog2 _ _ _ _ _ _ _].
  destruct (New_frame _ _ _ _ Hwf Hnew2) as (Hf & Em & Eh & Eq & Hnd2).
  cbn [initial s_pipe s_world w_fs s_ledger pending s_replayer] in Ep2, Hlog2.
  assert (replay_path (overflow p2) = replay_path (overflow (s_pipe s))) as Erp
    by (unfold replay_path; by rewrite Ep, Ep2).
  pose proof (drainOverflow_spec decode_verdict faults net (pending (s_ledger s)) p2 (mkWorld fs2 n2 ps2)
    (no_faults_alive _ _ _ _ Hlog2 Hnd2) Hpend Hg) as Hd.
  rewrite Eh in Hd. cbn [w_requests] in Hd. destruct (replay _ _ _ _ _) as [[failed m] k].
  destruct Hd as (p3 & w3 & -> & Hov & _ & Hgone & Hmet & Hq & _).
  split.
  - rewrite (fr_contents _ _ _ Hf); [done|]. destruct Hst as [_ _ Hne _ _].
    unfold replay_path. rewrite Ep. rewrite not_elem_of_cons. split; [by apply not_eq_sym|].
    apply not_elem_singleton. pose proof (replay_path_ne (overflow p2)) as Hn.
    unfold replay_path in Hn. by rewrite Ep2 in Hn.
  - exists p3, w3. split; [done|]. rewrite Erp in Hgone. split_and!; [done|done|by rewrite Hq|].
    rewrite Hmet, Em. by case_bool_decide.
Qed.
End crash.

(** ** Examples *)

#[local] Existing Instance eventjson.utc_codec.

(** One event was spilled before; the broker rotates it away and is killed. *)
Definition spilled_fs : FS := two_files [] (lines [sample_event]).

Definition first_start : FS :=
  mkFS (fs_names spilled_fs) (fs_inodes spilled_fs) (fs_next spilled_fs) (fs_calls spilled_fs + 4).

Lemma first_start_ok : New all_good sample_config spilled_fs = (Ok started, first_start).
Proof. reflexivity. Qed.

Lemma spilled_startable : startable sample_config spilled_fs [sample_event].
Proof.
  constructor; [apply two_files_wf|done|done|by vm_compute|apply (sample_lines_marshalable 1)].
Qed.

Definition before_crash : state := initial started (mkWorld first_start 0 sample_procs) [sample_event].

(** After the rotation. *)
Definition rotation : go_result ioerr gostring * appendLog * FS := rotate all_good (overflow started) first_start.

Definition at_crash : state :=
  with_replayer (POpen (replay_path (overflow started)) [sample_event]) (set_overflow rotation.1.2 started)
    (set_fs rotation.2 (s_world before_crash)) (set_pending [] (s_ledger before_crash)) before_crash.

Definition restarted : Pipeline := set_overflow (fresh_log overflow_path 2) started.

Lemma restart_ok : New all_good sample_config rotation.2 = (Ok restarted, (New all_good sample_config rotation.2).2).
Proof.
  assert ((New all_good sample_config rotation.2).1 = Ok restarted) as E by by vm_compute.
  destruct (New all_good sample_config rotation.2) as [r fs]. cbn [fst snd] in *. by subst r.
Qed.

Lemma rotation_ok :
  rotate all_good (overflow started) first_start = (Ok (replay_path (overflow started)), rotation.1.2, rotation.2).
Proof.
  assert (rotation.1.1 = Ok (replay_path (overflow started))) as E by by vm_compute.
  fold rotation. destruct rotation as [[r a] fs]. cbn [fst snd] in *. by subst r.
Qed.

(** The hunter is up, and nothing fails: the event is gone all the same. *)
Lemma crash_mid_replay_loses_witness :
  let fs2 := (New all_good sample_config rotation.2).2 in
  contents fs2 (replay_path (overflow started)) = Some (lines [sample_event]) /\
  exists p3 w3, drainOverflow verdictjson.decode_verdict all_good net_up restarted (mkWorld fs2 0 sample_procs) = (p3, w3) /\
    contents (w_fs w3) (replay_path (overflow started)) = None /\
    (let '(failed, _, _) := replay verdictjson.decode_verdict net_up sample_client 0 (canon <$> []) in
     alive (overflow p3) (w_fs w3) (lines failed)) /\
    queue p3 = [] /\ EventsLost (metrics p3) = 0.
Proof.
  apply (crash_mid_replay_loses verdictjson.decode_verdict all_good (fun _ => true) sample_boot sample_config
    spilled_fs [sample_event] started first_start 0 sample_procs at_crash (replay_path (overflow started))
    [sample_event] net_up restarted (New all_good sample_config rotation.2).2 0 sample_procs).
  - apply spilled_startable.
  - apply first_start_ok.
  - eapply reach_step; [apply reach_init|]. apply step_replayer.
    apply (p_rotated verdictjson.decode_verdict all_good before_crash (replay_path (overflow started)));
      [done|exact rotation_ok|done].
  - done.
  - intros [Hd|Hd]; vm_compute in Hd; congruence.
  - apply restart_ok.
  - done.
Defined.
