(* ===== verification/Shutdown.v ===== *)
(** * Stopping and starting again ([main.go], [Pipeline.Close], [New])

    What the threads leave behind when the broker is told to stop: the
    events in the overflow file are restored by the next start; those in
    the queue are gone. *)
From Stdlib Require Import ZArith Lia.
From Stdlib Require Import Strings.Byte Strings.String.
From stdpp Require Import base list gmap relations.
From S2P Require Import VerdictJson.
From S2P Require Import Prelude GoStrings Events Wire Decoding Triage GoIO AppendLog.
From S2P Require Import AppendLogFacts EventJson Hunter HunterFacts Pipeline PipelineFacts.
From S2P Require Import Samples Broker BrokerFacts Refinement Crash.
Import pipeline broker.
#[local] Open Scope Z_scope.

Section shutdown.
Context `{EventCodec} (decode_verdict : list byte -> option hunter.Verdict).
Context (faults : nat -> fault) (allowed : Z -> bool).
#[local] Abbreviation reaches := (reachable decode_verdict faults allowed).

Lemma reachable_trans boot s1 s2 s3 : reaches boot s1 s2 -> reaches boot s2 s3 -> reaches boot s1 s3.
Proof. intros H12 H23. induction H23; [done|]. by eapply reach_step. Qed.

Lemma reachable_step boot s s' : step decode_verdict faults allowed boot s s' -> reaches boot s s'.
Proof. intros Hs. eapply reach_step; [apply reach_init|done]. Qed.

(** ** Stopping the workers *)

Definition with_workers (ks : list worker) (s : state) : state :=
  mkState (s_pipe s) (s_world s) (s_reader s) ks (s_replayer s) (s_cancelled s) (s_ledger s).

Lemma stop_workers boot s n k :
  s_cancelled s = true -> s_workers s = replicate k WDone ++ replicate n WIdle ->
  reaches boot s (with_workers (replicate (k + n) WDone) s).
Proof.
  revert s k. induction n as [|n IH]; intros s k Hc Hw.
  - rewrite Nat.add_0_r. simpl in Hw. rewrite app_nil_r in Hw.
    replace (with_workers _ s) with s; [apply reach_init|]. destruct s. simpl in Hw. by subst.
  - set (s1 := with_worker k WDone (s_pipe s) (s_world s) (s_ledger s) s).
    eapply reachable_trans.
    { apply reachable_step, (step_worker _ _ _ _ _ k), w_stop; [|done].
      rewrite Hw, lookup_app_r, length_replicate by by rewrite length_replicate.
      by rewrite Nat.sub_diag. }
    fold s1. replace (with_workers (replicate (k + S n) WDone) s)
      with (with_workers (replicate (S k + n) WDone) s1).
    + apply IH; [done|]. unfold s1, with_worker. cbn [s_workers]. rewrite Hw.
      rewrite insert_app_r_alt, length_replicate by by rewrite length_replicate.
      rewrite Nat.sub_diag. cbn [replicate].
      change (<[0%nat:=WDone]> (WIdle :: replicate n WIdle)) with (WDone :: replicate n WIdle).
      change (WDone :: replicate k WDone) with (replicate (S k) WDone). rewrite replicate_S_end. by rewrite <- app_assoc.
    + by replace (k + S n)%nat with (S k + n)%nat by lia.
Qed.

(** Nothing moves any more but the processes. *)
Lemma stopped_stays boot s s' : stopped s -> reaches boot s s' ->
  stopped s' /\ s_pipe s' = s_pipe s /\ s_ledger s' = s_ledger s /\ w_fs (s_world s') = w_fs (s_world s).
Proof.
  intros Hst Hr. induction Hr as [|s1 s2 _ (Hs & Ep & Eg & Ef) Hstep]; [done|].
  rewrite <- Ep, <- Eg, <- Ef. clear Ep Eg Ef. destruct Hs as (Hrd & Hks & Hrp).
  destruct Hstep as [s3 Hs|i s3 Hs|s3 Hs| |ps].
  - destruct Hs; congruence.
  - assert (forall k, s_workers s1 !! i = Some k -> k = WDone) as Hk.
    { intros k Hk. by eapply Forall_lookup_1 in Hk; [|exact Hks]. }
    by destruct Hs as [? ? Hw|? ? ? ? Hw|? ? ? ? Hw|? ? Hw|? ? ? ? Hw|? ? ? Hw|Hw]; specialize (Hk _ Hw).
  - destruct Hs; congruence.
  - done.
  - done.
Qed.

(** C35: queued events do not survive a shutdown.  For every suspicious
    record there is an execution in which the event is accepted and queued,
    the signal arrives, every thread stops as it is written to, and the
    event stays in the queue for good: not evaluated, not in the overflow
    file, not counted in [EventsLost]. *)
Theorem shutdown_abandons_queue boot raw ev p w restored :
  events.Decode boot raw = Ok ev -> triage.IsSuspicious ev = Ok true ->
  queue p = [] -> 0 < QueueSize (cfg p) -> EventsLost (metrics p) = 0 ->
  exists s, reaches boot (initial p w restored) s /\ stopped s /\
    forall s', reaches boot s s' ->
      queue (s_pipe s') = [ev] /\ accepted (s_ledger s') = [ev] /\ evaluated (s_ledger s') = [] /\
      pending (s_ledger s') = restored /\ EventsLost (metrics (s_pipe s')) = 0.
Proof.
  intros Hd Hs Hq Hsz Hl. set (s0 := initial p w restored).
  destruct (append_audit faults ev (count (add_total 1) p) w) as [[r p1] w1] eqn:Ea.
  assert (audited faults ev s0 = (p1, w1)) as Hau by (unfold audited, s0; cbn; by rewrite Ea).
  assert (queue p1 = [] /\ cfg p1 = cfg p /\ EventsLost (metrics p1) = 0) as (Hq1 & Hc1 & Hl1).
  { unfold append_audit in Ea. destruct (Append _ _ _ _) as [[? ?] ?]. by injection Ea as <- <- <-. }
  set (g := accept ev (s_ledger s0)). set (p2 := count (add_suspicious 1) p1).
  set (s1 := with_reader (RSend ev) p2 w1 g s0).
  set (p3 := set_queue (queue p2 ++ [ev]) p2). set (s2 := with_reader RIdle p3 w1 g s1).
  set (s3 := mkState p3 w1 RIdle (s_workers s2) PIdle true g).
  set (s4 := with_reader RDone p3 w1 g s3). set (s5 := with_replayer PDone p3 w1 g s4).
  set (n := Z.to_nat (Workers (cfg p))). set (s6 := with_workers (replicate n WDone) s5).
  assert (reaches boot s0 s6) as Hr.
  { eapply (reachable_trans boot s0 s1).
    { apply reachable_step, step_reader. by apply (r_suspicious faults boot s0 raw ev). }
    eapply reachable_trans.
    { apply reachable_step, step_reader. apply (r_send faults boot s1 ev); [done|].
      cbn [s1 s_pipe with_reader p2 count queue cfg]. rewrite Hq1, Hc1. cbn [length]. lia. }
    fold s2. eapply reachable_trans; [apply reachable_step, step_signal|].
    change (mkState _ _ _ _ _ _ _) with s3.
    eapply reachable_trans; [by apply reachable_step, step_reader, (r_stop faults boot s3)|].
    eapply reachable_trans; [by apply reachable_step, step_replayer, (p_stop decode_verdict faults s4)|].
    by apply (stop_workers boot s5 n 0). }
  exists s6. split; [done|].
  assert (stopped s6) as Hst.
  { split_and!; [done| |done]. cbn [s6 with_workers s_workers]. by apply Forall_replicate. }
  split; [done|]. intros s' Hr'. destruct (stopped_stays _ _ _ Hst Hr') as (_ & -> & -> & _).
  cbn [s6 s5 with_workers with_replayer s_pipe s_ledger p3 p2 queue set_queue count metrics g accept
    accepted evaluated pending s0 initial add_suspicious EventsLost app]. rewrite Hq1. done.
Qed.

(** ** Starting again *)

(** Closing a live log leaves the files as they are. *)
Lemma Close_alive a fs c :
  alive a fs c -> exists r a', AppendLog.Close faults a fs = (r, a', tick fs) /\ al_path a' = al_path a.
Proof.
  intros [Hf Hw He Hn Hc Hwf]. unfold AppendLog.Close, log_flush, Flush. rewrite Hw. cbn [w_err w_buf].
  rewrite bool_decide_true by done. unfold log_close, GoIO.Close. cbn [al_f al_path al_w al_enc].
  rewrite Hf. destruct (outcome faults fs); eauto.
Qed.

(** [New] succeeds when its calls do, on a queue size that is not negative. *)
Lemma New_queue_size c fs p fs' : New faults c fs = (Ok p, fs') -> 0 <= QueueSize c.
Proof.
  unfold New. set (c' := if ReplayEvery c <=? 0 then _ else c).
  assert (QueueSize c' = QueueSize c) as <- by (subst c'; by destruct (_ <=? 0)).
  destruct (newAppendLog _ _ _) as [[au|e|] fs1]; [|done..].
  destruct (newAppendLog faults _ fs1) as [[ov|e|] fs2];
    [|destruct (AppendLog.Close faults au fs2) as [[? ?] ?]; done|done]. destruct (Z.ltb_spec (QueueSize c') 0); [done|lia].
Qed.

Lemma newAppendLog_good path fs :
  (forall k, faults k = Good) -> exists a fs', newAppendLog faults path fs = (Ok a, fs').
Proof.
  intros Hg. unfold newAppendLog, MkdirAll, OpenAppend, outcome. rewrite !Hg.
  destruct (bool_decide _); rewrite ?Hg; destruct (fs_names _ !! path); eauto.
Qed.

Lemma New_good c fs :
  (forall k, faults k = Good) -> 0 <= QueueSize c -> exists p fs', New faults c fs = (Ok p, fs').
Proof.
  intros Hg Hq. unfold New. set (c' := if ReplayEvery c <=? 0 then _ else c).
  assert (QueueSize c' = QueueSize c) as Eq by (subst c'; by destruct (_ <=? 0)).
  destruct (newAppendLog_good (AuditPath c') fs Hg) as (au & fs1 & ->).
  destruct (newAppendLog_good (OverflowPath c') fs1 Hg) as (ov & fs2 & ->).
  rewrite Eq. destruct (Z.ltb_spec (QueueSize c) 0); [lia|eauto].
Qed.

(** What [Close] leaves on disk. *)
Lemma Close_leaves boot c fs restored p fs' n ps s r p' w' :
  startable c fs restored -> New faults c fs = (Ok p, fs') ->
  reaches boot (initial p (mkWorld fs' n ps) restored) s ->
  ~ dead (audit (s_pipe s)) -> ~ dead (overflow (s_pipe s)) ->
  Close faults (s_pipe s) (s_world s) = (r, p', w') ->
  contents (w_fs w') (OverflowPath c) = Some (lines (pending (s_ledger s))) /\
  startable c (w_fs w') (pending (s_ledger s)).
Proof.
  intros Hst Hnew Hr Hda Hdo Hcl.
  destruct (reachable_inv _ _ _ _ _ _ _ _ _ _ _ _ Hst Hnew Hr) as [Ep _ Hwf Hlog Haud Hpend _ _ _ _ _].
  destruct Hlog as [Ho|[? _]]; [|done]. destruct Haud as [[ca Ha]|?]; [|done].
  unfold Close in Hcl.
  destruct (Close_alive _ _ _ Ha) as (r1 & a1 & E1 & _). rewrite E1 in Hcl.
  assert (alive (overflow (s_pipe s)) (tick (w_fs (s_world s))) (lines (pending (s_ledger s)))) as Ho'.
  { eapply (alive_frame []); [apply frame_tick|apply not_elem_of_nil|done]. }
  destruct (Close_alive _ _ _ Ho') as (r2 & a2 & E2 & _). rewrite E2 in Hcl.
  injection Hcl as <- <- <-. cbn [w_fs set_fs].
  assert (contents (tick (tick (w_fs (s_world s)))) (OverflowPath c) = Some (lines (pending (s_ledger s)))) as Ec
    by (rewrite !contents_tick, <- Ep; by apply (alive_contents _ _ _ Ho)).
  split; [done|]. destruct Hst. constructor; try done; [by do 2 apply fs_wf_tick|]. by rewrite Ec.
Qed.

End shutdown.

Section restart.
Context `{EventCodec} (decode_verdict : list byte -> option hunter.Verdict).
Context (faults : nat -> fault) (allowed : Z -> bool).

(** C24: spilled events survive a restart.  When the logs work at the end,
    [Close] leaves in the overflow file exactly the lines of the events
    pending.  On the files it leaves [New] starts a second broker whenever
    its own calls succeed; and in every state that broker reaches, under
    other failures, with other processes and another boot time, each of
    those events is in exactly one place: still pending, in the queue or a
    thread's hands, or among those evaluated, lost and counted, or dropped
    because a call failed. *)
Theorem restart_restores boot c fs restored p fs' n ps s r p' w' :
  startable c fs restored -> New faults c fs = (Ok p, fs') ->
  reachable decode_verdict faults allowed boot (initial p (mkWorld fs' n ps) restored) s ->
  ~ dead (audit (s_pipe s)) -> ~ dead (overflow (s_pipe s)) ->
  Close faults (s_pipe s) (s_world s) = (r, p', w') ->
  let spilled := pending (s_ledger s) in
  contents (w_fs w') (OverflowPath c) = Some (lines spilled) /\
  (forall faults2, (forall k, faults2 k = Good) -> exists p2 fs2, New faults2 c (w_fs w') = (Ok p2, fs2)) /\
  (forall faults2 p2 fs2 boot2 n2 ps2 s2, New faults2 c (w_fs w') = (Ok p2, fs2) ->
     reachable decode_verdict faults2 allowed boot2 (initial p2 (mkWorld fs2 n2 ps2) spilled) s2 ->
     balanced spilled s2 /\ counted s2 /\ (dropped (s_ledger s2) = [] \/ exists k i, faults2 k = Bad i)).
Proof.
  intros Hst Hnew Hr Hda Hdo Hcl. cbn zeta.
  destruct (Close_leaves decode_verdict faults allowed _ _ _ _ _ _ _ _ _ _ _ _ Hst Hnew Hr Hda Hdo Hcl) as [Hc Hst2].
  split; [done|split].
  - intros faults2 Hg. apply New_good; [done|by eapply New_queue_size].
  - intros faults2 p2 fs2 boot2 n2 ps2 s2 Hnew2 Hr2.
    by destruct (reachable_inv _ _ _ _ _ _ _ _ _ _ _ _ Hst2 Hnew2 Hr2).
Qed.

End restart.


(** ** Examples *)

#[local] Existing Instance eventjson.utc_codec.

Lemma shutdown_abandons_queue_witness :
  exists s, reachable verdictjson.decode_verdict all_good (fun _ => true) sample_boot
      (initial started started_world []) s /\ stopped s /\
    forall s', reachable verdictjson.decode_verdict all_good (fun _ => true) sample_boot s s' ->
      queue (s_pipe s') = [accepted_event] /\ accepted (s_ledger s') = [accepted_event] /\
      evaluated (s_ledger s') = [] /\ pending (s_ledger s') = [] /\
      EventsLost (metrics (s_pipe s')) = 0.
Proof.
  apply (shutdown_abandons_queue verdictjson.decode_verdict all_good (fun _ => true) sample_boot
    (wire.to_bytes sample_record) accepted_event started started_world []);
    [by vm_compute|by vm_compute|reflexivity|reflexivity|reflexivity].
Defined.

(** A broker that finds one spilled event and is stopped at once; the next
    one accounts for it. *)
Definition at_stop : state := initial started (mkWorld first_start 0 sample_procs) [sample_event].
Definition closing := Close all_good (s_pipe at_stop) (s_world at_stop).

Lemma restart_restores_witness :
  contents (w_fs closing.2) (OverflowPath sample_config) = Some (lines [sample_event]) /\
  exists p2 fs2, New all_good sample_config (w_fs closing.2) = (Ok p2, fs2) /\
    balanced [sample_event] (initial p2 (mkWorld fs2 0 sample_procs) [sample_event]).
Proof.
  destruct (restart_restores verdictjson.decode_verdict all_good (fun _ => true) sample_boot sample_config spilled_fs
    [sample_event] started first_start 0 sample_procs at_stop closing.1.1 closing.1.2 closing.2) as (Hc & Hn & Hb);
    [apply spilled_startable|apply first_start_ok|apply reach_init| | | |].
  - intros [Hd|Hd]; vm_compute in Hd; congruence.
  - intros [Hd|Hd]; vm_compute in Hd; congruence.
  - unfold closing. by destruct (Close _ _ _) as [[? ?] ?].
  - split; [exact Hc|]. destruct (Hn all_good (fun _ => eq_refl)) as (p2 & fs2 & E). exists p2, fs2. split; [done|].
    eapply Hb; [exact E|apply (reach_init _ _ _ sample_boot)].
Defined.
