(* ===== verification/Temporal.v ===== *)
(** * Runs, fairness and leads-to

    An infinite run of a program is a function from moments to states.  An
    action is weakly fair in it when it is not ignored while it can be
    taken, strongly fair when it is not ignored for ever if it can be taken
    again and again; what can be taken is what the step relation has a step
    for.  [ranked] turns a measure
    that the thread's steps decrease, and no other step increases, into a
    leads-to. *)
From Stdlib Require Import Lia.
From stdpp Require Import base list.

Module temporal.

Section runs.
Context {State : Type} (run : nat -> State).

Definition fair (act : State -> State -> Prop) (busy : State -> Prop) : Prop :=
  forall n, busy (run n) ->
    exists m, n <= m /\ (act (run m) (run (S m)) \/ ~ busy (run m)).

Definition leads_to (P Q : nat -> Prop) : Prop :=
  forall n, P n -> exists m, n <= m /\ Q m.

Lemma leads_to_trans P Q R : leads_to P Q -> leads_to Q R -> leads_to P R.
Proof.
  intros HP HQ n Hn. destruct (HP n Hn) as (m & ? & Hm). destruct (HQ m Hm) as (k & ? & Hk).
  exists k. split; [lia|done].
Qed.

Lemma leads_to_now (P Q : nat -> Prop) : (forall n, P n -> Q n) -> leads_to P Q.
Proof. intros H n Hn. exists n. split; [lia|by apply H]. Qed.

Lemma leads_to_or P P' Q : leads_to P Q -> leads_to P' Q -> leads_to (fun n => P n \/ P' n) Q.
Proof. intros H H' n [Hn|Hn]; [by apply H|by apply H']. Qed.

Lemma leads_to_ex {A} (P : A -> nat -> Prop) Q :
  (forall x, leads_to (P x) Q) -> leads_to (fun n => exists x, P x n) Q.
Proof. intros H n [x Hn]. by apply (H x). Qed.

(** Waiting for the thread's next step: until then [P] holds and the
    measure does not grow, unless [Q] comes first. *)
Lemma next_act act busy (P Q : nat -> Prop) (f : State -> nat) :
  fair act busy -> (forall n, P n -> busy (run n)) ->
  (forall n, P n -> Q (S n) \/ (P (S n) /\ f (run (S n)) <= f (run n))) ->
  forall n, P n -> exists m, n <= m /\
    (Q m \/ (P m /\ act (run m) (run (S m)) /\ f (run m) <= f (run n))).
Proof.
  intros Hf Hb Hs n Hn. destruct (Hf n (Hb n Hn)) as (m & Hle & Hm).
  assert (forall d n, P n -> n + d = m -> exists k, n <= k /\
    (Q k \/ (P k /\ act (run k) (run (S k)) /\ f (run k) <= f (run n)))) as Hd.
  { clear n Hn Hle. induction d as [|d IH]; intros n Hn <-.
    - rewrite Nat.add_0_r in Hm. exists n. split; [lia|right].
      destruct Hm as [Ha|Hnb]; [by split_and!|by destruct Hnb; apply Hb].
    - destruct (Hs n Hn) as [Hq|[Hp Hle]]; [exists (S n); split; [lia|by left]|].
      destruct (IH (S n) Hp ltac:(lia)) as (k & ? & Hk). exists k. split; [lia|].
      destruct Hk as [Hq|(? & ? & ?)]; [by left|right; split_and!; [done|done|lia]]. }
  apply (Hd (m - n) n Hn). lia.
Qed.

Lemma ranked act busy (P Q : nat -> Prop) (f : State -> nat) :
  fair act busy -> (forall n, P n -> busy (run n)) ->
  (forall n, P n -> Q (S n) \/ (P (S n) /\ f (run (S n)) <= f (run n))) ->
  (forall n, P n -> act (run n) (run (S n)) -> Q (S n) \/ f (run (S n)) < f (run n)) ->
  leads_to P Q.
Proof.
  intros Hf Hb Hs Ha n. remember (f (run n)) as k eqn:Ek. revert n Ek.
  induction (lt_wf k) as [k _ IH]. intros n -> Hn.
  destruct (next_act act busy P Q f Hf Hb Hs n Hn) as (m & Hle & [Hq|(Hp & Hact & Hfm)]); [by exists m|].
  destruct (Ha m Hp Hact) as [Hq|Hlt]; [exists (S m); split; [lia|done]|].
  destruct (Hs m Hp) as [Hq|[Hp' _]]; [exists (S m); split; [lia|done]|].
  destruct (IH (f (run (S m))) ltac:(lia) (S m) eq_refl Hp') as (j & ? & Hj).
  exists j. split; [lia|done].
Qed.

(** A thread whose every step reaches the goal. *)
Lemma one_act act busy (P Q : nat -> Prop) :
  fair act busy -> (forall n, P n -> busy (run n)) ->
  (forall n, P n -> Q (S n) \/ P (S n)) ->
  (forall n, P n -> act (run n) (run (S n)) -> Q (S n)) ->
  leads_to P Q.
Proof.
  intros Hf Hb Hs Ha. apply (ranked act busy P Q (fun _ => 0) Hf Hb).
  - intros n Hn. destruct (Hs n Hn); [by left|right; split; [done|lia]].
  - intros n Hn Hact. left. by apply Ha.
Qed.

(** ** Fairness of a relation's own steps

    An action can be taken where the relation has a step for it. *)
Definition enabled (act : State -> State -> Prop) (s : State) : Prop := exists s', act s s'.

(** It is not ignored while it can be taken. *)
Definition weakly_fair (act : State -> State -> Prop) : Prop :=
  forall n, exists m, n <= m /\ (act (run m) (run (S m)) \/ ~ enabled act (run m)).

(** It is not ignored for ever if it can be taken again and again: it is
    taken later, or from some moment on it never can be. *)
Definition strongly_fair (act : State -> State -> Prop) : Prop :=
  forall n, exists m, n <= m /\ (act (run m) (run (S m)) \/ forall k, m <= k -> ~ enabled act (run k)).

(** The steps with which a thread serves its work. *)
Definition serving (busy : State -> Prop) (act : State -> State -> Prop) (s s' : State) : Prop := busy s /\ act s s'.

(** A thread that can step whenever it has work. *)
Lemma weakly_fair_fair act busy :
  weakly_fair (serving busy act) -> (forall n, busy (run n) -> enabled act (run n)) -> fair act busy.
Proof.
  intros Hf He n _. destruct (Hf n) as (m & Hle & Hm). exists m. split; [done|].
  destruct Hm as [[_ Ha]|Hne]; [by left|right]. intros Hb. apply Hne. destruct (He m Hb) as [s' Hs']. by exists s'.
Qed.

(** A thread whose own steps bring the measure down, and no others move it,
    gets it to zero. *)
Lemma comes_back act busy (f : State -> nat) :
  fair act busy -> (forall n, 0 < f (run n) -> busy (run n)) ->
  (forall n, 0 < f (run n) -> act (run n) (run (S n)) \/ f (run (S n)) = f (run n)) ->
  (forall n, 0 < f (run n) -> act (run n) (run (S n)) -> f (run (S n)) < f (run n)) ->
  forall n, exists m, n <= m /\ f (run m) = 0.
Proof.
  intros Hf Hb Hs Ha n. destruct (decide (f (run n) = 0)) as [E|E]; [by exists n|].
  revert n E. apply (ranked act busy (fun n => f (run n) <> 0) (fun n => f (run n) = 0) f Hf).
  - intros n Hn. apply Hb. lia.
  - intros n Hn. destruct (decide (f (run (S n)) = 0)); [by left|right]. split; [done|].
    destruct (Hs n ltac:(lia)) as [Hact| ->]; [|lia]. pose proof (Ha n ltac:(lia) Hact). lia.
  - intros n Hn Hact. right. apply Ha; [lia|done].
Qed.

End runs.

End temporal.
