(* ===== verification/LivenessFacts.v ===== *)
(** * Where an accepted event can be, and where it goes next

    Lemmas on infinite runs of the concurrent broker: what a step of one
    thread changes for the others, and for each place an event can be in
    (the reader's, a worker's or the replay loop's hands, the queue, the
    overflow file, the batch being replayed) the leads-to that takes it to
    its evaluation. *)
From Stdlib Require Import ZArith Lia.
From Stdlib Require Import Strings.Byte Strings.String.
From stdpp Require Import base list gmap.
From S2P Require Import VerdictJson.
From S2P Require Import Prelude GoStrings Events Wire Decoding Triage GoIO AppendLog.
From S2P Require Import AppendLogFacts EventJson Hunter HunterFacts Pipeline PipelineFacts.
From S2P Require Import Samples Broker BrokerFacts Temporal.
Import pipeline broker temporal.
#[local] Existing Instance events.Event_eq_decision.

Section liveness.
Context `{EventCodec} (decode_verdict : list byte -> option hunter.Verdict).
Context (faults : nat -> fault) (allowed : Z -> bool).

(** ** Threads with work to do *)

Definition reader_busy (s : state) : Prop :=
  match s_reader s with RSend _ | RSpill _ => True | _ => False end.

Definition worker_busy (i : nat) (s : state) : Prop :=
  match s_workers s !! i with
  | Some WIdle => queue (s_pipe s) <> []
  | Some WDone | None => False
  | Some _ => True
  end.

(** Between two turns there is something to do once an event is pending. *)
Definition replayer_busy (s : state) : Prop :=
  match s_replayer s with
  | PIdle => pending (s_ledger s) <> []
  | PDone => False
  | _ => True
  end.

(** Nobody has stopped. *)
Record running (s : state) : Prop := {
  ru_reader : s_reader s <> RDone;
  ru_workers : Forall (fun k => k <> WDone) (s_workers s);
  ru_replayer : s_replayer s <> PDone
}.

Lemma step_running boot s s' :
  s_cancelled s = false -> running s -> step decode_verdict faults allowed boot s s' -> running s'.
Proof.
  intros Hc [Hr Hw Hp] [s1 Hs|i s1 Hs|s1 Hs| |ps]; [destruct Hs|destruct Hs|destruct Hs|..];
    try congruence; constructor; try done; cbn [with_worker with_reader s_workers s_reader s_replayer];
    try by apply Forall_insert.
Qed.

(** How a step changes what a thread does not own. *)
Lemma step_workers boot s s' i :
  step decode_verdict faults allowed boot s s' ->
  worker_step decode_verdict faults allowed i s s' \/
  s_workers s' !! i = s_workers s !! i \/
  (queue (s_pipe s) = [] /\ s_workers s !! i = Some WIdle).
Proof.
  intros [s1 Hs|j s1 Hs|s1 Hs| |ps]; [|destruct (decide (i = j)) as [->|Hne]|..]; try (by right; left).
  - destruct Hs as [| | | |ev j Hr Hq Hj| | |]; try (by right; left).
    destruct (decide (i = j)) as [->|Hne]; [by right; right|]. right; left.
    cbn [with_reader with_worker s_workers]. by rewrite list_lookup_insert_ne.
  - by left.
  - right; left. destruct Hs; cbn [with_worker s_workers]; by rewrite list_lookup_insert_ne.
  - destruct Hs; by right; left.
Qed.

Lemma step_reader_own boot s s' :
  step decode_verdict faults allowed boot s s' ->
  reader_step faults boot s s' \/ s_reader s' = s_reader s.
Proof. intros [s1 Hs|j s1 Hs|s1 Hs| |ps]; [by left|destruct Hs|destruct Hs| |]; by right. Qed.

Lemma step_replayer_own boot s s' :
  step decode_verdict faults allowed boot s s' ->
  replayer_step decode_verdict faults s s' \/ s_replayer s' = s_replayer s.
Proof. intros [s1 Hs|j s1 Hs|s1 Hs| |ps]; [destruct Hs|destruct Hs|by left| |]; by right. Qed.

(** The states of a run are reachable. *)
Lemma run_reachable boot (run : nat -> state) m :
  (forall n, step decode_verdict faults allowed boot (run n) (run (S n))) ->
  reachable decode_verdict faults allowed boot (run 0) (run m).
Proof. intros Hs. induction m as [|m IH]; [apply reach_init|]. by eapply reach_step. Qed.

(** Evaluated stays evaluated. *)
Lemma spilled_evaluated ev p w g : evaluated (spilled_ledger faults ev p w g) = evaluated g.
Proof. unfold spilled_ledger. by destruct (is_ok _). Qed.

Lemma step_evaluated boot s s' :
  step decode_verdict faults allowed boot s s' ->
  exists evs, evaluated (s_ledger s') = evaluated (s_ledger s) ++ evs.
Proof.
  intros [s1 Hs|j s1 Hs|s1 Hs| |ps]; [destruct Hs|destruct Hs|destruct Hs| |];
    cbn [with_reader with_worker with_replayer s_ledger settle drop_all accept set_pending evaluated];
    rewrite ?spilled_evaluated; try (exists []; by rewrite app_nil_r); by eexists [_].
Qed.

Lemma spilled_accepted ev p w g : accepted (spilled_ledger faults ev p w g) = accepted g.
Proof. unfold spilled_ledger. by destruct (is_ok _). Qed.

Lemma step_accepted boot s s' :
  step decode_verdict faults allowed boot s s' ->
  exists evs, accepted (s_ledger s') = accepted (s_ledger s) ++ evs.
Proof.
  intros [s1 Hs|j s1 Hs|s1 Hs| |ps]; [destruct Hs|destruct Hs|destruct Hs| |];
    cbn [with_reader with_worker with_replayer s_ledger settle drop_all accept set_pending accepted];
    rewrite ?spilled_accepted; try (exists []; by rewrite app_nil_r); by eexists [_].
Qed.

(** Pending events stay pending until a rotation turns them into the batch. *)
Lemma spilled_pending ev p w g :
  exists evs, pending (spilled_ledger faults ev p w g) = pending g ++ evs.
Proof. unfold spilled_ledger. destruct (is_ok _); [by eexists [_]|exists []; by rewrite app_nil_r]. Qed.

Lemma step_pending boot s s' :
  step decode_verdict faults allowed boot s s' ->
  (exists evs, pending (s_ledger s') = pending (s_ledger s) ++ evs) \/
  (s_replayer s = PIdle /\ exists path, s_replayer s' = POpen path (pending (s_ledger s))).
Proof.
  intros [s1 Hs|j s1 Hs|s1 Hs| |ps]; [destruct Hs|destruct Hs|destruct Hs| |];
    cbn [with_reader with_worker with_replayer s_ledger s_replayer settle drop_all accept pending];
    try (left; exists []; by rewrite app_nil_r); try (left; apply spilled_pending).
  right. split; [done|]. by eexists.
Qed.

Lemma spill_queue ev p w p' w' : spill faults ev p w = (p', w') -> queue p' = queue p.
Proof.
  unfold spill, append_overflow. destruct (Append _ _ _ _) as [[r a] fs]. destruct r; by intros [= <- _].
Qed.

Lemma audited_queue ev s p w : audited faults ev s = (p, w) -> queue p = queue (s_pipe s).
Proof. unfold audited, append_audit. destruct (Append _ _ _ _) as [[r a] fs]. by intros [= <- _]. Qed.

(** The queue grows at its end, or a waiting worker takes its head. *)
Lemma step_queue boot s s' :
  step decode_verdict faults allowed boot s s' ->
  (exists evs, queue (s_pipe s') = queue (s_pipe s) ++ evs) \/
  (exists i ev, s_workers s !! i = Some WIdle /\ queue (s_pipe s) = ev :: queue (s_pipe s') /\
     s_workers s' = <[i := WEval ev]> (s_workers s)).
Proof.
  pose proof spill_queue as Hsp. pose proof audited_queue as Hau.
  intros [s1 Hs|j s1 Hs|s1 Hs| |ps]; [destruct Hs|destruct Hs|destruct Hs| |];
    cbn [with_reader with_worker with_replayer s_pipe s_workers queue set_queue set_overflow count];
    try (left; exists []; rewrite app_nil_r; by eauto); try (left; by eexists).
  - right. by eexists j, ev.
  - left. exists []. rewrite app_nil_r. by destruct (0 <? _)%Z.
Qed.

(** ** Runs in which nothing fails any more *)

Context (all_well : forall k, faults k = Good).
Context (boot : Z) (ofile : gostring) (restored : list Event) (run : nat -> state).
Context (Hinv : forall n, inv faults ofile restored (run n)) (Hsound : forall n, sound (run n)).
Context (Hrun : forall n, running (run n)).
Context (Hstep : forall n, step decode_verdict faults allowed boot (run n) (run (S n))).

(** The hunter answers every evaluation that ends at [n] or later: no
    thread goes from an evaluation to a spill. *)
Definition answered_from (n : nat) : Prop := forall m, n <= m ->
  (forall i ev ev', s_workers (run m) !! i = Some (WEval ev) ->
     s_workers (run (S m)) !! i <> Some (WSpill ev')) /\
  (forall path s batch a b ev path' s' batch' a' b',
     s_replayer (run m) = PDrain path s batch a b ->
     s_replayer (run (S m)) <> PSpill ev path' s' batch' a' b').

Context (Hfair_reader : fair run (reader_step faults boot) reader_busy).
Context (Hfair_worker : forall i, i < length (s_workers (run 0)) ->
  fair run (worker_step decode_verdict faults allowed i) (worker_busy i)).
Context (Hfair_replayer : fair run (replayer_step decode_verdict faults) replayer_busy).
Context (Hworkers : 0 < length (s_workers (run 0))).

(** ** One event, from a moment on *)

Section event.
Context (e : Event) (n0 : nat) (Hans : answered_from n0).

Definition holds (l : list Event) : Prop := 0 < tally e l.

Definition times (n : nat) : nat := tally e (evaluated (s_ledger (run n))).

(** One more evaluation of [e] than at [n0]. *)
Definition once_more (n : nat) : Prop := times n0 < times n.

Lemma times_mono n : times n <= times (S n).
Proof.
  unfold times. destruct (step_evaluated _ _ _ (Hstep n)) as [evs ->]. rewrite tally_app. lia.
Qed.

Lemma times_from n : n0 <= n -> times n0 <= times n.
Proof. intros Hle. induction Hle as [|n _ IH]; [done|]. pose proof (times_mono n). lia. Qed.

Lemma once_more_settle n ev :
  n0 <= n -> canon ev = e -> s_ledger (run (S n)) = settle ev (s_ledger (run n)) -> once_more (S n).
Proof.
  intros Hle <- E. unfold once_more. pose proof (times_from n Hle). unfold times in *. rewrite E.
  cbn [settle evaluated]. rewrite tally_app. cbn [tally]. rewrite decide_True by done. lia.
Qed.

Lemma holds_app l l' : holds (l ++ l') <-> holds l \/ holds l'.
Proof. unfold holds. rewrite tally_app. lia. Qed.

Lemma holds_cons x l : holds (x :: l) <-> canon x = e \/ holds l.
Proof.
  unfold holds. cbn [tally]. destruct (decide (canon x = e)) as [E|E]; split; intros Hx; try lia.
  - by left.
  - destruct Hx as [Hx|Hx]; [done|lia].
Qed.

Lemma holds_nil : ~ holds [].
Proof. unfold holds. cbn. lia. Qed.

(** ** The replay loop *)

(** The part of the batch not yet decoded, and how far the loop is from its
    next turn. *)
Definition batch_of (r : replayer) : list Event :=
  match r with
  | POpen _ batch | PDrain _ _ batch _ _ | PSpill _ _ _ batch _ _ => batch
  | _ => []
  end.

Definition replay_rank (r : replayer) : nat :=
  match r with
  | PIdle | PDone => 0
  | PRemove _ => 1
  | PDrain _ _ batch _ _ => 2 + 2 * length batch
  | POpen _ batch | PSpill _ _ _ batch _ _ => 3 + 2 * length batch
  end.

Definition in_batch (n : nat) : Prop := n0 <= n /\ holds (batch_of (s_replayer (run n))).

Definition in_pending (n : nat) : Prop := n0 <= n /\ holds (pending (s_ledger (run n))).

(** A step of the loop brings it nearer to its next turn; an event of the
    batch it drops was evaluated. *)
Lemma replayer_turn n :
  n0 <= n -> replayer_step decode_verdict faults (run n) (run (S n)) -> s_replayer (run n) <> PIdle ->
  replay_rank (s_replayer (run (S n))) < replay_rank (s_replayer (run n)) /\
  (holds (batch_of (s_replayer (run n))) ->
     holds (batch_of (s_replayer (run (S n)))) \/ once_more (S n)).
Proof.
  intros Hle Hs Hne. pose proof (i_replay _ _ _ _ (Hinv n)) as Hrep.
  pose proof (proj2 (Hans n Hle)) as Ha. pose proof (once_more_settle n) as Hset.
  remember (run (S n)) as s' eqn:Es in Hs, Ha, Hset |- *.
  destruct Hs as [| | |path batch bytes fs Hr Eo|path batch err fs Hr Eo|path bytes batch a b net ev rest v w Hr Hn He|
    path bytes batch a b net ev rest err w Hr Hn He|ev path bytes batch a b p w Hr Hsp|path bytes batch a b Hr Hn|
    path Hr|Hr Hc]; try congruence; rewrite Hr in Hrep |- *;
    cbn [with_replayer s_replayer batch_of replay_rank s_ledger] in *.
  - split; [lia|by left].
  - destruct Hrep as (-> & Hc & _). unfold OpenRead, outcome in Eo. by rewrite all_well, Hc in Eo.
  - destruct Hrep as (-> & Hst & Hm).
    destruct (next_batch _ _ _ _ Hm Hst Hn) as (x & batch' & -> & -> & _).
    change (drop 1 (x :: batch')) with batch'. cbn [length].
    split; [lia|]. intros [Hx|Hb]%holds_cons; [|by left]. right.
    apply (Hset (canon x)); [done|by rewrite canon_idem|done].
  - exfalso. by eapply Ha.
  - split; [lia|by left].
  - destruct Hrep as (-> & Hst & Hm). pose proof (next_batch_end _ _ Hm Hst Hn) as ->.
    cbn [length]. split; [lia|]. by intros ?%holds_nil.
  - split; [lia|]. by intros ?%holds_nil.
Qed.

Lemma batch_evaluated : leads_to in_batch once_more.
Proof.
  apply (ranked run _ _ in_batch once_more (fun s => replay_rank (s_replayer s)) Hfair_replayer).
  - intros n [_ Hb]. unfold replayer_busy. destruct (s_replayer (run n)); try done; by destruct holds_nil.
  - intros n [Hle Hb].
    assert (s_replayer (run n) <> PIdle) as Hne by (intros E; rewrite E in Hb; by destruct holds_nil).
    destruct (step_replayer_own _ _ _ (Hstep n)) as [Hs|E].
    + destruct (replayer_turn n Hle Hs Hne) as [Hlt [Hb'|Hq]]; [done| |by left].
      right. split; [split; [lia|done]|lia].
    + right. unfold in_batch. rewrite E. split; [split; [lia|done]|lia].
  - intros n [Hle Hb] Hs. right. apply replayer_turn; [done|done|].
    intros E. rewrite E in Hb. by destruct holds_nil.
Qed.

(** A rotation finds the pending events. *)
Lemma rotation_takes n :
  in_pending n -> replayer_step decode_verdict faults (run n) (run (S n)) -> s_replayer (run n) = PIdle ->
  in_batch (S n).
Proof.
  intros [Hle Hp] Hs Hi. pose proof (ru_replayer _ (Hrun (S n))) as Hnd.
  unfold in_batch. remember (run (S n)) as s' eqn:Es in Hs, Hnd |- *.
  destruct Hs as [path a fs Hr Er Hne|a fs Hr Er|err a fs Hr Er| | | | | | | |Hr Hc]; try congruence.
  - split; [lia|done].
  - pose proof (rotate_path faults _ _ _ _ _ _ (Hinv n) Er) as E. unfold replay_path in E.
    by destruct (al_path (overflow (s_pipe (run n)))).
  - by destruct (rotate_sound faults all_well _ _ _ _ _ _ (Hinv n) (Hsound n) Er).
  - done.
Qed.

(** A step of the loop with an event pending. *)
Lemma pending_turn n :
  in_pending n -> replayer_step decode_verdict faults (run n) (run (S n)) ->
  in_batch (S n) \/ replay_rank (s_replayer (run (S n))) < replay_rank (s_replayer (run n)).
Proof.
  intros Hp Hs. pose proof (ru_replayer _ (Hrun n)) as Hnd.
  destruct (s_replayer (run n)) eqn:E; [left; by apply rotation_takes|right; rewrite <- E..|done];
    (apply replayer_turn; [apply Hp|done|congruence]).
Qed.

Lemma pending_evaluated : leads_to in_pending once_more.
Proof.
  apply (leads_to_trans in_pending in_batch); [|exact batch_evaluated].
  apply (ranked run _ _ in_pending in_batch (fun s => replay_rank (s_replayer s)) Hfair_replayer).
  - intros n [_ Hp]. pose proof (ru_replayer _ (Hrun n)). unfold replayer_busy.
    destruct (s_replayer (run n)); try done. intros E. rewrite E in Hp. by destruct holds_nil.
  - intros n Hp. destruct (step_pending _ _ _ (Hstep n)) as [[evs E]|[Hi [path E]]].
    + assert (in_pending (S n)) as Hp'.
      { destruct Hp as [Hle Hp]. split; [lia|]. rewrite E. apply holds_app. by left. }
      destruct (step_replayer_own _ _ _ (Hstep n)) as [Hs|E']; [|right; by rewrite E'].
      destruct (pending_turn n Hp Hs); [by left|right; split; [done|lia]].
    + left. destruct Hp as [Hle Hp]. split; [lia|by rewrite E].
  - apply pending_turn.
Qed.

(** ** The hands of the threads *)

(** An event whose evaluation failed before [n0], on its way to the file. *)
Definition reader_spills (n : nat) : Prop :=
  n0 <= n /\ exists ev, s_reader (run n) = RSpill ev /\ canon ev = e.
Definition worker_spills (i n : nat) : Prop :=
  n0 <= n /\ exists ev, s_workers (run n) !! i = Some (WSpill ev) /\ canon ev = e.
Definition replayer_spills (n : nat) : Prop :=
  n0 <= n /\ exists ev path s batch a b, s_replayer (run n) = PSpill ev path s batch a b /\ canon ev = e.

(** Spilling makes an event pending. *)
Lemma spill_pends n ev p w :
  marshalable ev -> canon ev = e -> n0 <= n ->
  spill faults ev (s_pipe (run n)) (s_world (run n)) = (p, w) ->
  holds (pending (spilled_ledger faults ev (s_pipe (run n)) (s_world (run n)) (s_ledger (run n)))).
Proof.
  intros Hm He Hle Hsp.
  destruct (spill_sound faults all_well _ _ _ _ _ _ (Hinv n) (Hsound n) Hm Hsp) as (_ & _ & ->).
  cbn [set_pending pending]. apply holds_app. right. apply holds_cons. by left.
Qed.

Lemma step_length s s' :
  step decode_verdict faults allowed boot s s' -> length (s_workers s') = length (s_workers s).
Proof.
  intros [s1 Hs|i s1 Hs|s1 Hs| |ps]; [destruct Hs|destruct Hs|destruct Hs| |]; try done;
    cbn [with_reader with_worker s_workers]; by rewrite length_insert.
Qed.

Lemma workers_same n : length (s_workers (run n)) = length (s_workers (run 0)).
Proof. induction n as [|n IH]; [done|]. by rewrite (step_length _ _ (Hstep n)). Qed.

Lemma worker_exists n i k : s_workers (run n) !! i = Some k -> i < length (s_workers (run 0)).
Proof. intros Hk. rewrite <- (workers_same n). by eapply lookup_lt_Some. Qed.

(** A worker changes its state only by its own step, unless it waits. *)
Lemma worker_stays n i k :
  s_workers (run n) !! i = Some k -> k <> WIdle ->
  worker_step decode_verdict faults allowed i (run n) (run (S n)) \/ s_workers (run (S n)) !! i = Some k.
Proof.
  intros Hk Hne. destruct (step_workers _ _ _ i (Hstep n)) as [Hs|[E|[_ E]]]; [by left| |congruence].
  right. by rewrite E.
Qed.

Lemma worker_spill_step n i ev :
  s_workers (run n) !! i = Some (WSpill ev) -> canon ev = e -> n0 <= n ->
  worker_step decode_verdict faults allowed i (run n) (run (S n)) -> in_pending (S n).
Proof.
  intros Hk He Hle Hs. unfold in_pending. split; [lia|].
  pose proof (worker_sound _ _ _ (Hsound n) Hk) as Hm. cbn [worker_holds] in Hm. apply Forall_inv in Hm.
  remember (run (S n)) as s' eqn:Es in Hs |- *.
  destruct Hs as [| | | | |ev' p w Hk' Hsp|]; try congruence. simplify_eq.
  cbn [with_worker s_ledger]. by eapply spill_pends.
Qed.

Lemma worker_spills_pend i : leads_to (worker_spills i) in_pending.
Proof.
  intros n Hn. pose proof Hn as (_ & ev0 & Hk0 & _). apply worker_exists in Hk0.
  revert n Hn. apply (one_act run _ _ _ _ (Hfair_worker i Hk0)).
  - intros n (_ & ev & Hk & _). unfold worker_busy. by rewrite Hk.
  - intros n (Hle & ev & Hk & He). destruct (worker_stays n i _ Hk ltac:(done)) as [Hs|E].
    + left. by eapply worker_spill_step.
    + right. split; [lia|]. by exists ev.
  - intros n (Hle & ev & Hk & He) Hs. by eapply worker_spill_step.
Qed.

Lemma reader_spills_pend : leads_to reader_spills in_pending.
Proof.
  assert (forall n, reader_spills n -> reader_step faults boot (run n) (run (S n)) -> in_pending (S n)) as Hact.
  { intros n (Hle & ev & Hr & He) Hs. unfold in_pending. split; [lia|].
    pose proof (so_reader _ (Hsound n)) as Hm. rewrite Hr in Hm. apply Forall_inv in Hm.
    remember (run (S n)) as s' eqn:Es in Hs |- *.
    destruct Hs as [| | | | | |ev' p w Hr' Hsp|]; try congruence.
    assert (ev' = ev) as -> by congruence. cbn [with_reader s_ledger]. by eapply spill_pends. }
  apply (one_act run _ _ _ _ Hfair_reader); [| |done].
  - intros n (_ & ev & Hr & _). unfold reader_busy. by rewrite Hr.
  - intros n Hn. destruct (step_reader_own _ _ _ (Hstep n)) as [Hs|E]; [left; by apply Hact|right].
    destruct Hn as (Hle & ev & Hr & He). split; [lia|]. exists ev. by rewrite E.
Qed.

Lemma replayer_spills_pend : leads_to replayer_spills in_pending.
Proof.
  assert (forall n, replayer_spills n -> replayer_step decode_verdict faults (run n) (run (S n)) ->
    in_pending (S n)) as Hact.
  { intros n (Hle & ev & path & bytes & batch & a & b & Hr & He) Hs. unfold in_pending. split; [lia|].
    pose proof (so_replayer _ (Hsound n)) as Hm. rewrite Hr in Hm. apply Forall_inv in Hm.
    remember (run (S n)) as s' eqn:Es in Hs |- *.
    destruct Hs as [| | | | | | |ev' path' bytes' batch' a' b' p w Hr' Hsp| | |]; try congruence.
    assert (ev' = ev) as -> by congruence. cbn [with_replayer s_ledger]. by eapply spill_pends. }
  apply (one_act run _ _ _ _ Hfair_replayer); [| |done].
  - intros n (_ & ev & path & bytes & batch & a & b & Hr & _). unfold replayer_busy. by rewrite Hr.
  - intros n Hn. destruct (step_replayer_own _ _ _ (Hstep n)) as [Hs|E]; [left; by apply Hact|right].
    destruct Hn as (Hle & ev & path & bytes & batch & a & b & Hr & He). split; [lia|].
    exists ev, path, bytes, batch, a, b. by rewrite E.
Qed.

(** An evaluation under way is answered. *)
Definition worker_evaluates (i n : nat) : Prop :=
  n0 <= n /\ exists ev, s_workers (run n) !! i = Some (WEval ev) /\ canon ev = e.

Lemma worker_evaluates_answered i : leads_to (worker_evaluates i) once_more.
Proof.
  assert (forall n, worker_evaluates i n ->
    worker_step decode_verdict faults allowed i (run n) (run (S n)) -> once_more (S n)) as Hact.
  { intros n (Hle & ev & Hk & He) Hs. pose proof (proj1 (Hans n Hle) i ev) as Ha.
    pose proof (once_more_settle n) as Hset.
    remember (run (S n)) as s' eqn:Es in Hs, Ha, Hset |- *.
    destruct Hs as [|net ev' v w Hk' Hev Hv|net ev' v w Hk' Hev Hv| |net ev' err w Hk' Hev| |]; try congruence.
    - apply (Hset ev'); [done|congruence|done].
    - apply (Hset ev'); [done|congruence|done].
    - exfalso. apply (Ha ev' Hk). cbn [with_worker s_workers].
      rewrite list_lookup_insert_eq; [done|by eapply lookup_lt_Some]. }
  intros n Hn. pose proof Hn as (_ & ev0 & Hk0 & _). apply worker_exists in Hk0.
  revert n Hn. apply (one_act run _ _ _ _ (Hfair_worker i Hk0)); [| |done].
  - intros n (_ & ev & Hk & _). unfold worker_busy. by rewrite Hk.
  - intros n Hn. pose proof Hn as (Hle & ev & Hk & He).
    destruct (worker_stays n i _ Hk ltac:(done)) as [Hs|E]; [left; by apply Hact|right].
    split; [lia|]. by exists ev.
Qed.

(** ** The queue *)

Definition in_queue (n : nat) : Prop := n0 <= n /\ holds (queue (s_pipe (run n))).

Definition evaluating (n : nat) : Prop := exists i, worker_evaluates i n.

Fixpoint position (l : list Event) : nat :=
  match l with
  | [] => 0
  | x :: l' => if decide (canon x = e) then 0 else S (position l')
  end.

Lemma position_app l l' : holds l -> position (l ++ l') = position l.
Proof.
  induction l as [|x l IH]; [by intros ?%holds_nil|]. intros Hx%holds_cons. cbn [app position].
  case_decide; [done|]. destruct Hx as [?|Hl]; [done|]. by rewrite IH.
Qed.

(** How far the first worker is from receiving again. *)
Definition phase (k : option worker) : nat :=
  match k with Some (WEval _) => 2 | Some (WKill _) | Some (WSpill _) => 1 | _ => 0 end.

Definition queue_rank (s : state) : nat := 3 * position (queue (s_pipe s)) + phase (s_workers s !! 0).

(** A worker takes the head: the event itself, or one before it. *)
Lemma queue_receive n i ev :
  in_queue n -> s_workers (run n) !! i = Some WIdle ->
  queue (s_pipe (run n)) = ev :: queue (s_pipe (run (S n))) ->
  s_workers (run (S n)) = <[i := WEval ev]> (s_workers (run n)) ->
  evaluating (S n) \/ (in_queue (S n) /\ queue_rank (run (S n)) < queue_rank (run n)).
Proof.
  intros [Hle Hq] Hi Eq Ew. rewrite Eq in Hq. unfold queue_rank. rewrite Eq, Ew. cbn [position].
  destruct (decide (canon ev = e)) as [He|Hne].
  - left. exists i. split; [lia|]. exists ev. split; [|done]. rewrite Ew.
    apply list_lookup_insert_eq. by eapply lookup_lt_Some.
  - right. apply holds_cons in Hq as [?|Hq]; [done|]. split; [split; [lia|done]|].
    destruct (decide (i = 0)) as [->|Hi0].
    + rewrite list_lookup_insert_eq by (by eapply lookup_lt_Some). rewrite Hi. cbn [phase]. lia.
    + rewrite list_lookup_insert_ne by done. lia.
Qed.

(** A step of the first worker: it takes the head or comes nearer to it. *)
Lemma queue_turn n :
  in_queue n -> worker_step decode_verdict faults allowed 0 (run n) (run (S n)) ->
  evaluating (S n) \/ (in_queue (S n) /\ queue_rank (run (S n)) < queue_rank (run n)).
Proof.
  intros Hn Hs. pose proof (ru_workers _ (Hrun (S n))) as Hnd. pose proof (queue_receive n 0) as Hrec.
  assert (forall k k', s_workers (run n) !! 0 = Some k -> s_workers (run (S n)) = <[0 := k']> (s_workers (run n)) ->
    queue (s_pipe (run (S n))) = queue (s_pipe (run n)) -> phase (Some k') < phase (Some k) ->
    in_queue (S n) /\ queue_rank (run (S n)) < queue_rank (run n)) as Hnear.
  { intros k k' Hk Ew Eq Hlt. unfold in_queue, queue_rank. rewrite Ew, Eq, Hk.
    rewrite list_lookup_insert_eq by (by eapply lookup_lt_Some). destruct Hn. split; [split; [lia|done]|lia]. }
  unfold evaluating, worker_evaluates, in_queue in *. remember (run (S n)) as s' eqn:Es in Hs, Hnd, Hrec, Hnear |- *.
  destruct Hs as [ev q Hk Hq|net ev v w Hk Hev Hv|net ev v w Hk Hev Hv|later ev Hk|net ev err w Hk Hev|
    ev p w Hk Hsp|Hk Hc].
  - apply (Hrec ev); done.
  - right. apply (Hnear _ _ Hk eq_refl eq_refl). cbn [phase]. lia.
  - right. apply (Hnear _ _ Hk eq_refl eq_refl). cbn [phase]. lia.
  - right. apply (Hnear _ _ Hk eq_refl eq_refl). cbn [phase]. lia.
  - right. apply (Hnear _ _ Hk eq_refl eq_refl). cbn [phase]. lia.
  - right. apply (Hnear _ _ Hk eq_refl); [by eapply spill_queue|]. cbn [phase]. lia.
  - exfalso. cbn [with_worker s_workers] in Hnd. eapply Forall_lookup_1 in Hnd; [by apply Hnd|].
    apply list_lookup_insert_eq. by eapply lookup_lt_Some.
Qed.

Lemma queue_evaluating : leads_to in_queue evaluating.
Proof.
  apply (ranked run _ _ in_queue evaluating queue_rank (Hfair_worker 0 Hworkers)).
  - intros n [_ Hq]. unfold worker_busy.
    destruct (lookup_lt_is_Some_2 (s_workers (run n)) 0) as [k Hk]; [by rewrite workers_same|].
    rewrite Hk. pose proof (ru_workers _ (Hrun n)) as Hnd. eapply Forall_lookup_1 in Hnd; [|exact Hk].
    destruct k; try done. intros E. rewrite E in Hq. by destruct holds_nil.
  - intros n Hn. destruct (step_queue _ _ _ (Hstep n)) as [[evs E]|(i & ev & Hi & Eq & Ew)].
    + destruct (step_workers _ _ _ 0 (Hstep n)) as [Hs|[E'|[E' _]]].
      * destruct (queue_turn n Hn Hs) as [Hq|[Hp Hlt]]; [by left|right; split; [done|lia]].
      * right. destruct Hn as [Hle Hq]. split; [split; [lia|rewrite E; apply holds_app; by left]|].
        unfold queue_rank. by rewrite E, E', position_app.
      * destruct Hn as [_ Hq]. rewrite E' in Hq. by destruct holds_nil.
    + destruct (queue_receive n i ev Hn Hi Eq Ew) as [Hq|[Hp Hlt]]; [by left|right; split; [done|lia]].
  - intros n Hn Hs. destruct (queue_turn n Hn Hs) as [Hq|[_ Hlt]]; [by left|by right].
Qed.

(** ** The reader *)

Definition reader_sends (n : nat) : Prop :=
  n0 <= n /\ exists ev, s_reader (run n) = RSend ev /\ canon ev = e.

Definition dispatched (n : nat) : Prop := in_queue n \/ evaluating n \/ reader_spills n.

Lemma reader_dispatches : leads_to reader_sends dispatched.
Proof.
  assert (forall n, reader_sends n -> reader_step faults boot (run n) (run (S n)) -> dispatched (S n)) as Hact.
  { intros n (Hle & ev & Hr & He) Hs. unfold dispatched, in_queue, evaluating, worker_evaluates, reader_spills.
    remember (run (S n)) as s' eqn:Es in Hs |- *.
    destruct Hs as [| | |ev' Hr' Hlen|ev' i Hr' Hq Hi|ev' Hr' Hlen| |]; try congruence;
      assert (ev' = ev) as -> by congruence.
    - left. split; [lia|]. cbn [with_reader s_pipe queue set_queue]. apply holds_app. right. apply holds_cons. by left.
    - right; left. exists i. split; [lia|]. exists ev. split; [|done]. cbn [with_reader with_worker s_workers].
      apply list_lookup_insert_eq. by eapply lookup_lt_Some.
    - right; right. split; [lia|]. by exists ev. }
  apply (one_act run _ _ _ _ Hfair_reader); [| |done].
  - intros n (_ & ev & Hr & _). unfold reader_busy. by rewrite Hr.
  - intros n Hn. destruct (step_reader_own _ _ _ (Hstep n)) as [Hs|E]; [left; by apply Hact|right].
    destruct Hn as (Hle & ev & Hr & He). split; [lia|]. exists ev. by rewrite E.
Qed.

(** ** From wherever it is *)

Lemma evaluating_answered : leads_to evaluating once_more.
Proof. apply (leads_to_ex worker_evaluates). exact worker_evaluates_answered. Qed.

Lemma queue_answered : leads_to in_queue once_more.
Proof. exact (leads_to_trans _ _ _ queue_evaluating evaluating_answered). Qed.

Lemma reader_answered : leads_to reader_sends once_more.
Proof.
  apply (leads_to_trans _ dispatched); [exact reader_dispatches|].
  apply leads_to_or; [exact queue_answered|]. apply leads_to_or; [exact evaluating_answered|].
  exact (leads_to_trans _ _ _ reader_spills_pend pending_evaluated).
Qed.

(** An event in somebody's hands. *)
Lemma worker_holds_one i k :
  s_workers (run n0) !! i = Some k -> holds (worker_holds k) -> worker_evaluates i n0 \/ worker_spills i n0.
Proof.
  intros Hk. destruct k as [|ev|ev|ev|]; cbn [worker_holds]; try (by intros ?%holds_nil);
    intros [Hx|Hx%holds_nil]%holds_cons; try done; [left|right]; (split; [lia|by exists ev]).
Qed.

Lemma workers_hold_one :
  holds (workers_hold (s_workers (run n0))) -> exists i, worker_evaluates i n0 \/ worker_spills i n0.
Proof.
  intros Hh. assert (exists i k, s_workers (run n0) !! i = Some k /\ holds (worker_holds k)) as (i & k & Hk & Hx).
  { induction (s_workers (run n0)) as [|k ks IH]; [by destruct holds_nil|].
    unfold workers_hold in Hh. rewrite fmap_cons in Hh. cbn [concat] in Hh.
    apply holds_app in Hh as [Hx|Hx]; [by exists 0, k|].
    destruct (IH Hx) as (i & k' & Hk & Hx'). by exists (S i), k'. }
  exists i. by eapply worker_holds_one.
Qed.

Lemma reader_holds_one : holds (reader_holds (s_reader (run n0))) -> reader_sends n0 \/ reader_spills n0.
Proof.
  intros Hh. unfold reader_sends, reader_spills.
  destruct (s_reader (run n0)) as [|ev|ev|]; cbn [reader_holds] in Hh; try (by destruct holds_nil);
    apply holds_cons in Hh as [Hx|Hx]; try (by destruct holds_nil); [left|right]; (split; [lia|by exists ev]).
Qed.

Lemma replayer_holds_one :
  holds (replayer_holds (s_replayer (run n0))) -> in_batch n0 \/ replayer_spills n0.
Proof.
  intros Hh. unfold in_batch, replayer_spills.
  destruct (s_replayer (run n0)) as [| | |ev path bytes batch a b| |] eqn:E; cbn [replayer_holds batch_of] in *;
    try (by destruct holds_nil); try (by left; split; [lia|]).
  apply holds_cons in Hh as [Hx|Hx]; [right|by left; split; [lia|]].
  split; [lia|]. by exists ev, path, bytes, batch, a, b.
Qed.

(** An event not evaluated as often as it was accepted is evaluated once
    more. *)
Lemma owed_once_more :
  times n0 < tally e (restored ++ accepted (s_ledger (run n0))) -> exists m, n0 <= m /\ once_more m.
Proof.
  intros Howed. pose proof (i_balanced _ _ _ _ (Hinv n0) e) as Hb. cbn zeta in Hb.
  rewrite (so_lost _ (Hsound n0)), (so_dropped _ (Hsound n0)) in Hb. cbn [tally] in Hb. unfold times in Howed.
  assert (holds (queue (s_pipe (run n0))) \/ holds (reader_holds (s_reader (run n0))) \/
    holds (workers_hold (s_workers (run n0))) \/ holds (replayer_holds (s_replayer (run n0))) \/
    holds (pending (s_ledger (run n0)))) as Hwhere by (unfold holds; lia).
  pose proof pending_evaluated as Hp.
  destruct Hwhere as [Hq|[Hr%reader_holds_one|[Hw%workers_hold_one|[Hx%replayer_holds_one|Hq]]]].
  - by apply queue_answered; split.
  - destruct Hr as [Hr|Hsp]; [by apply reader_answered|].
    exact (leads_to_trans _ _ _ reader_spills_pend Hp n0 Hsp).
  - destruct Hw as (i & [Hw|Hsp]); [by apply (worker_evaluates_answered i)|].
    exact (leads_to_trans _ _ _ (worker_spills_pend i) Hp n0 Hsp).
  - destruct Hx as [Hx|Hsp]; [by apply batch_evaluated|].
    exact (leads_to_trans _ _ _ replayer_spills_pend Hp n0 Hsp).
  - by apply Hp; split.
Qed.

End event.

Lemma answered_later n m : n <= m -> answered_from n -> answered_from m.
Proof. intros Hle Ha k Hk. apply Ha. by transitivity m. Qed.

Lemma accepted_mono e n m :
  n <= m -> tally e (accepted (s_ledger (run n))) <= tally e (accepted (s_ledger (run m))).
Proof.
  clear -Hstep. intros Hle. induction Hle as [|m _ IH]; [done|]. destruct (step_accepted _ _ _ (Hstep m)) as [evs ->].
  rewrite tally_app. lia.
Qed.

Lemma evaluated_as_often e n :
  answered_from n -> exists m, n <= m /\
    tally e (restored ++ accepted (s_ledger (run n))) <= tally e (evaluated (s_ledger (run m))).
Proof.
  intros Ha. set (T := tally e (restored ++ accepted (s_ledger (run n)))).
  assert (forall d j, n <= j -> T <= tally e (evaluated (s_ledger (run j))) + d -> exists m, j <= m /\
    T <= tally e (evaluated (s_ledger (run m)))) as Hd; [|by apply (Hd T n); lia].
  induction d as [|d IH]; intros j Hle HT; [exists j; split; lia|].
  destruct (le_lt_dec T (tally e (evaluated (s_ledger (run j))))) as [|Hlt]; [exists j; split; lia|].
  destruct (owed_once_more e j (answered_later n j Hle Ha)) as (m & Hjm & Hm).
  { unfold times. pose proof (accepted_mono e n j Hle) as Hacc. subst T. rewrite tally_app in *. lia. }
  unfold once_more, times in Hm. destruct (IH m ltac:(lia) ltac:(lia)) as (k & ? & Hk).
  exists k. split; [lia|done].
Qed.

End liveness.

(** ** No thread is ever stuck *)

Section can_step.
Context `{EventCodec} (decode_verdict : list byte -> option hunter.Verdict).
Context (faults : nat -> fault) (allowed : Z -> bool).

Lemma evaluation_decided net ev s :
  exists r w, evaluation decode_verdict net ev s = (r, w) /\
    ((exists v, r = Ok v) \/ exists err, r = Err err).
Proof.
  eexists _, _. split; [reflexivity|].
  destruct (marshal ev) as [b|] eqn:Em.
  - destruct (Evaluate_decided decode_verdict net (HunterClient (cfg (s_pipe s))) ev (w_requests (s_world s)))
      as [j v _ _ _ _ -> _|j _ _ _ -> _|last _ -> _]; [congruence|left; eauto|right; eauto..].
  - unfold hunter.Evaluate. rewrite Em. right. eauto.
Qed.

Lemma rotate_decided ofile restored s :
  inv faults ofile restored s ->
  exists r a fs, rotate faults (overflow (s_pipe s)) (w_fs (s_world s)) = (r, a, fs) /\
    (r = Ok (replay_path (overflow (s_pipe s))) \/ exists err, r = Err err).
Proof.
  intros Hi. destruct (i_log _ _ _ _ Hi) as [Ha|[Hd _]].
  - destruct (rotate_alive faults _ _ _ Ha) as (r & a & fs & E & Ho). exists r, a, fs. split; [done|].
    destruct Ho; [by left|right; eauto].
  - destruct (rotate_dead faults _ (w_fs (s_world s)) Hd) as (err & a & E & _). eauto 10.
Qed.

Lemma replay_path_nonempty a : replay_path a <> [].
Proof. unfold replay_path. by destruct (al_path a). Qed.

Lemma reader_can_step boot s : reader_busy s -> exists s', reader_step faults boot s s'.
Proof.
  unfold reader_busy. destruct (s_reader s) as [|ev|ev|] eqn:Hr; try done; intros _.
  - destruct (Z_lt_le_dec (Z.of_nat (length (queue (s_pipe s)))) (QueueSize (cfg (s_pipe s))));
      eexists; [by eapply r_send|by eapply r_full].
  - destruct (spill faults ev (s_pipe s) (s_world s)) as [p w] eqn:E. eexists. by eapply r_spill.
Qed.

Lemma worker_can_step i s : worker_busy i s -> exists s', worker_step decode_verdict faults allowed i s s'.
Proof.
  unfold worker_busy. destruct (s_workers s !! i) as [k|] eqn:Hk; [|done]. destruct k as [|ev|ev|ev|]; try done.
  - destruct (queue (s_pipe s)) as [|ev q] eqn:Hq; [done|]. intros _. eexists. by eapply w_receive.
  - intros _. destruct (evaluation_decided net_down ev s) as (r & w & E & [[v ->]|[err ->]]).
    + destruct (decide (hunter.Action v = hunter.ActionKill)); eexists; [by eapply w_condemn|by eapply w_verdict].
    + eexists. by eapply w_error.
  - intros _. eexists. by apply (w_kill _ _ _ _ _ id).
  - intros _. destruct (spill faults ev (s_pipe s) (s_world s)) as [p w] eqn:E. eexists. by eapply w_spill.
Qed.

Lemma replayer_can_step ofile restored s :
  inv faults ofile restored s -> replayer_busy s -> exists s', replayer_step decode_verdict faults s s'.
Proof.
  intros Hi. unfold replayer_busy.
  destruct (s_replayer s) as [|path batch|path bytes batch a b|ev path bytes batch a b|path|] eqn:Hr; try done; intros _.
  - destruct (rotate_decided _ _ _ Hi) as (r & a & fs & E & [->|[err ->]]); eexists; [|by eapply p_failed].
    eapply p_rotated; [done|exact E|apply replay_path_nonempty].
  - destruct (OpenRead faults path (w_fs (s_world s))) as [r fs] eqn:E. destruct r as [bytes|err|];
      [eexists; by eapply p_open|eexists; by eapply p_unopened|].
    unfold OpenRead in E. destruct (outcome _ _); [destruct (contents _ _)|]; done.
  - destruct (next bytes) as [[ev rest]|] eqn:Hn; [|eexists; by eapply p_end].
    destruct (evaluation_decided net_down ev s) as (r & w & E & [[v ->]|[err ->]]).
    + eexists. by eapply p_replayed.
    + eexists. by eapply p_error.
  - destruct (spill faults ev (s_pipe s) (s_world s)) as [p w] eqn:E. eexists. by eapply p_spill.
  - eexists. by eapply p_remove.
Qed.

(** So fairness of the steps that serve a thread's work is enough for the
    thread to be fair. *)
Lemma reader_served boot run :
  weakly_fair run (serving reader_busy (reader_step faults boot)) -> fair run (reader_step faults boot) reader_busy.
Proof. intros Hf. apply (weakly_fair_fair run _ _ Hf). intros n Hb. by apply reader_can_step. Qed.

Lemma worker_served i run :
  weakly_fair run (serving (worker_busy i) (worker_step decode_verdict faults allowed i)) ->
  fair run (worker_step decode_verdict faults allowed i) (worker_busy i).
Proof. intros Hf. apply (weakly_fair_fair run _ _ Hf). intros n Hb. by apply worker_can_step. Qed.

Lemma replayer_served ofile restored run :
  (forall n, inv faults ofile restored (run n)) ->
  weakly_fair run (serving replayer_busy (replayer_step decode_verdict faults)) ->
  fair run (replayer_step decode_verdict faults) replayer_busy.
Proof. intros Hi Hf. apply (weakly_fair_fair run _ _ Hf). intros n Hb. by eapply replayer_can_step. Qed.

End can_step.
