(* ===== verification/Liveness.v ===== *)
(** * Every accepted event is eventually evaluated

    The liveness of the broker over its fair runs, the absence of deadlock,
    and a concrete run in which an event is spilled, rotated and replayed. *)
From Stdlib Require Import ZArith Lia.
From Stdlib Require Import Strings.Byte Strings.String.
From stdpp Require Import base list gmap.
From S2P Require Import VerdictJson.
From S2P Require Import Prelude GoStrings Events Wire Decoding Triage GoIO AppendLog.
From S2P Require Import AppendLogFacts EventJson Hunter HunterFacts Pipeline PipelineFacts.
From S2P Require Import Samples Broker BrokerFacts Temporal LivenessFacts.
Import pipeline broker temporal.
#[local] Existing Instance events.Event_eq_decision.

(** ** The broker's runs *)

Section broker_runs.
Context `{EventCodec} (decode_verdict : list byte -> option hunter.Verdict).
Context (faults : nat -> fault) (allowed : Z -> bool).

(** A run of the broker from [s0] on: never told to stop, no step that
    would serve a thread's work ignored while it can be taken, and from
    moment [n] on every evaluation answered. *)
Record fair_run (boot : Z) (s0 : state) (n : nat) (run : nat -> state) : Prop := {
  fr_start : run 0 = s0;
  fr_step m : step decode_verdict faults allowed boot (run m) (run (S m));
  fr_signal m : s_cancelled (run m) = false;
  fr_reader : weakly_fair run (serving reader_busy (reader_step faults boot));
  fr_workers i : i < length (s_workers s0) ->
    weakly_fair run (serving (worker_busy i) (worker_step decode_verdict faults allowed i));
  fr_replayer : weakly_fair run (serving replayer_busy (replayer_step decode_verdict faults));
  fr_answered : answered_from run n
}.

Lemma fair_run_reachable boot s0 n run m :
  fair_run boot s0 n run -> reachable decode_verdict faults allowed boot s0 (run m).
Proof.
  intros Hf. rewrite <- (fr_start _ _ _ _ Hf). apply run_reachable, Hf.
Qed.

Lemma fair_run_running boot s0 n run m :
  running s0 -> fair_run boot s0 n run -> running (run m).
Proof.
  intros Hr Hf. induction m as [|m IH]; [by rewrite (fr_start _ _ _ _ Hf)|].
  eapply step_running; [apply Hf|exact IH|apply Hf].
Qed.

Lemma initial_running p w restored : running (initial p w restored).
Proof. constructor; try done. unfold initial. cbn [s_workers]. by apply Forall_replicate. Qed.

(** C4: liveness of a broker that keeps running.  If the broker is never
    told to stop, no system call fails, the threads' steps are scheduled
    fairly, there is at least one worker and the hunter answers from some
    moment on, then every suspicious event restored from the overflow file
    or ever accepted is eventually evaluated, as often as it was accepted:
    through the queue, or through the overflow file and the replay loop. *)
Theorem accepted_events_evaluated boot c fs restored p fs' k ps n run :
  (forall raw ev, events.Decode boot raw = Ok ev -> marshalable ev) ->
  (forall i, faults i = Good) -> (0 < Workers (cfg p))%Z ->
  startable c fs restored -> New faults c fs = (Ok p, fs') ->
  fair_run boot (initial p (mkWorld fs' k ps) restored) n run ->
  forall e j, exists m, j <= m /\
    tally e (restored ++ accepted (s_ledger (run j))) <= tally e (evaluated (s_ledger (run m))).
Proof.
  intros Hdec Hwell Hw Hst Hnew Hf e j.
  assert (forall m, inv faults (OverflowPath c) restored (run m) /\ sound (run m)) as His.
  { intros m. eapply reachable_sound; try done. by eapply fair_run_reachable. }
  pose proof (fr_start _ _ _ _ Hf) as H0.
  assert (length (s_workers (run 0)) = Z.to_nat (Workers (cfg p))) as Hlen
    by (rewrite H0; apply length_replicate).
  destruct (evaluated_as_often decode_verdict faults allowed Hwell boot (OverflowPath c) restored run
    (fun m => proj1 (His m)) (fun m => proj2 (His m))
    (fun m => fair_run_running _ _ _ _ m (initial_running _ _ _) Hf) (fr_step _ _ _ _ Hf)
    (reader_served faults boot run (fr_reader _ _ _ _ Hf))) with (e := e) (n := Nat.max n j) as (m & Hm & Hle).
  - rewrite H0. intros i Hi. by apply worker_served, Hf.
  - eapply replayer_served; [intros m; apply His|apply Hf].
  - rewrite Hlen. lia.
  - apply (answered_later run n); [lia|apply Hf].
  - exists m. split; [lia|]. etrans; [|exact Hle]. rewrite !tally_app. apply Nat.add_le_mono_l.
    eapply accepted_mono; [apply Hf|lia].
Qed.

(** ** No deadlock *)

(** No deadlock.  In every reachable state, whatever has failed before,
    each thread that has work to do can take a step of its own: the reader
    never waits for the queue or the hunter, a worker holding an event is
    not blocked by the others, and neither is the replay loop. *)
Lemma busy_threads_can_step boot c fs restored p fs' k ps s :
  startable c fs restored -> New faults c fs = (Ok p, fs') ->
  reachable decode_verdict faults allowed boot (initial p (mkWorld fs' k ps) restored) s ->
  (reader_busy s -> exists s', reader_step faults boot s s') /\
  (forall i, worker_busy i s -> exists s', worker_step decode_verdict faults allowed i s s') /\
  (replayer_busy s -> exists s', replayer_step decode_verdict faults s s').
Proof.
  intros Hst Hnew Hr.
  split; [apply reader_can_step|split; [intros i; apply worker_can_step|]].
  eapply replayer_can_step. by eapply reachable_inv.
Qed.

End broker_runs.

(** ** A run *)

#[local] Existing Instance eventjson.utc_codec.

(** One suspicious event: its first evaluation fails, it is spilled,
    rotated, replayed, and the broker then idles for ever. *)
Definition failed_evaluation (s : state) : World :=
  (evaluation verdictjson.decode_verdict net_down accepted_event s).2.
Definition good_evaluation (ev : Event) (s : state) : World :=
  (evaluation verdictjson.decode_verdict net_up ev s).2.

Definition queued (s : state) : state :=
  with_reader RIdle (set_queue [accepted_event] (s_pipe s)) (s_world s) (s_ledger s) s.
Definition received (s : state) : state :=
  with_worker 0 (WEval accepted_event) (set_queue [] (s_pipe s)) (s_world s) (s_ledger s) s.
Definition unanswered (s : state) : state :=
  with_worker 0 (WSpill accepted_event) (count (add_hunter_errors 1) (s_pipe s)) (failed_evaluation s)
    (s_ledger s) s.
Definition spilled (s : state) : state :=
  let '(p, w) := spill all_good accepted_event (s_pipe s) (s_world s) in
  with_worker 0 WIdle p w (spilled_ledger all_good accepted_event (s_pipe s) (s_world s) (s_ledger s)) s.
Definition rotated (s : state) : state :=
  let '(_, a, fs) := rotate all_good (overflow (s_pipe s)) (w_fs (s_world s)) in
  with_replayer (POpen (replay_path (overflow (s_pipe s))) (pending (s_ledger s))) (set_overflow a (s_pipe s))
    (set_fs fs (s_world s)) (set_pending [] (s_ledger s)) s.
Definition opened (s : state) : state :=
  match s_replayer s, OpenRead all_good (replay_path (overflow (s_pipe s))) (w_fs (s_world s)) with
  | POpen path batch, (Ok bytes, fs) =>
      with_replayer (PDrain path bytes batch 0 0) (s_pipe s) (set_fs fs (s_world s)) (s_ledger s) s
  | _, _ => s
  end.
Definition replayed_once (s : state) : state :=
  match s_replayer s with
  | PDrain path bytes batch a b =>
      match next bytes with
      | Some (ev, rest) =>
          with_replayer (PDrain path rest (drop 1 batch) (a + 1) b) (s_pipe s) (good_evaluation ev s)
            (settle ev (s_ledger s)) s
      | None => s
      end
  | _ => s
  end.
Definition drained (s : state) : state :=
  match s_replayer s with
  | PDrain path _ batch a b =>
      with_replayer (PRemove path)
        (if (0 <? a + b)%Z then count (add_replays (wrapU 64 a)) (s_pipe s) else s_pipe s)
        (s_world s) (drop_all batch (s_ledger s)) s
  | _ => s
  end.
Definition removed (s : state) : state :=
  with_replayer PIdle (s_pipe s)
    (set_fs (Remove all_good (replay_path (overflow (s_pipe s))) (w_fs (s_world s))) (s_world s)) (s_ledger s) s.

Definition sample_initial : state := initial started started_world [].

Definition sample_run (n : nat) : state :=
  match n with
  | 0 => sample_initial
  | 1 => sample_state
  | 2 => queued sample_state
  | 3 => received (queued sample_state)
  | 4 => unanswered (received (queued sample_state))
  | 5 => spilled (unanswered (received (queued sample_state)))
  | 6 => rotated (spilled (unanswered (received (queued sample_state))))
  | 7 => opened (rotated (spilled (unanswered (received (queued sample_state)))))
  | 8 => replayed_once (opened (rotated (spilled (unanswered (received (queued sample_state))))))
  | 9 => drained (replayed_once (opened (rotated (spilled (unanswered (received (queued sample_state)))))))
  | _ => removed (drained (replayed_once (opened (rotated (spilled (unanswered (received (queued sample_state))))))))
  end.

#[local] Abbreviation sample_step :=
  (step verdictjson.decode_verdict all_good (fun _ => true) sample_boot).

Lemma queued_step s :
  s_reader s = RSend accepted_event -> queue (s_pipe s) = [] -> QueueSize (cfg (s_pipe s)) = 4096%Z ->
  sample_step s (queued s).
Proof.
  intros Hr Hq Hs. apply step_reader. unfold queued.
  change [accepted_event] with ([] ++ [accepted_event]). rewrite <- Hq at 1. apply r_send; [done|].
  rewrite Hs, Hq. done.
Qed.

Lemma received_step s :
  s_workers s !! 0 = Some WIdle -> queue (s_pipe s) = [accepted_event] -> sample_step s (received s).
Proof. intros Hw Hq. apply (step_worker _ _ _ _ _ 0). by apply w_receive. Qed.

Lemma unanswered_step s e :
  s_workers s !! 0 = Some (WEval accepted_event) ->
  (evaluation verdictjson.decode_verdict net_down accepted_event s).1 = Err e -> sample_step s (unanswered s).
Proof.
  intros Hw He. apply (step_worker _ _ _ _ _ 0). apply (w_error _ _ _ _ _ net_down _ e); [done|].
  rewrite <- He. unfold failed_evaluation. by destruct (evaluation _ _ _ _).
Qed.

Lemma spilled_step s : s_workers s !! 0 = Some (WSpill accepted_event) -> sample_step s (spilled s).
Proof.
  intros Hw. apply (step_worker _ _ _ _ _ 0). unfold spilled.
  destruct (spill _ _ _ _) as [p w] eqn:E. by apply w_spill.
Qed.

Lemma rotated_step s :
  s_replayer s = PIdle ->
  (rotate all_good (overflow (s_pipe s)) (w_fs (s_world s))).1.1 = Ok (replay_path (overflow (s_pipe s))) ->
  sample_step s (rotated s).
Proof.
  intros Hr Ho. apply step_replayer. unfold rotated.
  destruct (rotate all_good _ _) as [[r a] fs] eqn:E. cbn [fst] in Ho. subst r.
  by apply p_rotated; [| |apply replay_path_nonempty].
Qed.

Lemma opened_step s batch bytes :
  s_replayer s = POpen (replay_path (overflow (s_pipe s))) batch ->
  (OpenRead all_good (replay_path (overflow (s_pipe s))) (w_fs (s_world s))).1 = Ok bytes ->
  sample_step s (opened s).
Proof.
  intros Hr Ho. apply step_replayer. unfold opened. rewrite Hr.
  destruct (OpenRead all_good _ _) as [r fs] eqn:E. cbn [fst] in Ho. subst r. by apply p_open.
Qed.

Lemma replayed_step s path bytes batch a b ev rest v :
  s_replayer s = PDrain path bytes batch a b -> next bytes = Some (ev, rest) ->
  (evaluation verdictjson.decode_verdict net_up ev s).1 = Ok v -> sample_step s (replayed_once s).
Proof.
  intros Hr Hn Hv. apply step_replayer. unfold replayed_once, good_evaluation. rewrite Hr, Hn.
  apply (p_replayed _ _ _ _ bytes _ _ _ net_up _ _ v); [done|done|].
  rewrite <- Hv. by destruct (evaluation _ _ _ _).
Qed.

Lemma drained_step s path bytes batch a b :
  s_replayer s = PDrain path bytes batch a b -> next bytes = None -> sample_step s (drained s).
Proof. intros Hr Hn. apply step_replayer. unfold drained. rewrite Hr. by eapply p_end. Qed.

Lemma removed_step s :
  s_replayer s = PRemove (replay_path (overflow (s_pipe s))) -> sample_step s (removed s).
Proof. intros Hr. apply step_replayer. by apply p_remove. Qed.

Lemma same_step s : sample_step s s.
Proof. destruct s as [p [fs k ps] r ws rp c g]. exact (step_processes _ _ _ _ (mkState p (mkWorld fs k ps) r ws rp c g) ps). Qed.

Definition sample_verdict : hunter.Verdict :=
  default verdictjson.zero_verdict (verdictjson.decode_verdict kill_body).

Lemma sample_run_steps n : sample_step (sample_run n) (sample_run (S n)).
Proof.
  do 10 try destruct n as [|n]; cbn [sample_run].
  - apply step_reader. apply (r_suspicious all_good sample_boot _ (wire.to_bytes sample_record) accepted_event);
      [done|by vm_compute|by vm_compute|]. unfold after_audit. by destruct (audited _ _ _).
  - by apply queued_step; vm_compute.
  - by apply received_step; vm_compute.
  - apply (unanswered_step _ (hunter.ErrUnavailable 4 (Some hunter.ErrRequest))); by vm_compute.
  - apply spilled_step; by vm_compute.
  - by apply rotated_step; vm_compute.
  - by apply (opened_step _ [accepted_event] (lines [accepted_event])); vm_compute.
  - by apply (replayed_step _ (overflow_path ++ bs ".replay") (lines [accepted_event]) [accepted_event] 0 0
      accepted_event [newline] sample_verdict); vm_compute.
  - by apply (drained_step _ (overflow_path ++ bs ".replay") [newline] [] 1 0); vm_compute.
  - apply removed_step; by vm_compute.
  - apply same_step.
Qed.

Lemma sample_run_rest n : 10 <= n -> sample_run n = sample_run 10.
Proof. intros Hn. do 10 (destruct n as [|n]; [lia|]). done. Qed.

(** Something true of all its states, by looking at each. *)
Lemma sample_run_all (P : nat -> state -> Prop) :
  (forall n, n < 10 -> P n (sample_run n)) -> (forall n, 10 <= n -> P n (sample_run 10)) ->
  forall n, P n (sample_run n).
Proof.
  intros Hlt Hge n. destruct (le_lt_dec 10 n) as [Hn|Hn]; [|by apply Hlt].
  rewrite (sample_run_rest n Hn). by apply Hge.
Qed.

Ltac each_state n := do 10 (destruct n as [|n]; [try (by vm_compute)|]); lia.

(** From its fifth state on, no worker evaluates. *)
Lemma sample_workers_idle n : 5 <= n -> Forall (fun k => k = WIdle) (s_workers (sample_run n)).
Proof.
  revert n. apply (sample_run_all (fun n s => 5 <= n -> Forall (fun k => k = WIdle) (s_workers s))).
  - intros n Hn Hle. do 5 (destruct n as [|n]; [lia|]).
    do 5 (destruct n as [|n]; [vm_compute; by repeat constructor|]). lia.
  - intros n _ _. vm_compute. by repeat constructor.
Qed.

Definition spilling (r : replayer) : bool := match r with PSpill _ _ _ _ _ _ => true | _ => false end.

Lemma sample_never_spills n : spilling (s_replayer (sample_run n)) = false.
Proof.
  revert n. apply (sample_run_all (fun _ s => spilling (s_replayer s) = false)); [|by vm_compute].
  intros n Hn. each_state n.
Qed.

Lemma sample_never_cancelled n : s_cancelled (sample_run n) = false.
Proof.
  revert n. apply (sample_run_all (fun _ s => s_cancelled s = false)); [|by vm_compute].
  intros n Hn. each_state n.
Qed.

(** A thread that has nothing to do at the end is treated fairly. *)
Lemma sample_run_fair act busy : ~ busy (sample_run 10) -> weakly_fair sample_run (serving busy act).
Proof.
  intros Hb n. exists (Nat.max n 10). split; [lia|]. right. rewrite sample_run_rest by lia. by intros [s' [? _]].
Qed.

Lemma sample_fair_run :
  fair_run verdictjson.decode_verdict all_good (fun _ => true) sample_boot sample_initial 5 sample_run.
Proof.
  constructor.
  - done.
  - exact sample_run_steps.
  - exact sample_never_cancelled.
  - apply sample_run_fair. by vm_compute.
  - intros i _. apply sample_run_fair. unfold worker_busy.
    destruct (s_workers (sample_run 10) !! i) as [k|] eqn:Hk; [|by intros []].
    pose proof (sample_workers_idle 10 ltac:(lia)) as Hidle. eapply Forall_lookup_1 in Hidle; [|exact Hk].
    subst k. intros Hq. apply Hq. by vm_compute.
  - apply sample_run_fair. intros Hq. apply Hq. by vm_compute.
  - intros m Hm. split.
    + intros i ev ev' Hk. pose proof (sample_workers_idle m Hm) as Hidle.
      eapply Forall_lookup_1 in Hidle; [|exact Hk]. done.
    + intros path bytes batch a b ev path' bytes' batch' a' b' _ E.
      pose proof (sample_never_spills (S m)) as Hs. rewrite E in Hs. done.
Qed.

Lemma accepted_events_evaluated_witness :
  exists m, 10 <= m /\
    tally accepted_event ([] ++ accepted (s_ledger (sample_run 10))) <=
      tally accepted_event (evaluated (s_ledger (sample_run m))).
Proof.
  apply (accepted_events_evaluated verdictjson.decode_verdict all_good (fun _ => true) sample_boot sample_config
    empty_fs [] started started_fs 0 sample_procs 5 sample_run);
    [|done|by vm_compute|apply sample_startable|apply started_ok|apply sample_fair_run].
  intros raw ev. apply eventjson.decoded_marshalable; [done|unfold sample_boot; lia].
Defined.

(** The event is accepted once, and evaluated once. *)
Example sample_run_settles :
  accepted (s_ledger (sample_run 10)) = [accepted_event] /\
  evaluated (s_ledger (sample_run 10)) = [accepted_event].
Proof. by vm_compute. Qed.

Lemma busy_threads_can_step_witness :
  (reader_busy sample_state -> exists s', reader_step all_good sample_boot sample_state s') /\
  (forall i, worker_busy i sample_state ->
     exists s', worker_step verdictjson.decode_verdict all_good (fun _ => true) i sample_state s') /\
  (replayer_busy sample_state -> exists s', replayer_step verdictjson.decode_verdict all_good sample_state s').
Proof.
  apply (busy_threads_can_step verdictjson.decode_verdict all_good (fun _ => true) sample_boot sample_config
    empty_fs [] started started_fs 0 sample_procs sample_state);
    [apply sample_startable|apply started_ok|apply sample_state_reachable].
Defined.
