(* ===== verification/Stopping.v ===== *)
(** * The shutdown comes to its end ([main.go], [Pipeline.Close])

    After SIGINT or SIGTERM [Close] waits for every thread.  Each of them
    looks at the cancelled context only between two pieces of work, and
    there the [select] (or, for the reader, the closed ring buffer) decides
    between stopping and one more piece.  Whatever fails and whatever the
    hunter does, all of them stop. *)
From Stdlib Require Import ZArith Lia.
From Stdlib Require Import Strings.Byte Strings.String.
From stdpp Require Import base list gmap.
From S2P Require Import VerdictJson.
From S2P Require Import Prelude GoStrings Events Wire Decoding Triage GoIO AppendLog.
From S2P Require Import AppendLogFacts EventJson Hunter HunterFacts Pipeline PipelineFacts.
From S2P Require Import Samples Broker BrokerFacts Temporal LivenessFacts.
Import pipeline broker temporal.

Section stopping.
Context `{EventCodec} (decode_verdict : list byte -> option hunter.Verdict).
Context (faults : nat -> fault) (allowed : Z -> bool).

(** ** How far a thread is from its next choice *)

Definition reader_rank (r : reader) : nat :=
  match r with RSend _ => 2 | RSpill _ => 1 | RIdle | RDone => 0 end.

Definition worker_rank (k : option worker) : nat :=
  match k with Some (WEval _) => 2 | Some (WKill _) | Some (WSpill _) => 1 | _ => 0 end.

Lemma reader_rank_step boot s s' :
  reader_step faults boot s s' -> 0 < reader_rank (s_reader s) ->
  reader_rank (s_reader s') < reader_rank (s_reader s).
Proof. intros Hs. destruct Hs as [? ? Hr|? ? ? ? Hr|? ? ? ? Hr|? Hr|? ? Hr|? Hr|? ? ? Hr|Hr]; rewrite Hr; cbn; lia. Qed.

Lemma worker_rank_step i s s' :
  worker_step decode_verdict faults allowed i s s' -> 0 < worker_rank (s_workers s !! i) ->
  worker_rank (s_workers s' !! i) < worker_rank (s_workers s !! i).
Proof.
  intros Hs. destruct Hs as [? ? Hk|? ? ? ? Hk|? ? ? ? Hk|? ? Hk|? ? ? ? Hk|? ? ? Hk|Hk];
    pose proof (lookup_lt_Some _ _ _ Hk) as Hlt; rewrite Hk; cbn [with_worker s_workers];
    rewrite list_lookup_insert_eq by done; cbn; lia.
Qed.

Lemma replay_rank_step ofile restored s s' :
  inv faults ofile restored s -> replayer_step decode_verdict faults s s' ->
  0 < replay_rank (s_replayer s) -> replay_rank (s_replayer s') < replay_rank (s_replayer s).
Proof.
  intros Hi Hs. pose proof (i_replay _ _ _ _ Hi) as Hrep.
  destruct Hs as [? ? ? Hr|? ? Hr|? ? ? Hr|? ? ? ? Hr|? ? ? ? Hr|path bytes batch a b net ev rest v w Hr Hn|
    path bytes batch a b net ev rest err w Hr Hn|? ? ? ? ? ? ? ? Hr|? ? ? ? ? Hr|? Hr|Hr]; rewrite Hr in Hrep |- *;
    cbn [with_replayer s_replayer replay_rank]; try lia;
    destruct Hrep as (_ & Hst & Hm); destruct (next_batch _ _ _ _ Hm Hst Hn) as (x & batch' & -> & _);
    change (drop 1 (x :: batch')) with batch'; cbn [length]; lia.
Qed.

Lemma step_cancelled boot s s' :
  step decode_verdict faults allowed boot s s' -> s_cancelled s = true -> s_cancelled s' = true.
Proof. intros [s1 Hs|i s1 Hs|s1 Hs| |ps]; [destruct Hs|destruct Hs|destruct Hs| |]; done. Qed.

(** ** Runs in which the threads are scheduled *)

(** The steps with which the threads stop. *)
Definition reader_halts (boot : Z) (s s' : state) : Prop := reader_step faults boot s s' /\ s_reader s' = RDone.
Definition worker_halts (i : nat) (s s' : state) : Prop :=
  worker_step decode_verdict faults allowed i s s' /\ s_workers s' !! i = Some WDone.
Definition replayer_halts (s s' : state) : Prop :=
  replayer_step decode_verdict faults s s' /\ s_replayer s' = PDone.

(** No step that would serve a thread's work is ignored while it can be
    taken, and none that would stop it is ignored for ever when it can be
    taken again and again: [select] chooses among its ready cases at
    random. *)
Record scheduled_run (boot : Z) (s0 : state) (run : nat -> state) : Prop := {
  sr_start : run 0 = s0;
  sr_step m : step decode_verdict faults allowed boot (run m) (run (S m));
  sr_reader : weakly_fair run (serving reader_busy (reader_step faults boot));
  sr_workers i : i < length (s_workers s0) ->
    weakly_fair run (serving (worker_busy i) (worker_step decode_verdict faults allowed i));
  sr_replayer : weakly_fair run (serving replayer_busy (replayer_step decode_verdict faults));
  sr_reader_halts : strongly_fair run (reader_halts boot);
  sr_worker_halts i : i < length (s_workers s0) -> strongly_fair run (worker_halts i);
  sr_replayer_halts : strongly_fair run replayer_halts
}.

(** Where a thread's stopping step can be taken: at its choice, once the
    context is cancelled. *)
Lemma reader_can_halt boot s : s_cancelled s = true -> s_reader s = RIdle -> enabled (reader_halts boot) s.
Proof. intros Hc Hr. eexists. split; [by apply r_stop|done]. Qed.

Lemma worker_can_halt i s : s_cancelled s = true -> s_workers s !! i = Some WIdle -> enabled (worker_halts i) s.
Proof.
  intros Hc Hk. eexists. split; [by apply w_stop|]. cbn [with_worker s_workers].
  apply list_lookup_insert_eq. by eapply lookup_lt_Some.
Qed.

Lemma replayer_can_halt s : s_cancelled s = true -> s_replayer s = PIdle -> enabled replayer_halts s.
Proof. intros Hc Hr. eexists. split; [by apply p_stop|done]. Qed.

Section run.
Context (boot : Z) (s0 : state) (run : nat -> state) (Hrun : scheduled_run boot s0 run).
Context (ofile : gostring) (restored : list Event) (Hinv : forall m, inv faults ofile restored (run m)).

Lemma cancelled_from n m : s_cancelled (run n) = true -> n <= m -> s_cancelled (run m) = true.
Proof. intros Hc Hle. induction Hle as [|m _ IH]; [done|]. eapply step_cancelled; [apply Hrun|done]. Qed.

Lemma run_workers m : length (s_workers (run m)) = length (s_workers s0).
Proof.
  rewrite <- (sr_start _ _ _ Hrun). eapply workers_same. apply Hrun.
Qed.

(** Each thread comes back to its choice. *)
Lemma reader_comes_back n : exists m, n <= m /\ (s_reader (run m) = RIdle \/ s_reader (run m) = RDone).
Proof.
  destruct (comes_back run _ _ (fun s => reader_rank (s_reader s)) (reader_served _ _ _ (sr_reader _ _ _ Hrun))) with n as (m & Hle & Hm).
  - intros m Hm. unfold reader_busy. destruct (s_reader (run m)); cbn in Hm; try done; lia.
  - intros m _. destruct (step_reader_own _ _ _ _ _ _ (sr_step _ _ _ Hrun m)) as [Hs| ->]; [by left|by right].
  - intros m Hm Hs. by eapply reader_rank_step.
  - exists m. split; [done|]. destruct (s_reader (run m)); try done; auto.
Qed.

Lemma worker_comes_back i n : i < length (s_workers s0) ->
  exists m, n <= m /\ (s_workers (run m) !! i = Some WIdle \/ s_workers (run m) !! i = Some WDone).
Proof.
  intros Hi.
  destruct (comes_back run _ _ (fun s => worker_rank (s_workers s !! i)) (worker_served _ _ _ _ _ (sr_workers _ _ _ Hrun i Hi))) with n
    as (m & Hle & Hm).
  - intros m Hm. unfold worker_busy. destruct (s_workers (run m) !! i) as [[]|]; cbn in Hm; try done; lia.
  - intros m Hm. destruct (step_workers _ _ _ _ _ _ i (sr_step _ _ _ Hrun m)) as [Hs|[-> |[_ E]]];
      [by left|by right|]. rewrite E in Hm. cbn in Hm. lia.
  - intros m Hm Hs. by apply worker_rank_step.
  - exists m. split; [done|]. rewrite <- (run_workers m) in Hi. apply lookup_lt_is_Some in Hi as [k Hk].
    rewrite Hk in Hm |- *. destruct k; try done; auto.
Qed.

Lemma replayer_comes_back n : exists m, n <= m /\ (s_replayer (run m) = PIdle \/ s_replayer (run m) = PDone).
Proof.
  destruct (comes_back run _ _ (fun s => replay_rank (s_replayer s)) (replayer_served _ _ _ _ _ Hinv (sr_replayer _ _ _ Hrun))) with n as (m & Hle & Hm).
  - intros m Hm. unfold replayer_busy. destruct (s_replayer (run m)); cbn in Hm; try done; lia.
  - intros m _. destruct (step_replayer_own _ _ _ _ _ _ (sr_step _ _ _ Hrun m)) as [Hs| ->]; [by left|by right].
  - intros m Hm Hs. by eapply replay_rank_step.
  - exists m. split; [done|]. destruct (s_replayer (run m)); try done; auto.
Qed.

(** ** Each thread stops, and stays stopped *)

Lemma halts (act : state -> state -> Prop) (halted waiting : state -> Prop) n :
  strongly_fair run act -> (forall s s', act s s' -> halted s') ->
  (forall s, s_cancelled s = true -> waiting s -> enabled act s) ->
  (forall k, exists m, k <= m /\ (waiting (run m) \/ halted (run m))) -> s_cancelled (run n) = true ->
  exists m, n <= m /\ halted (run m).
Proof.
  intros Hf Hh He Hw Hc. destruct (Hf n) as (m & Hle & [Ha|Hne]); [exists (S m); split; [lia|by eapply Hh]|].
  destruct (Hw m) as (k & Hk & [Hwait|Hhalt]); [|exists k; split; [lia|done]].
  destruct (Hne k Hk). apply He; [|done]. eapply (cancelled_from n); [done|lia].
Qed.

Lemma stays (P : state -> Prop) n m :
  (forall k, P (run k) -> P (run (S k))) -> P (run n) -> n <= m -> P (run m).
Proof. intros Hs Hn Hle. induction Hle as [|m _ IH]; auto. Qed.

Lemma reader_stays k : s_reader (run k) = RDone -> s_reader (run (S k)) = RDone.
Proof.
  intros Hr. destruct (step_reader_own _ _ _ _ _ _ (sr_step _ _ _ Hrun k)) as [Hs| ->]; [|done].
  destruct Hs; congruence.
Qed.

Lemma worker_stays_done i k : s_workers (run k) !! i = Some WDone -> s_workers (run (S k)) !! i = Some WDone.
Proof.
  intros Hr. destruct (step_workers _ _ _ _ _ _ i (sr_step _ _ _ Hrun k)) as [Hs|[-> |[_ E]]]; [|done|congruence].
  destruct Hs; congruence.
Qed.

Lemma replayer_stays k : s_replayer (run k) = PDone -> s_replayer (run (S k)) = PDone.
Proof.
  intros Hr. destruct (step_replayer_own _ _ _ _ _ _ (sr_step _ _ _ Hrun k)) as [Hs| ->]; [|done].
  destruct Hs; congruence.
Qed.

(** The workers, one after the other. *)
Lemma workers_stop n j :
  s_cancelled (run n) = true -> j <= length (s_workers s0) ->
  exists m, n <= m /\ forall i, i < j -> s_workers (run m) !! i = Some WDone.
Proof.
  intros Hc. induction j as [|j IH]; intros Hj; [exists n; split; [done|lia]|].
  destruct IH as (m & Hle & Hm); [lia|].
  destruct (halts _ _ _ m (sr_worker_halts _ _ _ Hrun j Hj) (fun s s' Ha => proj2 Ha) (worker_can_halt j)
    (fun k => worker_comes_back j k Hj)) as (m' & Hle' & Hm'); [by eapply cancelled_from|].
  exists m'. split; [lia|]. intros i Hi. destruct (decide (i = j)) as [->|]; [done|].
  apply (stays (fun s => s_workers s !! i = Some WDone) m m'); [apply worker_stays_done|apply Hm; lia|done].
Qed.

Lemma all_stop n : s_cancelled (run n) = true -> exists m, n <= m /\ forall k, m <= k -> stopped (run k).
Proof.
  intros Hc. destruct (workers_stop n _ Hc (le_n _)) as (m1 & H1 & Hw).
  destruct (halts _ _ _ n (sr_reader_halts _ _ _ Hrun) (fun s s' Ha => proj2 Ha) (reader_can_halt boot) reader_comes_back Hc) as (m2 & H2 & Hr).
  destruct (halts _ _ _ n (sr_replayer_halts _ _ _ Hrun) (fun s s' Ha => proj2 Ha) replayer_can_halt replayer_comes_back Hc) as (m3 & H3 & Hp).
  exists (Nat.max m1 (Nat.max m2 m3)). split; [lia|]. intros k Hk. split_and!.
  - apply (stays (fun s => s_reader s = RDone) m2); [apply reader_stays|done|lia].
  - apply Forall_lookup_2. intros i w Hi. pose proof (lookup_lt_Some _ _ _ Hi) as Hlt. rewrite run_workers in Hlt.
    assert (s_workers (run k) !! i = Some WDone) as E; [|congruence].
    apply (stays (fun s => s_workers s !! i = Some WDone) m1); [apply worker_stays_done|by apply Hw|lia].
  - apply (stays (fun s => s_replayer s = PDone) m3); [apply replayer_stays|done|lia].
Qed.

End run.

(** C20: a shutdown terminates.  Whatever calls fail and whatever the hunter
    does, if the scheduler ignores no step that serves a thread's work while
    it can be taken, and none of the threads' stopping steps for ever when
    it can be taken again and again, then the signal is followed by a moment
    from which on every thread has stopped: the reader, each of the workers
    and the replay loop, however full the queue and the overflow file are.
    That each thread comes back to a point at which it can stop, within the
    work it holds, is part of what is proved.  So [Close] returns. *)
Theorem shutdown_terminates boot c fs restored p fs' k ps run n :
  startable c fs restored -> New faults c fs = (Ok p, fs') ->
  scheduled_run boot (initial p (mkWorld fs' k ps) restored) run ->
  s_cancelled (run n) = true ->
  exists m, n <= m /\ forall j, m <= j -> stopped (run j).
Proof.
  intros Hst Hnew Hrun. apply (all_stop _ _ _ Hrun (OverflowPath c) restored). intros m.
  eapply reachable_inv; [exact Hst|exact Hnew|].
  rewrite <- (sr_start _ _ _ Hrun). apply run_reachable, Hrun.
Qed.

End stopping.

(** ** A shutdown *)

#[local] Existing Instance eventjson.utc_codec.

(** The signal comes at once; the reader, the replay loop and the eight
    workers stop one after the other. *)
Definition signalled (s : state) : state :=
  mkState (s_pipe s) (s_world s) (s_reader s) (s_workers s) (s_replayer s) true (s_ledger s).

Definition shutdown_step (n : nat) (s : state) : state :=
  match n with
  | 0 => signalled s
  | 1 => with_reader RDone (s_pipe s) (s_world s) (s_ledger s) s
  | 2 => with_replayer PDone (s_pipe s) (s_world s) (s_ledger s) s
  | S (S (S i)) => if i <? 8 then with_worker i WDone (s_pipe s) (s_world s) (s_ledger s) s else signalled s
  end.

Fixpoint shutdown_run (n : nat) : state :=
  match n with
  | 0 => initial started started_world []
  | S n => shutdown_step n (shutdown_run n)
  end.

Lemma shutdown_step_late n s : 11 <= n -> s_cancelled s = true -> shutdown_step n s = s.
Proof.
  intros Hn Hc. do 3 (destruct n as [|n]; [lia|]). cbn [shutdown_step].
  destruct (Nat.ltb_spec n 8); [lia|]. destruct s. cbn in Hc. by subst.
Qed.

Lemma shutdown_cancelled : s_cancelled (shutdown_run 11) = true.
Proof. by vm_compute. Qed.

Lemma shutdown_run_rest n : 11 <= n -> shutdown_run n = shutdown_run 11.
Proof.
  intros Hn. induction Hn as [|n Hn IH]; [done|].
  change (shutdown_run (S n)) with (shutdown_step n (shutdown_run n)). rewrite IH.
  apply shutdown_step_late; [done|exact shutdown_cancelled].
Qed.

(** The thread whose turn it is has not stopped before. *)
Definition turn_ok (n : nat) (s : state) : Prop :=
  match n with
  | 0 => True
  | 1 => s_reader s = RIdle /\ s_cancelled s = true
  | 2 => s_replayer s = PIdle /\ s_cancelled s = true
  | S (S (S i)) => 8 <= i \/ s_workers s !! i = Some WIdle /\ s_cancelled s = true
  end.

Lemma shutdown_step_ok n s :
  turn_ok n s -> step verdictjson.decode_verdict all_good (fun _ => true) sample_boot s (shutdown_step n s).
Proof.
  destruct n as [|[|[|i]]]; cbn [turn_ok shutdown_step].
  - intros _. apply step_signal.
  - intros [Hr Hc]. apply step_reader. by apply r_stop.
  - intros [Hr Hc]. apply step_replayer. by apply p_stop.
  - destruct (Nat.ltb_spec i 8); [|intros _; apply step_signal].
    intros [?|[Hk Hc]]; [lia|]. apply (step_worker _ _ _ _ _ i). by apply w_stop.
Qed.

Lemma shutdown_run_steps n :
  step verdictjson.decode_verdict all_good (fun _ => true) sample_boot (shutdown_run n) (shutdown_run (S n)).
Proof.
  apply (shutdown_step_ok n). destruct (le_lt_dec 11 n) as [Hn|Hn].
  { do 3 (destruct n as [|n]; [lia|]). left. lia. }
  destruct n as [|[|[|n]]]; [done|by split; vm_compute|by split; vm_compute|right].
  do 8 (destruct n as [|n]; [by split; vm_compute|]). lia.
Qed.

Lemma shutdown_run_fair act busy : ~ busy (shutdown_run 11) -> weakly_fair shutdown_run (serving busy act).
Proof.
  intros Hb n. exists (Nat.max n 11). split; [lia|]. right. rewrite shutdown_run_rest by lia. by intros [s' [? _]].
Qed.

Lemma shutdown_run_halts act : ~ enabled act (shutdown_run 11) -> strongly_fair shutdown_run act.
Proof.
  intros Hh n. exists (Nat.max n 11). split; [lia|]. right. intros k Hk. rewrite shutdown_run_rest by lia. exact Hh.
Qed.

Lemma shutdown_workers : s_workers (shutdown_run 11) = replicate 8 WDone.
Proof. by vm_compute. Qed.

Lemma shutdown_scheduled :
  scheduled_run verdictjson.decode_verdict all_good (fun _ => true) sample_boot (initial started started_world [])
    shutdown_run.
Proof.
  assert (length (s_workers (initial started started_world [])) = 8) as Hlen by by vm_compute.
  constructor.
  - done.
  - exact shutdown_run_steps.
  - apply shutdown_run_fair. by vm_compute.
  - intros i Hi. rewrite Hlen in Hi. apply shutdown_run_fair. unfold worker_busy.
    rewrite shutdown_workers, lookup_replicate_2 by done. by intros [].
  - apply shutdown_run_fair. intros Hb. apply Hb.
  - apply shutdown_run_halts. intros [s' [Hs _]].
    assert (s_reader (shutdown_run 11) = RDone) as Hr by by vm_compute. by destruct Hs; rewrite Hr in *.
  - intros i Hi. rewrite Hlen in Hi. apply shutdown_run_halts. intros [s' [Hs _]].
    assert (s_workers (shutdown_run 11) !! i = Some WDone) as Hk by by rewrite shutdown_workers, lookup_replicate_2.
    by destruct Hs; rewrite Hk in *.
  - apply shutdown_run_halts. intros [s' [Hs _]].
    assert (s_replayer (shutdown_run 11) = PDone) as Hp by by vm_compute. by destruct Hs; rewrite Hp in *.
Qed.

Lemma shutdown_terminates_witness :
  exists m, 1 <= m /\ forall j, m <= j -> stopped (shutdown_run j).
Proof.
  apply (shutdown_terminates verdictjson.decode_verdict all_good (fun _ => true) sample_boot sample_config
    empty_fs [] started started_fs 0 sample_procs shutdown_run 1);
    [apply sample_startable|apply started_ok|apply shutdown_scheduled|by vm_compute].
Defined.
